(* ===== verification/_CoqProject ===== *)
-Q . S2P
Prelude.v
Inet.v
SrCommon.v
WorkQueue.v
Mem.v
Memp.v
TcpTypes.v
TcpOutput.v
TcpInput.v
TcpNet.v
Tcp.v
TcpProcess.v
TcpRun.v
TcpInv.v
TcpCalls.v
Udp.v
Icmp.v
SysArch.v
Mbox.v
Sys.v
Alloc.v
Pbuf.v
PbufInv.v
PbufCalls.v
SocketHelper.v
CliClient.v
CliPing.v
Netbuf.v
Netconn.v
NetconnSafe.v
NetconnWrite.v
NetconnFaults.v
Sockets.v
Router.v
Nf10.v
Nf10Ring.v
Nf10System.v
