(* ===== verification/Prelude.v ===== *)
(** * The TCP stack, the support code and the NIC driver of the software router

    The repository holds a software router for NetFPGA boards: the router
    process under [src/SW_stub/] (interfaces, work queue, command line), lwIP,
    the TCP/IP stack it uses for its own connections, under
    [src/SW_stub/lwtcp/], and the board's hardware and drivers under
    [src/HW_stub/].  This library models the C code of the first two, and of the
    third the Linux driver of the reference NIC.

    A packet that arrives is queued by the router ([Router], [WorkQueue]), whose
    handler is a stub in this version.  The stack's packets go from [TcpProcess] (or
    [Udp], [Icmp]) to control blocks; applications reach these through messages to a
    transport thread ([Netconn], [Sockets]) over the mailboxes of [SysArch].  The command
    line ([CliClient]) is such an application; it reads lines with [SocketHelper].  The
    driver ([Nf10]) runs in the host's kernel and shares nothing with the rest.

    ** Parts and files

    Every file requires this one, which has the machine integers, the byte
    order functions, the monad of outcomes and the tactics.

    - [Inet] models [lwtcp/inet.c], the Internet checksum, on lists of bytes and
      chains of buffers.
    - [SrCommon] models [sr_common.c]: times, hardware addresses and the texts
      of addresses.
    - [WorkQueue] models [sr_work_queue.c]: a heap of list items, and a step
      relation [wq_step] whose steps are the critical sections of the threads.
    - [Mem] models [lwtcp/mem.c]: the heap as a map from offsets to headers,
      with first-fit allocation and merging.
    - [Memp] models [lwtcp/memp.c]: ten free lists threaded through one array.
    - [TcpTypes] has the data of [lwip/tcp.h]; a control block [tcp_pcb] has all
      the fields of the C structure, and queues are lists of segments.  [env] is
      what TCP functions act on outside a block: the results of the allocations
      to come, the packets sent so far, the clock and the initial sequence
      number.
    - [TcpOutput] models [tcp_output.c] and [TcpInput] the receive path of
      [tcp_input.c] ([tcp_receive], [tcp_parseopt]), each on one block.
    - [TcpNet] adds the state shared by the blocks, [net]: the blocks by
      address, the lists of active, waiting and listening blocks, and the monad
      [M] of functions on it.  The callbacks of the application are a class,
      [Application], whose methods may call every function of the stack.
    - [Tcp] models [tcp.c] (and [tcp_rst]); [TcpProcess] the state machine and the
      demultiplexing of [tcp_input.c], on the bytes of IP packets.
    - [TcpRun] runs two instances of the stack against each other.
    - [TcpInv] has the axioms of [lwip/tcp.h] on the three lists of blocks and
      their preservation by every function; [TcpCalls] the guarantees of single
      calls: demultiplexing, ports, binding, retransmission.
    - [Udp] models [udp.c] and [Icmp] models [icmp.c], on the bytes of packets.
    - [SysArch] models [sys_arch.c]: semaphores, waiting with a bound, mailboxes
      and the list of threads.  [Mbox] proves what mailboxes guarantee for a step
      relation of several threads, and [Sys] models [sys.c], the waits that call
      the handlers of timeouts.
    - [Alloc] is the interface between the allocators and their clients, a class
      with laws, of which the heap of [Mem] and a pool of [Memp] are instances.
      [Pbuf] models [pbuf.c] over that interface: structures in a store, linked
      by addresses.  [PbufInv] has the invariant and what every operation does to
      it, [PbufCalls] the clients and the properties of single calls.
    - [Netbuf] models the buffers of [api_lib.c], and [Netconn] its connections with
      [api_msg.c] and [transport_subsys.c]: functions of application threads are
      programs of atomic steps on a shared state, functions of the transport thread
      and the callbacks of the protocols are single steps, and the protocols are the
      class [Transport].  [NetconnSafe] has the invariant of the requests, [NetconnWrite]
      that of [netconn_write], [NetconnFaults] the runs that go wrong.  [Sockets]
      models [sockets.c] on top.
    - [SocketHelper] models [cli/search_state.c], [cli/socket_helper.c] and
      [real_socket_helper.c]; [CliClient] the thread of a client of the command
      line ([cli/cli_main.c], the code around the parser in [cli/cli_parser.y], the
      writing functions of [cli/cli.c]); [CliPing] [cli/cli_ping.c], a doubly linked
      list of requests and its threads.
    - [Router] models the table of interfaces, its file and the texts of its entries
      ([sr_router.c], [sr_interface.c], [sr_integration.c], [sr_mininet_extension.c]).
    - [Nf10] models the NIC driver ([nf10priv.c], [nf10iface.c], [nf10driver.c],
      [nf10fops.c]), with the card as a step of its own.  [Nf10Ring] has the invariant
      of one ring, [Nf10System] the guarantees of the driver among its callers.

    An outcome is [Ret], [Blocked] (the thread waits for ever) or [Undef] (an
    access to memory that holds no such object, a loop that does not end or an
    [abort]).  A theorem that concludes with [Ret] therefore excludes undefined
    behaviour.  Integers are [Z] with the wrap-around of every narrower store
    written out ([u8], [u16], [u32], [s32]).  The targets are 32-bit little-endian
    hosts, and the configuration is that of [lwip/lwipopts.h], with debugging
    output switched off.

    ** What is proved

    - The checksum is that of RFC 1071, does not depend on how a packet is split
      into buffers, and verifies at the receiver.
    - The heap and the pools hand out disjoint aligned regions under every
      sequence of calls; the work queue is a queue that does every job once and
      loses no wake-up.
    - TCP sending: [tcp_write] appends the bytes to the queues or changes
      nothing; [tcp_output] sends what the window allows, in order, and every
      packet verifies; an acknowledgement releases exactly what it covers.
    - TCP receiving: whatever segments of a stream arrive, in whatever order, the
      application gets a prefix of the stream; a packet that one host sends is
      read by the other with the same header and data; connections are set up,
      carry data, survive a loss and are closed; the lists of control blocks stay
      disjoint and every block is on the list of its state.
    - Packet buffers: for every client that follows the rules of [pbuf.h] the
      buffers of the pool are conserved, no two structures share memory, the
      lengths of chains are right and no call gets stuck; truncating, joining and
      taking apart change exactly the bytes they should.
    - Threads: a mailbox delivers in order and loses no wake-up, and timeouts
      are called at their times, in order; UDP datagrams reach the right receiver.
    - Socket interface: in every interleaving the requests of application threads
      (to bind, connect UDP, listen, send and close) touch nothing that is not there
      and each gets its own answer; [netconn_write] hands TCP a prefix of the data,
      in order, and all of it when it reports success; successive reads of a socket
      return what was received, in order and once.
    - Command line: a text is found at its first occurrence however the stream
      arrives; a client that waits for its answers gets every line executed exactly
      once; the list of pings is an ordered list of requests.
    - Router: a file in the documented format gives exactly its interfaces.
    - NIC driver: in every order of the steps of threads, card and handler no freed
      packet is touched, packets are released in the order in which they were
      accepted, regions of the card's buffer in flight are disjoint, and the handler
      stops with nothing unseen.
    - Defects of the code are theorems too; the manifest lists them as findings.

    ** Bounds

    Loops that the code runs on a counter or a list are structural.  Where fuel
    is needed its bound is exact: [enqueue_fuel] is one more than the pbufs a
    queue may have, [parseopt_fuel] the number of values of the 8-bit index,
    [port_fuel] the number of ports, [tcp_rst] takes one round for every active
    connection, and a walk along a chain of buffers ([chain_fuel]) one step for
    every structure in the store; the pool of buffers has six, and its walk seven
    steps.  [sys_wait] needs more than the number of handler calls that are due
    before what it waits for comes ([calls]).  A search of a stream takes as many
    rounds as there are events and bytes, the handler of the NIC at most 10200 rounds
    ([work_handler_ends]), and reading the file of interfaces one more than its
    characters.  Running out of fuel is [Undef], never a result; the loops of
    [netconn_write] and [netconn_close], which may go round as often as TCP refuses,
    end in [spin], a program that runs on without doing anything.

    ** Not modelled

    Statistics counters of TCP, IP, UDP and ICMP and debugging output; the
    contents of freed memory (a freed control block is gone, and its use is
    [Undef]).  Buffers are modelled inside the TCP, UDP and ICMP files by their
    contents and their [tot_len]; the bytes behind the payload pointers of [Pbuf]
    are not kept.  Of the socket interface [tcpip.c] is left out, a second version
    of [transport_subsys.c] that is not built; so are [ipv4/ip.c] and [ipv4/icmp.c],
    left over from lwIP, whose place [sr_lwtcp_glue.c] takes.

    The parser of the command line and [reg_defines.h] are generated; most commands
    are empty or only print in this version, and lookups, forwarding and routing are
    stubs.  [sr_base.c] and [sr_main.c] call the parts in their order and have no state
    of their own.  [sr_dumper.c], [sr_cpu_extension_nf2.c] and [common/] are input and
    output: raw sockets, files, [ioctl].  Of the driver the registration with the
    kernel, the mapping of PCI regions and the error paths of its probe are left
    out, as they only call the kernel.  The embedded software and the flash tools are
    sequences of volatile accesses to hardware; the hardware itself is not C. *)

From stdpp Require Import base gmap list relations.
From Stdlib Require Import ZArith Lia.
#[global] Set Warnings "-notation-overridden,-ambiguous-paths".

#[global] Open Scope Z_scope.

(** ** Machine integers

    An unsigned [w]-bit object holds the residue modulo [2^w]; a signed one
    holds the representative in [-2^(w-1), 2^(w-1)).  Conversions are written
    out at every place where the C code stores into a narrower object. *)

Definition wrapu (w x : Z) : Z := x mod 2 ^ w.

Definition wraps (w x : Z) : Z :=
  let y := x mod 2 ^ w in if y <? 2 ^ (w - 1) then y else y - 2 ^ w.

Abbreviation u8 := (wrapu 8).
Abbreviation u16 := (wrapu 16).
Abbreviation u32 := (wrapu 32).
Abbreviation u64 := (wrapu 64).
Abbreviation s8 := (wraps 8).
Abbreviation s16 := (wraps 16).
Abbreviation s32 := (wraps 32).

(** C's truth value of an integer expression. *)
Definition truthy (x : Z) : bool := negb (x =? 0).

Lemma wrapu_range w x : 0 <= w -> 0 <= wrapu w x < 2 ^ w.
Proof. intros; apply Z.mod_pos_bound; apply Z.pow_pos_nonneg; lia. Qed.

Lemma wrapu_small w x : 0 <= x < 2 ^ w -> wrapu w x = x.
Proof. apply Z.mod_small. Qed.

Lemma u8_range x : 0 <= u8 x < 256.
Proof. apply (wrapu_range 8); lia. Qed.

Lemma u16_range x : 0 <= u16 x < 65536.
Proof. apply (wrapu_range 16); lia. Qed.

Lemma u32_range x : 0 <= u32 x < 4294967296.
Proof. apply (wrapu_range 32); lia. Qed.

Lemma u8_small x : 0 <= x < 256 -> u8 x = x.
Proof. apply Z.mod_small. Qed.

Lemma u16_small x : 0 <= x < 65536 -> u16 x = x.
Proof. apply Z.mod_small. Qed.

Lemma u32_small x : 0 <= x < 4294967296 -> u32 x = x.
Proof. apply Z.mod_small. Qed.

Lemma wrapu_unfold w x : wrapu w x = x mod 2 ^ w.
Proof. reflexivity. Qed.

Lemma wraps_range w x : 0 < w -> - 2 ^ (w - 1) <= wraps w x < 2 ^ (w - 1).
Proof.
  intros Hw. unfold wraps.
  assert (H2 : 2 ^ w = 2 * 2 ^ (w - 1)).
  { rewrite <- Z.pow_succ_r by lia. f_equal; lia. }
  assert (Hp : 0 < 2 ^ (w - 1)) by (apply Z.pow_pos_nonneg; lia).
  pose proof (Z.mod_pos_bound x (2 ^ w) ltac:(lia)) as Hm.
  destruct (Z.ltb_spec (x mod 2 ^ w) (2 ^ (w - 1))); lia.
Qed.

Lemma s32_small x : -2147483648 <= x < 2147483648 -> s32 x = x.
Proof.
  intros Hx. unfold wraps. change (2 ^ 32) with 4294967296.
  change (2 ^ (32 - 1)) with 2147483648.
  destruct (Z.ltb_spec (x mod 4294967296) 2147483648); Z.div_mod_to_equations; lia.
Qed.

(** ** Byte order

    The targets of the Makefile are little-endian hosts, where the network
    byte order functions of the C library swap the bytes of their argument. *)

Definition htons (n : Z) : Z :=
  Z.lor (Z.shiftl (Z.land n 255) 8) (Z.shiftr (Z.land n 65280) 8).
Abbreviation ntohs := htons.

Definition htonl (n : Z) : Z :=
  Z.lor (Z.lor (Z.shiftl (Z.land n 255) 24) (Z.shiftl (Z.land n 65280) 8))
        (Z.lor (Z.shiftr (Z.land n 16711680) 8) (Z.shiftr (Z.land n 4278190080) 24)).
Abbreviation ntohl := htonl.

(** Bitwise operations met in the sources, as arithmetic. *)

Lemma land_ones_mod n w : 0 <= w -> Z.land n (2 ^ w - 1) = n mod 2 ^ w.
Proof. intros; rewrite <- Z.land_ones by lia; f_equal; rewrite Z.ones_equiv; lia. Qed.

Lemma land_255 n : Z.land n 255 = n mod 256.
Proof. apply (land_ones_mod n 8); lia. Qed.

Lemma land_65535 n : Z.land n 65535 = n mod 65536.
Proof. apply (land_ones_mod n 16); lia. Qed.

Lemma shiftr_8 n : Z.shiftr n 8 = n / 256.
Proof. apply Z.shiftr_div_pow2; lia. Qed.

Lemma shiftr_16 n : Z.shiftr n 16 = n / 65536.
Proof. apply Z.shiftr_div_pow2; lia. Qed.

Lemma shiftl_8 n : Z.shiftl n 8 = n * 256.
Proof. apply Z.shiftl_mul_pow2; lia. Qed.

(** The bits of a [w]-bit value above its width. *)
Lemma testbit_above w n i : 0 <= n < 2 ^ w -> 0 <= w <= i -> Z.testbit n i = false.
Proof.
  intros Hn Hi. rewrite <- (Z.mod_small n (2 ^ w)) by lia.
  apply Z.mod_pow2_bits_high; lia.
Qed.

(** Two disjoint bit fields: the low [w] bits and a multiple of [2^w]. *)
Lemma lor_add_shift a b w :
  0 <= w -> 0 <= b < 2 ^ w -> Z.lor (a * 2 ^ w) b = a * 2 ^ w + b.
Proof.
  intros Hw Hb.
  assert (H0 : Z.land (a * 2 ^ w) b = 0).
  { apply Z.bits_inj'; intros i Hi. rewrite Z.land_spec, Z.bits_0.
    rewrite <- Z.shiftl_mul_pow2 by lia.
    destruct (Z.lt_ge_cases i w).
    - rewrite Z.shiftl_spec_low by lia; reflexivity.
    - rewrite (testbit_above w b i), andb_false_r by lia; reflexivity. }
  rewrite <- Z.lxor_lor by exact H0. symmetry; apply Z.add_nocarry_lxor; exact H0.
Qed.

(** The high byte of a 16-bit value, masked in place. *)
Lemma land_65280 n : 0 <= n < 65536 -> Z.land n 65280 = (n / 256) * 256.
Proof.
  intros Hn. apply Z.bits_inj'; intros i Hi.
  rewrite Z.land_spec. change (n / 256) with (n / 2 ^ 8).
  change 65280 with (255 * 2 ^ 8). change 256 with (2 ^ 8).
  rewrite <- !Z.shiftl_mul_pow2 by lia. rewrite <- Z.shiftr_div_pow2 by lia.
  rewrite !Z.shiftl_spec by lia.
  destruct (Z.lt_ge_cases i 8) as [Hlt|Hge].
  - rewrite !(Z.testbit_neg_r _ (i - 8)) by lia. apply andb_false_r.
  - rewrite Z.shiftr_spec by lia. replace (i - 8 + 8) with i by lia.
    change 255 with (Z.ones 8). rewrite Z.testbit_ones_nonneg by lia.
    destruct (Z.ltb_spec (i - 8) 8) as [H|H]; [apply andb_true_r|].
    rewrite andb_false_r. symmetry. apply (testbit_above 16); lia.
Qed.

(** The byte swap of a 16-bit value, in digits of base 256. *)
Lemma htons_digits n : 0 <= n < 65536 -> htons n = (n mod 256) * 256 + n / 256.
Proof.
  intros Hn. unfold htons.
  rewrite land_255, land_65280, shiftl_8, shiftr_8 by lia.
  rewrite Z.div_mul by lia.
  apply (lor_add_shift _ _ 8); [lia|]. Z.div_mod_to_equations; lia.
Qed.

Lemma htons_range n : 0 <= n < 65536 -> 0 <= htons n < 65536.
Proof. intros; rewrite htons_digits by lia. Z.div_mod_to_equations; lia. Qed.

Lemma htons_involutive n : 0 <= n < 65536 -> htons (htons n) = n.
Proof.
  intros Hn. rewrite (htons_digits (htons n)) by (apply htons_range; lia).
  rewrite htons_digits by lia. Z.div_mod_to_equations; lia.
Qed.

(** ** Transition sequences of a step relation *)

(** Rule induction: what every step preserves holds in every reachable state
    ([rtc] is the reflexive transitive closure of a step relation). *)
Lemma rtc_invariant {S : Type} (step : S -> S -> Prop) (I : S -> Prop) :
  (forall s t, step s t -> I s -> I t) ->
  forall s t, rtc step s t -> I s -> I t.
Proof. intros Hstep s t Hst. induction Hst; eauto. Qed.

(** ** Automation *)

Create HintDb lwtcp.
Create Rewrite HintDb wrap.
Create Rewrite HintDb bits.
#[export] Hint Resolve u8_range u16_range u32_range htons_range : lwtcp.
#[export] Hint Rewrite u8_small u16_small u32_small using lia : wrap.
#[export] Hint Rewrite land_255 land_65535 shiftr_8 shiftr_16 shiftl_8 : bits.

(** Case analysis on every boolean integer comparison in sight. *)
Ltac case_bool :=
  match goal with
  | |- context [?a <? ?b] => destruct (Z.ltb_spec a b)
  | |- context [?a <=? ?b] => destruct (Z.leb_spec a b)
  | |- context [?a =? ?b] => destruct (Z.eqb_spec a b)
  | H : context [?a <? ?b] |- _ => destruct (Z.ltb_spec a b)
  | H : context [?a <=? ?b] |- _ => destruct (Z.leb_spec a b)
  | H : context [?a =? ?b] |- _ => destruct (Z.eqb_spec a b)
  end.

(** Arithmetic with divisions and remainders by constants. *)
Ltac divmod := Z.div_mod_to_equations; lia.

(** Removes the wrap-arounds that do not wrap, innermost first; the ranges of
    the operands must be among the hypotheses. *)
Ltac unwrap_step :=
  match goal with
  | |- context [wrapu ?w ?x] =>
      lazymatch x with
      | context [wrapu _ _] => fail
      | _ => let e := eval cbv in (2 ^ w) in
             replace (wrapu w x) with x by (symmetry; apply wrapu_small; change (2 ^ w) with e; lia)
      end
  end.
Ltac unwrap := repeat unwrap_step.

(** ** Outcomes of stateful code

    [Ret] is a normal return; [Blocked] is a thread that waits for ever unless
    another thread acts; [Undef] is an access to memory that holds no object of
    the type the code expects there, a loop that does not end or an [abort]. *)

Inductive outcome (A : Type) := Ret (a : A) | Blocked | Undef.
Arguments Ret {A} a.
Arguments Blocked {A}.
Arguments Undef {A}.

#[global] Instance outcome_ret : MRet outcome := fun A a => Ret a.
#[global] Instance outcome_bind : MBind outcome := fun A B f x =>
  match x with Ret a => f a | Blocked => Blocked | Undef => Undef end.

(** A load that must find an object. *)
Definition load {A} (x : option A) : outcome A :=
  match x with Some a => Ret a | None => Undef end.
