(* ===== verification/Inet.v ===== *)
(** The Internet checksum of [SW_stub/lwtcp/inet.c]: the summation loop over a
    region of memory, its folding, and the three entry points, one of them
    over a chain of buffers.  A region is the list of its bytes; a chain of
    pbufs is the list of the regions its payloads point at. *)

From S2P Require Import Prelude.
From stdpp Require Import base list.
From Stdlib Require Import ZArith Lia.

Local Open Scope Z_scope.

(** ** The code *)

(** The loop of [chksum]: 16-bit loads in host order while more than one byte
    is left, then the odd byte in the low half of a word. *)
Fixpoint chksum_loop (acc : Z) (data : list Z) : Z :=
  match data with
  | b0 :: b1 :: rest => chksum_loop (u32 (acc + (b0 + 256 * b1))) rest
  | [b] => u32 (acc + htons (u16 (Z.shiftl (Z.land b 255) 8)))
  | [] => acc
  end.

Definition chksum (data : list Z) : Z := chksum_loop 0 data.

(** [while(acc >> 16) acc = (acc & 0xffff) + (acc >> 16)]; [None] when the
    fuel is used up. *)
Fixpoint fold_acc (fuel : nat) (acc : Z) : option Z :=
  if truthy (Z.shiftr acc 16) then
    match fuel with
    | O => None
    | S k => fold_acc k (u32 (Z.land acc 65535 + Z.shiftr acc 16))
    end
  else Some acc.

(** Two rounds bring every 32-bit value below [2^16] (see [fold_acc_spec]). *)
Definition fold_fuel : nat := 2.

(** [((acc & 0xff) << 8) | ((acc & 0xff00) >> 8)] on a [uint32_t]. *)
Definition swap_acc (acc : Z) : Z :=
  Z.lor (u32 (Z.shiftl (Z.land acc 255) 8)) (Z.shiftr (Z.land acc 65280) 8).

(** One round of the loop of [inet_chksum_pseudo] over the chain. *)
Definition pseudo_round (st : Z * bool) (payload : list Z) : option (Z * bool) :=
  let '(acc, swapped) := st in
  acc ← fold_acc fold_fuel (u32 (acc + chksum payload));
  if negb (Z.of_nat (length payload) mod 2 =? 0)
  then Some (swap_acc acc, negb swapped)
  else Some (acc, swapped).

Fixpoint pseudo_loop (st : Z * bool) (chain : list (list Z)) : option (Z * bool) :=
  match chain with
  | [] => Some st
  | payload :: chain' => st ← pseudo_round st payload; pseudo_loop st chain'
  end.

Definition inet_chksum_pseudo (chain : list (list Z)) (src dest proto proto_len : Z)
  : option Z :=
  st ← pseudo_loop (0, false) chain;
  let '(acc, swapped) := st in
  let acc := if (swapped : bool) then swap_acc acc else acc in
  let acc := u32 (acc + Z.land src 65535) in
  let acc := u32 (acc + Z.land (Z.shiftr src 16) 65535) in
  let acc := u32 (acc + Z.land dest 65535) in
  let acc := u32 (acc + Z.land (Z.shiftr dest 16) 65535) in
  let acc := u32 (acc + htons (u16 proto)) in
  let acc := u32 (acc + htons proto_len) in
  acc ← fold_acc fold_fuel acc;
  Some (u16 (Z.lnot (Z.land acc 65535))).

Definition inet_chksum (data : list Z) : option Z :=
  acc ← fold_acc fold_fuel (chksum data);
  Some (u16 (Z.lnot (Z.land acc 65535))).

(** The swap inside the loop of [inet_chksum_pbuf] is written
    [(acc & 0xff << 8) | (acc & 0xff00 >> 8)]; the shifts bind tighter than
    the conjunctions, so the masks are [0xff << 8] and [0xff00 >> 8]. *)
Definition pbuf_swap_acc (acc : Z) : Z :=
  Z.lor (Z.land acc (Z.shiftl 255 8)) (Z.land acc (Z.shiftr 65280 8)).

Definition pbuf_round (st : Z * bool) (payload : list Z) : option (Z * bool) :=
  let '(acc, swapped) := st in
  acc ← fold_acc fold_fuel (u32 (acc + chksum payload));
  if negb (Z.of_nat (length payload) mod 2 =? 0)
  then Some (pbuf_swap_acc acc, negb swapped)
  else Some (acc, swapped).

Fixpoint pbuf_loop (st : Z * bool) (chain : list (list Z)) : option (Z * bool) :=
  match chain with
  | [] => Some st
  | payload :: chain' => st ← pbuf_round st payload; pbuf_loop st chain'
  end.

Definition inet_chksum_pbuf (chain : list (list Z)) : option Z :=
  st ← pbuf_loop (0, false) chain;
  let '(acc, swapped) := st in
  let acc := if (swapped : bool) then swap_acc acc else acc in
  Some (u16 (Z.lnot (Z.land acc 65535))).

(** ** The reference: one's complement sums (RFC 1071) *)

(** One's complement addition of 16-bit words: the carry comes back in. *)
Definition oc_add (a b : Z) : Z :=
  let s := a + b in if 65535 <? s then s - 65535 else s.

(** The 16-bit words of a region in host order, an odd byte padded by zero. *)
Fixpoint words (data : list Z) : list Z :=
  match data with
  | b0 :: b1 :: rest => (b0 + 256 * b1) :: words rest
  | [b] => [b]
  | [] => []
  end.

Definition oc_sum (ws : list Z) : Z := foldr oc_add 0 ws.

Definition rfc1071 (data : list Z) : Z := 65535 - oc_sum (words data).

(** The pseudo header's words, as the code lays them out. *)
Definition pseudo_words (src dest proto proto_len : Z) : list Z :=
  [src mod 65536; src / 65536; dest mod 65536; dest / 65536;
   htons proto; htons proto_len].

Definition rfc1071_pseudo (data : list Z) (src dest proto proto_len : Z) : Z :=
  65535 - oc_sum (words data ++ pseudo_words src dest proto proto_len).

Definition bytes (data : list Z) : Prop := Forall (fun b => 0 <= b < 256) data.

(** The region read as one little-endian number. *)
Fixpoint le (data : list Z) : Z :=
  match data with
  | [] => 0
  | b :: rest => b + 256 * le rest
  end.

(** The representative of [n] modulo 65535 that one's complement sums use:
    zero stands for the number zero only. *)
Definition canon (n : Z) : Z := if n =? 0 then 0 else (n - 1) mod 65535 + 1.

(** ** Sums modulo 65535 *)

Lemma canon_range n : 0 <= canon n <= 65535.
Proof. unfold canon; case_bool; divmod. Qed.

Lemma canon_idem n : 0 <= n <= 65535 -> canon n = n.
Proof. intros; unfold canon; case_bool; divmod. Qed.

(** Two naturals have the same representative as soon as they agree modulo
    65535 and are zero together. *)
Lemma canon_ext a b :
  0 <= a -> 0 <= b -> (a = 0 <-> b = 0) -> (exists k, a = b + 65535 * k) ->
  canon a = canon b.
Proof.
  intros Ha Hb H0 [k Hk]. unfold canon.
  repeat case_bool; try tauto; try lia.
  replace (a - 1) with (b - 1 + k * 65535) by lia.
  rewrite Z.mod_add by lia. reflexivity.
Qed.

(** The representative of [n] differs from [n] by a multiple of 65535. *)
Lemma canon_decomp n : 0 <= n ->
  exists k, n = canon n + 65535 * k /\ 0 <= k /\ (canon n = 0 <-> n = 0).
Proof.
  intros Hn. unfold canon. case_bool.
  - exists 0; lia.
  - exists ((n - 1) / 65535). divmod.
Qed.

Lemma canon_add_l a b : 0 <= a -> 0 <= b -> canon (canon a + b) = canon (a + b).
Proof.
  intros Ha Hb. pose proof (canon_range a).
  destruct (canon_decomp a Ha) as (k & Hk & Hk0 & Hz).
  apply canon_ext; try lia. exists (- k); lia.
Qed.

Lemma canon_mul a c : 0 <= a -> 0 < c -> canon (c * canon a) = canon (c * a).
Proof.
  intros Ha Hc. pose proof (canon_range a).
  destruct (canon_decomp a Ha) as (k & Hk & Hk0 & Hz).
  apply canon_ext; try nia. exists (- (c * k)); nia.
Qed.

Lemma oc_add_canon a b :
  0 <= a <= 65535 -> 0 <= b <= 65535 -> oc_add a b = canon (a + b).
Proof. intros; unfold oc_add, canon; repeat case_bool; divmod. Qed.

Definition zsum (ws : list Z) : Z := foldr Z.add 0 ws.

Lemma zsum_app a b : zsum (a ++ b) = zsum a + zsum b.
Proof. unfold zsum. induction a; simpl; lia. Qed.

Lemma oc_sum_canon ws :
  Forall (fun w => 0 <= w <= 65535) ws -> 0 <= zsum ws /\ oc_sum ws = canon (zsum ws).
Proof.
  unfold oc_sum, zsum. induction 1 as [|w ws Hw _ [H0 IH]]; simpl; [split; [lia|reflexivity]|].
  split; [lia|]. rewrite IH, oc_add_canon by (try apply canon_range; lia).
  rewrite (Z.add_comm w), canon_add_l by lia. f_equal; lia.
Qed.

(** Induction on a list two elements at a time, as the loops read memory. *)
Lemma list_pair_ind {A} (P : list A -> Prop) :
  P [] -> (forall a, P [a]) -> (forall a b l, P l -> P (a :: b :: l)) -> forall l, P l.
Proof.
  intros H0 H1 H2. fix IH 1. intros [|a [|b l]]; [exact H0|apply H1|].
  apply H2, IH.
Qed.

Lemma words_range data : bytes data -> Forall (fun w => 0 <= w <= 65535) (words data).
Proof.
  induction data as [|a|a b l IH] using list_pair_ind; intros H;
    repeat (apply Forall_cons in H; destruct H as [? H]); simpl; constructor; auto; lia.
Qed.

Lemma le_nonneg data : bytes data -> 0 <= le data.
Proof. induction 1; simpl; lia. Qed.

(** The words of a region add up to its little-endian number, modulo 65535. *)
Lemma words_le data : bytes data ->
  0 <= zsum (words data) /\ (zsum (words data) = 0 <-> le data = 0) /\
  exists k, le data = zsum (words data) + 65535 * k.
Proof.
  induction data as [|a|a b l IH] using list_pair_ind; intros H;
    repeat (apply Forall_cons in H; destruct H as [? H]); simpl.
  - repeat split; try lia. exists 0; lia.
  - repeat split; try lia. exists 0; lia.
  - destruct (IH H) as (Hp & Hz & k & Hk). pose proof (le_nonneg l H).
    unfold zsum in *; simpl. repeat split; try lia.
    exists (le l + k). lia.
Qed.

Lemma canon_words data : bytes data -> canon (zsum (words data)) = canon (le data).
Proof.
  intros H. destruct (words_le data H) as (H0 & Hz & k & Hk).
  pose proof (le_nonneg data H). apply canon_ext; try lia; try tauto.
  exists (- k); lia.
Qed.

Lemma bytes_app a b : bytes (a ++ b) <-> bytes a /\ bytes b.
Proof. apply Forall_app. Qed.

Lemma le_app a b : le (a ++ b) = le a + 256 ^ Z.of_nat (length a) * le b.
Proof.
  induction a as [|x a IH]; [simpl; lia|].
  cbn [length app le]. rewrite Nat2Z.inj_succ, Z.pow_succ_r by lia. lia.
Qed.

Lemma oc_sum_words data : bytes data -> oc_sum (words data) = canon (le data).
Proof.
  intros H. destruct (oc_sum_canon _ (words_range _ H)) as [_ E].
  rewrite E. apply canon_words, H.
Qed.

(** ** The loops *)

(** [chksum] adds the words without overflow as long as the length fits the
    16-bit length fields of the callers. *)
Lemma chksum_loop_words data acc :
  bytes data -> 0 <= acc -> acc + 65535 * Z.of_nat (length data) < 2 ^ 32 ->
  chksum_loop acc data = acc + zsum (words data).
Proof.
  revert acc. induction data as [|a|a b l IH] using list_pair_ind; intros acc H Ha Hlen;
    repeat (apply Forall_cons in H; destruct H as [? H]); cbn [length chksum_loop words] in *;
    change (2 ^ 32) with 4294967296 in *.
  - unfold zsum; simpl; lia.
  - rewrite land_255, shiftl_8, (Z.mod_small a), u16_small, htons_digits by lia.
    replace ((a * 256) mod 256) with 0 by (rewrite Z.mod_mul; lia).
    rewrite Z.div_mul, u32_small by lia. unfold zsum; simpl; lia.
  - rewrite u32_small by lia. rewrite IH by (auto; lia). unfold zsum; simpl; lia.
Qed.

Lemma chksum_words data :
  bytes data -> Z.of_nat (length data) < 65536 ->
  chksum data = zsum (words data) /\ 0 <= zsum (words data) < 2 ^ 32 - 65536.
Proof.
  intros H Hl.
  assert (Hb : 2 * zsum (words data) <= 65535 * (Z.of_nat (length data) + 1)).
  { clear Hl. induction data as [|a|a b l IH] using list_pair_ind; unfold zsum in *;
      repeat (apply Forall_cons in H; destruct H as [? H]); cbn [length words foldr]; try lia.
    specialize (IH H). lia. }
  destruct (words_le data H) as (H0 & _). split; [|lia].
  unfold chksum. rewrite chksum_loop_words by (auto; lia). lia.
Qed.

(** The folding loop stops after two rounds, and computes the representative. *)
Lemma fold_acc_spec acc : 0 <= acc < 2 ^ 32 -> fold_acc fold_fuel acc = Some (canon acc).
Proof.
  change (2 ^ 32) with 4294967296. intros H.
  assert (Hs : forall x, truthy (Z.shiftr x 16) = negb (x / 65536 =? 0))
    by (intros; unfold truthy; rewrite shiftr_16; reflexivity).
  unfold fold_fuel, fold_acc. rewrite !Hs. rewrite !land_65535, !shiftr_16.
  set (a1 := u32 (acc mod 65536 + acc / 65536)).
  assert (E1 : a1 = acc mod 65536 + acc / 65536) by (apply u32_small; divmod).
  set (a2 := u32 (a1 mod 65536 + a1 / 65536)).
  assert (E2 : a2 = a1 mod 65536 + a1 / 65536) by (apply u32_small; divmod).
  destruct (Z.eqb_spec (acc / 65536) 0) as [Z1|Z1]; simpl; [rewrite canon_idem by divmod; reflexivity|].
  destruct (Z.eqb_spec (a1 / 65536) 0) as [Z2|Z2]; simpl.
  - f_equal. rewrite <- (canon_idem a1) by divmod.
    apply canon_ext; try divmod. exists (- (acc / 65536)). divmod.
  - replace (a2 / 65536 =? 0) with true by (symmetry; apply Z.eqb_eq; divmod). simpl.
    f_equal. rewrite <- (canon_idem a2) by divmod.
    apply canon_ext; try divmod. exists (- (acc / 65536) - a1 / 65536). divmod.
Qed.

Lemma complement a : 0 <= a <= 65535 -> u16 (Z.lnot (Z.land a 65535)) = 65535 - a.
Proof.
  intros. rewrite land_65535, Z.mod_small by lia. unfold Z.lnot, wrapu.
  change (2 ^ 16) with 65536. divmod.
Qed.

(** Swapping the bytes multiplies by 256 modulo 65535. *)
Lemma swap_acc_canon a : 0 <= a <= 65535 -> swap_acc a = canon (256 * a).
Proof.
  intros Ha. unfold swap_acc.
  rewrite u32_small by (rewrite land_255, shiftl_8; divmod).
  change (Z.lor _ _) with (htons a). rewrite htons_digits by lia.
  rewrite <- (canon_idem (a mod 256 * 256 + a / 256)) by divmod.
  apply canon_ext; try divmod. exists (- (a / 256)). divmod.
Qed.

(** The mistaken masks of [inet_chksum_pbuf] leave a folded sum unchanged. *)
Lemma pbuf_swap_acc_id a : 0 <= a <= 65535 -> pbuf_swap_acc a = a.
Proof.
  intros Ha. unfold pbuf_swap_acc.
  change (Z.shiftl 255 8) with 65280. change (Z.shiftr 65280 8) with 255.
  rewrite land_65280, land_255 by lia.
  rewrite (lor_add_shift _ _ 8) by (try lia; divmod). change (2 ^ 8) with 256. divmod.
Qed.

(** A chain each of whose buffers has a 16-bit length. *)
Definition chain_ok (chain : list (list Z)) : Prop :=
  Forall (fun d => bytes d /\ Z.of_nat (length d) < 65536) chain.

Lemma chain_bytes chain : chain_ok chain -> bytes (concat chain).
Proof. induction 1 as [|d c [Hd _] _ IH]; simpl; [constructor|]. apply bytes_app; auto. Qed.

Lemma pow256_sq n : exists k, 256 ^ Z.of_nat n * 256 ^ Z.of_nat n = 1 + 65535 * k /\ 0 <= k.
Proof.
  induction n as [|n (k & Hk & H0)]; [exists 0; split; reflexivity || lia|].
  rewrite Nat2Z.inj_succ, Z.pow_succ_r by lia.
  exists (1 + 65536 * k). split; [nia|lia].
Qed.

Lemma odd_len n : negb (Z.of_nat n mod 2 =? 0) = Nat.odd n.
Proof.
  destruct (Nat.odd n) eqn:E.
  - apply Nat.odd_spec in E as [m ->]. destruct (Z.eqb_spec (Z.of_nat (2 * m + 1) mod 2) 0); [divmod|reflexivity].
  - apply negb_false_iff, Z.eqb_eq. rewrite <- Nat.negb_even in E.
    apply negb_false_iff, Nat.even_spec in E as [m ->]. divmod.
Qed.

(** The accumulator after the buffers [pre]: the number they hold, shifted
    left by as many bytes as were read, and the parity of that length. *)
Definition pseudo_inv (pre : list Z) (st : Z * bool) : Prop :=
  st = (canon (256 ^ Z.of_nat (length pre) * le pre), Nat.odd (length pre)).

(** One round of the loop, up to the conditional swap. *)
Lemma round_add pre d :
  bytes pre -> bytes d -> Z.of_nat (length d) < 65536 ->
  fold_acc fold_fuel (u32 (canon (256 ^ Z.of_nat (length pre) * le pre) + chksum d)) =
  Some (canon (256 ^ Z.of_nat (length pre) * le (pre ++ d))).
Proof.
  intros Hp Hd Hl. destruct (chksum_words d Hd Hl) as (-> & Hn).
  set (P := 256 ^ Z.of_nat (length pre)).
  assert (HP : 0 < P) by (apply Z.pow_pos_nonneg; lia).
  pose proof (le_nonneg _ Hp) as Hlp. pose proof (le_nonneg _ Hd) as Hld.
  pose proof (canon_range (P * le pre)) as Hc. change (2 ^ 32) with 4294967296 in Hn.
  rewrite u32_small, fold_acc_spec by (try (change (2 ^ 32) with 4294967296); lia).
  f_equal. rewrite canon_add_l by nia.
  rewrite (Z.add_comm (P * _)), <- canon_add_l, canon_words, canon_add_l by (auto; nia).
  rewrite le_app. fold P. destruct (pow256_sq (length pre)) as (k & Hk & Hk0). fold P in Hk.
  apply canon_ext; try nia. exists (- (k * le d)). nia.
Qed.

Lemma swap_shift n m : 0 <= m ->
  swap_acc (canon (256 ^ Z.of_nat n * m)) = canon (256 ^ Z.of_nat (S n) * m).
Proof.
  intros Hm. rewrite swap_acc_canon by apply canon_range.
  assert (0 < 256 ^ Z.of_nat n) by (apply Z.pow_pos_nonneg; lia).
  rewrite canon_mul by nia. rewrite Nat2Z.inj_succ, Z.pow_succ_r by lia.
  f_equal; lia.
Qed.

Lemma pow256_even n m : 0 <= m -> Nat.odd n = false ->
  canon (256 ^ Z.of_nat n * m) = canon m.
Proof.
  intros Hm Ho. rewrite <- Nat.negb_even in Ho.
  apply negb_false_iff, Nat.even_spec in Ho as [j ->].
  replace (Z.of_nat (2 * j)) with (Z.of_nat j + Z.of_nat j) by lia.
  rewrite Z.pow_add_r by lia. destruct (pow256_sq j) as (k & Hk & Hk0).
  rewrite Hk. apply canon_ext; try nia. exists (k * m). nia.
Qed.

Lemma canon_pow_parity n m x : 0 <= x -> Nat.odd n = Nat.odd m ->
  canon (256 ^ Z.of_nat n * x) = canon (256 ^ Z.of_nat m * x).
Proof.
  assert (Hs : forall k, 256 ^ Z.of_nat (S k) = 256 * 256 ^ Z.of_nat k)
    by (intros k; rewrite Nat2Z.inj_succ, Z.pow_succ_r by lia; reflexivity).
  intros Hx Hp. destruct (Nat.odd n) eqn:En.
  - destruct n as [|n]; [discriminate|]. destruct m as [|m]; [discriminate|].
    rewrite Nat.odd_succ in En. symmetry in Hp. rewrite Nat.odd_succ in Hp.
    rewrite !Hs, <- !Z.mul_assoc.
    rewrite <- (canon_mul (256 ^ Z.of_nat n * x)), <- (canon_mul (256 ^ Z.of_nat m * x))
      by (try apply Z.mul_nonneg_nonneg; try apply Z.pow_nonneg; lia).
    rewrite !pow256_even by (auto; rewrite <- Nat.negb_even, ?En, ?Hp; reflexivity).
    reflexivity.
  - rewrite !pow256_even by auto. reflexivity.
Qed.

Lemma pseudo_round_inv pre st d :
  bytes pre -> bytes d -> Z.of_nat (length d) < 65536 -> pseudo_inv pre st ->
  exists st', pseudo_round st d = Some st' /\ pseudo_inv (pre ++ d) st'.
Proof.
  intros Hp Hd Hl ->. unfold pseudo_round. rewrite round_add by auto. cbn.
  pose proof (le_nonneg (pre ++ d) (proj2 (bytes_app _ _) (conj Hp Hd))) as Hle.
  rewrite odd_len. unfold pseudo_inv. rewrite length_app, Nat.odd_add.
  destruct (Nat.odd (length d)) eqn:Eo; eexists; split; try reflexivity.
  - rewrite swap_shift by exact Hle. rewrite xorb_true_r. f_equal.
    apply canon_pow_parity; [exact Hle|].
    rewrite Nat.odd_add, Eo, xorb_true_r, Nat.odd_succ, Nat.negb_odd. reflexivity.
  - rewrite xorb_false_r. f_equal. apply canon_pow_parity; [exact Hle|].
    rewrite Nat.odd_add, Eo, xorb_false_r. reflexivity.
Qed.

Lemma pseudo_loop_inv chain pre st :
  chain_ok chain -> bytes pre -> pseudo_inv pre st ->
  exists st', pseudo_loop st chain = Some st' /\ pseudo_inv (pre ++ concat chain) st'.
Proof.
  intros Hc. revert pre st. induction Hc as [|d c [Hd Hl] _ IH]; intros pre st Hp Hi; cbn.
  - exists st. rewrite app_nil_r. auto.
  - destruct (pseudo_round_inv pre st d Hp Hd Hl Hi) as (st1 & -> & H1). cbn.
    rewrite app_assoc. apply IH; [apply bytes_app; auto|exact H1].
Qed.

(** The swap after the loop of both chain functions undoes an odd length. *)
Lemma final_swap pre st : bytes pre -> pseudo_inv pre st ->
  (if st.2 then swap_acc st.1 else st.1) = canon (le pre).
Proof.
  unfold pseudo_inv. intros Hp ->. cbn [fst snd]. pose proof (le_nonneg _ Hp).
  destruct (Nat.odd (length pre)) eqn:E; [|apply pow256_even; auto].
  rewrite swap_shift by auto. apply pow256_even; auto.
  rewrite Nat.odd_succ, <- Nat.negb_odd, E. reflexivity.
Qed.

(** The sum the receiver computes over [data] and a pseudo header. *)
Definition pseudo_sum (data : list Z) (src dest proto proto_len : Z) : Z :=
  canon (le data + zsum (pseudo_words src dest proto proto_len)).

Definition addr_ok (a : Z) : Prop := 0 <= a < 2 ^ 32.

Lemma pseudo_words_range src dest proto len :
  addr_ok src -> addr_ok dest -> 0 <= proto < 256 -> 0 <= len < 65536 ->
  Forall (fun w => 0 <= w <= 65535) (pseudo_words src dest proto len).
Proof.
  unfold addr_ok; change (2 ^ 32) with 4294967296. intros.
  pose proof (htons_range proto). pose proof (htons_range len).
  repeat constructor; divmod.
Qed.

(** The sum is taken with the 32-bit accumulator, which cannot overflow. *)
Lemma add_words_spec a w1 w2 w3 w4 w5 w6 :
  0 <= a <= 65535 -> Forall (fun w => 0 <= w <= 65535) [w1; w2; w3; w4; w5; w6] ->
  u32 (u32 (u32 (u32 (u32 (u32 (a + w1) + w2) + w3) + w4) + w5) + w6) = a + zsum [w1; w2; w3; w4; w5; w6]
  /\ 0 <= a + zsum [w1; w2; w3; w4; w5; w6] < 2 ^ 32.
Proof.
  intros Ha Hw. rewrite !Forall_cons in Hw. destruct Hw as (W1 & W2 & W3 & W4 & W5 & W6 & _).
  unwrap. unfold zsum. cbn [foldr]. change (2 ^ 32) with 4294967296. lia.
Qed.

Lemma inet_chksum_pseudo_sum chain src dest proto proto_len :
  chain_ok chain -> addr_ok src -> addr_ok dest ->
  0 <= proto < 256 -> 0 <= proto_len < 65536 ->
  inet_chksum_pseudo chain src dest proto proto_len =
  Some (65535 - pseudo_sum (concat chain) src dest proto proto_len).
Proof.
  intros Hc Hs Hd Hpr Hpl. unfold inet_chksum_pseudo.
  pose proof (chain_bytes _ Hc) as Hb.
  destruct (pseudo_loop_inv chain [] (0, false) Hc) as ([acc sw] & -> & Hi);
    [constructor|reflexivity|]. cbn [mbind option_bind].
  pose proof (final_swap _ _ Hb Hi) as Hf. cbn [fst snd app] in Hf. rewrite Hf.
  pose proof (pseudo_words_range src dest proto proto_len Hs Hd Hpr Hpl) as Hw.
  pose proof (le_nonneg _ Hb) as Hn. pose proof (canon_range (le (concat chain))) as Hr.
  rewrite !land_65535, !shiftr_16.
  unfold addr_ok in *. change (2 ^ 32) with 4294967296 in *.
  rewrite (Z.mod_small (src / 65536)), (Z.mod_small (dest / 65536)) by divmod.
  rewrite (u16_small proto) by lia. cbv zeta.
  destruct (add_words_spec _ _ _ _ _ _ _ Hr Hw) as [-> Hlt].
  rewrite (fold_acc_spec _ Hlt). fold (pseudo_words src dest proto proto_len) in *.
  rewrite canon_add_l; [|exact Hn|by apply oc_sum_canon].
  cbn [mbind option_bind]. rewrite complement by apply canon_range. reflexivity.
Qed.

Lemma inet_chksum_sum data :
  bytes data -> Z.of_nat (length data) < 65536 ->
  inet_chksum data = Some (65535 - canon (le data)).
Proof.
  intros H Hl. unfold inet_chksum. destruct (chksum_words data H Hl) as (-> & Hr).
  rewrite fold_acc_spec by lia. cbn [mbind option_bind].
  rewrite complement by apply canon_range. do 2 f_equal. apply canon_words, H.
Qed.

Lemma rfc1071_pseudo_sum data src dest proto proto_len :
  bytes data -> addr_ok src -> addr_ok dest -> 0 <= proto < 256 -> 0 <= proto_len < 65536 ->
  rfc1071_pseudo data src dest proto proto_len =
  65535 - pseudo_sum data src dest proto proto_len.
Proof.
  intros Hb Hs Hd Hp Hl. unfold rfc1071_pseudo, pseudo_sum. f_equal.
  pose proof (pseudo_words_range _ _ _ _ Hs Hd Hp Hl) as Hw.
  destruct (oc_sum_canon _ Hw) as [H0 _].
  destruct (oc_sum_canon (words data ++ pseudo_words src dest proto proto_len)) as [_ ->].
  { apply Forall_app; split; [apply words_range, Hb|exact Hw]. }
  rewrite zsum_app. destruct (words_le data Hb) as (Hn & _).
  rewrite <- canon_add_l, canon_words, canon_add_l by (auto using le_nonneg). reflexivity.
Qed.

(** A 16-bit field at an even offset of a region contributes its value times a
    power of 65536, that is, itself modulo 65535. *)
Lemma le_field pre c post :
  le (pre ++ [c mod 256; c / 256] ++ post) =
  le (pre ++ [0; 0] ++ post) + 256 ^ Z.of_nat (length pre) * c.
Proof.
  rewrite !le_app. cbn [le app length]. change (256 ^ Z.of_nat 2) with 65536. divmod.
Qed.

(** Adding the complement of the sum makes every one's complement sum the
    all-ones word. *)
Lemma complement_sum (pre : list Z) x S :
  Nat.odd (length pre) = false -> 0 <= x -> 0 <= S -> S = canon x ->
  canon (x + 256 ^ Z.of_nat (length pre) * (65535 - S)) = 65535.
Proof.
  intros Ho Hx HS ->. pose proof (canon_range x) as Hr.
  pose proof (Z.pow_pos_nonneg 256 (Z.of_nat (length pre)) ltac:(lia) ltac:(lia)) as HP.
  rewrite Z.add_comm, <- canon_add_l, pow256_even, canon_add_l by (auto; nia).
  transitivity (canon 65535); [|reflexivity].
  destruct (canon_decomp x Hx) as (k & Hk & Hk0 & Hz).
  apply canon_ext; [lia|lia|lia|exists k; lia].
Qed.

(** The pbuf loop keeps a running sum, with no effect of the swaps. *)
Lemma pbuf_round_sum acc sw d :
  0 <= acc <= 65535 -> bytes d -> Z.of_nat (length d) < 65536 ->
  pbuf_round (acc, sw) d =
  Some (canon (acc + le d), xorb sw (Nat.odd (length d))).
Proof.
  intros Ha Hd Hl. unfold pbuf_round. destruct (chksum_words d Hd Hl) as (-> & Hn).
  change (2 ^ 32) with 4294967296 in Hn.
  rewrite u32_small, fold_acc_spec by (try (change (2 ^ 32) with 4294967296); lia).
  cbn [mbind option_bind]. rewrite odd_len.
  assert (E : canon (acc + zsum (words d)) = canon (acc + le d)).
  { pose proof (le_nonneg _ Hd).
    rewrite Z.add_comm, <- canon_add_l, canon_words, canon_add_l by (auto; lia).
    f_equal; lia. }
  rewrite E. destruct (Nat.odd (length d)); cbn;
    rewrite ?xorb_true_r, ?xorb_false_r, ?pbuf_swap_acc_id by apply canon_range; reflexivity.
Qed.

(** A checksum stored in a zeroed field at an even offset verifies. *)
Lemma stored_checksum_verifies pre post rest src dest proto proto_len :
  chain_ok ((pre ++ [0; 0] ++ post) :: rest) -> Nat.odd (length pre) = false ->
  addr_ok src -> addr_ok dest -> 0 <= proto < 256 -> 0 <= proto_len < 65536 ->
  exists c,
    inet_chksum_pseudo ((pre ++ [0; 0] ++ post) :: rest) src dest proto proto_len = Some c /\
    inet_chksum_pseudo ((pre ++ [c mod 256; c / 256] ++ post) :: rest)
      src dest proto proto_len = Some 0.
Proof.
  intros Hc Ho Hs Hd Hp Hl. eexists; split; [apply inet_chksum_pseudo_sum; auto|].
  set (S := pseudo_sum _ _ _ _ _).
  assert (HS : 0 <= S <= 65535) by apply canon_range.
  pose proof (chain_bytes _ Hc) as Hb. cbn [concat] in Hb.
  rewrite <- !app_assoc in Hb. pose proof (le_nonneg _ Hb) as Hn.
  destruct (oc_sum_canon _ (pseudo_words_range _ _ _ _ Hs Hd Hp Hl)) as [Hz _].
  rewrite inet_chksum_pseudo_sum; auto.
  - f_equal. unfold pseudo_sum. cbn [concat]. rewrite <- !app_assoc, le_field.
    match goal with |- 65535 - canon ?e = 0 => enough (canon e = 65535) by lia end.
    etransitivity; [|apply (complement_sum pre (le (pre ++ [0; 0] ++ post ++ concat rest)
              + zsum (pseudo_words src dest proto proto_len)) S Ho); try lia].
    + f_equal. lia.
    + subst S. unfold pseudo_sum. cbn [concat]. rewrite <- !app_assoc. reflexivity.
  - apply Forall_cons in Hc as [[Hx Hlen] Hr]. constructor; [|exact Hr].
    rewrite !bytes_app in Hx. rewrite !length_app in *. split; [|exact Hlen].
    rewrite !bytes_app. intuition. repeat constructor; divmod.
Qed.

(** ** Properties *)

(** C15: [inet_chksum] is the checksum of RFC 1071: for any region of bytes
    whose length fits the 16-bit parameter, the two loops terminate and return
    the complement of the one's complement sum of the region's 16-bit words,
    an odd last byte padded with zero. *)
Theorem inet_chksum_rfc1071 data :
  bytes data -> Z.of_nat (length data) < 65536 -> inet_chksum data = Some (rfc1071 data).
Proof.
  intros H Hl. rewrite inet_chksum_sum by auto. unfold rfc1071.
  rewrite oc_sum_words by auto. reflexivity.
Qed.

Lemma inet_chksum_rfc1071_witness :
  inet_chksum [69; 0; 0; 28; 255] = Some (rfc1071 [69; 0; 0; 28; 255]).
Proof.
  apply (inet_chksum_rfc1071 [69; 0; 0; 28; 255]);
    [repeat constructor; lia | simpl; lia].
Defined.

(** C16: [inet_chksum_pseudo] over a chain of buffers of any lengths, even or
    odd, is the checksum of the concatenation of the buffers followed by the
    pseudo header: the swaps put every byte back in its column. *)
Theorem inet_chksum_pseudo_concat chain src dest proto proto_len :
  chain_ok chain -> addr_ok src -> addr_ok dest ->
  0 <= proto < 256 -> 0 <= proto_len < 65536 ->
  inet_chksum_pseudo chain src dest proto proto_len =
  Some (rfc1071_pseudo (concat chain) src dest proto proto_len).
Proof.
  intros Hc Hs Hd Hp Hl. rewrite inet_chksum_pseudo_sum by auto.
  rewrite rfc1071_pseudo_sum by auto using chain_bytes. reflexivity.
Qed.

Lemma inet_chksum_pseudo_concat_witness :
  inet_chksum_pseudo [[1; 2; 3]; [4]; [5; 6; 7; 8; 9]] 167772161 167772162 6 9 =
  Some (rfc1071_pseudo [1; 2; 3; 4; 5; 6; 7; 8; 9] 167772161 167772162 6 9).
Proof.
  apply (inet_chksum_pseudo_concat [[1; 2; 3]; [4]; [5; 6; 7; 8; 9]]);
    unfold addr_ok, chain_ok, bytes; repeat constructor; simpl; lia.
Defined.

(** what TCP and UDP rely on.  A sender that stores the value returned for
    a chain whose checksum field (at an even offset of the first buffer) is
    zero gives a chain for which the receiver's [inet_chksum_pseudo] is zero. *)
Theorem inet_chksum_pseudo_verifies pre post rest src dest proto proto_len :
  chain_ok ((pre ++ [0; 0] ++ post) :: rest) -> Nat.odd (length pre) = false ->
  addr_ok src -> addr_ok dest -> 0 <= proto < 256 -> 0 <= proto_len < 65536 ->
  exists c,
    inet_chksum_pseudo ((pre ++ [0; 0] ++ post) :: rest) src dest proto proto_len = Some c /\
    inet_chksum_pseudo ((pre ++ [c mod 256; c / 256] ++ post) :: rest)
      src dest proto proto_len = Some 0.
Proof. apply stored_checksum_verifies. Qed.

Lemma inet_chksum_pseudo_verifies_witness :
  exists c,
    inet_chksum_pseudo ([1; 2; 0; 0; 5] :: [[7; 8]]) 167772161 167772162 17 7 = Some c /\
    inet_chksum_pseudo ([1; 2; c mod 256; c / 256; 5] :: [[7; 8]]) 167772161 167772162 17 7
    = Some 0.
Proof.
  apply (inet_chksum_pseudo_verifies [1; 2] [5] [[7; 8]] 167772161 167772162 17 7);
    unfold addr_ok, chain_ok, bytes; repeat constructor; simpl; lia.
Defined.

(** [inet_chksum_pbuf] is not the checksum of its buffer when the length is
    odd: its masks are mis-parenthesised, so the swap in the loop does nothing
    and the swap after the loop exchanges the bytes of the sum. *)
Theorem inet_chksum_pbuf_odd data :
  bytes data -> Z.of_nat (length data) < 65536 -> Nat.odd (length data) = true ->
  inet_chksum_pbuf [data] = Some (65535 - htons (oc_sum (words data))).
Proof.
  intros H Hl Ho. unfold inet_chksum_pbuf. cbn [pbuf_loop].
  rewrite pbuf_round_sum by (auto; lia). cbn [mbind option_bind]. rewrite Ho. cbn [xorb].
  pose proof (canon_range (le data)) as Hr. rewrite Z.add_0_l.
  rewrite swap_acc_canon by lia. rewrite complement by apply canon_range.
  rewrite <- swap_acc_canon, oc_sum_words by auto. unfold swap_acc.
  rewrite u32_small by (rewrite land_255, shiftl_8; divmod). reflexivity.
Qed.

Lemma inet_chksum_pbuf_odd_witness :
  inet_chksum_pbuf [[1; 2; 3]] = Some (65535 - htons (oc_sum (words [1; 2; 3]))) /\
  inet_chksum_pbuf [[1; 2; 3]] <> Some (rfc1071 [1; 2; 3]).
Proof.
  split; [|vm_compute; discriminate].
  apply (inet_chksum_pbuf_odd [1; 2; 3]); [repeat constructor; lia|simpl; lia|reflexivity].
Defined.
