(* ===== verification/SrCommon.v ===== *)
(** The common helpers of the router program, [SW_stub/sr_common.c]: times,
    addresses, their texts and the population count.  The functions of the C
    library they end in ([inet_aton], [ctime], [vsnprintf], [malloc]) are
    arguments of the definitions. *)

From S2P Require Import Prelude.
From stdpp Require Import base list strings.
From Stdlib Require Import ZArith Lia Ascii String.

Local Open Scope Z_scope.

(** ** Times

    [tv_sec] and [tv_usec] are [long]s, whose width [wl] is the target's; a
    signed overflow has no value. *)

Record timeval := Timeval { tv_sec : Z; tv_usec : Z }.

(** A signed result of [wl] bits, if it is representable. *)
Definition as_long (wl x : Z) : option Z :=
  if (- 2 ^ (wl - 1) <=? x) && (x <? 2 ^ (wl - 1)) then Some x else None.

(** The sums are taken in [unsigned] and [long] and stored back in [unsigned]. *)
Definition time_add_usec (wl : Z) (start : timeval) (usec : Z) : option timeval :=
  let tot_usec := u32 (usec + tv_usec start) in
  let carry_sec := tot_usec / 1000000 in
  sec ← as_long wl (tv_sec start + carry_sec);
  Some (Timeval sec (u32 (tot_usec - u32 (1000000 * carry_sec)))).

Definition is_later (t1 t2 : timeval) : bool :=
  (tv_sec t2 <? tv_sec t1) ||
  ((tv_sec t1 =? tv_sec t2) && (tv_usec t2 <? tv_usec t1)).

(** [gettimeofday] provides [now] when [end] is the null pointer. *)
Definition time_passed (wl : Z) (now start : timeval) (end_ : option timeval) : option Z :=
  let end_ := default now end_ in
  s ← as_long wl (tv_sec start * 1000000);
  s ← as_long wl (s + tv_usec start);
  e ← as_long wl (tv_sec end_ * 1000000);
  e ← as_long wl (e + tv_usec end_);
  Some (u64 (u64 e - u64 s)).

Definition has_time_passed (wl : Z) (now start : timeval) (end_ : option timeval)
    (microsec_threshold : Z) : option bool :=
  p ← time_passed wl now start end_; Some (microsec_threshold <? p).

(** ** Hardware addresses *)

Definition ETH_ADDR_LEN : nat := 6.

(** [addr_mac_t]: six octets, octet 0 first. *)
Record addr_mac_t := Mac { o0 : Z; o1 : Z; o2 : Z; o3 : Z; o4 : Z; o5 : Z }.

Definition octets (m : addr_mac_t) : list Z := [o0 m; o1 m; o2 m; o3 m; o4 m; o5 m].

Definition is_valid_mac (m : addr_mac_t) : bool := existsb truthy (octets m).

Definition make_mac_addr (byte5 byte4 byte3 byte2 byte1 byte0 : Z) : addr_mac_t :=
  Mac byte0 byte1 byte2 byte3 byte4 byte5.

Definition mac_hi (m : addr_mac_t) : Z := u16 (Z.shiftl (o0 m) 8 + o1 m).

Definition mac_lo (m : addr_mac_t) : Z :=
  u32 (Z.shiftl (o2 m) 24 + Z.shiftl (o3 m) 16 + Z.shiftl (o4 m) 8 + o5 m).

Definition mac_set_hi (m : addr_mac_t) (hi : Z) : addr_mac_t :=
  Mac (u8 (Z.shiftr hi 8)) (u8 (Z.land hi 255)) (o2 m) (o3 m) (o4 m) (o5 m).

Definition mac_set_lo (m : addr_mac_t) (lo : Z) : addr_mac_t :=
  Mac (o0 m) (o1 m)
      (u8 (Z.shiftr lo 24)) (u8 (Z.shiftr (Z.land lo 16711680) 16))
      (u8 (Z.shiftr (Z.land lo 65280) 8)) (u8 (Z.land lo 255)).

(** The two loads through cast pointers, on a little-endian target. *)
Definition mac_is_zero (m : addr_mac_t) : bool :=
  (o0 m + 256 * o1 m + 65536 * o2 m + 16777216 * o3 m =? 0) &&
  (o4 m + 256 * o5 m =? 0).

(** ** Population count *)

Definition ones (x : Z) : Z :=
  let x := u32 (x - Z.land (Z.shiftr x 1) 1431655765) in
  let x := u32 (Z.land (Z.shiftr x 2) 858993459 + Z.land x 858993459) in
  let x := Z.land (u32 (Z.shiftr x 4 + x)) 252645135 in
  let x := u32 (x + Z.shiftr x 8) in
  let x := u32 (x + Z.shiftr x 16) in
  Z.land x 63.

(** ** Texts *)

Definition STRLEN_IP : nat := 16.
Definition STRLEN_MAC : nat := 18.
Definition STRLEN_SUBNET : nat := STRLEN_IP + 3.

(** [snprintf] keeps at most [size - 1] characters of the formatted text. *)
Definition snprintf (size : nat) (text : string) : string :=
  String.substring 0 (size - 1) text.

Definition digit (d : Z) : string :=
  String (ascii_of_nat (Z.to_nat (if d <? 10 then 48 + d else 55 + d))) EmptyString.

(** The conversion [%u] of a [w]-bit value, least digit last. *)
Fixpoint dec_digits (fuel : nat) (n : Z) : string :=
  match fuel with
  | O => EmptyString
  | S k => if n <? 10 then digit n else (dec_digits k (n / 10) +:+ digit (n mod 10))%string
  end.

(** A 32-bit value has at most ten decimal digits. *)
Definition dec (n : Z) : string := dec_digits 10 n.

(** The byte [i] of the address as it lies in memory. *)
Definition ip_byte (ip : Z) (i : nat) : Z := (ip / 256 ^ Z.of_nat i) mod 256.

Definition ip_text (ip : Z) : string :=
  (dec (ip_byte ip 0) +:+ "." +:+ dec (ip_byte ip 1) +:+ "." +:+
   dec (ip_byte ip 2) +:+ "." +:+ dec (ip_byte ip 3))%string.

Definition ip_to_string (ip : Z) : string := snprintf STRLEN_IP (ip_text ip).

(** The two [%X] conversions of an octet. *)
Definition octet_text (o : Z) : string :=
  (digit (Z.shiftr o 4) +:+ digit (Z.land 15 o))%string.

Definition mac_text (m : addr_mac_t) : string :=
  (octet_text (o0 m) +:+ ":" +:+ octet_text (o1 m) +:+ ":" +:+ octet_text (o2 m) +:+ ":" +:+
   octet_text (o3 m) +:+ ":" +:+ octet_text (o4 m) +:+ ":" +:+ octet_text (o5 m))%string.

Definition mac_to_string (m : addr_mac_t) : string := snprintf STRLEN_MAC (mac_text m).

Definition subnet_text (subnet mask : Z) : string :=
  let num_ones := ones mask in
  let b i := dec (ip_byte subnet i) in
  let slash := ("/" +:+ dec num_ones)%string in
  if (num_ones =? 0) && (subnet =? 0) then "<catch-all>"%string
  else if num_ones <=? 8 then (b 0%nat +:+ slash)%string
  else if num_ones <=? 16 then (b 0%nat +:+ "." +:+ b 1%nat +:+ slash)%string
  else if num_ones <=? 24 then
    (b 0%nat +:+ "." +:+ b 1%nat +:+ "." +:+ b 2%nat +:+ slash)%string
  else (b 0%nat +:+ "." +:+ b 1%nat +:+ "." +:+ b 2%nat +:+ "." +:+ b 3%nat +:+ slash)%string.

Definition subnet_to_string (subnet mask : Z) : string :=
  snprintf STRLEN_SUBNET (subnet_text subnet mask).

(** [written] is what [vsnprintf] returns, an [int]; the comparison with the
    [unsigned] size converts it. *)
Definition my_snprintf (written size : Z) : Z :=
  if (written <? 0) || (size <=? u32 written) then 0 else u32 written.

(** [inet_aton] gives the address or fails; the failure is [die]'s. *)
Definition make_ip_addr (inet_aton : string -> option Z) (str : string) : option Z :=
  inet_aton str.

(** The allocators die when the C library returns null. *)
Definition calloc_or_die {A} (calloc : Z -> Z -> option A) (num size : Z) : option A :=
  calloc num size.
Definition malloc_or_die {A} (malloc : Z -> option A) (size : Z) : option A := malloc size.
Definition realloc_or_die {A} (realloc : A -> Z -> option A) (ptr : A) (size : Z) : option A :=
  realloc ptr size.

(** The reference for [ones]: the number of bits set among the low [n]. *)
Fixpoint popcount (n : nat) (x : Z) : Z :=
  match n with
  | O => 0
  | S k => (x mod 2) + popcount k (x / 2)
  end.

(** The number of microseconds of a time. *)
Definition usecs (t : timeval) : Z := tv_sec t * 1000000 + tv_usec t.

(** A time as [gettimeofday] gives it. *)
Definition time_ok (t : timeval) : Prop :=
  0 <= tv_sec t < 2 ^ 40 /\ 0 <= tv_usec t < 1000000.

(** ** Times *)

Lemma as_long_some wl x :
  - 2 ^ (wl - 1) <= x < 2 ^ (wl - 1) -> as_long wl x = Some x.
Proof. intros. unfold as_long. repeat case_bool; simpl; first [reflexivity|lia]. Qed.

Lemma as_long_none wl x : 2 ^ (wl - 1) <= x -> as_long wl x = None.
Proof.
  intros. unfold as_long. destruct (Z.ltb_spec x (2 ^ (wl - 1))); [lia|].
  rewrite andb_false_r. reflexivity.
Qed.

(** ** Population count *)

(** The first two assignments of [ones], which work on the bytes of the word
    independently. *)
Definition ones_pairs (m1 m2 x : Z) : Z :=
  let x := x - Z.land (Z.shiftr x 1) m1 in
  Z.land (Z.shiftr x 2) m2 + Z.land x m2.

(** A masked shift of a word is the masked shift of each of its bytes, when the
    mask clears the bits that cross the byte boundary. *)
Lemma land_shiftr_bytes a r m M k :
  0 <= a < 256 -> 0 <= r -> 0 <= k < 8 -> 0 <= m < 2 ^ (8 - k) -> 0 <= M ->
  Z.land (Z.shiftr (a + 256 * r) k) (m + 256 * M) =
  Z.land (Z.shiftr a k) m + 256 * Z.land (Z.shiftr r k) M.
Proof.
  intros Ha Hr Hk Hm HM. change 256 with (2 ^ 8) in *.
  assert (Hm8 : 0 <= m < 2 ^ 8)
    by (pose proof (Z.pow_le_mono_r 2 (8 - k) 8 ltac:(lia) ltac:(lia)); lia).
  assert (Hl : forall u v, 0 <= v < 2 ^ 8 -> v + 2 ^ 8 * u = Z.lor (u * 2 ^ 8) v)
    by (intros u v Hv; rewrite lor_add_shift by lia; lia).
  assert (Hs : 0 <= Z.shiftr a k < 2 ^ 8).
  { rewrite Z.shiftr_div_pow2 by lia. pose proof (Z.pow_pos_nonneg 2 k ltac:(lia) ltac:(lia)).
    split; [apply Z.div_pos; lia|]. apply Z.div_lt_upper_bound; nia. }
  assert (Hlo : 0 <= Z.land (Z.shiftr a k) m < 2 ^ 8).
  { split; [apply Z.land_nonneg; lia|].
    replace (Z.land (Z.shiftr a k) m) with (Z.land (Z.shiftr a k) m mod 2 ^ 8);
      [apply Z.mod_pos_bound; lia|].
    rewrite <- Z.land_ones by lia. rewrite <- Z.land_assoc. f_equal.
    rewrite Z.land_ones by lia. apply Z.mod_small; lia. }
  rewrite (Hl r a), (Hl M m), (Hl _ (Z.land (Z.shiftr a k) m)) by lia.
  apply Z.bits_inj'; intros i Hi.
  rewrite !Z.land_spec, !Z.lor_spec, Z.shiftr_spec, Z.lor_spec, Z.land_spec by lia.
  rewrite <- !Z.shiftl_mul_pow2 by lia. rewrite (Z.shiftr_spec a) by lia.
  rewrite !Z.shiftl_spec by lia.
  destruct (Z.lt_ge_cases i 8) as [H8|H8].
  - rewrite !(Z.testbit_neg_r _ (i - 8)) by lia. cbn [orb].
    destruct (Z.lt_ge_cases i (8 - k)) as [Hik|Hik].
    + rewrite (Z.testbit_neg_r _ (i + k - 8)) by lia. reflexivity.
    + rewrite (testbit_above (8 - k) m i) by lia. rewrite !andb_false_r. reflexivity.
  - rewrite (testbit_above 8 m i), (testbit_above 8 a (i + k)) by lia.
    rewrite andb_false_r, orb_false_r. cbn [orb].
    rewrite orb_false_r, Z.land_spec, Z.shiftr_spec by lia.
    replace (i + k - 8) with (i - 8 + k) by lia. rewrite ?orb_false_r. reflexivity.
Qed.

Lemma land_le_l a b : 0 <= a -> 0 <= b -> 0 <= Z.land a b <= a.
Proof.
  intros Ha Hb. split; [apply Z.land_nonneg; lia|].
  assert (E : a = Z.land a b + Z.ldiff a b).
  { rewrite Z.add_nocarry_lxor.
    - apply Z.bits_inj'; intros i Hi. rewrite Z.lxor_spec, Z.land_spec, Z.ldiff_spec.
      destruct (Z.testbit a i), (Z.testbit b i); reflexivity.
    - apply Z.bits_inj'; intros i Hi. rewrite !Z.land_spec, Z.ldiff_spec, Z.bits_0.
      destruct (Z.testbit a i), (Z.testbit b i); reflexivity. }
  assert (0 <= Z.ldiff a b) by (apply Z.ldiff_nonneg; lia). lia.
Qed.

(** Facts about all bytes, by evaluation. *)
Lemma byte_forall (P : Z -> bool) :
  forallb P (map Z.of_nat (List.seq 0 256)) = true -> forall b, 0 <= b < 256 -> P b = true.
Proof.
  intros H b Hb. rewrite forallb_forall in H. apply H, in_map_iff.
  exists (Z.to_nat b). split; [lia|]. apply in_seq. lia.
Qed.

Lemma ones_pairs_byte b : 0 <= b < 256 ->
  0 <= b - Z.land (Z.shiftr b 1) 85 < 256 /\ 0 <= ones_pairs 85 51 b < 256 /\
  ones_pairs 85 51 b mod 16 <= 4 /\ ones_pairs 85 51 b / 16 <= 4 /\
  ones_pairs 85 51 b mod 16 + ones_pairs 85 51 b / 16 = popcount 8 b.
Proof.
  intros Hb. set (P b := (0 <=? b - Z.land (Z.shiftr b 1) 85) &&
    (b - Z.land (Z.shiftr b 1) 85 <? 256) && (0 <=? ones_pairs 85 51 b) &&
    (ones_pairs 85 51 b <? 256) && (ones_pairs 85 51 b mod 16 <=? 4) &&
    (ones_pairs 85 51 b / 16 <=? 4) &&
    (ones_pairs 85 51 b mod 16 + ones_pairs 85 51 b / 16 =? popcount 8 b)).
  assert (HP : P b = true) by (apply byte_forall; [vm_compute; reflexivity|exact Hb]).
  subst P. cbv beta in HP. rewrite !andb_true_iff in HP.
  rewrite !Z.leb_le, !Z.ltb_lt, Z.eqb_eq in HP. intuition.
Qed.

Lemma ones_pairs_digits a r M1 M2 : 0 <= a < 256 -> 0 <= r -> 0 <= M1 -> 0 <= M2 ->
  0 <= ones_pairs M1 M2 r /\
  ones_pairs (85 + 256 * M1) (51 + 256 * M2) (a + 256 * r) =
  ones_pairs 85 51 a + 256 * ones_pairs M1 M2 r.
Proof.
  intros Ha Hr H1 H2. unfold ones_pairs.
  destruct (ones_pairs_byte a Ha) as (Hs & _).
  assert (Hr1 : 0 <= Z.land (Z.shiftr r 1) M1 <= r).
  { pose proof (land_le_l (Z.shiftr r 1) M1) as Hl. rewrite Z.shiftr_div_pow2 in * by lia.
    change (2 ^ 1) with 2 in *. specialize (Hl ltac:(divmod) H1). divmod. }
  rewrite land_shiftr_bytes by lia.
  set (sa := a - Z.land (Z.shiftr a 1) 85) in *.
  set (sr := r - Z.land (Z.shiftr r 1) M1) in *.
  replace (a + 256 * r - _) with (sa + 256 * sr) by lia.
  rewrite land_shiftr_bytes by lia.
  pose proof (land_shiftr_bytes sa sr 51 M2 0) as H0. rewrite !Z.shiftr_0_r in H0.
  rewrite H0 by lia. split; [|lia].
  assert (0 <= Z.land (Z.shiftr sr 2) M2).
  { apply Z.land_nonneg. right; exact H2. }
  assert (0 <= Z.land sr M2) by (apply Z.land_nonneg; right; exact H2). lia.
Qed.

(** Adding the nibbles of a word none of whose nibbles exceeds four. *)
Lemma nibble_sums x0 x1 x2 x3 :
  0 <= x0 -> 0 <= x1 -> 0 <= x2 -> 0 <= x3 ->
  x0 mod 16 <= 4 /\ x0 / 16 <= 4 -> x1 mod 16 <= 4 /\ x1 / 16 <= 4 ->
  x2 mod 16 <= 4 /\ x2 / 16 <= 4 -> x3 mod 16 <= 4 /\ x3 / 16 <= 4 ->
  let x := x0 + 256 * (x1 + 256 * (x2 + 256 * x3)) in
  Z.land (Z.shiftr x 4 + x) 252645135 =
  (x0 mod 16 + x0 / 16) + 256 * ((x1 mod 16 + x1 / 16) + 256 * ((x2 mod 16 + x2 / 16)
   + 256 * (x3 mod 16 + x3 / 16))).
Proof.
  intros H0 H1 H2 H3 B0 B1 B2 B3 x.
  assert (Hd : forall a r m M, 0 <= a < 256 -> 0 <= r -> 0 <= m < 256 -> 0 <= M ->
    Z.land (a + 256 * r) (m + 256 * M) = Z.land a m + 256 * Z.land r M).
  { intros a r m M Ha Hr Hm HM. pose proof (land_shiftr_bytes a r m M 0) as E.
    rewrite !Z.shiftr_0_r in E. apply E; auto; lia. }
  assert (Hn : forall a, Z.land a 15 = a mod 16) by (intros; apply (land_ones_mod a 4); lia).
  rewrite Z.shiftr_div_pow2 by lia. change (2 ^ 4) with 16.
  set (y0 := x0 / 16 + x0 + 16 * (x1 mod 16)). set (y1 := x1 / 16 + x1 + 16 * (x2 mod 16)).
  set (y2 := x2 / 16 + x2 + 16 * (x3 mod 16)). set (y3 := x3 / 16 + x3).
  replace (x / 16 + x) with (y0 + 256 * (y1 + 256 * (y2 + 256 * y3)))
    by (subst x y0 y1 y2 y3; divmod).
  change 252645135 with (15 + 256 * (15 + 256 * (15 + 256 * 15))).
  rewrite !Hd by (subst y0 y1 y2 y3; divmod). rewrite !Hn.
  subst y0 y1 y2 y3. divmod.
Qed.

Lemma popcount_add m n x : popcount (m + n) x = popcount m x + popcount n (x / 2 ^ Z.of_nat m).
Proof.
  revert x. induction m as [|m IH]; intros x; cbn [Nat.add popcount].
  - cbn. rewrite Z.div_1_r. reflexivity.
  - rewrite IH, Nat2Z.inj_succ, Z.pow_succ_r, Z.div_div by lia. lia.
Qed.

Lemma popcount_low m b r : popcount m (b + 2 ^ Z.of_nat m * r) = popcount m b.
Proof.
  revert b. induction m as [|m IH]; intros b; cbn [popcount]; [reflexivity|].
  rewrite Nat2Z.inj_succ, Z.pow_succ_r by lia.
  replace (b + 2 * 2 ^ Z.of_nat m * r) with (b + (2 ^ Z.of_nat m * r) * 2) by lia.
  rewrite Z.mod_add, Z.div_add by lia. rewrite IH. reflexivity.
Qed.

Lemma popcount_digits n b r : 0 <= b < 256 ->
  popcount (8 + n) (b + 256 * r) = popcount 8 b + popcount n r.
Proof.
  intros Hb. rewrite popcount_add. change 256 with (2 ^ Z.of_nat 8) at 1.
  rewrite popcount_low. do 2 f_equal. change (2 ^ Z.of_nat 8) with 256. divmod.
Qed.

Lemma popcount_range n x : 0 <= popcount n x <= Z.of_nat n.
Proof.
  revert x. induction n as [|n IH]; intros x; cbn [popcount]; [lia|].
  specialize (IH (x / 2)). rewrite Nat2Z.inj_succ. divmod.
Qed.

(** The bytes of a 32-bit word. *)
Lemma word_bytes x : 0 <= x < 2 ^ 32 -> exists b0 b1 b2 b3,
  x = b0 + 256 * (b1 + 256 * (b2 + 256 * b3)) /\
  0 <= b0 < 256 /\ 0 <= b1 < 256 /\ 0 <= b2 < 256 /\ 0 <= b3 < 256.
Proof.
  change (2 ^ 32) with 4294967296. intros Hx.
  exists (x mod 256), (x / 256 mod 256), (x / 65536 mod 256), (x / 16777216). divmod.
Qed.

(** Folding four small byte counts onto the low byte. *)
Lemma fold_counts c0 c1 c2 c3 :
  0 <= c0 <= 8 -> 0 <= c1 <= 8 -> 0 <= c2 <= 8 -> 0 <= c3 <= 8 ->
  let y := c0 + 256 * (c1 + 256 * (c2 + 256 * c3)) in
  let x := u32 (y + Z.shiftr y 8) in
  Z.land (u32 (x + Z.shiftr x 16)) 63 = c0 + c1 + c2 + c3.
Proof.
  intros H0 H1 H2 H3 y x. subst x. rewrite shiftr_8.
  rewrite (u32_small (y + y / 256)) by (subst y; divmod).
  rewrite shiftr_16.
  assert (E : y + y / 256 = (c0 + c1) + 256 * ((c1 + c2) + 256 * ((c2 + c3) + 256 * c3)))
    by (subst y; divmod).
  rewrite E. rewrite u32_small by divmod.
  rewrite (land_ones_mod _ 6) by lia. change (2 ^ 6) with 64. divmod.
Qed.

Lemma ones_spec x : 0 <= x < 2 ^ 32 -> ones x = popcount 32 x.
Proof.
  intros Hx. destruct (word_bytes x Hx) as (b0 & b1 & b2 & b3 & E & H0 & H1 & H2 & H3).
  assert (Hp : popcount 32 x = popcount 8 b0 + popcount 8 b1 + popcount 8 b2 + popcount 8 b3).
  { rewrite E. change 32%nat with (8 + (8 + (8 + 8)))%nat.
    rewrite !popcount_digits by lia. lia. }
  destruct (ones_pairs_byte b0 H0) as (_ & R0 & M0 & D0 & P0).
  destruct (ones_pairs_byte b1 H1) as (_ & R1 & M1 & D1 & P1).
  destruct (ones_pairs_byte b2 H2) as (_ & R2 & M2 & D2 & P2).
  destruct (ones_pairs_byte b3 H3) as (_ & R3 & M3 & D3 & P3).
  assert (Hpairs : ones_pairs 1431655765 858993459 x = ones_pairs 85 51 b0 + 256 *
     (ones_pairs 85 51 b1 + 256 * (ones_pairs 85 51 b2 + 256 * ones_pairs 85 51 b3))).
  { rewrite E. change 1431655765 with (85 + 256 * (85 + 256 * (85 + 256 * 85))).
    change 858993459 with (51 + 256 * (51 + 256 * (51 + 256 * 51))).
    rewrite !(fun a r A B C D => proj2 (ones_pairs_digits a r _ _ A B C D)) by lia.
    reflexivity. }
  set (p0 := ones_pairs 85 51 b0) in *. set (p1 := ones_pairs 85 51 b1) in *.
  set (p2 := ones_pairs 85 51 b2) in *. set (p3 := ones_pairs 85 51 b3) in *.
  pose proof (popcount_range 8 b0). pose proof (popcount_range 8 b1).
  pose proof (popcount_range 8 b2). pose proof (popcount_range 8 b3).
  pose proof (nibble_sums p0 p1 p2 p3 ltac:(lia) ltac:(lia) ltac:(lia) ltac:(lia)
    (conj M0 D0) (conj M1 D1) (conj M2 D2) (conj M3 D3)) as Hn. cbv zeta in Hn.
  rewrite <- Hpairs, P0, P1, P2, P3 in Hn.
  unfold ones. change (2 ^ 32) with 4294967296 in *.
  assert (Hl : 0 <= Z.land (Z.shiftr x 1) 1431655765 <= x).
  { pose proof (land_le_l (Z.shiftr x 1) 1431655765) as Hl.
    rewrite Z.shiftr_div_pow2 in * by lia. change (2 ^ 1) with 2 in *. divmod. }
  rewrite (u32_small (x - _)) by lia.
  change (Z.land (Z.shiftr (x - ?s) 2) ?m + Z.land (x - ?s) ?m)
    with (ones_pairs 1431655765 858993459 x).
  rewrite (u32_small (ones_pairs _ _ x)) by lia.
  rewrite (u32_small (Z.shiftr _ 4 + _))
    by (rewrite Z.shiftr_div_pow2 by lia; change (2 ^ 4) with 16; divmod).
  rewrite Hn, fold_counts by lia. lia.
Qed.

(** ** Texts *)

Lemma substring_all s n : (String.length s <= n)%nat -> String.substring 0 n s = s.
Proof.
  revert n. induction s as [|c s IH]; intros [|n] H; simpl in *; try reflexivity; try lia.
  rewrite IH by lia. reflexivity.
Qed.

Lemma length_cat (s t : string) :
  String.length (s +:+ t) = (String.length s + String.length t)%nat.
Proof.
  induction s as [|c s IH]; [reflexivity|].
  change (S (String.length (s +:+ t)) = S (String.length s + String.length t)).
  rewrite IH. reflexivity.
Qed.

Lemma dec_byte b : 0 <= b < 256 -> (String.length (dec b) <= 3)%nat.
Proof.
  intros Hb. apply Nat.leb_le.
  apply (byte_forall (fun b => Nat.leb (String.length (dec b)) 3)); [vm_compute; reflexivity|lia].
Qed.

Lemma dec_count n : 0 <= n <= 32 -> (String.length (dec n) <= 2)%nat.
Proof.
  intros Hn. assert (H : implb (n <=? 32) (Nat.leb (String.length (dec n)) 2) = true).
  { apply (byte_forall (fun n => implb (n <=? 32) (Nat.leb (String.length (dec n)) 2)));
      [vm_compute; reflexivity|lia]. }
  replace (n <=? 32) with true in H by (symmetry; apply Z.leb_le; lia).
  apply Nat.leb_le, H.
Qed.

Lemma ip_byte_range ip i : 0 <= ip_byte ip i < 256.
Proof. apply Z.mod_pos_bound. lia. Qed.

Lemma ip_dec ip i : (String.length (dec (ip_byte ip i)) <= 3)%nat.
Proof. apply dec_byte, ip_byte_range. Qed.

Lemma ip_text_length ip : (String.length (ip_text ip) <= 15)%nat.
Proof.
  unfold ip_text. rewrite !length_cat. cbn [String.length].
  pose proof (ip_dec ip 0). pose proof (ip_dec ip 1).
  pose proof (ip_dec ip 2). pose proof (ip_dec ip 3). lia.
Qed.

Lemma subnet_text_length subnet mask :
  0 <= mask < 2 ^ 32 -> (String.length (subnet_text subnet mask) <= 18)%nat.
Proof.
  intros Hm. pose proof (popcount_range 32 mask) as Hp. rewrite <- ones_spec in Hp by auto.
  pose proof (dec_count (ones mask) Hp) as Hd.
  pose proof (ip_dec subnet 0). pose proof (ip_dec subnet 1).
  pose proof (ip_dec subnet 2). pose proof (ip_dec subnet 3).
  unfold subnet_text. destruct (_ && _); [simpl; lia|].
  repeat (destruct (_ <=? _)); rewrite !length_cat; cbn [String.length]; lia.
Qed.

Lemma mac_text_length m : String.length (mac_text m) = 17%nat.
Proof. reflexivity. Qed.

(** ** Properties *)

(** [ones] counts the bits that are set, for every 32-bit argument: the
    masked parallel additions never carry into a neighbouring field. *)
Theorem ones_popcount x : 0 <= x < 2 ^ 32 -> ones x = popcount 32 x.
Proof. apply ones_spec. Qed.

Lemma ones_popcount_witness : ones 4294967040 = popcount 32 4294967040.
Proof. apply (ones_popcount 4294967040). lia. Defined.

(** [ip_to_string], [mac_to_string] and [subnet_to_string] never truncate:
    the buffer sizes of [sr_common.h] hold every address, every hardware
    address and every subnet with any mask, contiguous or not. *)
Theorem address_texts_fit ip mac subnet mask : 0 <= mask < 2 ^ 32 ->
  ip_to_string ip = ip_text ip /\ mac_to_string mac = mac_text mac /\
  subnet_to_string subnet mask = subnet_text subnet mask.
Proof.
  intros Hm. unfold ip_to_string, mac_to_string, subnet_to_string, snprintf.
  pose proof (ip_text_length ip). pose proof (subnet_text_length subnet mask Hm).
  rewrite !substring_all; auto; cbn; lia.
Qed.

Lemma address_texts_fit_witness :
  ip_to_string 4294967295 = ip_text 4294967295 /\
  mac_to_string (Mac 0 255 1 16 17 18) = "00:FF:01:10:11:12"%string /\
  subnet_to_string 4294967295 4294967295 = "255.255.255.255/32"%string.
Proof.
  change "00:FF:01:10:11:12"%string with (mac_text (Mac 0 255 1 16 17 18)).
  change "255.255.255.255/32"%string with (subnet_text 4294967295 4294967295).
  apply (address_texts_fit 4294967295 (Mac 0 255 1 16 17 18)). lia.
Defined.

(** [time_add_usec] on a normalised time adds the microseconds and gives a
    normalised time again, and with 64-bit [long]s [time_passed] is the exact
    number of microseconds from a time to a later one. *)
Theorem time_arithmetic t usec :
  time_ok t -> 0 <= usec < 2 ^ 32 - 1000000 ->
  exists t', time_add_usec 64 t usec = Some t' /\
    usecs t' = usecs t + usec /\ 0 <= tv_usec t' < 1000000 /\
    time_passed 64 t t (Some t') = Some usec.
Proof.
  unfold time_ok, usecs, time_add_usec, time_passed.
  change (2 ^ 32) with 4294967296. change (2 ^ 40) with 1099511627776.
  destruct t as [s u]; cbn [tv_sec tv_usec default from_option]. intros [Hs Hu] Hx.
  rewrite (u32_small (usec + u)) by lia.
  rewrite (u32_small (1000000 * _)), (u32_small (usec + u - _)) by divmod.
  assert (HL : 2 ^ (64 - 1) = 9223372036854775808) by reflexivity.
  rewrite as_long_some by (rewrite HL; divmod).
  eexists; split; [reflexivity|]. cbn [tv_sec tv_usec id from_option default].
  split; [divmod|]. split; [divmod|].
  rewrite !as_long_some by (rewrite HL; divmod). cbn [mbind option_bind].
  rewrite !as_long_some by (rewrite HL; divmod). cbn [mbind option_bind].
  unfold wrapu. change (2 ^ 64) with 18446744073709551616. f_equal.
  rewrite <- Zminus_mod, Z.mod_small by divmod. divmod.
Qed.

Lemma time_arithmetic_witness :
  exists t', time_add_usec 64 (Timeval 1700000000 999999) 1500001 = Some t' /\
    usecs t' = usecs (Timeval 1700000000 999999) + 1500001 /\ 0 <= tv_usec t' < 1000000 /\
    time_passed 64 (Timeval 1700000000 999999) (Timeval 1700000000 999999) (Some t') = Some 1500001.
Proof. apply (time_arithmetic (Timeval 1700000000 999999)); unfold time_ok; simpl; lia. Defined.

(** With 32-bit [long]s the product of [time_passed] overflows for every time
    later than 2147 seconds after the epoch. *)
Theorem time_passed_long32 now start end_ :
  2148 <= tv_sec start -> time_passed 32 now start end_ = None.
Proof.
  intros H. unfold time_passed. rewrite (as_long_none 32 (tv_sec start * 1000000)) by (change (2 ^ (32 - 1)) with 2147483648; lia).
  reflexivity.
Qed.

(** A threshold that is met exactly is not yet passed. *)
Theorem has_time_passed_strict now start end_ p :
  time_passed 64 now start end_ = Some p -> has_time_passed 64 now start end_ p = Some false.
Proof. intros H. unfold has_time_passed. rewrite H. cbn. rewrite Z.ltb_irrefl. reflexivity. Qed.

(** Reading back what [mac_set_hi] and [mac_set_lo] stored. *)
Lemma mac_halves m hi lo : 0 <= hi < 2 ^ 16 -> 0 <= lo < 2 ^ 32 ->
  mac_hi (mac_set_lo (mac_set_hi m hi) lo) = hi.
Proof.
  change (2 ^ 16) with 65536. intros Hh Hl.
  unfold mac_hi, mac_set_lo, mac_set_hi; cbn [o0 o1].
  rewrite shiftr_8, land_255, shiftl_8. rewrite !u8_small by divmod.
  rewrite u16_small by divmod. divmod.
Qed.
