(* ===== verification/WorkQueue.v ===== *)
(** The thread-safe work queue of [SW_stub/sr_work_queue.c].  The queue is a
    heap of linked [work_t] objects with the pointers [head] and [tail]; the
    critical sections between [pthread_mutex_lock] and [pthread_mutex_unlock]
    are single steps of a transition system whose other steps are the wake-ups
    of the condition variable and the processing of a work item. *)

From S2P Require Import Prelude.
From stdpp Require Import base gmap list relations.
From Stdlib Require Import ZArith Lia.

Local Open Scope Z_scope.

(** ** Data *)

(** [work_t]; [work] is a pointer the queue only passes on. *)
Record work_t := Work { type : Z; work : Z; next : option nat }.

Definition job (w : work_t) : Z * Z := (type w, work w).

(** Where a worker thread is in [wq_wait_for_work]: before the lock, waiting on
    the condition variable, inside [func_do_work] with an item, or returned. *)
Inductive phase := Locking | Sleeping | Working (item : nat) | Exited.

(** The queue object, the objects [malloc] gave out and not yet freed, and the
    state of the worker threads. [sig] counts the signals that are still to be
    sent by a [wq_enqueue] that left its critical section, [bcast] tells that
    [wq_destroy] still has to broadcast.  [done] is the flag of the structure. *)
Record work_queue_t := WQ {
  heap : gmap nat work_t;
  head : option nat;
  tail : option nat;
  done : bool;
  workers : Z;
  threads : list phase;
  sig : nat;
  bcast : bool
}.

(** ** Operations *)

(** [wq_init]; the workers are spawned ([true_or_die] refuses zero). *)
Definition wq_init (num_workers : nat) : option work_queue_t :=
  match num_workers with
  | O => None
  | _ => Some (WQ ∅ None None false (Z.of_nat num_workers)
                  (replicate num_workers Locking) 0 false)
  end.

(** The critical section of [wq_enqueue]; [w] is the block [malloc] returns.
    [None] when the object at [tail] is not allocated. *)
Definition wq_enqueue (q : work_queue_t) (w : nat) (type work : Z) : option work_queue_t :=
  let h := <[w := Work type work None]> (heap q) in
  match tail q with
  | Some t =>
      tl ← heap q !! t;
      Some (WQ (<[t := Work (WorkQueue.type tl) (WorkQueue.work tl) (Some w)]> h)
               (head q) (Some w) (done q) (workers q) (threads q) (S (sig q)) (bcast q))
  | None =>
      Some (WQ h (Some w) (Some w) (done q) (workers q) (threads q) (S (sig q)) (bcast q))
  end.

(** The critical section of [wq_wait_for_work] for the worker [i]: leave if the
    queue is done, wait if there is no work, else unlink the first item. *)
Definition wq_take (q : work_queue_t) (i : nat) : option work_queue_t :=
  if done q then
    Some (WQ (heap q) (head q) (tail q) (done q) (u32 (workers q - 1))
             (<[i := Exited]> (threads q)) (sig q) (bcast q))
  else
    match head q with
    | None =>
        Some (WQ (heap q) (head q) (tail q) (done q) (workers q)
                 (<[i := Sleeping]> (threads q)) (sig q) (bcast q))
    | Some w =>
        n ← heap q !! w;
        Some (WQ (heap q) (next n) (match next n with Some _ => tail q | None => None end) (done q) (workers q)
                 (<[i := Working w]> (threads q)) (sig q) (bcast q))
    end.

(** After [func_do_work] the worker frees the item and starts over. *)
Definition wq_finish (q : work_queue_t) (i w : nat) : work_queue_t :=
  WQ (delete w (heap q)) (head q) (tail q) (done q) (workers q)
     (<[i := Locking]> (threads q)) (sig q) (bcast q).

(** [pthread_cond_signal] wakes one waiting thread, if there is one. *)
Definition wq_signal (q : work_queue_t) (woken : option nat) : work_queue_t :=
  WQ (heap q) (head q) (tail q) (done q) (workers q)
     (match woken with Some i => <[i := Locking]> (threads q) | None => threads q end)
     (Nat.pred (sig q)) (bcast q).

Definition wake (p : phase) : phase := match p with Sleeping => Locking | p => p end.

Definition wq_broadcast (q : work_queue_t) : work_queue_t :=
  WQ (heap q) (head q) (tail q) (done q) (workers q) (map wake (threads q)) (sig q) false.

(** The loop of [wq_destroy] that frees what is left on the queue; the fuel is
    one more than the number of items. *)
Fixpoint free_work (fuel : nat) (h : gmap nat work_t) (p : option nat)
  : option (gmap nat work_t) :=
  match p, fuel with
  | None, _ => Some h
  | Some w, S k => n ← h !! w; free_work k (delete w h) (next n)
  | Some _, O => None
  end.

(** The critical section of [wq_destroy]; [tail] keeps its value. *)
Definition wq_destroy (q : work_queue_t) : option work_queue_t :=
  h ← free_work (S (size (heap q))) (heap q) (head q);
  Some (WQ h None (tail q) true (workers q) (threads q) (sig q) true).

(** ** The system of producers and workers

    Every label names the observable effect: what was put on the queue, and
    what a worker takes from it to process. *)

Inductive event := Put (j : Z * Z) | Take (j : Z * Z) | Tau.

Inductive wq_step : work_queue_t -> event -> work_queue_t -> Prop :=
| step_enqueue q q' w ty wk :
    done q = false -> heap q !! w = None -> wq_enqueue q w ty wk = Some q' ->
    wq_step q (Put (ty, wk)) q'
| step_take q q' i w n :
    threads q !! i = Some Locking -> wq_take q i = Some q' ->
    threads q' !! i = Some (Working w) -> heap q !! w = Some n ->
    wq_step q (Take (job n)) q'
| step_wait_or_exit q q' i :
    threads q !! i = Some Locking -> wq_take q i = Some q' ->
    threads q' !! i = Some Sleeping \/ threads q' !! i = Some Exited ->
    wq_step q Tau q'
| step_finish q i w :
    threads q !! i = Some (Working w) -> wq_step q Tau (wq_finish q i w)
| step_signal q i :
    sig q <> 0%nat -> threads q !! i = Some Sleeping -> wq_step q Tau (wq_signal q (Some i))
| step_signal_none q :
    sig q <> 0%nat -> Sleeping ∉ threads q -> wq_step q Tau (wq_signal q None)
| step_spurious q i :
    threads q !! i = Some Sleeping ->
    wq_step q Tau (WQ (heap q) (head q) (tail q) (done q) (workers q)
                      (<[i := Locking]> (threads q)) (sig q) (bcast q))
| step_destroy q q' :
    done q = false -> wq_destroy q = Some q' -> wq_step q Tau q'
| step_broadcast q :
    bcast q = true -> wq_step q Tau (wq_broadcast q).

(** Runs, with the jobs put and taken so far. *)
Inductive wq_run : work_queue_t -> list (Z * Z) -> list (Z * Z) -> work_queue_t -> Prop :=
| run_nil q : wq_run q [] [] q
| run_put q q1 q2 ps ts j : wq_run q ps ts q1 -> wq_step q1 (Put j) q2 -> wq_run q (ps ++ [j]) ts q2
| run_take q q1 q2 ps ts j : wq_run q ps ts q1 -> wq_step q1 (Take j) q2 -> wq_run q ps (ts ++ [j]) q2
| run_tau q q1 q2 ps ts : wq_run q ps ts q1 -> wq_step q1 Tau q2 -> wq_run q ps ts q2.

(** ** The abstract queue *)

(** The items linked from [p], in order. *)
Fixpoint linked (h : gmap nat work_t) (p : option nat) (ids : list nat) : Prop :=
  match ids with
  | [] => p = None
  | i :: r => p = Some i /\ exists n, h !! i = Some n /\ linked h (next n) r
  end.

(** The items workers are processing. *)
Definition in_flight (ts : list phase) : list nat :=
  omap (fun p => match p with Working w => Some w | _ => None end) ts.

#[global] Instance phase_eq_dec : EqDecision phase.
Proof. solve_decision. Defined.

Definition alive (ts : list phase) : nat :=
  length (filter (fun p => p <> Exited) ts).

(** The jobs on the queue. *)
Definition jobs (h : gmap nat work_t) (ids : list nat) : list (Z * Z) :=
  omap (fun i => job <$> h !! i) ids.

(** The invariant: the items on the queue are a list of allocated objects that
    [head] and [tail] delimit, no worker holds one of them or shares its item,
    [workers] counts the workers that have not returned, and a wake-up is on
    its way whenever every worker sleeps and there is something to do. *)
Record wq_inv (q : work_queue_t) (ids : list nat) : Prop := {
  inv_linked : linked (heap q) (head q) ids;
  inv_nodup : NoDup (ids ++ in_flight (threads q));
  inv_flight : forall w, w ∈ in_flight (threads q) -> is_Some (heap q !! w);
  inv_tail : done q = false -> tail q = last ids;
  inv_done : done q = true -> ids = [];
  inv_workers : workers q = Z.of_nat (alive (threads q));
  inv_small : Z.of_nat (length (threads q)) < 2 ^ 32;
  inv_some : threads q <> [];
  inv_wake : ids <> [] -> (forall p, p ∈ threads q -> p = Sleeping) -> (0 < sig q)%nat;
  inv_bcast : done q = true -> Sleeping ∈ threads q -> bcast q = true;
  inv_exited : done q = false -> Exited ∉ threads q
}.

(** ** Linked items *)

Lemma linked_frame h h' p ids :
  (forall i, i ∈ ids -> h' !! i = h !! i) -> linked h p ids -> linked h' p ids.
Proof.
  revert p. induction ids as [|i r IH]; intros p He; cbn; [auto|].
  intros (-> & n & Hn & Hr). split; [reflexivity|]. exists n.
  rewrite He by set_solver. split; [exact Hn|]. apply IH; [set_solver|exact Hr].
Qed.

Lemma linked_allocated h p ids i : linked h p ids -> i ∈ ids -> is_Some (h !! i).
Proof.
  revert p. induction ids as [|j r IH]; intros p Hl Hi; [set_solver|].
  destruct Hl as (_ & n & Hn & Hr). apply elem_of_cons in Hi as [->|Hi]; [eauto|].
  eapply IH; eauto.
Qed.

Lemma jobs_frame h h' ids :
  (forall i, i ∈ ids -> job <$> h' !! i = job <$> h !! i) -> jobs h' ids = jobs h ids.
Proof.
  unfold jobs. induction ids as [|i r IH]; intros He; [reflexivity|].
  cbn [omap list_omap]. rewrite He by set_solver. rewrite IH by set_solver. reflexivity.
Qed.

Lemma jobs_app h a b : jobs h (a ++ b) = jobs h a ++ jobs h b.
Proof. apply omap_app. Qed.

(** Linking a fresh item behind the last one. *)
Lemma linked_snoc h p ids t w n new :
  linked h p ids -> NoDup ids -> last ids = Some t -> h !! w = None -> h !! t = Some n ->
  next new = None ->
  linked (<[t := Work (type n) (work n) (Some w)]> (<[w := new]> h)) p (ids ++ [w]).
Proof.
  intros Hl Hnd Ht Hw Hn Hnew. revert p Hl.
  induction ids as [|i r IH]; intros p Hl; [discriminate|].
  destruct Hl as (-> & m & Hm & Hr). apply NoDup_cons in Hnd as [Hi Hnd].
  assert (Hwt : w <> t) by congruence.
  destruct r as [|j r].
  - injection Ht as ->. cbn. split; [reflexivity|]. eexists.
    rewrite lookup_insert_eq. split; [reflexivity|]. cbn. split; [reflexivity|].
    exists new. rewrite lookup_insert_ne, lookup_insert_eq by congruence. auto.
  - assert (Htr : t ∈ j :: r) by (apply last_Some_elem_of; exact Ht).
    cbn [app linked]. split; [reflexivity|]. exists m.
    assert (t <> i) by (intros ->; exact (Hi Htr)). assert (w <> i) by congruence.
    rewrite !lookup_insert_ne by auto. split; [exact Hm|].
    apply IH; auto.
Qed.

Lemma jobs_snoc h ids t w n new :
  h !! t = Some n -> h !! w = None -> (forall i, i ∈ ids -> is_Some (h !! i)) ->
  jobs (<[t := Work (type n) (work n) (Some w)]> (<[w := new]> h)) (ids ++ [w])
  = jobs h ids ++ [job new].
Proof.
  intros Ht Hw Ha. rewrite jobs_app. f_equal.
  - apply jobs_frame. intros i Hi. destruct (decide (i = t)) as [->|Hne].
    + rewrite lookup_insert_eq, Ht. reflexivity.
    + rewrite lookup_insert_ne by auto. rewrite lookup_insert_ne; [reflexivity|].
      intros ->. destruct (Ha _ Hi). congruence.
  - unfold jobs. cbn. rewrite lookup_insert_ne, lookup_insert_eq by congruence. reflexivity.
Qed.

(** The freeing loop ends, and leaves every item that is not on the queue. *)
Lemma free_work_spec fuel h p ids :
  linked h p ids -> NoDup ids -> (length ids < fuel)%nat ->
  exists h', free_work fuel h p = Some h' /\
    forall i, h' !! i = if decide (i ∈ ids) then None else h !! i.
Proof.
  revert fuel h p. induction ids as [|i r IH]; intros fuel h p Hl Hnd Hf.
  - cbn in Hl. subst p. exists h. split; [destruct fuel; reflexivity|].
    intros i. destruct (decide (i ∈ [])) as [H|]; [set_solver|reflexivity].
  - destruct Hl as (-> & n & Hn & Hr). apply NoDup_cons in Hnd as [Hi Hnd].
    destruct fuel as [|k]; [cbn in Hf; lia|]. cbn [free_work]. rewrite Hn. cbn.
    destruct (IH k (delete i h) (next n)) as (h' & -> & Hh'); [|auto|cbn in Hf; lia|].
    + eapply linked_frame; [|exact Hr]. intros j Hj. apply lookup_delete_ne. set_solver.
    + exists h'. split; [reflexivity|]. intros j. rewrite Hh'.
      destruct (decide (j ∈ r)) as [Hj|Hj], (decide (j ∈ i :: r)) as [Hj'|Hj']; rewrite elem_of_cons in Hj'.
      * reflexivity.
      * tauto.
      * destruct Hj' as [->|Hj']; [apply lookup_delete_eq|tauto].
      * apply lookup_delete_ne. intros ->. tauto.
Qed.

Lemma linked_size h p ids : linked h p ids -> NoDup ids -> (length ids <= size h)%nat.
Proof.
  intros Hl Hnd. rewrite <- size_dom. rewrite <- (size_list_to_set (C:=gset nat)) by exact Hnd.
  apply subseteq_size. intros i Hi. apply elem_of_list_to_set in Hi.
  apply elem_of_dom. eapply linked_allocated; eauto.
Qed.

(** ** Threads *)

Lemma thread_split (ts : list phase) i p0 : ts !! i = Some p0 ->
  exists l1 l2, ts = l1 ++ p0 :: l2 /\ forall p, <[i := p]> ts = l1 ++ p :: l2.
Proof.
  intros H. exists (take i ts), (drop (S i) ts). split; [symmetry; apply take_drop_middle, H|].
  intros p. rewrite insert_take_drop; [reflexivity|]. apply lookup_lt_Some in H. exact H.
Qed.

Lemma in_flight_app a b : in_flight (a ++ b) = in_flight a ++ in_flight b.
Proof. apply omap_app. Qed.

Lemma alive_app a b : alive (a ++ b) = (alive a + alive b)%nat.
Proof. unfold alive. rewrite filter_app, length_app. reflexivity. Qed.

Lemma alive_cons p ts : alive (p :: ts) = ((if decide (p = Exited) then 0 else 1) + alive ts)%nat.
Proof.
  unfold alive. rewrite filter_cons.
  destruct (decide (p <> Exited)), (decide (p = Exited)); subst; cbn; tauto || lia.
Qed.

Lemma in_flight_wake ts : in_flight (map wake ts) = in_flight ts.
Proof. unfold in_flight. induction ts as [|[] ts IH]; cbn; rewrite ?IH; reflexivity. Qed.

Lemma alive_wake ts : alive (map wake ts) = alive ts.
Proof. induction ts as [|[] ts IH]; cbn [map wake]; rewrite ?alive_cons, ?IH; reflexivity. Qed.

(** A thread that is neither processing an item before nor after a change. *)
Lemma in_flight_update ts i p0 p :
  ts !! i = Some p0 -> in_flight [p0] = in_flight [p] ->
  in_flight (<[i := p]> ts) = in_flight ts.
Proof.
  intros Hi He. destruct (thread_split ts i p0 Hi) as (l1 & l2 & -> & Hins).
  rewrite Hins, !in_flight_app. change (p :: l2) with ([p] ++ l2).
  change (p0 :: l2) with ([p0] ++ l2). rewrite !in_flight_app, He. reflexivity.
Qed.

Lemma alive_update ts i p0 p :
  ts !! i = Some p0 -> p0 <> Exited -> p <> Exited -> alive (<[i := p]> ts) = alive ts.
Proof.
  intros Hi He Hp. destruct (thread_split ts i p0 Hi) as (l1 & l2 & -> & Hins).
  rewrite Hins, !alive_app, !alive_cons.
  destruct (decide (p0 = Exited)); [tauto|]. destruct (decide (p = Exited)); [tauto|lia].
Qed.

Lemma alive_exit ts i p0 :
  ts !! i = Some p0 -> p0 <> Exited -> alive ts = S (alive (<[i := Exited]> ts)).
Proof.
  intros Hi He. destruct (thread_split ts i p0 Hi) as (l1 & l2 & -> & Hins).
  rewrite Hins, !alive_app, !alive_cons.
  destruct (decide (p0 = Exited)); [tauto|]. destruct (decide (Exited = Exited)); [lia|tauto].
Qed.

Lemma alive_length ts : (alive ts <= length ts)%nat.
Proof. apply length_filter. Qed.

Lemma awake_update (ts : list phase) (i : nat) p (P : Prop) :
  (i < length ts)%nat -> p <> Sleeping ->
  (forall x, x ∈ <[i := p]> ts -> x = Sleeping) -> P.
Proof.
  intros Hi Hp Hall. destruct Hp. apply Hall.
  apply (list_elem_of_lookup_2 _ i). apply list_lookup_insert_eq. exact Hi.
Qed.

Lemma other_update (ts : list phase) (i : nat) p x :
  p <> x -> x ∈ <[i := p]> ts -> x ∈ ts.
Proof.
  intros Hp Hs. apply list_elem_of_lookup in Hs as [j Hj].
  destruct (decide (i = j)) as [->|Hne].
  - apply list_lookup_insert_Some in Hj. destruct Hj as [(_ & -> & _)|[Hne _]]; congruence.
  - rewrite list_lookup_insert_ne in Hj by auto. eapply list_elem_of_lookup_2; eauto.
Qed.

(** ** The operations keep the invariant *)

Lemma wq_init_inv n q : wq_init n = Some q -> Z.of_nat n < 2 ^ 32 -> wq_inv q [].
Proof.
  intros H Hn. destruct n as [|n]; [discriminate|].
  assert (Ef : forall k, in_flight (replicate k Locking) = []) by (induction k; auto).
  assert (Ea : forall k, alive (replicate k Locking) = k).
  { induction k as [|k IH]; [reflexivity|]. cbn [replicate]. rewrite alive_cons, IH. reflexivity. }
  cbn in H. injection H as <-. change (Locking :: replicate n Locking) with (replicate (S n) Locking).
  split; cbn [heap head tail done workers threads sig bcast app]; try done.
  - rewrite Ef. constructor.
  - rewrite Ef. set_solver.
  - rewrite Ea. reflexivity.
  - rewrite length_replicate. exact Hn.
  - intros _ Hx. apply list_elem_of_lookup in Hx as [j Hj].
    apply lookup_replicate in Hj as [E _]. discriminate.
Qed.

(** Enqueueing never fails while the queue is in use, and appends the job. *)
Lemma wq_enqueue_inv q ids w ty wk :
  wq_inv q ids -> done q = false -> heap q !! w = None ->
  exists q', wq_enqueue q w ty wk = Some q' /\ wq_inv q' (ids ++ [w]) /\
    jobs (heap q') (ids ++ [w]) = jobs (heap q) ids ++ [(ty, wk)] /\ done q' = false.
Proof.
  intros [Hl Hnd Hf Ht Hd Hw Hs Hne Hwk Hb Hex] Hdone Hfresh. specialize (Ht Hdone).
  assert (Hall : forall i, i ∈ ids -> is_Some (heap q !! i))
    by (intros; eapply linked_allocated; eauto).
  assert (Hnw : w ∉ ids ++ in_flight (threads q)).
  { rewrite elem_of_app. intros [Hi|Hi]; [destruct (Hall _ Hi)|destruct (Hf _ Hi)]; congruence. }
  assert (Hnd' : NoDup ((ids ++ [w]) ++ in_flight (threads q))).
  { rewrite <- app_assoc. apply NoDup_app in Hnd as (N1 & N2 & N3).
    apply NoDup_app. split; [exact N1|]. split; [set_solver|].
    apply NoDup_cons. split; [set_solver|exact N3]. }
  unfold wq_enqueue. rewrite Ht. destruct (last ids) as [t|] eqn:El.
  - destruct (Hall t) as [n Hn]; [apply last_Some_elem_of; exact El|].
    rewrite Hn. cbn. eexists. split; [reflexivity|].
    assert (Hnt : forall i, i ∈ in_flight (threads q) -> i <> t).
    { intros i Hi ->. apply NoDup_app in Hnd as (_ & N2 & _). eapply N2; eauto.
      apply last_Some_elem_of; exact El. }
    split; [|split; [|exact Hdone]].
    + split; cbn [heap head tail done workers threads sig bcast]; auto; try congruence; try lia.
      * eapply linked_snoc; eauto. apply NoDup_app in Hnd; tauto.
      * intros i Hi. rewrite lookup_insert_ne by (intros ->; eapply Hnt; eauto).
        rewrite lookup_insert_ne by set_solver. apply Hf; exact Hi.
      * intros _. rewrite last_snoc. reflexivity.
    + cbn [heap]. rewrite (jobs_snoc (heap q) ids t w n (Work ty wk None)); auto.
  - apply last_None in El. subst ids. eexists. split; [reflexivity|].
    cbn [app] in *. split; [|split; [|exact Hdone]].
    + split; cbn [heap head tail done workers threads sig bcast]; auto; try congruence; try lia.
      * cbn. split; [reflexivity|]. eexists. rewrite lookup_insert_eq. split; reflexivity.
      * intros i Hi. rewrite lookup_insert_ne by set_solver. apply Hf; exact Hi.
    + cbn. rewrite lookup_insert_eq. reflexivity.
Qed.

(** What a worker may find under the lock; the three outcomes of the handler. *)
Lemma wq_take_inv q ids i :
  wq_inv q ids -> threads q !! i = Some Locking ->
  exists q' ids', wq_take q i = Some q' /\ wq_inv q' ids' /\ done q' = done q /\
    heap q' = heap q /\
    ((done q = true /\ ids' = ids /\ threads q' !! i = Some Exited) \/
     (done q = false /\ ids = [] /\ ids' = [] /\ threads q' !! i = Some Sleeping) \/
     (done q = false /\ exists w n, ids = w :: ids' /\ heap q !! w = Some n /\
        threads q' !! i = Some (Working w))).
Proof.
  intros [Hl Hnd Hf Ht Hd Hw Hs Hne Hwk Hb Hex] Hi.
  assert (Hlt : (i < length (threads q))%nat) by (eapply lookup_lt_Some; eauto).
  assert (Hne' : forall p, <[i := p]> (threads q) <> []).
  { intros p E. apply (f_equal length) in E. rewrite length_insert in E. cbn in E. lia. }
  pose proof (alive_length (threads q)) as Hal.
  unfold wq_take. destruct (done q) eqn:Ed.
  - eexists _, ids. split; [reflexivity|]. cbn [done heap threads].
    rewrite list_lookup_insert_eq by exact Hlt.
    split; [|repeat split; auto; left; auto].
    pose proof (alive_exit _ _ _ Hi ltac:(discriminate)) as Ha.
    split; cbn [heap head tail done workers threads sig bcast]; auto.
    + rewrite (in_flight_update _ _ _ Exited Hi) by reflexivity. exact Hnd.
    + rewrite (in_flight_update _ _ _ Exited Hi) by reflexivity. exact Hf.
    + rewrite Hw, Ha. change (2 ^ 32) with 4294967296 in Hs. rewrite u32_small by lia. lia.
    + rewrite length_insert. exact Hs.
    + intros Hx. rewrite (Hd eq_refl) in Hx. contradiction.
    + intros _ Hsl. apply other_update in Hsl; [auto|discriminate].
    + discriminate.
  - destruct (head q) as [w|] eqn:Eh.
    + destruct ids as [|w' r]; [discriminate|]. destruct Hl as (Ew & n & Hn & Hr).
      injection Ew as <-. rewrite Hn. cbn. eexists _, r. split; [reflexivity|].
      cbn [done heap threads]. rewrite list_lookup_insert_eq by exact Hlt.
      split; [|repeat split; auto; right; right; split; [auto|exists w, n; auto]].
      destruct (thread_split _ _ _ Hi) as (l1 & l2 & El & Hins).
      pose proof (alive_update _ _ _ (Working w) Hi ltac:(discriminate) ltac:(discriminate)) as Ha.
      assert (Hp : in_flight (<[i := Working w]> (threads q)) ≡ₚ w :: in_flight (threads q)).
      { rewrite Hins, El, !in_flight_app. cbn. rewrite <- Permutation_middle. reflexivity. }
      split; cbn [heap head tail done workers threads sig bcast]; auto; try congruence.
      * rewrite Hp, <- Permutation_middle. exact Hnd.
      * intros x. rewrite Hp, elem_of_cons. intros [->|Hx]; eauto.
      * intros _. rewrite (Ht eq_refl). destruct r as [|y r]; cbn in Hr.
        -- rewrite Hr. reflexivity.
        -- destruct Hr as (-> & _). reflexivity.
      * rewrite length_insert. exact Hs.
      * intros _ Hall. eapply awake_update; [exact Hlt| |exact Hall]. discriminate.
      * intros Hdn Hxe. apply other_update in Hxe; [exact (Hex Hdn Hxe)|discriminate].
    + destruct ids as [|w' r]; [|destruct Hl; discriminate].
      eexists _, []. split; [reflexivity|].
      cbn [done heap threads]. rewrite list_lookup_insert_eq by exact Hlt.
      split; [|repeat split; auto; right; left; auto].
      pose proof (alive_update _ _ _ Sleeping Hi ltac:(discriminate) ltac:(discriminate)) as Ha.
      split; cbn [heap head tail done workers threads sig bcast]; auto; try congruence.
      * rewrite (in_flight_update _ _ _ Sleeping Hi) by reflexivity. exact Hnd.
      * rewrite (in_flight_update _ _ _ Sleeping Hi) by reflexivity. exact Hf.
      * rewrite length_insert. exact Hs.
      * intros Hdn Hxe. apply other_update in Hxe; [exact (Hex Hdn Hxe)|discriminate].
Qed.

(** Freeing a processed item does not touch the queue. *)
Lemma wq_finish_inv q ids i w :
  wq_inv q ids -> threads q !! i = Some (Working w) ->
  is_Some (heap q !! w) /\ wq_inv (wq_finish q i w) ids /\
  jobs (heap (wq_finish q i w)) ids = jobs (heap q) ids.
Proof.
  intros [Hl Hnd Hf Ht Hd Hw Hs Hne Hwk Hb Hex] Hi.
  assert (Hlt : (i < length (threads q))%nat) by (eapply lookup_lt_Some; eauto).
  destruct (thread_split _ _ _ Hi) as (l1 & l2 & El & Hins).
  assert (Hp : in_flight (threads q) ≡ₚ w :: in_flight (<[i := Locking]> (threads q))).
  { rewrite Hins, El, !in_flight_app. cbn. rewrite <- Permutation_middle. reflexivity. }
  pose proof (alive_update _ _ _ Locking Hi ltac:(discriminate) ltac:(discriminate)) as Ha.
  rewrite Hp, <- Permutation_middle in Hnd. apply NoDup_cons in Hnd as [Hx Hnd].
  assert (Hfr : forall j, j ∈ ids -> delete w (heap q) !! j = heap q !! j).
  { intros j Hj. apply lookup_delete_ne. set_solver. }
  split; [apply Hf; rewrite Hp; set_solver|]. split.
  - split; cbn [wq_finish heap head tail done workers threads sig bcast]; auto.
    + eapply linked_frame; eauto.
    + intros j Hj. rewrite lookup_delete_ne by set_solver. apply Hf. rewrite Hp. set_solver.
    + lia.
    + rewrite length_insert. exact Hs.
    + intros E. apply (f_equal length) in E. rewrite length_insert in E. cbn in E. lia.
    + intros _ Hall. eapply awake_update; [exact Hlt| |exact Hall]. discriminate.
    + intros Hdn Hsl. apply Hb; auto. apply other_update in Hsl; [auto|discriminate].
    + intros Hdn Hxe. apply other_update in Hxe; [exact (Hex Hdn Hxe)|discriminate].
  - apply jobs_frame. intros j Hj. cbn. rewrite Hfr by auto. reflexivity.
Qed.

(** Waking one sleeper, with the number of signals left. *)
Lemma wake_one_inv q ids i s :
  wq_inv q ids -> threads q !! i = Some Sleeping ->
  wq_inv (WQ (heap q) (head q) (tail q) (done q) (workers q)
             (<[i := Locking]> (threads q)) s (bcast q)) ids.
Proof.
  intros [Hl Hnd Hf Ht Hd Hw Hs Hne Hwk Hb Hex] Hi.
  assert (Hlt : (i < length (threads q))%nat) by (eapply lookup_lt_Some; eauto).
  pose proof (alive_update _ _ _ Locking Hi ltac:(discriminate) ltac:(discriminate)) as Ha.
  split; cbn [heap head tail done workers threads sig bcast]; auto.
  - rewrite (in_flight_update _ _ _ Locking Hi) by reflexivity. exact Hnd.
  - rewrite (in_flight_update _ _ _ Locking Hi) by reflexivity. exact Hf.
  - lia.
  - rewrite length_insert. exact Hs.
  - intros E. apply (f_equal length) in E. rewrite length_insert in E. cbn in E. lia.
  - intros _ Hall. eapply awake_update; [exact Hlt| |exact Hall]. discriminate.
  - intros Hdn Hsl. apply Hb; auto. apply other_update in Hsl; [auto|discriminate].
  - intros Hdn Hxe. apply other_update in Hxe; [exact (Hex Hdn Hxe)|discriminate].
Qed.

Lemma wq_signal_none_inv q ids :
  wq_inv q ids -> Sleeping ∉ threads q -> wq_inv (wq_signal q None) ids.
Proof.
  intros [Hl Hnd Hf Ht Hd Hw Hs Hne Hwk Hb Hex] Hns.
  split; cbn [wq_signal heap head tail done workers threads sig bcast]; auto.
  intros _ Hall. destruct Hns. destruct (threads q) as [|p ts] eqn:E; [contradiction|].
  rewrite (Hall p) by set_solver. set_solver.
Qed.

Lemma wq_broadcast_inv q ids : wq_inv q ids -> wq_inv (wq_broadcast q) ids.
Proof.
  intros [Hl Hnd Hf Ht Hd Hw Hs Hne Hwk Hb Hex].
  assert (Hns : Sleeping ∉ map wake (threads q)).
  { intros H. apply list_elem_of_fmap in H as (p & Hp & _). destruct p; discriminate. }
  split; cbn [wq_broadcast heap head tail done workers threads sig bcast]; auto.
  - rewrite in_flight_wake. exact Hnd.
  - rewrite in_flight_wake. exact Hf.
  - rewrite alive_wake. exact Hw.
  - rewrite length_map. exact Hs.
  - intros E. destruct (threads q); [contradiction|discriminate].
  - intros _ Hall. destruct Hns. destruct (threads q) as [|p ts]; [contradiction|].
    cbn [map] in *. rewrite (Hall (wake p)) by set_solver. set_solver.
  - intros Hdn Hxe. apply list_elem_of_fmap in Hxe as (p & Hp & Hin).
    destruct p; try discriminate. exact (Hex Hdn Hin).
Qed.

Lemma wq_destroy_inv q ids :
  wq_inv q ids -> exists q', wq_destroy q = Some q' /\ wq_inv q' [] /\ done q' = true /\
    tail q' = tail q /\ forall i, i ∈ ids -> heap q' !! i = None.
Proof.
  intros [Hl Hnd Hf Ht Hd Hw Hs Hne Hwk Hb Hex].
  pose proof Hnd as Hnd0. apply NoDup_app in Hnd0 as (N1 & N2 & N3).
  pose proof (linked_size _ _ _ Hl N1) as Hsz.
  destruct (free_work_spec (S (size (heap q))) (heap q) (head q) ids Hl N1) as (h & Hh & Hlk);
    [lia|].
  unfold wq_destroy. rewrite Hh. cbn. eexists. split; [reflexivity|].
  cbn [done tail heap]. split; [|repeat split; auto].
  - split; cbn [heap head tail done workers threads sig bcast]; auto; try done.
    intros w Hw'. rewrite Hlk. destruct (decide (w ∈ ids)); [|apply Hf; exact Hw'].
    exfalso. eapply N2; eauto.
  - intros i Hi. rewrite Hlk. destruct (decide (i ∈ ids)); [reflexivity|contradiction].
Qed.

(** ** Steps and runs *)

(** What each step does to the jobs on the queue. *)
Definition accounts (e : event) (before after : list (Z * Z)) (finished : bool) : Prop :=
  match e with
  | Put j => after = before ++ [j]
  | Take j => before = j :: after
  | Tau => after = before \/ (after = [] /\ finished = true)
  end.

Lemma wq_step_inv q e q' ids :
  wq_inv q ids -> wq_step q e q' ->
  exists ids', wq_inv q' ids' /\
    accounts e (jobs (heap q) ids) (jobs (heap q') ids') (done q') /\
    (done q = true -> done q' = true) /\ (e <> Tau -> done q = false).
Proof.
  intros Hi Hs. destruct Hs as [q q' w ty wk Hd Hw He|q q' i w n Hl Ht Hw Hn
    |q q' i Hl Ht Hw|q i w Hw|q i Hsg Hsl|q Hsg Hsl|q i Hsl|q q' Hd He|q Hb].
  - destruct (wq_enqueue_inv q ids w ty wk Hi Hd Hw) as (q1 & E & I & J & D).
    rewrite He in E. injection E as <-. exists (ids ++ [w]). split; [exact I|].
    split; [exact J|]. split; congruence.
  - destruct (wq_take_inv q ids i Hi Hl) as (q1 & ids' & E & I & D & H & C).
    rewrite Ht in E. injection E as <-. exists ids'. split; [exact I|].
    destruct C as [(_ & _ & C)|[(_ & _ & _ & C)|(D' & w' & n' & -> & Hn' & C)]]; try congruence.
    rewrite Hw in C. injection C as <-. rewrite Hn in Hn'. injection Hn' as <-.
    repeat split; try congruence. cbn. rewrite Hn, H. reflexivity.
  - destruct (wq_take_inv q ids i Hi Hl) as (q1 & ids' & E & I & D & H & C).
    rewrite Ht in E. injection E as <-. exists ids'. split; [exact I|].
    repeat split; try congruence. cbn. rewrite H.
    destruct C as [(_ & -> & C)|[(_ & -> & -> & C)|(_ & w' & n' & _ & _ & C)]]; auto.
    destruct Hw as [Hw|Hw]; congruence.
  - destruct (wq_finish_inv q ids i w Hi Hw) as (_ & I & J). exists ids.
    split; [exact I|]. split; [left; exact J|]. split; [auto|congruence].
  - exists ids. split; [apply wake_one_inv; auto|]. split; [left; reflexivity|]. split; [auto|congruence].
  - exists ids. split; [apply wq_signal_none_inv; auto|]. split; [left; reflexivity|]. split; [auto|congruence].
  - exists ids. split; [apply wake_one_inv; auto|]. split; [left; reflexivity|]. split; [auto|congruence].
  - destruct (wq_destroy_inv q ids Hi) as (q1 & E & I & D & _ & _).
    rewrite He in E. injection E as <-. exists []. split; [exact I|].
    split; [right; auto|]. split; [auto|congruence].
  - exists ids. split; [apply wq_broadcast_inv; auto|]. split; [left; reflexivity|]. split; [auto|congruence].
Qed.

(** The jobs put so far are those taken, those on the queue, and those the
    destruction of the queue dropped. *)
Lemma wq_run_inv q0 ps ts q :
  wq_run q0 ps ts q -> wq_inv q0 [] ->
  exists ids lost, wq_inv q ids /\ ps = ts ++ jobs (heap q) ids ++ lost /\
    (done q = false -> lost = []) /\ (done q = true -> ids = []).
Proof.
  intros Hr H0.
  induction Hr as [q|q0 q q' ps ts j Hr IH Hs|q0 q q' ps ts j Hr IH Hs|q0 q q' ps ts Hr IH Hs].
  - exists [], []. split; [exact H0|]. repeat split; auto.
  - destruct (IH H0) as (ids & lost & I & E & L & _).
    destruct (wq_step_inv _ _ _ _ I Hs) as (ids' & I' & A & _ & D). cbn in A.
    assert (lost = []) as -> by (apply L, D; discriminate).
    exists ids', []. split; [exact I'|]. rewrite A, E, !app_nil_r, <- app_assoc.
    repeat split; auto. apply (inv_done _ _ I').
  - destruct (IH H0) as (ids & lost & I & E & L & _).
    destruct (wq_step_inv _ _ _ _ I Hs) as (ids' & I' & A & _ & D). cbn in A.
    assert (lost = []) as -> by (apply L, D; discriminate).
    exists ids', []. split; [exact I'|]. rewrite E, A, !app_nil_r, <- app_assoc.
    repeat split; auto. apply (inv_done _ _ I').
  - destruct (IH H0) as (ids & lost & I & E & L & _).
    destruct (wq_step_inv _ _ _ _ I Hs) as (ids' & I' & A & Dm & _). cbn in A.
    destruct A as [A|[A Hd]].
    + exists ids', lost. rewrite A. split; [exact I'|]. repeat split; auto.
      * intros Hf. apply L. destruct (done q); [rewrite (Dm eq_refl) in Hf; discriminate|auto].
      * apply (inv_done _ _ I').
    + exists ids', (jobs (heap q) ids ++ lost). rewrite A. split; [exact I'|].
      repeat split; auto; [congruence|apply (inv_done _ _ I')].
Qed.

Definition wq_tau (q q' : work_queue_t) : Prop := wq_step q Tau q'.

(** A worker at the lock takes the oldest job. *)
Lemma take_step q ids i w n :
  wq_inv q ids -> threads q !! i = Some Locking -> done q = false ->
  head q = Some w -> heap q !! w = Some n ->
  exists q', wq_step q (Take (job n)) q'.
Proof.
  intros I Hi Hd Hh Hn. destruct (wq_take_inv q ids i I Hi) as (q' & ids' & E & _ & _ & _ & C).
  destruct C as [(C & _)|[(_ & -> & _)|(_ & w' & n' & -> & Hn' & Ht)]]; try congruence.
  - pose proof (inv_linked _ _ I) as Hl. cbn in Hl. congruence.
  - pose proof (inv_linked _ _ I) as (Hl & _). rewrite Hh in Hl. injection Hl as <-.
    exists q'. eapply step_take; eauto.
Qed.

Lemma phase_cases (ts : list phase) : ts <> [] -> Exited ∉ ts ->
  (exists i, ts !! i = Some Locking) \/ (exists i w, ts !! i = Some (Working w)) \/
  ((forall p, p ∈ ts -> p = Sleeping) /\ ts !! 0%nat = Some Sleeping).
Proof.
  intros Hne Hex. induction ts as [|p ts IH]; [contradiction|].
  destruct p as [| |w|]; [left; exists 0%nat; reflexivity| |right; left; exists 0%nat, w; reflexivity|].
  - destruct (decide (ts = [])) as [->|Hne'].
    + right; right. split; [set_solver|reflexivity].
    + destruct (IH Hne' ltac:(set_solver)) as [[i Hi]|[(i & w & Hi)|[Hall _]]].
      * left; exists (S i); exact Hi.
      * right; left; exists (S i), w; exact Hi.
      * right; right. split; [set_solver|reflexivity].
  - set_solver.
Qed.

(** The number of workers still to leave, counted with the item they hold. *)
Lemma exit_one q ids i p :
  wq_inv q ids -> done q = true -> threads q !! i = Some p -> p <> Exited ->
  exists q' ids', rtc wq_tau q q' /\ wq_inv q' ids' /\ done q' = true /\
    alive (threads q) = S (alive (threads q')).
Proof.
  intros I Hd Hi Hp.
  assert (HL : forall r, wq_inv r ids -> done r = true -> threads r !! i = Some Locking ->
    alive (threads r) = alive (threads q) ->
    exists q' ids', rtc wq_tau r q' /\ wq_inv q' ids' /\ done q' = true /\
      alive (threads q) = S (alive (threads q'))).
  { intros r Ir Dr Hr Ha.
    destruct (wq_take_inv r ids i Ir Hr) as (q' & ids' & E & I' & D & _ & C).
    destruct C as [(_ & _ & C)|[(C & _)|(C & _)]]; try congruence.
    exists q', ids'. split; [apply rtc_once; eapply step_wait_or_exit; eauto|].
    split; [exact I'|]. split; [congruence|]. rewrite <- Ha.
    unfold wq_take in E. rewrite Dr in E. injection E as <-. cbn [threads].
    eapply alive_exit; [exact Hr|discriminate]. }
  destruct p as [| |w|]; [apply HL; auto| | |contradiction].
  - assert (Hb : bcast q = true)
      by (apply (inv_bcast _ _ I Hd); eapply list_elem_of_lookup_2; eauto).
    destruct (HL (wq_broadcast q)) as (q' & ids' & R & Rest).
    + apply wq_broadcast_inv, I.
    + exact Hd.
    + cbn. rewrite list_lookup_fmap, Hi. reflexivity.
    + cbn. apply alive_wake.
    + exists q', ids'. split; [|exact Rest]. eapply rtc_l; [|exact R]. apply step_broadcast, Hb.
  - destruct (HL (wq_finish q i w)) as (q' & ids' & R & Rest).
    + apply (wq_finish_inv q ids i w I Hi).
    + exact Hd.
    + cbn. apply list_lookup_insert_eq. eapply lookup_lt_Some; eauto.
    + cbn. eapply alive_update; [exact Hi| |]; discriminate.
    + exists q', ids'. split; [|exact Rest]. eapply rtc_l; [|exact R]. apply step_finish, Hi.
Qed.

Lemma alive_exists ts : alive ts <> 0%nat -> exists i p, ts !! i = Some p /\ p <> Exited.
Proof.
  induction ts as [|p ts IH]; [intros H; contradiction|]. rewrite alive_cons.
  destruct (decide (p = Exited)) as [->|Hp].
  - intros H. destruct (IH H) as (i & p & Hi & Hp). exists (S i), p. auto.
  - intros _. exists 0%nat, p. auto.
Qed.

Lemma exit_all n q ids :
  wq_inv q ids -> done q = true -> alive (threads q) = n ->
  exists q' ids', rtc wq_tau q q' /\ wq_inv q' ids' /\ alive (threads q') = 0%nat.
Proof.
  revert q ids. induction n as [|n IH]; intros q ids I Hd Ha.
  - exists q, ids. split; [apply rtc_refl|auto].
  - destruct (alive_exists (threads q)) as (i & p & Hi & Hp); [lia|].
    destruct (exit_one q ids i p I Hd Hi Hp) as (q1 & ids1 & R1 & I1 & D1 & A1).
    destruct (IH q1 ids1 I1 D1) as (q2 & ids2 & R2 & I2 & A2); [lia|].
    exists q2, ids2. split; [etrans; [exact R1|exact R2]|auto].
Qed.

(** ** Properties *)

(** C17: the queue is first-in first-out and does every job once.  In every
    interleaving of producers, workers, wake-ups and the destruction, the jobs
    put so far are the jobs the workers took, in that order, followed by those
    linked on the queue and by those that [wq_destroy] dropped, of which there
    are none before it runs. *)
Theorem wq_fifo n q0 ps ts q :
  wq_init n = Some q0 -> Z.of_nat n < 2 ^ 32 -> wq_run q0 ps ts q ->
  exists ids lost, linked (heap q) (head q) ids /\
    ps = ts ++ jobs (heap q) ids ++ lost /\ (done q = false -> lost = []).
Proof.
  intros Hi Hn Hr. destruct (wq_run_inv q0 ps ts q Hr (wq_init_inv n q0 Hi Hn))
    as (ids & lost & I & E & L & _).
  exists ids, lost. split; [apply (inv_linked _ _ I)|auto].
Qed.


(** A run of two workers: one job is put, signalled and taken. *)
Definition run_init : work_queue_t := WQ ∅ None None false 2 [Locking; Locking] 0 false.
Definition run_put_state : work_queue_t :=
  WQ {[ 7%nat := Work 0 42 None ]} (Some 7%nat) (Some 7%nat) false 2 [Locking; Locking] 1 false.
Definition run_take_state : work_queue_t :=
  WQ {[ 7%nat := Work 0 42 None ]} None None false 2 [Locking; Working 7] 1 false.

Lemma run_example : wq_run run_init [(0, 42)] [(0, 42)] run_take_state.
Proof.
  apply (run_take _ run_put_state _ [(0, 42)] []).
  - apply (run_put _ run_init _ [] []); [constructor|].
    apply (step_enqueue _ _ 7 0 42); reflexivity.
  - change (0, 42) with (job (Work 0 42 None)).
    apply (step_take _ _ 1 7 (Work 0 42 None)); reflexivity.
Qed.

Lemma wq_fifo_witness :
  exists ids lost, linked (heap run_take_state) (head run_take_state) ids /\
    [(0, 42)] = [(0, 42)] ++ jobs (heap run_take_state) ids ++ lost /\
    (done run_take_state = false -> lost = []).
Proof. apply (wq_fifo 2 run_init); [reflexivity|lia|apply run_example]. Defined.


(** [wq_destroy] leaves [tail] at the last item it freed: a later [wq_enqueue]
    on the same structure writes to freed memory, unless [malloc] reuses that
    very block. *)
Theorem wq_destroy_dangling_tail q ids t q' w ty wk :
  wq_inv q ids -> done q = false -> last ids = Some t -> wq_destroy q = Some q' ->
  wq_enqueue q' w ty wk = None.
Proof.
  intros I Hd Hl Hq. destruct (wq_destroy_inv q ids I) as (q1 & E & _ & _ & Ht & Hf).
  rewrite Hq in E. injection E as <-. unfold wq_enqueue.
  rewrite Ht, (inv_tail _ _ I Hd), Hl. rewrite (Hf t); [reflexivity|].
  apply last_Some_elem_of, Hl.
Qed.
