(* ===== verification/Mem.v ===== *)
(** The heap of the TCP/IP stack, [SW_stub/lwtcp/mem.c]: a byte array divided
    into blocks, each with a header that gives the offsets of the next and the
    previous block and whether the block is in use. *)

From S2P Require Import Prelude.
From stdpp Require Import base gmap list relations.
From Stdlib Require Import ZArith Lia.

Local Open Scope Z_scope.

(** ** Configuration ([lwipopts.h]) and data *)

Definition MEM_ALIGNMENT : Z := 4.
Definition MEM_SIZE : Z := 5120000.
Definition MIN_SIZE : Z := 12.

(** [sizeof(struct mem)]: two 32-bit offsets and a byte, padded. *)
Definition SIZEOF_STRUCT_MEM : Z := 12.

Record mem := Hdr { next : Z; prev : Z; used : bool }.

(** The heap.  [ram] gives the headers that were written into the array, by
    offset; a header that a merge left inside a block keeps its value there.
    Pointers into the array are offsets; [ram_end] is the header at
    [MEM_SIZE].  [mem_sem] is the count of the semaphore that guards the
    heap, the rest the statistics. *)
Record mem_state := MemState {
  ram : gmap Z mem;
  lfree : Z;
  mem_sem : Z;
  st_used : Z;
  st_max : Z;
  st_err : Z
}.

Definition set_ram (s : mem_state) (h : gmap Z mem) : mem_state :=
  MemState h (lfree s) (mem_sem s) (st_used s) (st_max s) (st_err s).
Definition set_lfree (s : mem_state) (p : Z) : mem_state :=
  MemState (ram s) p (mem_sem s) (st_used s) (st_max s) (st_err s).

(** [sys_sem_wait] and [sys_sem_signal] on [mem_sem] ([sys_arch.c]): the count
    never exceeds one. *)
Definition sem_wait (s : mem_state) : outcome mem_state :=
  if 0 <? mem_sem s then
    Ret (MemState (ram s) (lfree s) (mem_sem s - 1) (st_used s) (st_max s) (st_err s))
  else Blocked.
Definition sem_signal (s : mem_state) : mem_state :=
  MemState (ram s) (lfree s) (if 1 <? mem_sem s + 1 then 1 else mem_sem s + 1)
           (st_used s) (st_max s) (st_err s).

(** Stores into one field of the header at an offset. *)
Definition set_next (h : gmap Z mem) (o n : Z) : outcome (gmap Z mem) :=
  m ← load (h !! o); Ret (<[o := Hdr n (prev m) (used m)]> h).
Definition set_prev (h : gmap Z mem) (o p : Z) : outcome (gmap Z mem) :=
  m ← load (h !! o); Ret (<[o := Hdr (next m) p (used m)]> h).
Definition set_used (h : gmap Z mem) (o : Z) (u : bool) : outcome (gmap Z mem) :=
  m ← load (h !! o); Ret (<[o := Hdr (next m) (prev m) u]> h).

(** ** Operations *)

Definition mem_init : mem_state :=
  MemState (<[0 := Hdr MEM_SIZE 0 false]> {[ MEM_SIZE := Hdr MEM_SIZE MEM_SIZE true ]})
           0 1 0 0 0.

(** "plug hole forward" *)
Definition plug_forward (h : gmap Z mem) (lf p : Z) : outcome (gmap Z mem * Z) :=
  m ← load (h !! p);
  let n := next m in
  nm ← load (h !! n);
  if negb (p =? n) && negb (used nm) && negb (n =? MEM_SIZE) then
    let lf := if lf =? n then p else lf in
    h ← set_next h p (next nm);
    h ← set_prev h (next nm) p;
    Ret (h, lf)
  else Ret (h, lf).

(** "plug hole backward" *)
Definition plug_backward (h : gmap Z mem) (lf p : Z) : outcome (gmap Z mem * Z) :=
  m ← load (h !! p);
  let b := prev m in
  pm ← load (h !! b);
  if negb (b =? p) && negb (used pm) then
    let lf := if lf =? p then b else lf in
    h ← set_next h b (next m);
    h ← set_prev h (next m) b;
    Ret (h, lf)
  else Ret (h, lf).

Definition plug_holes (s : mem_state) (p : Z) : outcome mem_state :=
  r ← plug_forward (ram s) (lfree s) p;
  let '(h, lf) := r in
  r ← plug_backward h lf p;
  let '(h, lf) := r in
  Ret (set_lfree (set_ram s h) lf).

(** The search loop of [mem_malloc] for the first block from [ptr] on that is
    free and large enough.  The fuel is the number of headers. *)
Fixpoint search (fuel : nat) (h : gmap Z mem) (ptr size : Z) : outcome (option Z) :=
  if ptr <? MEM_SIZE then
    match fuel with
    | O => Undef
    | S k =>
        m ← load (h !! ptr);
        if negb (used m) && (u32 (size + SIZEOF_STRUCT_MEM) <=? u32 (next m - (ptr + SIZEOF_STRUCT_MEM)))
        then Ret (Some ptr)
        else search k h (next m) size
    end
  else Ret None.

(** [while(lfree->used && lfree != ram_end) lfree = &ram[lfree->next]] *)
Fixpoint next_free (fuel : nat) (h : gmap Z mem) (lf : Z) : outcome Z :=
  m ← load (h !! lf);
  if used m && negb (lf =? MEM_SIZE) then
    match fuel with O => Undef | S k => next_free k h (next m) end
  else Ret lf.

(** The adjustment of the size for alignment. *)
Definition align_request (size : Z) : Z :=
  if truthy (size mod MEM_ALIGNMENT)
  then u32 (size + (MEM_ALIGNMENT - u32 (size + SIZEOF_STRUCT_MEM) mod MEM_ALIGNMENT))
  else size.

(** The body of the search loop for a block that fits: split it, mark it used
    and move [lfree] up. *)
Definition take_block (s : mem_state) (ptr size : Z) : outcome mem_state :=
  m ← load (ram s !! ptr);
  let ptr2 := u32 (ptr + SIZEOF_STRUCT_MEM + size) in
  let h := <[ptr2 := Hdr (next m) ptr false]> (ram s) in
  h ← set_next h ptr ptr2;
  h ← (if negb (next m =? MEM_SIZE) then set_prev h (next m) ptr2 else Ret h);
  h ← set_used h ptr true;
  let s := MemState h (lfree s) (mem_sem s) (u16 (st_used s + size))
             (if st_max s <? ptr2 then u16 ptr2 else st_max s) (st_err s) in
  if ptr =? lfree s then lf ← next_free (S (base.size (ram s))) (ram s) (lfree s); Ret (set_lfree s lf)
  else Ret s.

Definition mem_malloc (s : mem_state) (size : Z) : outcome (option Z * mem_state) :=
  if size =? 0 then Ret (None, s)
  else
    let size := align_request size in
    if MEM_SIZE <? size then Ret (None, s)
    else
      s ← sem_wait s;
      r ← search (S (base.size (ram s))) (ram s) (lfree s) size;
      match r with
      | Some ptr =>
          s ← take_block s ptr size;
          Ret (Some (ptr + SIZEOF_STRUCT_MEM), sem_signal s)
      | None =>
          Ret (None, sem_signal (MemState (ram s) (lfree s) (mem_sem s) (st_used s)
                                          (st_max s) (u16 (st_err s + 1))))
      end.

(** [mem_free]; the null pointer is [None]. *)
Definition mem_free (s : mem_state) (rmem : option Z) : outcome mem_state :=
  match rmem with
  | None => Ret s
  | Some r =>
      s ← sem_wait s;
      if (r <? 0) || (MEM_SIZE <=? r) then
        Ret (MemState (ram s) (lfree s) (mem_sem s) (st_used s) (st_max s) (u16 (st_err s + 1)))
      else
        let p := r - SIZEOF_STRUCT_MEM in
        h ← set_used (ram s) p false;
        m ← load (h !! p);
        let s := MemState h (if p <? lfree s then p else lfree s) (mem_sem s)
                   (u16 (st_used s - (next m - p - SIZEOF_STRUCT_MEM))) (st_max s) (st_err s) in
        s ← plug_holes s p;
        Ret (sem_signal s)
  end.

Definition mem_realloc (s : mem_state) (r newsize : Z) : outcome (Z * mem_state) :=
  s ← sem_wait s;
  if (r <? 0) || (MEM_SIZE <=? r) then Ret (r, s)
  else
    let ptr := r - SIZEOF_STRUCT_MEM in
    m ← load (ram s !! ptr);
    let size := u32 (next m - ptr - SIZEOF_STRUCT_MEM) in
    let s := MemState (ram s) (lfree s) (mem_sem s)
               (u16 (st_used s - u32 (size - newsize))) (st_max s) (st_err s) in
    if u32 (newsize + SIZEOF_STRUCT_MEM + MIN_SIZE) <? size then
      let ptr2 := u32 (ptr + SIZEOF_STRUCT_MEM + newsize) in
      let h := <[ptr2 := Hdr (next m) ptr false]> (ram s) in
      h ← set_next h ptr ptr2;
      h ← (if negb (next m =? MEM_SIZE) then set_prev h (next m) ptr2 else Ret h);
      s ← plug_holes (set_ram s h) ptr2;
      Ret (r, sem_signal s)
    else Ret (r, sem_signal s).

(** [mem_reclaim] calls the registered functions; each is a function of the
    state that returns what it freed.  [stats.mem.reclaimed] is not kept. *)
Definition mem_reclaim (mrlist : list (mem_state -> Z -> outcome mem_state))
    (s : mem_state) (size : Z) : outcome mem_state :=
  fold_left (fun acc f => s ← acc; f s size) mrlist (Ret s).

Definition mem_malloc2 (mrlist : list (mem_state -> Z -> outcome mem_state))
    (s : mem_state) (size : Z) : outcome (option Z * mem_state) :=
  r ← mem_malloc s size;
  match r with
  | (Some p, s) => Ret (Some p, s)
  | (None, s) => s ← mem_reclaim mrlist s size; mem_malloc s size
  end.

(** [mem_reallocm], without the copy of the bytes. *)
Definition mem_reallocm (s : mem_state) (r newsize : Z) : outcome (Z * mem_state) :=
  x ← mem_malloc s newsize;
  match x with
  | (None, s) => mem_realloc s r newsize
  | (Some nmem, s) => s ← mem_free s (Some r); Ret (nmem, s)
  end.

(** ** The partition into blocks

    A block is its offset, the offset of the next one and its use. *)

Record block := Block { b_off : Z; b_end : Z; b_used : bool }.

(** The headers from [o] (preceded by [pv]) up to [o'] (preceded by [pv']) are
    those of the blocks [bs]. *)
Fixpoint seg (h : gmap Z mem) (pv o : Z) (bs : list block) (pv' o' : Z) : Prop :=
  match bs with
  | [] => pv = pv' /\ o = o'
  | b :: r =>
      b_off b = o /\ h !! o = Some (Hdr (b_end b) pv (b_used b)) /\
      o + SIZEOF_STRUCT_MEM <= b_end b /\ seg h o (b_end b) r pv' o'
  end.

(** No two neighbouring blocks are free. *)
Fixpoint coalesced (bs : list block) : Prop :=
  match bs with
  | b :: ((c :: _) as r) => (b_used b = true \/ b_used c = true) /\ coalesced r
  | _ => True
  end.

(** The regions handed out: from after the header to the next block. *)
Definition regions (bs : list block) : list (Z * Z) :=
  map (fun b => (b_off b + SIZEOF_STRUCT_MEM, b_end b)) (filter (fun b => b_used b = true) bs).

(** [lfree] is the offset of a free block, or [ram_end]. *)
Definition lfree_ok (bs : list block) (lf : Z) : Prop :=
  lf = MEM_SIZE \/ exists b, b ∈ bs /\ b_off b = lf /\ b_used b = false.

Record heap_inv (h : gmap Z mem) (lf : Z) (bs : list block) : Prop := {
  inv_seg : exists pl, seg h 0 0 bs pl MEM_SIZE;
  inv_end : exists p, h !! MEM_SIZE = Some (Hdr MEM_SIZE p true);
  inv_coalesced : coalesced bs;
  inv_lfree : lfree_ok bs lf;
  inv_room : Forall (fun r => r.2 < MEM_SIZE) (regions bs)
}.

(** The invariant between the operations: the semaphore is free. *)
Definition mem_inv (s : mem_state) (bs : list block) : Prop :=
  heap_inv (ram s) (lfree s) bs /\ mem_sem s = 1.

(** What the comment on [lfree] says: no free block lies below it. *)
Definition lowest (lf : Z) (bs : list block) : Prop :=
  forall b, b ∈ bs -> b_used b = false -> lf <= b_off b.

Definition fits (b : block) (size : Z) : bool :=
  negb (b_used b) && (size + SIZEOF_STRUCT_MEM <=? b_end b - (b_off b + SIZEOF_STRUCT_MEM)).

Definition aligned (bs : list block) : Prop :=
  Forall (fun b => b_off b mod MEM_ALIGNMENT = 0 /\ b_end b mod MEM_ALIGNMENT = 0) bs.

(** ** Segments of the heap *)

Lemma seg_app h pv o l1 l2 pv' o' :
  seg h pv o (l1 ++ l2) pv' o' <->
  exists pm om, seg h pv o l1 pm om /\ seg h pm om l2 pv' o'.
Proof.
  revert pv o. induction l1 as [|b r IH]; intros pv o; cbn [app seg].
  - split; [intros H; exists pv, o; auto|intros (pm & om & [-> ->] & H); exact H].
  - rewrite IH. split.
    + intros (E & Hb & Hl & pm & om & H1 & H2). exists pm, om. auto.
    + intros (pm & om & (E & Hb & Hl & H1) & H2). repeat split; auto. exists pm, om. auto.
Qed.

Lemma seg_range h pv o bs pv' o' : seg h pv o bs pv' o' ->
  o <= o' /\ Forall (fun b => o <= b_off b /\ b_off b + SIZEOF_STRUCT_MEM <= b_end b <= o') bs.
Proof.
  revert pv o. induction bs as [|b r IH]; intros pv o; cbn [seg].
  - intros [_ ->]. split; [lia|constructor].
  - intros (E & _ & Hl & Hr). destruct (IH _ _ Hr) as [H1 H2]. unfold SIZEOF_STRUCT_MEM in *.
    split; [lia|]. constructor; [lia|]. eapply Forall_impl; [exact H2|]. intros x Hx. cbn in Hx. lia.
Qed.

Lemma seg_frame h h' pv o bs pv' o' :
  (forall x, o <= x < o' -> h' !! x = h !! x) -> seg h pv o bs pv' o' -> seg h' pv o bs pv' o'.
Proof.
  revert pv o. induction bs as [|b r IH]; intros pv o Hf; cbn [seg]; [auto|].
  intros (E & Hb & Hl & Hr). pose proof (seg_range _ _ _ _ _ _ Hr) as [Hx _].
  unfold SIZEOF_STRUCT_MEM in *. rewrite Hf by lia. repeat split; auto.
  apply IH; [|exact Hr]. intros x Hxr. apply Hf. lia.
Qed.

Lemma seg_nil h pv o bs pv' : seg h pv o bs pv' o -> bs = [].
Proof.
  destruct bs as [|b r]; [auto|]. cbn [seg]. intros (_ & _ & Hl & Hr).
  apply seg_range in Hr as [Hr _]. unfold SIZEOF_STRUCT_MEM in *. lia.
Qed.

Lemma seg_dom h pv o bs pv' o' : seg h pv o bs pv' o' ->
  NoDup (map b_off bs) /\ forall b, b ∈ bs -> is_Some (h !! b_off b).
Proof.
  revert pv o. induction bs as [|b r IH]; intros pv o; cbn [seg map].
  - intros _. split; [constructor|set_solver].
  - intros (E & Hb & Hl & Hr). destruct (IH _ _ Hr) as [Hnd Hin].
    apply seg_range in Hr as [_ Hr]. rewrite Forall_forall in Hr.
    split.
    + constructor; [|exact Hnd]. intros Hx. apply list_elem_of_fmap in Hx as (c & Ec & Hc).
      apply Hr in Hc. unfold SIZEOF_STRUCT_MEM in *. lia.
    + intros c Hc. apply elem_of_cons in Hc as [->|Hc]; [rewrite E; eauto|auto].
Qed.

(** There are at least as many headers as blocks: enough fuel for the loops. *)
Lemma seg_fuel h pv o bs pv' o' : seg h pv o bs pv' o' -> (length bs <= base.size h)%nat.
Proof.
  intros Hs. destruct (seg_dom _ _ _ _ _ _ Hs) as [Hnd Hin].
  rewrite <- (length_map b_off). rewrite <- size_dom.
  rewrite <- (size_list_to_set (C:=gset Z)) by exact Hnd.
  apply subseteq_size. intros x Hx. apply elem_of_list_to_set in Hx.
  apply list_elem_of_fmap in Hx as (b & -> & Hb). apply elem_of_dom, Hin, Hb.
Qed.

(** Giving the block at [o] another predecessor. *)
Lemma set_prev_seg h pv o bs pl e p :
  seg h pv o bs pl MEM_SIZE -> h !! MEM_SIZE = Some (Hdr MEM_SIZE e true) ->
  exists h' pl' e', set_prev h o p = Ret h' /\ seg h' p o bs pl' MEM_SIZE /\
    h' !! MEM_SIZE = Some (Hdr MEM_SIZE e' true) /\ forall x, x <> o -> h' !! x = h !! x.
Proof.
  intros Hs He. unfold set_prev. destruct bs as [|b r].
  - destruct Hs as [_ ->]. rewrite He. cbn. eexists _, p, p. split; [reflexivity|].
    split; [auto|]. rewrite lookup_insert_eq. split; [reflexivity|].
    intros x Hx. apply lookup_insert_ne. auto.
  - destruct Hs as (E & Hb & Hl & Hr). rewrite Hb. cbn. eexists _, pl, e. split; [reflexivity|].
    pose proof (seg_range _ _ _ _ _ _ Hr) as [Hlt _]. unfold SIZEOF_STRUCT_MEM in *.
    split; [|split].
    + cbn [seg]. rewrite lookup_insert_eq. repeat split; auto.
      eapply seg_frame; [|exact Hr]. intros x Hx. apply lookup_insert_ne. lia.
    + rewrite lookup_insert_ne by lia. exact He.
    + intros x Hx. apply lookup_insert_ne. auto.
Qed.

(** The same behind the test for [ram_end] of the splitting code. *)
Lemma set_prev_unless_end h pv o bs pl e p :
  seg h pv o bs pl MEM_SIZE -> h !! MEM_SIZE = Some (Hdr MEM_SIZE e true) ->
  exists h' pl' e', (if negb (o =? MEM_SIZE) then set_prev h o p else Ret h) = Ret h' /\
    seg h' p o bs pl' MEM_SIZE /\
    h' !! MEM_SIZE = Some (Hdr MEM_SIZE e' true) /\ forall x, x <> o -> h' !! x = h !! x.
Proof.
  intros Hs He. destruct (Z.eqb_spec o MEM_SIZE) as [->|Hne]; cbn [negb].
  - apply seg_nil in Hs. subst bs. exists h, p, e. repeat split; auto.
  - apply (set_prev_seg h pv o bs pl e p Hs He).
Qed.

(** Splitting the block at [p] in two at [p2], as [mem_malloc] and
    [mem_realloc] do; the first part gets the use [u]. *)
Definition split_headers (h : gmap Z mem) (p p2 n pv : Z) (u : bool) : gmap Z mem :=
  <[p := Hdr p2 pv u]> (<[p2 := Hdr n p false]> h).

Lemma split_seg h l1 l2 p p2 n pv u v pl e :
  seg h 0 0 (l1 ++ Block p n v :: l2) pl MEM_SIZE -> h !! p = Some (Hdr n pv v) ->
  h !! MEM_SIZE = Some (Hdr MEM_SIZE e true) ->
  p + SIZEOF_STRUCT_MEM <= p2 -> p2 + SIZEOF_STRUCT_MEM <= n ->
  exists h' pl' e',
    (if negb (n =? MEM_SIZE) then set_prev (split_headers h p p2 n pv u) n p2
     else Ret (split_headers h p p2 n pv u)) = Ret h' /\
    seg h' 0 0 (l1 ++ Block p p2 u :: Block p2 n false :: l2) pl' MEM_SIZE /\
    h' !! MEM_SIZE = Some (Hdr MEM_SIZE e' true) /\ h' !! p = Some (Hdr p2 pv u) /\
    h' !! p2 = Some (Hdr n p false).
Proof.
  intros Hs Hp He Hp2 Hn. apply seg_app in Hs as (pm & om & H1 & E & Hb & Hl & H2).
  cbn [b_off b_end b_used] in *. subst om. rewrite Hb in Hp. injection Hp as <-.
  pose proof (seg_range _ _ _ _ _ _ H2) as [Hn2 _]. unfold SIZEOF_STRUCT_MEM in *.
  assert (Hfr : forall x, x <> p -> x <> p2 -> split_headers h p p2 n pm u !! x = h !! x)
    by (intros x ? ?; unfold split_headers; rewrite !lookup_insert_ne by auto; reflexivity).
  destruct (set_prev_unless_end (split_headers h p p2 n pm u) p n l2 pl e p2)
    as (h' & pl' & e' & Hset & Hseg & Hend & Hsame).
  - eapply seg_frame; [|exact H2]. intros x Hx. apply Hfr; lia.
  - rewrite Hfr by lia. exact He.
  - assert (Hhp : h' !! p = Some (Hdr p2 pm u))
      by (rewrite Hsame by lia; unfold split_headers; apply lookup_insert_eq).
    assert (Hhp2 : h' !! p2 = Some (Hdr n p false)).
    { rewrite Hsame by lia. unfold split_headers.
      rewrite lookup_insert_ne, lookup_insert_eq by lia. reflexivity. }
    exists h', pl', e'. split; [exact Hset|]. split; [|auto].
    apply seg_app. exists pm, p. split.
    + eapply seg_frame; [|exact H1]. intros x Hx. rewrite Hsame, Hfr by lia. reflexivity.
    + cbn [seg b_off b_end b_used]. unfold SIZEOF_STRUCT_MEM. repeat split; auto; lia.
Qed.

(** ** Merging *)

(** Two neighbours become one block. *)
Lemma merge_seg h l1 a m n u v l2 pl e :
  seg h 0 0 (l1 ++ Block a m u :: Block m n v :: l2) pl MEM_SIZE ->
  h !! MEM_SIZE = Some (Hdr MEM_SIZE e true) ->
  exists h1 h2 pl' e' pv, set_next h a n = Ret h1 /\ set_prev h1 n a = Ret h2 /\
    seg h2 0 0 (l1 ++ Block a n u :: l2) pl' MEM_SIZE /\
    h2 !! MEM_SIZE = Some (Hdr MEM_SIZE e' true) /\
    h !! a = Some (Hdr m pv u) /\ h2 !! a = Some (Hdr n pv u).
Proof.
  intros Hs He. apply seg_app in Hs as (pv & o & H1 & E & Hb & Hl & E2 & Hb2 & Hl2 & H2).
  cbn [b_off b_end b_used] in *. subst o. clear E2.
  pose proof (seg_range _ _ _ _ _ _ H2) as [Hn2 _]. unfold SIZEOF_STRUCT_MEM in *.
  unfold set_next. rewrite Hb. cbn [load mbind outcome_bind].
  destruct (set_prev_seg (<[a := Hdr n pv u]> h) m n l2 pl e a) as (h2 & pl' & e' & Hset & Hseg & Hend & Hsame).
  - eapply seg_frame; [|exact H2]. intros x Hx. apply lookup_insert_ne. lia.
  - rewrite lookup_insert_ne by lia. exact He.
  - assert (Ha : h2 !! a = Some (Hdr n pv u)) by (rewrite Hsame, lookup_insert_eq by lia; reflexivity).
    exists (<[a := Hdr n pv u]> h), h2, pl', e', pv. split; [reflexivity|].
    split; [exact Hset|]. split; [|auto].
    apply seg_app. exists pv, a. split.
    + eapply seg_frame; [|exact H1]. intros x Hx. rewrite Hsame, lookup_insert_ne by lia. reflexivity.
    + cbn [seg b_off b_end b_used]. unfold SIZEOF_STRUCT_MEM. repeat split; auto; lia.
Qed.

(** What the two merges of [plug_holes] leave of the free block from [p] to [n]
    between the blocks [l1] and [l2]. *)
Definition head_free (l2 : list block) : bool :=
  match l2 with c :: _ => negb (b_used c) | [] => false end.

Definition merge_next (n : Z) (l2 : list block) : Z * list block :=
  match l2 with
  | c :: r => if negb (b_used c) then (b_end c, r) else (n, l2)
  | [] => (n, l2)
  end.

Definition merged (l1 : list block) (p n : Z) (l2 : list block) : list block :=
  let '(n, r) := merge_next n l2 in
  match last l1 with
  | Some c =>
      if negb (b_used c) then removelast l1 ++ Block (b_off c) n false :: r
      else l1 ++ Block p n false :: r
  | None => l1 ++ Block p n false :: r
  end.

Lemma plug_forward_spec h lf l1 p n l2 pl e :
  seg h 0 0 (l1 ++ Block p n false :: l2) pl MEM_SIZE ->
  h !! MEM_SIZE = Some (Hdr MEM_SIZE e true) ->
  exists h' pl' e', plug_forward h lf p =
      Ret (h', if head_free l2 && (lf =? n) then p else lf) /\
    seg h' 0 0 (l1 ++ Block p (merge_next n l2).1 false :: (merge_next n l2).2) pl' MEM_SIZE /\
    h' !! MEM_SIZE = Some (Hdr MEM_SIZE e' true).
Proof.
  intros Hs He. pose proof Hs as Hs0.
  apply seg_app in Hs as (pv & o & H1 & E & Hb & Hl & H2).
  cbn [b_off b_end b_used] in *. subst o. unfold SIZEOF_STRUCT_MEM in *.
  unfold plug_forward. rewrite Hb. cbn [load mbind outcome_bind next].
  destruct (Z.eqb_spec p n) as [|_]; [lia|].
  destruct l2 as [|c r].
  - destruct H2 as [_ ->]. rewrite He. cbn. exists h, pl, e. auto.
  - destruct c as [o n' u]. destruct H2 as (E2 & Hb2 & Hl2 & H2). cbn [b_off b_end b_used] in *. subst o.
    pose proof (seg_range _ _ _ _ _ _ H2) as [Hn2 _].
    rewrite Hb2. cbn [load mbind outcome_bind used next]. destruct u.
    + cbn. exists h, pl, e. auto.
    + cbn [negb andb merge_next head_free b_used fst snd b_end].
      destruct (Z.eqb_spec n MEM_SIZE) as [|_]; [unfold SIZEOF_STRUCT_MEM in *; lia|].
      destruct (merge_seg h l1 p n n' false false r pl e Hs0 He)
        as (h1 & h2 & pl' & e' & pv' & -> & Hp2 & Hseg & Hend & _). cbn [negb mbind outcome_bind].
      rewrite Hp2. cbn [mbind outcome_bind]. exists h2, pl', e'. auto.
Qed.

Lemma plug_backward_spec h lf l1 p n l2 pl e :
  seg h 0 0 (l1 ++ Block p n false :: l2) pl MEM_SIZE ->
  h !! MEM_SIZE = Some (Hdr MEM_SIZE e true) ->
  exists h' pl' e' lf', plug_backward h lf p = Ret (h', lf') /\
    h' !! MEM_SIZE = Some (Hdr MEM_SIZE e' true) /\
    match last l1 with
    | Some c =>
        if negb (b_used c)
        then seg h' 0 0 (removelast l1 ++ Block (b_off c) n false :: l2) pl' MEM_SIZE /\
             lf' = (if lf =? p then b_off c else lf)
        else seg h' 0 0 (l1 ++ Block p n false :: l2) pl' MEM_SIZE /\ lf' = lf
    | None => seg h' 0 0 (l1 ++ Block p n false :: l2) pl' MEM_SIZE /\ lf' = lf
    end.
Proof.
  intros Hs He. destruct l1 as [|c l1 _] using rev_ind.
  - pose proof Hs as (E & Hb & _). cbn [b_off b_end b_used] in *. subst p.
    unfold plug_backward. rewrite Hb. cbn [load mbind outcome_bind prev]. rewrite Hb. cbn.
    exists h, pl, e, lf. auto.
  - rewrite last_snoc, removelast_last. pose proof Hs as Hs0. rewrite <- app_assoc in Hs0. cbn [app] in Hs0.
    apply seg_app in Hs as (pv & o & H1 & E & Hb & Hl & H2).
    apply seg_app in H1 as (pm & om & H0 & E1 & Hc & Hlc & E2 & E3).
    destruct c as [oc nc uc]. cbn [b_off b_end b_used] in *.
    rewrite <- E in *. rewrite <- E1 in *. rewrite <- E2 in *. rewrite E3 in *. clear E E1 E2 E3.
    unfold SIZEOF_STRUCT_MEM in Hlc, Hl.
    unfold plug_backward. rewrite Hb. cbn [load mbind outcome_bind prev]. rewrite Hc.
    cbn [load mbind outcome_bind prev used].
    destruct (Z.eqb_spec oc p) as [|_]; [lia|]. cbn [negb andb].
    destruct uc; cbn [negb].
    + exists h, pl, e, lf. rewrite <- app_assoc. auto.
    + destruct (merge_seg h l1 oc p n false false l2 pl e Hs0 He)
        as (h1 & h2 & pl' & e' & pv' & Hn1 & Hp2 & Hseg & Hend & _).
      cbn [next]. rewrite Hn1. cbn [mbind outcome_bind]. rewrite Hp2. cbn [mbind outcome_bind].
      exists h2, pl', e', (if lf =? p then oc else lf). auto.
Qed.

(** Neighbours across a concatenation. *)
Definition apart (l1 l2 : list block) : Prop :=
  match last l1, head l2 with
  | Some a, Some b => b_used a = true \/ b_used b = true
  | _, _ => True
  end.

Lemma coalesced_app l1 l2 :
  coalesced (l1 ++ l2) <-> coalesced l1 /\ coalesced l2 /\ apart l1 l2.
Proof.
  unfold apart. induction l1 as [|b r IH]; [cbn; tauto|].
  destruct r as [|c r].
  - cbn [app last]. destruct l2 as [|d l2]; cbn; tauto.
  - cbn [app] in *. change (last (b :: c :: r)) with (last (c :: r)).
    cbn [coalesced] in *. rewrite IH. tauto.
Qed.

Lemma coalesced_cons b l :
  coalesced (b :: l) <-> coalesced l /\ apart [b] l.
Proof. change (b :: l) with ([b] ++ l). rewrite coalesced_app. cbn. tauto. Qed.

Lemma merged_coalesced l1 p n l2 :
  coalesced l1 -> coalesced l2 -> coalesced (merged l1 p n l2).
Proof.
  intros H1 H2. unfold merged.
  assert (H3 : coalesced (merge_next n l2).2 /\
    forall o e, apart [Block o e false] (merge_next n l2).2).
  { destruct l2 as [|c r]; [cbn; auto|]. cbn [merge_next]. destruct (b_used c) eqn:Eu; cbn.
    - split; [exact H2|]. intros. right. exact Eu.
    - apply coalesced_cons in H2 as [H2 Ha]. split; [exact H2|].
      intros o e. unfold apart in *. cbn in *. destruct (head r) as [d|]; [|exact I].
      destruct Ha as [Ha|Ha]; [congruence|auto]. }
  destruct (merge_next n l2) as [n' r]. cbn [fst snd] in H3. destruct H3 as [Hr Ha].
  assert (Hb : forall o e, coalesced (Block o e false :: r))
    by (intros; apply coalesced_cons; auto).
  destruct l1 as [|c l1 _] using rev_ind; [apply Hb|].
  rewrite last_snoc, removelast_last. apply coalesced_app in H1 as (Hl1 & _ & Hap).
  destruct (b_used c) eqn:Eu; cbn [negb].
  - rewrite <- app_assoc. cbn [app]. apply coalesced_app. split; [exact Hl1|]. split; [|exact Hap].
    apply coalesced_cons. split; [apply Hb|]. cbn. auto.
  - apply coalesced_app. split; [exact Hl1|]. split; [apply Hb|].
    unfold apart in *. cbn in *. destruct (last l1); [|exact I].
    destruct Hap as [Hap|Hap]; [auto|congruence].
Qed.

(** Where [lfree] points after the merges. *)
Definition merged_lfree (l1 : list block) (p n : Z) (l2 : list block) (lf : Z) : Z :=
  let lf := if head_free l2 && (lf =? n) then p else lf in
  match last l1 with
  | Some c => if negb (b_used c) then (if lf =? p then b_off c else lf) else lf
  | None => lf
  end.

(** The blocks of [merged] are blocks of the original list, or the new one. *)
Lemma merged_in l1 p n l2 :
  exists o e, Block o e false ∈ merged l1 p n l2 /\
    (forall lf, merged_lfree l1 p n l2 lf = o \/ merged_lfree l1 p n l2 lf = lf /\ lf <> p /\
       (head_free l2 = true -> lf <> n) \/ merged_lfree l1 p n l2 lf = lf /\ o = p /\
       (head_free l2 = true -> lf <> n)) /\
    (forall b, b ∈ merged l1 p n l2 -> b_used b = true \/ b_off b = o \/ b ∈ l1 ++ l2) /\
    (forall b, b ∈ l1 ++ l2 -> b_used b = false -> b ∈ merged l1 p n l2 \/
       b_off b = o \/ (head_free l2 = true /\ head l2 = Some b)) /\
    (o = p \/ exists b, b ∈ l1 /\ b_off b = o /\ b_used b = false).
Proof.
  unfold merged, merged_lfree.
  assert (H2 : forall b, b ∈ (merge_next n l2).2 -> b ∈ l2)
    by (destruct l2 as [|c r]; cbn; [auto|]; destruct (b_used c); cbn; set_solver).
  assert (H3 : forall b, b ∈ l2 -> b ∈ (merge_next n l2).2 \/ (head_free l2 = true /\ head l2 = Some b)).
  { destruct l2 as [|c r]; cbn; [set_solver|]. intros b Hb. destruct (b_used c); cbn; [auto|].
    apply elem_of_cons in Hb as [->|Hb]; auto. }
  destruct (merge_next n l2) as [n' r]. cbn [fst snd] in *.
  assert (Hlf : forall lf, (if head_free l2 && (lf =? n) then p else lf) = p \/
     (if head_free l2 && (lf =? n) then p else lf) = lf /\ (head_free l2 = true -> lf <> n)).
  { intros lf. destruct (head_free l2); cbn [andb]; [|right; split; [auto|discriminate]].
    destruct (Z.eqb_spec lf n); auto. }
  destruct l1 as [|c l1 _] using rev_ind; [|rewrite last_snoc, removelast_last; destruct (b_used c) eqn:Eu]; cbn [negb last].
  - exists p, n'. split; [set_solver|]. split; [intros lf; destruct (Hlf lf) as [->|[-> ?]]; auto|].
    split; [intros b Hb; cbn in *; apply elem_of_cons in Hb as [->|Hb]; cbn; auto|].
    split; [intros b Hb _; cbn in *; destruct (H3 b Hb); set_solver|auto].
  - exists p, n'. split; [set_solver|]. split; [intros lf; destruct (Hlf lf) as [->|[-> ?]]; auto|].
    split.
    + intros b Hb. apply elem_of_app in Hb as [Hb|Hb]; [right; right; set_solver|].
      apply elem_of_cons in Hb as [->|Hb]; cbn; [auto|right; right; set_solver].
    + split; [|auto]. intros b Hb _. apply elem_of_app in Hb as [Hb|Hb]; [left; set_solver|].
      destruct (H3 b Hb); [left; set_solver|auto].
  - exists (b_off c), n'. split; [set_solver|]. split.
    + intros lf. destruct (Hlf lf) as [->|[-> ?]]; [rewrite Z.eqb_refl; auto|].
      destruct (Z.eqb_spec lf p); auto.
    + split.
      * intros b Hb. apply elem_of_app in Hb as [Hb|Hb]; [right; right; set_solver|].
        apply elem_of_cons in Hb as [->|Hb]; cbn; [auto|right; right; set_solver].
      * split; [|right; exists c; set_solver].
        intros b Hb _. rewrite !elem_of_app, list_elem_of_singleton in Hb.
        destruct Hb as [[Hb| ->]|Hb]; [left; set_solver|auto|].
        destruct (H3 b Hb); [left; set_solver|auto].
Qed.

Lemma merged_lfree_ok l1 p n l2 lf :
  (forall c, head l2 = Some c -> b_off c = n) ->
  lfree_ok (l1 ++ Block p n false :: l2) lf ->
  lfree_ok (merged l1 p n l2) (merged_lfree l1 p n l2 lf).
Proof.
  intros Hn Hok. destruct (merged_in l1 p n l2) as (o & e & Ho & Hlf & _ & Hin & _).
  assert (Hoo : lfree_ok (merged l1 p n l2) o) by (right; exists (Block o e false); auto).
  destruct (Hlf lf) as [->|Hl]; [exact Hoo|].
  assert (E : merged_lfree l1 p n l2 lf = lf) by tauto. rewrite E.
  destruct Hok as [->|(b & Hb & Hbo & Hbu)]; [left; reflexivity|].
  rewrite elem_of_app, elem_of_cons in Hb.
  assert (Hc : b = Block p n false \/ b ∈ l1 ++ l2) by (rewrite elem_of_app; tauto).
  destruct Hc as [->|Hc].
  - cbn in Hbo. subst lf. destruct Hl as [(_ & Hx & _)|(_ & -> & _)]; [contradiction|exact Hoo].
  - destruct (Hin b Hc Hbu) as [Hm|[Hm|[Hf Hh]]].
    + right. exists b. auto.
    + rewrite <- Hbo, Hm. exact Hoo.
    + apply Hn in Hh. destruct Hl as [(_ & _ & Hx)|(_ & _ & Hx)]; destruct (Hx Hf); congruence.
Qed.

Lemma merged_lowest l1 p n l2 lf :
  p < n -> (forall b, b ∈ l1 -> b_off b < p) ->
  (forall b, b ∈ l1 ++ Block p n false :: l2 -> b_used b = false -> lf <= b_off b) ->
  forall b, b ∈ merged l1 p n l2 -> b_used b = false -> merged_lfree l1 p n l2 lf <= b_off b.
Proof.
  intros Hpn Hl1 Hlow b Hb Hu.
  assert (Hp : lf <= p) by (apply (Hlow (Block p n false)); [set_solver|reflexivity]).
  assert (E : merged_lfree l1 p n l2 lf = lf).
  { unfold merged_lfree. destruct (Z.eqb_spec lf n) as [|_]; [lia|]. rewrite andb_false_r.
    destruct (last l1) as [c|] eqn:El; [|reflexivity]. apply last_Some_elem_of in El.
    destruct (b_used c) eqn:Eu; cbn [negb]; [reflexivity|].
    destruct (Z.eqb_spec lf p) as [->|]; [|reflexivity].
    specialize (Hl1 c El). specialize (Hlow c ltac:(set_solver) Eu). lia. }
  rewrite E. destruct (merged_in l1 p n l2) as (o & e & _ & _ & Hin & _ & Ho).
  destruct (Hin b Hb) as [Hx|[Hx|Hx]]; [congruence| |].
  - rewrite Hx. destruct Ho as [->|(c & Hc & <- & Hcu)]; [exact Hp|].
    apply Hlow; [set_solver|exact Hcu].
  - apply Hlow; [set_solver|exact Hu].
Qed.

Lemma regions_app a b : regions (a ++ b) = regions a ++ regions b.
Proof. unfold regions. rewrite filter_app. apply map_app. Qed.

Lemma regions_cons b l :
  regions (b :: l) =
  (if b_used b then [(b_off b + SIZEOF_STRUCT_MEM, b_end b)] else []) ++ regions l.
Proof.
  unfold regions. destruct (b_used b) eqn:E.
  - rewrite filter_cons_True by exact E. reflexivity.
  - rewrite filter_cons_False by congruence. reflexivity.
Qed.

Lemma merged_regions l1 p n l2 :
  regions (merged l1 p n l2) = regions (l1 ++ l2).
Proof.
  unfold merged.
  assert (H2 : regions (merge_next n l2).2 = regions l2).
  { destruct l2 as [|c r]; [reflexivity|]. cbn [merge_next].
    destruct (b_used c) eqn:Eu; cbn [negb snd]; [reflexivity|].
    rewrite regions_cons, Eu. reflexivity. }
  destruct (merge_next n l2) as [n' r]. cbn [snd] in H2.
  destruct l1 as [|c l1 _] using rev_ind; [|rewrite last_snoc, removelast_last].
  - cbn [last app]. rewrite regions_cons, H2. reflexivity.
  - destruct (b_used c) eqn:Eu; cbn [negb];
      rewrite !regions_app, !regions_cons, Eu, H2; cbn; rewrite ?app_nil_r; reflexivity.
Qed.

Lemma merged_aligned l1 p n l2 :
  aligned (l1 ++ Block p n false :: l2) -> aligned (merged l1 p n l2).
Proof.
  unfold aligned, merged. intros H. apply Forall_app in H as [H1 H].
  apply Forall_cons in H as [[Hp Hn] H2]. cbn in Hp, Hn.
  assert (H3 : (merge_next n l2).1 mod MEM_ALIGNMENT = 0 /\
    Forall (fun b => b_off b mod MEM_ALIGNMENT = 0 /\ b_end b mod MEM_ALIGNMENT = 0) (merge_next n l2).2).
  { destruct l2 as [|c r]; [cbn; auto|]. cbn [merge_next].
    apply Forall_cons in H2 as [Hc Hr]. destruct (b_used c); cbn; [|tauto].
    split; [exact Hn|]. constructor; auto. }
  destruct (merge_next n l2) as [n' r]. cbn [fst snd] in H3. destruct H3 as [Hn' Hr].
  destruct l1 as [|c l1 _] using rev_ind; [|rewrite last_snoc, removelast_last].
  - cbn [last app]. constructor; auto.
  - apply Forall_app in H1 as [H1 Hc]. apply Forall_cons in Hc as [Hc _].
    destruct (b_used c); cbn [negb]; rewrite ?Forall_app, ?Forall_cons, ?Forall_nil; cbn; tauto.
Qed.

(** [plug_holes] on a block that has just become free. *)
Lemma plug_holes_spec s l1 p n l2 pl e :
  seg (ram s) 0 0 (l1 ++ Block p n false :: l2) pl MEM_SIZE ->
  ram s !! MEM_SIZE = Some (Hdr MEM_SIZE e true) ->
  exists h' pl' e', plug_holes s p =
      Ret (set_lfree (set_ram s h') (merged_lfree l1 p n l2 (lfree s))) /\
    seg h' 0 0 (merged l1 p n l2) pl' MEM_SIZE /\
    h' !! MEM_SIZE = Some (Hdr MEM_SIZE e' true).
Proof.
  intros Hs He. unfold plug_holes.
  destruct (plug_forward_spec (ram s) (lfree s) l1 p n l2 pl e Hs He) as (h1 & pl1 & e1 & -> & Hs1 & He1).
  cbn [mbind outcome_bind].
  set (lf1 := if head_free l2 && (lfree s =? n) then p else lfree s).
  destruct (plug_backward_spec h1 lf1 l1 p _ _ pl1 e1 Hs1 He1) as (h2 & pl2 & e2 & lf2 & -> & He2 & Hm).
  cbn [mbind outcome_bind]. exists h2, pl2, e2. unfold merged, merged_lfree. fold lf1.
  destruct (merge_next n l2) as [n' r]. cbn [fst snd] in *.
  destruct (last l1) as [c|]; [destruct (b_used c); cbn [negb] in *|];
    destruct Hm as [Hm ->]; auto.
Qed.

(** ** Looking for a block *)

(** Where [lfree] cuts the list of blocks. *)
Lemma lfree_split h lf bs : heap_inv h lf bs ->
  exists l1 l2 pm pl, bs = l1 ++ l2 /\ seg h 0 0 l1 pm lf /\ seg h pm lf l2 pl MEM_SIZE.
Proof.
  intros I. destruct (inv_seg _ _ _ I) as [pl Hs]. destruct (inv_lfree _ _ _ I) as [E|(b & Hb & Ho & _)].
  - exists bs, [], pl, pl. rewrite app_nil_r, E. cbn. auto.
  - apply list_elem_of_split in Hb as (l1 & l2 & ->).
    apply seg_app in Hs as (pm & om & H1 & H2). pose proof H2 as (E & _).
    rewrite Ho in E. subst om. exists l1, (b :: l2), pm, pl. auto.
Qed.

(** The loop of [mem_malloc] stops at the first block that fits. *)
Lemma search_spec fuel h pm o bs pl size :
  seg h pm o bs pl MEM_SIZE -> 0 <= o -> 0 <= size <= MEM_SIZE -> (length bs < fuel)%nat ->
  (search fuel h o size = Ret None /\ Forall (fun b => fits b size = false) bs) \/
  (exists l1 b l2, bs = l1 ++ b :: l2 /\ search fuel h o size = Ret (Some (b_off b)) /\
     Forall (fun b => fits b size = false) l1 /\ fits b size = true).
Proof.
  intros Hs Ho Hz Hf. revert pm o bs Hs Ho Hf.
  induction fuel as [|k IH]; intros pm o bs Hs Ho Hf; [lia|]. cbn [search].
  destruct bs as [|b r].
  - destruct Hs as [_ ->]. rewrite Z.ltb_irrefl. left. auto.
  - destruct Hs as (E & Hb & Hl & Hr). pose proof (seg_range _ _ _ _ _ _ Hr) as [Hlt _].
    unfold SIZEOF_STRUCT_MEM, MEM_SIZE in *.
    destruct (Z.ltb_spec o 5120000) as [_|]; [|lia]. rewrite Hb.
    cbn [load mbind outcome_bind used next].
    rewrite !u32_small by lia.
    assert (Efit : negb (b_used b) && (size + 12 <=? b_end b - (o + 12)) = fits b size)
      by (unfold fits, SIZEOF_STRUCT_MEM; rewrite E; reflexivity).
    rewrite Efit. destruct (fits b size) eqn:Ef.
    + right. exists [], b, r. rewrite E. auto.
    + destruct (IH _ _ r Hr ltac:(lia) ltac:(cbn in Hf; lia)) as [[-> Hall]|(l1 & c & l2 & -> & -> & Hall & Hc)].
      * left. auto.
      * right. exists (b :: l1), c, l2. auto.
Qed.

Lemma truthy_true x : truthy x = true <-> x <> 0.
Proof. unfold truthy. destruct (Z.eqb_spec x 0); cbn; split; congruence. Qed.

(** Every request that does not wrap is rounded up to the alignment. *)
Lemma align_request_spec size : 0 <= size < 2 ^ 32 - 32 ->
  size <= align_request size < size + MEM_ALIGNMENT /\ align_request size mod MEM_ALIGNMENT = 0.
Proof.
  change (2 ^ 32) with 4294967296. unfold align_request, SIZEOF_STRUCT_MEM, MEM_ALIGNMENT.
  intros H. destruct (truthy (size mod 4)) eqn:E.
  - apply truthy_true in E. rewrite (u32_small (size + 12)) by lia. rewrite u32_small by divmod. divmod.
  - unfold truthy in E. destruct (Z.eqb_spec (size mod 4) 0); [lia|discriminate].
Qed.

(** Changing the use of one block. *)
Lemma set_used_seg h l1 p n u v l2 pl e :
  seg h 0 0 (l1 ++ Block p n u :: l2) pl MEM_SIZE ->
  h !! MEM_SIZE = Some (Hdr MEM_SIZE e true) ->
  exists h' pv, set_used h p v = Ret h' /\ seg h' 0 0 (l1 ++ Block p n v :: l2) pl MEM_SIZE /\
    h' !! MEM_SIZE = Some (Hdr MEM_SIZE e true) /\ h' !! p = Some (Hdr n pv v).
Proof.
  intros Hs He. apply seg_app in Hs as (pv & o & H1 & E & Hb & Hl & H2).
  cbn [b_off b_end b_used] in *. subst o. pose proof (seg_range _ _ _ _ _ _ H2) as [Hn _].
  unfold SIZEOF_STRUCT_MEM in *. unfold set_used. rewrite Hb. cbn [load mbind outcome_bind next prev].
  exists (<[p := Hdr n pv v]> h), pv. split; [reflexivity|].
  rewrite lookup_insert_eq, lookup_insert_ne by lia. split; [|auto].
  apply seg_app. exists pv, p. split.
  - eapply seg_frame; [|exact H1]. intros x Hx. apply lookup_insert_ne. lia.
  - cbn [seg b_off b_end b_used]. rewrite lookup_insert_eq. unfold SIZEOF_STRUCT_MEM.
    repeat split; auto. eapply seg_frame; [|exact H2]. intros x Hx. apply lookup_insert_ne. lia.
Qed.

(** Splitting the block found. *)
Lemma take_block_spec s l1 p n l2 size :
  heap_inv (ram s) (lfree s) (l1 ++ Block p n false :: l2) -> 0 < size <= MEM_SIZE ->
  fits (Block p n false) size = true ->
  let p2 := p + SIZEOF_STRUCT_MEM + size in
  exists s', take_block s p size = Ret s' /\
    heap_inv (ram s') (lfree s') (l1 ++ Block p p2 true :: Block p2 n false :: l2) /\
    lfree s' = (if p =? lfree s then p2 else lfree s) /\ mem_sem s' = mem_sem s.
Proof.
  intros I Hz Hfit p2. destruct (inv_seg _ _ _ I) as [pl Hs]. destruct (inv_end _ _ _ I) as [e He].
  unfold fits in Hfit. cbn [b_used b_end b_off negb andb] in Hfit. apply Z.leb_le in Hfit.
  assert (Hp2 : p + SIZEOF_STRUCT_MEM <= p2 /\ p2 + SIZEOF_STRUCT_MEM <= n)
    by (subst p2; unfold SIZEOF_STRUCT_MEM in *; lia).
  pose proof Hs as Hs0. apply seg_app in Hs0 as (pv & o & H1 & E & Hb & Hl & H2).
  cbn [b_off b_end b_used] in *. subst o.
  pose proof (seg_range _ _ _ _ _ _ H1) as [Hp0 _]. pose proof (seg_range _ _ _ _ _ _ H2) as [Hn _].
  destruct (split_seg (ram s) l1 l2 p p2 n pv false false pl e Hs Hb He)
    as (h1 & pl1 & e1 & Hset & Hs1 & He1 & _ & _); [lia..|].
  destruct (set_used_seg h1 l1 p p2 false true _ pl1 e1 Hs1 He1) as (h2 & pv2 & Hu & Hs2 & He2 & Hhp).
  assert (Hp2f : h2 !! p2 = Some (Hdr n p false)).
  { apply seg_app in Hs2 as (q & o & _ & Eo & _ & _ & _ & H & _).
    cbn [b_off b_end b_used] in *. subst o. exact H. }
  unfold take_block. rewrite Hb. cbn [load mbind outcome_bind next].
  unfold MEM_SIZE, SIZEOF_STRUCT_MEM in Hz, Hn, Hp2. fold p2.
  change (u32 (p + SIZEOF_STRUCT_MEM + size)) with (u32 p2). rewrite (u32_small p2) by lia.
  unfold set_next. rewrite (lookup_insert_ne _ p2 p) by lia. rewrite Hb.
  cbn [load mbind outcome_bind prev used].
  change (<[p:=Hdr p2 pv false]> (<[p2:=Hdr n p false]> (ram s)))
    with (split_headers (ram s) p p2 n pv false).
  rewrite Hset. cbn [mbind outcome_bind]. rewrite Hu. cbn [mbind outcome_bind lfree ram].
  assert (Hc : coalesced (l1 ++ Block p p2 true :: Block p2 n false :: l2)).
  { pose proof (inv_coalesced _ _ _ I) as Hc. apply coalesced_app in Hc as (C1 & C2 & C3).
    apply coalesced_cons in C2 as [C2 C4].
    apply coalesced_app. split; [exact C1|]. split.
    - apply coalesced_cons. split; [|cbn; auto]. apply coalesced_cons. auto.
    - unfold apart in *. cbn in *. destruct (last l1); auto. }
  assert (Hroom : Forall (fun r => r.2 < MEM_SIZE)
      (regions (l1 ++ Block p p2 true :: Block p2 n false :: l2))).
  { pose proof (inv_room _ _ _ I) as Hr. rewrite regions_app, !regions_cons in *.
    cbn [b_used b_off b_end app] in *. rewrite Forall_app in *. rewrite Forall_cons.
    cbn [snd]. unfold MEM_SIZE. split; [tauto|]. split; [lia|tauto]. }
  destruct (Z.eqb_spec p (lfree s)) as [Ep|Ep].
  - rewrite <- Ep. cbn [next_free]. rewrite Hhp. cbn [load mbind outcome_bind used].
    destruct (Z.eqb_spec p MEM_SIZE) as [|_]; [unfold MEM_SIZE in *; lia|]. cbn [andb negb next].
    assert (Hn2 : forall k, next_free k h2 p2 = Ret p2)
      by (intros [|k]; cbn [next_free]; rewrite Hp2f; reflexivity).
    rewrite Hn2. cbn [mbind outcome_bind]. eexists. split; [reflexivity|].
    cbn [set_lfree ram lfree mem_sem]. split; [|auto].
    split; [eexists; exact Hs2|eexists; exact He2|exact Hc| |exact Hroom].
    right. exists (Block p2 n false). split; [set_solver|auto].
  - eexists. split; [reflexivity|]. cbn [ram lfree mem_sem]. split; [|auto].
    split; [eexists; exact Hs2|eexists; exact He2|exact Hc| |exact Hroom].
    destruct (inv_lfree _ _ _ I) as [Em|(b & Hb' & Ho & Hf)]; [left; exact Em|right].
    exists b. split; [|auto]. rewrite elem_of_app, elem_of_cons in Hb'.
    destruct Hb' as [Hb'|[->|Hb']]; [set_solver|cbn in Ho; contradiction|set_solver].
Qed.

(** [mem_malloc], in terms of the blocks. *)
Lemma mem_malloc_run s bs size :
  mem_inv s bs -> 0 < size < 2 ^ 32 - 32 ->
  (exists s', mem_malloc s size = Ret (None, s') /\ mem_inv s' bs /\ lfree s' = lfree s /\
     forall b, b ∈ bs -> lfree s <= b_off b -> fits b (align_request size) = false) \/
  (exists l1 p n l2 s',
     let p2 := p + SIZEOF_STRUCT_MEM + align_request size in
     let bs' := l1 ++ Block p p2 true :: Block p2 n false :: l2 in
     bs = l1 ++ Block p n false :: l2 /\ fits (Block p n false) (align_request size) = true /\
     (forall b, b ∈ l1 -> lfree s <= b_off b -> fits b (align_request size) = false) /\
     mem_malloc s size = Ret (Some (p + SIZEOF_STRUCT_MEM), s') /\ mem_inv s' bs' /\
     lfree s <= p /\ lfree s' = (if p =? lfree s then p2 else lfree s)).
Proof.
  intros [I Hsem] Hz. destruct (align_request_spec size) as [Ha _]; [lia|].
  unfold MEM_ALIGNMENT in Ha. change (2 ^ 32) with 4294967296 in Hz.
  set (sz := align_request size) in *. unfold mem_malloc.
  destruct (Z.eqb_spec size 0) as [|_]; [lia|]. fold sz.
  destruct (lfree_split _ _ _ I) as (l1 & l2 & pm & pl & -> & H1 & H2).
  pose proof (seg_range _ _ _ _ _ _ H1) as [Hlf R1]. pose proof (seg_range _ _ _ _ _ _ H2) as [_ R2].
  rewrite Forall_forall in R1, R2.
  destruct (Z.ltb_spec MEM_SIZE sz) as [Hbig|Hsmall].
  - left. exists s. split; [reflexivity|]. split; [split; auto|]. split; [reflexivity|].
    intros b Hb Hlo. unfold fits. apply andb_false_iff. right. apply Z.leb_gt.
    apply elem_of_app in Hb as [Hb|Hb]; [specialize (R1 b Hb)|specialize (R2 b Hb)];
      cbn in *; unfold SIZEOF_STRUCT_MEM in *; lia.
  - unfold sem_wait. rewrite Hsem. cbn [Z.ltb Z.compare mbind outcome_bind ram lfree].
    destruct (search_spec (S (base.size (ram s))) (ram s) pm (lfree s) l2 pl sz H2)
      as [[-> Hall]|(a & b & c & Hl2 & -> & Hall & Hfit)]; [lia|lia| | |].
    + pose proof (seg_fuel _ _ _ _ _ _ H2). lia.
    + left. cbn [mbind outcome_bind]. eexists. split; [reflexivity|].
      split; [split; [exact I|reflexivity]|]. split; [reflexivity|].
      intros b Hb Hlo. rewrite Forall_forall in Hall. apply elem_of_app in Hb as [Hb|Hb]; [|auto].
      specialize (R1 b Hb). cbn in R1. unfold SIZEOF_STRUCT_MEM in *. lia.
    + right. destruct b as [p n u]. cbn [b_off mbind outcome_bind] in *.
      assert (u = false) as -> by (unfold fits in Hfit; destruct u; [discriminate|reflexivity]).
      rewrite Hl2 in I, R2. rewrite app_assoc in I.
      destruct (take_block_spec (MemState (ram s) (lfree s) (1 - 1) (st_used s) (st_max s) (st_err s))
        (l1 ++ a) p n c sz I) as (s' & Ht & I' & Elf & Es); [lia|exact Hfit|].
      rewrite Ht. cbn [mbind outcome_bind]. exists (l1 ++ a), p, n, c, (sem_signal s').
      rewrite Hl2, app_assoc. split; [reflexivity|]. split; [exact Hfit|]. split; [|split; [reflexivity|]].
      * intros b Hb Hlo. apply elem_of_app in Hb as [Hb|Hb].
        -- specialize (R1 b Hb). cbn in R1. unfold SIZEOF_STRUCT_MEM in *. lia.
        -- rewrite Forall_forall in Hall. auto.
      * split; [|split; [|exact Elf]].
        -- split; [exact I'|]. cbn [sem_signal mem_sem]. rewrite Es. reflexivity.
        -- specialize (R2 (Block p n false) ltac:(set_solver)). cbn in R2. lia.
Qed.

Lemma in_regions bs r e : (r, e) ∈ regions bs <->
  exists l1 l2, bs = l1 ++ Block (r - SIZEOF_STRUCT_MEM) e true :: l2.
Proof.
  unfold regions. rewrite list_elem_of_fmap. split.
  - intros ([o n u] & E & Hb). apply list_elem_of_filter in Hb as [Hu Hb]. cbn in *. subst u.
    injection E as -> ->. apply list_elem_of_split in Hb as (l1 & l2 & ->). exists l1, l2.
    do 3 f_equal. lia.
  - intros (l1 & l2 & ->). exists (Block (r - SIZEOF_STRUCT_MEM) e true). cbn.
    split; [f_equal; lia|]. apply list_elem_of_filter. split; [reflexivity|set_solver].
Qed.

(** [mem_free] of a block in use, in terms of the blocks. *)
Lemma mem_free_run s l1 p n l2 :
  mem_inv s (l1 ++ Block p n true :: l2) ->
  exists s', mem_free s (Some (p + SIZEOF_STRUCT_MEM)) = Ret s' /\ mem_inv s' (merged l1 p n l2) /\
    lfree s' = merged_lfree l1 p n l2 (if p <? lfree s then p else lfree s).
Proof.
  intros [I Hsem]. destruct (inv_seg _ _ _ I) as [pl Hs]. destruct (inv_end _ _ _ I) as [e He].
  pose proof (inv_room _ _ _ I) as Hroom. pose proof (inv_coalesced _ _ _ I) as Hco.
  rewrite regions_app, regions_cons in Hroom. cbn [b_used b_off b_end app] in Hroom.
  apply Forall_app in Hroom as [Hr1 Hr2]. apply Forall_cons in Hr2 as [Hnm Hr2]. cbn [snd] in Hnm.
  pose proof Hs as Hs0. apply seg_app in Hs0 as (pv & o & H1 & E & Hb & Hl & H2).
  cbn [b_off b_end b_used] in *. subst o.
  pose proof (seg_range _ _ _ _ _ _ H1) as [Hp0 _].
  unfold mem_free, sem_wait. rewrite Hsem. cbn [Z.ltb Z.compare mbind outcome_bind ram lfree].
  destruct (Z.ltb_spec (p + SIZEOF_STRUCT_MEM) 0) as [|_]; [unfold SIZEOF_STRUCT_MEM in *; lia|].
  destruct (Z.leb_spec MEM_SIZE (p + SIZEOF_STRUCT_MEM)) as [|_];
    [unfold SIZEOF_STRUCT_MEM in *; lia|]. cbn [orb].
  replace (p + SIZEOF_STRUCT_MEM - SIZEOF_STRUCT_MEM) with p by lia.
  destruct (set_used_seg (ram s) l1 p n true false l2 pl e Hs He) as (h1 & pv' & -> & Hs1 & He1 & Hhp).
  cbn [mbind outcome_bind]. rewrite Hhp. cbn [load mbind outcome_bind next].
  set (lf := if p <? lfree s then p else lfree s).
  destruct (plug_holes_spec (MemState h1 lf (mem_sem s - 1)
      (u16 (st_used s - (n - p - SIZEOF_STRUCT_MEM))) (st_max s) (st_err s)) l1 p n l2 pl e Hs1 He1)
    as (h2 & pl2 & e2 & Hpl & Hs2 & He2).
  rewrite Hsem in Hpl. cbn [mem_sem lfree st_used st_max st_err] in *. cbn in Hpl |- *. rewrite Hpl.
  eexists. split; [reflexivity|]. cbn [sem_signal set_lfree set_ram ram lfree mem_sem].
  split; [|reflexivity]. split; [|reflexivity]. cbn [ram lfree].
  apply coalesced_app in Hco as (C1 & C2 & _). apply coalesced_cons in C2 as [C2 _].
  split.
  - exists pl2. exact Hs2.
  - exists e2. exact He2.
  - apply merged_coalesced; auto.
  - apply merged_lfree_ok.
    + intros c Hc. destruct l2 as [|d r]; [discriminate|]. injection Hc as ->. apply H2.
    + subst lf. destruct (Z.ltb_spec p (lfree s)) as [_|_].
      * right. exists (Block p n false). split; [set_solver|auto].
      * destruct (inv_lfree _ _ _ I) as [Em|(b & Hb' & Ho & Hf)]; [left; exact Em|right].
        exists b. split; [|auto]. rewrite elem_of_app, elem_of_cons in *.
        destruct Hb' as [Hb'|[->|Hb']]; [auto|discriminate|auto].
  - rewrite merged_regions, regions_app. apply Forall_app. auto.
Qed.

(** [mem_realloc] of a block in use, in terms of the blocks. *)
Lemma mem_realloc_run s l1 p n l2 newsize :
  mem_inv s (l1 ++ Block p n true :: l2) -> 0 <= newsize < 2 ^ 32 - 32 ->
  exists s' bs', mem_realloc s (p + SIZEOF_STRUCT_MEM) newsize = Ret (p + SIZEOF_STRUCT_MEM, s') /\
    mem_inv s' bs' /\
    bs' = (if newsize + SIZEOF_STRUCT_MEM + MIN_SIZE <? n - p - SIZEOF_STRUCT_MEM
           then merged (l1 ++ [Block p (p + SIZEOF_STRUCT_MEM + newsize) true])
                  (p + SIZEOF_STRUCT_MEM + newsize) n l2
           else l1 ++ Block p n true :: l2).
Proof.
  intros [I Hsem] Hz. destruct (inv_seg _ _ _ I) as [pl Hs]. destruct (inv_end _ _ _ I) as [e He].
  pose proof (inv_room _ _ _ I) as Hroom. pose proof (inv_coalesced _ _ _ I) as Hco.
  rewrite regions_app, regions_cons in Hroom. cbn [b_used b_off b_end app] in Hroom.
  apply Forall_app in Hroom as [Hr1 Hr2]. apply Forall_cons in Hr2 as [Hnm Hr2]. cbn [snd] in Hnm.
  pose proof Hs as Hs0. apply seg_app in Hs0 as (pv & o & H1 & E & Hb & Hl & H2).
  cbn [b_off b_end b_used] in *. subst o. change (2 ^ 32) with 4294967296 in Hz.
  pose proof (seg_range _ _ _ _ _ _ H1) as [Hp0 _].
  unfold mem_realloc, sem_wait. rewrite Hsem. cbn [Z.ltb Z.compare mbind outcome_bind ram lfree].
  destruct (Z.ltb_spec (p + SIZEOF_STRUCT_MEM) 0) as [|_]; [unfold SIZEOF_STRUCT_MEM in *; lia|].
  destruct (Z.leb_spec MEM_SIZE (p + SIZEOF_STRUCT_MEM)) as [|_];
    [unfold SIZEOF_STRUCT_MEM in *; lia|]. cbn [orb].
  replace (p + SIZEOF_STRUCT_MEM - SIZEOF_STRUCT_MEM) with p by lia. rewrite Hb.
  cbn [load mbind outcome_bind next]. unfold SIZEOF_STRUCT_MEM, MIN_SIZE, MEM_SIZE in *.
  rewrite (u32_small (n - p - 12)), (u32_small (newsize + 12 + 12)) by lia.
  destruct (Z.ltb_spec (newsize + 12 + 12) (n - p - 12)) as [Hlt|Hge].
  2: { eexists _, _. split; [reflexivity|]. split; [|reflexivity]. split; [exact I|reflexivity]. }
  rewrite (u32_small (p + 12 + newsize)) by lia. set (p2 := p + 12 + newsize) in *.
  destruct (split_seg (ram s) l1 l2 p p2 n pv true true pl e Hs Hb He)
    as (h1 & pl1 & e1 & Hset & Hs1 & He1 & _ & _); [unfold SIZEOF_STRUCT_MEM; lia..|].
  unfold set_next. rewrite (lookup_insert_ne _ p2 p) by lia. rewrite Hb.
  cbn [load mbind outcome_bind prev used].
  change (<[p:=Hdr p2 pv true]> (<[p2:=Hdr n p false]> (ram s)))
    with (split_headers (ram s) p p2 n pv true).
  unfold MEM_SIZE in Hset.
  rewrite Hset. cbn [mbind outcome_bind].
  replace (l1 ++ Block p p2 true :: Block p2 n false :: l2)
    with ((l1 ++ [Block p p2 true]) ++ Block p2 n false :: l2) in Hs1
    by (rewrite <- app_assoc; reflexivity).
  match goal with |- context [plug_holes ?s0 p2] =>
    destruct (plug_holes_spec s0 (l1 ++ [Block p p2 true]) p2 n l2 pl1 e1 Hs1 He1)
      as (h2 & pl2 & e2 & -> & Hs2 & He2) end.
  cbn [mbind outcome_bind]. eexists _, _. split; [reflexivity|]. split; [|reflexivity].
  cbn [sem_signal set_lfree set_ram ram lfree mem_sem]. split; [|reflexivity]. cbn [ram lfree].
  apply coalesced_app in Hco as (C1 & C2 & C3). apply coalesced_cons in C2 as [C2 _].
  split.
  - exists pl2. exact Hs2.
  - exists e2. exact He2.
  - apply merged_coalesced; auto. apply coalesced_app. split; [exact C1|]. split; [exact Logic.I|].
    unfold apart in *. cbn in *. destruct (last l1); auto.
  - apply merged_lfree_ok.
    + intros c Hc. destruct l2 as [|d r]; [discriminate|]. injection Hc as ->. apply H2.
    + destruct (inv_lfree _ _ _ I) as [Em|(b & Hb' & Ho & Hf)]; [left; exact Em|right].
      exists b. split; [|auto]. rewrite elem_of_app, elem_of_cons in Hb'.
      destruct Hb' as [Hb'|[->|Hb']]; [set_solver|discriminate|set_solver].
  - rewrite merged_regions, !regions_app, regions_cons. cbn [b_used b_off b_end].
    rewrite !Forall_app. split; [split; [exact Hr1|]|exact Hr2].
    split; [|constructor]. constructor; [|constructor]. cbn [fst snd]. subst p2. unfold MEM_SIZE. lia.
Qed.

(** The regions in the order of the heap, each behind the header that follows
    the one before. *)
Fixpoint separated (rs : list (Z * Z)) : Prop :=
  match rs with
  | [] => True
  | r :: rest => Forall (fun q => r.2 + SIZEOF_STRUCT_MEM <= q.1) rest /\ separated rest
  end.

Lemma seg_regions h pv o bs pv' o' : seg h pv o bs pv' o' ->
  separated (regions bs) /\
  Forall (fun r => o + SIZEOF_STRUCT_MEM <= r.1 /\ r.1 <= r.2 <= o') (regions bs).
Proof.
  revert pv o. induction bs as [|b r IH]; intros pv o; [intros _; cbn; auto|].
  intros (E & _ & Hl & Hr). destruct (IH _ _ Hr) as [IH1 IH2].
  pose proof (seg_range _ _ _ _ _ _ Hr) as [Hlt _].
  assert (IH3 : Forall (fun q => o + SIZEOF_STRUCT_MEM <= q.1 /\ q.1 <= q.2 <= o') (regions r)).
  { eapply Forall_impl; [exact IH2|]. intros q Hq. cbn in Hq. unfold SIZEOF_STRUCT_MEM in *. lia. }
  rewrite regions_cons. destruct (b_used b); cbn [app]; [|auto].
  split; cbn [separated].
  - split; [|exact IH1]. eapply Forall_impl; [exact IH2|]. intros q Hq. cbn in *. lia.
  - constructor; [cbn; lia|exact IH3].
Qed.

Lemma mem_inv_regions s bs : mem_inv s bs ->
  separated (regions bs) /\
  Forall (fun r => SIZEOF_STRUCT_MEM <= r.1 /\ r.1 <= r.2 < MEM_SIZE) (regions bs).
Proof.
  intros [I _]. destruct (inv_seg _ _ _ I) as [pl Hs].
  destruct (seg_regions _ _ _ _ _ _ Hs) as [H1 H2]. split; [exact H1|].
  pose proof (inv_room _ _ _ I) as H3. rewrite Forall_forall in *. intros r Hr.
  specialize (H2 r Hr). specialize (H3 r Hr). cbn in *. lia.
Qed.

Lemma mem_init_inv : mem_inv mem_init [Block 0 MEM_SIZE false].
Proof.
  split; [|reflexivity]. split.
  - exists 0. cbn. unfold SIZEOF_STRUCT_MEM, MEM_SIZE. repeat split; lia.
  - exists MEM_SIZE. reflexivity.
  - exact I.
  - right. exists (Block 0 MEM_SIZE false). split; [set_solver|auto].
  - constructor.
Qed.

(** The blocks in front of a position lie below it. *)
Lemma seg_front h l1 p n u l2 pl : seg h 0 0 (l1 ++ Block p n u :: l2) pl MEM_SIZE ->
  p < n /\ (forall b, b ∈ l1 -> b_off b < p) /\ (forall b, b ∈ l2 -> n <= b_off b).
Proof.
  intros Hs. apply seg_app in Hs as (pv & o & H1 & E & Hb & Hl & H2).
  cbn [b_off b_end b_used] in *. subst o.
  pose proof (seg_range _ _ _ _ _ _ H1) as [_ R1]. pose proof (seg_range _ _ _ _ _ _ H2) as [_ R2].
  rewrite Forall_forall in R1, R2. unfold SIZEOF_STRUCT_MEM in *. split; [lia|].
  split; intros b Hx; [specialize (R1 b Hx)|specialize (R2 b Hx)]; cbn in *; lia.
Qed.

(** ** Clients of the heap *)

(** The calls a client makes that owns the regions [live]: it allocates, and
    frees or shrinks regions it owns. *)
Inductive client_step : mem_state * list (Z * Z) -> mem_state * list (Z * Z) -> Prop :=
| client_malloc s live size r s' : 0 < size < 2 ^ 32 - 32 ->
    mem_malloc s size = Ret (Some r, s') ->
    client_step (s, live) (s', (r, r + align_request size) :: live)
| client_nomem s live size s' : 0 < size < 2 ^ 32 - 32 ->
    mem_malloc s size = Ret (None, s') -> client_step (s, live) (s', live)
| client_free s live live' r e s' : live ≡ₚ (r, e) :: live' ->
    mem_free s (Some r) = Ret s' -> client_step (s, live) (s', live')
| client_realloc s live live' r e newsize s' : live ≡ₚ (r, e) :: live' ->
    0 <= newsize < 2 ^ 32 - 32 -> mem_realloc s r newsize = Ret (r, s') ->
    client_step (s, live)
      (s', (r, if newsize + SIZEOF_STRUCT_MEM + MIN_SIZE <? e - r then r + newsize else e) :: live').

Definition client_inv (x : mem_state * list (Z * Z)) : Prop :=
  exists bs, mem_inv x.1 bs /\ regions bs ≡ₚ x.2.

Lemma regions_split l1 p n l2 :
  regions (l1 ++ Block p n true :: l2) ≡ₚ (p + SIZEOF_STRUCT_MEM, n) :: regions (l1 ++ l2).
Proof.
  rewrite !regions_app, regions_cons. cbn [b_used b_off b_end app].
  symmetry. apply Permutation_middle.
Qed.

Lemma live_block bs live live' r e : regions bs ≡ₚ live -> live ≡ₚ (r, e) :: live' ->
  exists l1 l2, bs = l1 ++ Block (r - SIZEOF_STRUCT_MEM) e true :: l2 /\ regions (l1 ++ l2) ≡ₚ live'.
Proof.
  intros H1 H2. rewrite H2 in H1.
  assert (Hin : (r, e) ∈ regions bs) by (rewrite H1; set_solver).
  apply in_regions in Hin as (l1 & l2 & ->). exists l1, l2. split; [reflexivity|].
  rewrite regions_split in H1. replace (r - SIZEOF_STRUCT_MEM + SIZEOF_STRUCT_MEM) with r in H1 by lia.
  apply Permutation_cons_inv in H1. exact H1.
Qed.

Lemma free_live s bs live live' r e :
  mem_inv s bs -> regions bs ≡ₚ live -> live ≡ₚ (r, e) :: live' ->
  exists s' bs', mem_free s (Some r) = Ret s' /\ mem_inv s' bs' /\ regions bs' ≡ₚ live'.
Proof.
  intros I H1 H2. destruct (live_block bs live live' r e H1 H2) as (l1 & l2 & -> & Hr).
  destruct (mem_free_run s l1 (r - SIZEOF_STRUCT_MEM) e l2 I) as (s' & Hf & I' & _).
  replace (r - SIZEOF_STRUCT_MEM + SIZEOF_STRUCT_MEM) with r in Hf by lia.
  exists s', (merged l1 (r - SIZEOF_STRUCT_MEM) e l2). split; [exact Hf|]. split; [exact I'|].
  rewrite merged_regions. exact Hr.
Qed.

Lemma realloc_live s bs live live' r e newsize :
  mem_inv s bs -> regions bs ≡ₚ live -> live ≡ₚ (r, e) :: live' -> 0 <= newsize < 2 ^ 32 - 32 ->
  exists s' bs', mem_realloc s r newsize = Ret (r, s') /\ mem_inv s' bs' /\
    regions bs' ≡ₚ (r, if newsize + SIZEOF_STRUCT_MEM + MIN_SIZE <? e - r then r + newsize else e) :: live'.
Proof.
  intros I H1 H2 Hz. destruct (live_block bs live live' r e H1 H2) as (l1 & l2 & -> & Hr).
  destruct (mem_realloc_run s l1 (r - SIZEOF_STRUCT_MEM) e l2 newsize I Hz) as (s' & bs' & Hf & I' & E).
  replace (r - SIZEOF_STRUCT_MEM + SIZEOF_STRUCT_MEM) with r in * by lia.
  exists s', bs'. split; [exact Hf|]. split; [exact I'|]. rewrite E.
  replace (e - (r - SIZEOF_STRUCT_MEM) - SIZEOF_STRUCT_MEM) with (e - r) by lia.
  destruct (newsize + SIZEOF_STRUCT_MEM + MIN_SIZE <? e - r).
  - rewrite merged_regions, <- app_assoc. cbn [app]. rewrite regions_split.
    replace (r - SIZEOF_STRUCT_MEM + SIZEOF_STRUCT_MEM) with r by lia. rewrite Hr. reflexivity.
  - rewrite regions_split. replace (r - SIZEOF_STRUCT_MEM + SIZEOF_STRUCT_MEM) with r by lia.
    rewrite Hr. reflexivity.
Qed.

Lemma malloc_live s bs live size :
  mem_inv s bs -> regions bs ≡ₚ live -> 0 < size < 2 ^ 32 - 32 ->
  exists r s' bs', mem_malloc s size = Ret (r, s') /\ mem_inv s' bs' /\
    regions bs' ≡ₚ match r with Some p => (p, p + align_request size) :: live | None => live end.
Proof.
  intros I H1 Hz. destruct (mem_malloc_run s bs size I Hz)
    as [(s' & Hm & I' & _)|(l1 & p & n & l2 & s' & E & _ & _ & Hm & I' & _)].
  - exists None, s', bs. auto.
  - exists (Some (p + SIZEOF_STRUCT_MEM)), s', (l1 ++ Block p (p + SIZEOF_STRUCT_MEM + align_request size) true
      :: Block (p + SIZEOF_STRUCT_MEM + align_request size) n false :: l2).
    split; [exact Hm|]. split; [exact I'|]. rewrite regions_split, <- H1, E.
    rewrite !regions_app, !regions_cons. reflexivity.
Qed.

Lemma client_step_inv x y : client_step x y -> client_inv x -> client_inv y.
Proof.
  intros Hs. destruct Hs as [s live size r s' Hz Hm|s live size s' Hz Hm
    |s live live' r e s' Hl Hm|s live live' r e newsize s' Hl Hz Hm];
    intros (bs & I & H); cbn [fst snd] in *.
  - destruct (malloc_live s bs live size I H Hz) as (r' & s1 & bs' & E & I' & H').
    rewrite Hm in E. injection E as <- <-. exists bs'. auto.
  - destruct (malloc_live s bs live size I H Hz) as (r' & s1 & bs' & E & I' & H').
    rewrite Hm in E. injection E as <- <-. exists bs'. auto.
  - destruct (free_live s bs live live' r e I H Hl) as (s1 & bs' & E & I' & H').
    rewrite Hm in E. injection E as <-. exists bs'. auto.
  - destruct (realloc_live s bs live live' r e newsize I H Hl Hz) as (s1 & bs' & E & I' & H').
    rewrite Hm in E. injection E as <-. exists bs'. auto.
Qed.

(** ** Properties *)

(** C33: the heap is safe for every client.  Whatever sequence of allocations,
    frees and reallocations of its own regions a client makes from [mem_init],
    its regions lie in the array and are disjoint with room for a header
    between them, and no call blocks, loops or reads a header that is not one. *)
Theorem mem_safe s live :
  rtc client_step (mem_init, []) (s, live) ->
  (exists rs, rs ≡ₚ live /\ separated rs /\
     Forall (fun r => SIZEOF_STRUCT_MEM <= r.1 /\ r.1 <= r.2 < MEM_SIZE) rs) /\
  (forall size, 0 < size < 2 ^ 32 - 32 -> exists x, mem_malloc s size = Ret x) /\
  (forall r e, (r, e) ∈ live -> exists s', mem_free s (Some r) = Ret s') /\
  (forall r e newsize, (r, e) ∈ live -> 0 <= newsize < 2 ^ 32 - 32 ->
     exists s', mem_realloc s r newsize = Ret (r, s')).
Proof.
  intros Hrun.
  assert (Hinv : client_inv (s, live)).
  { apply (rtc_invariant client_step client_inv client_step_inv (mem_init, [])); [exact Hrun|].
    exists [Block 0 MEM_SIZE false]. split; [apply mem_init_inv|reflexivity]. }
  destruct Hinv as (bs & I & H). cbn [fst snd] in *.
  assert (Hin : forall x, x ∈ live -> exists live', live ≡ₚ x :: live').
  { intros x Hx. apply list_elem_of_split in Hx as (l1 & l2 & ->). exists (l1 ++ l2).
    symmetry. apply Permutation_middle. }
  split; [|split; [|split]].
  - exists (regions bs). split; [exact H|]. apply (mem_inv_regions s bs I).
  - intros size Hz. destruct (malloc_live s bs live size I H Hz) as (r & s' & bs' & -> & _). eauto.
  - intros r e Hr. destruct (Hin _ Hr) as [live' Hl].
    destruct (free_live s bs live live' r e I H Hl) as (s' & bs' & -> & _). eauto.
  - intros r e newsize Hr Hz. destruct (Hin _ Hr) as [live' Hl].
    destruct (realloc_live s bs live live' r e newsize I H Hl Hz) as (s' & bs' & -> & _). eauto.
Qed.

(** The state and the value a call returns. *)
Definition after {A} (x : outcome (A * mem_state)) : mem_state :=
  match x with Ret (_, s) => s | _ => mem_init end.
Definition result {A} (x : outcome (A * mem_state)) : option A :=
  match x with Ret (r, _) => Some r | _ => None end.

(** The heap after one allocation of 100 bytes. *)
Definition heap100 : mem_state := after (mem_malloc mem_init 100).

Lemma mem_safe_witness :
  (exists x, mem_malloc heap100 5 = Ret x) /\
  (exists s', mem_free heap100 (Some 12) = Ret s') /\
  (exists s', mem_realloc heap100 12 10 = Ret (12, s')).
Proof.
  destruct (mem_safe heap100 [(12, 112)]) as (_ & H1 & H2 & H3).
  - apply rtc_once. apply (client_malloc mem_init [] 100 12 heap100); [lia|reflexivity].
  - split; [apply H1; lia|]. split; [apply (H2 12 112); set_solver|].
    apply (H3 12 112 10); [set_solver|lia].
Defined.

(** C34: allocation is first fit and never fails for lack of searching: when no
    free block lies below [lfree] and the blocks are aligned, [mem_malloc]
    returns null exactly if no block of the heap fits the rounded request, and
    otherwise an aligned region of at least the requested size carved from the
    lowest block that fits, all other blocks unchanged; both assumptions hold
    again afterwards. *)
Theorem mem_malloc_first_fit s bs size :
  mem_inv s bs -> lowest (lfree s) bs -> aligned bs -> 0 < size < 2 ^ 32 - 32 ->
  let sz := align_request size in
  exists r s' bs', mem_malloc s size = Ret (r, s') /\ mem_inv s' bs' /\
    lowest (lfree s') bs' /\ aligned bs' /\
    match r with
    | None => bs' = bs /\ Forall (fun b => fits b sz = false) bs
    | Some q => size <= sz /\ q mod MEM_ALIGNMENT = 0 /\
        exists l1 n l2, let p := q - SIZEOF_STRUCT_MEM in
          bs = l1 ++ Block p n false :: l2 /\ Forall (fun b => fits b sz = false) l1 /\
          bs' = l1 ++ Block p (q + sz) true :: Block (q + sz) n false :: l2
    end.
Proof.
  intros I Hlow Hal Hz sz. destruct (align_request_spec size) as [Ha Hm]; [lia|]. fold sz in Ha, Hm.
  assert (Hfit : forall b, b ∈ bs -> b_off b < lfree s -> fits b sz = false).
  { intros b Hb Hlt. unfold fits. destruct (b_used b) eqn:Eu; [reflexivity|].
    specialize (Hlow b Hb Eu). lia. }
  destruct (mem_malloc_run s bs size I Hz)
    as [(s' & Em & I' & El & Hn)|(l1 & p & n & l2 & s' & E & Hf & Hn & Em & I' & Hge & El)]; fold sz in Hn.
  - exists None, s', bs. rewrite El. split; [exact Em|]. split; [exact I'|]. split; [exact Hlow|].
    split; [exact Hal|]. split; [reflexivity|]. apply Forall_forall. intros b Hb.
    destruct (Z.lt_ge_cases (b_off b) (lfree s)); auto.
  - fold sz in Hf, El, I'. set (p2 := p + SIZEOF_STRUCT_MEM + sz) in *.
    exists (Some (p + SIZEOF_STRUCT_MEM)), s', (l1 ++ Block p p2 true :: Block p2 n false :: l2).
    split; [exact Em|]. split; [exact I'|].
    unfold aligned in *. rewrite E, Forall_app, Forall_cons in Hal. cbn [b_off b_end] in Hal.
    assert (Hp2 : p2 mod MEM_ALIGNMENT = 0)
      by (subst p2; unfold SIZEOF_STRUCT_MEM, MEM_ALIGNMENT in *; destruct Hal as (_ & [? ?] & _); divmod).
    destruct I as [I _]. destruct (inv_seg _ _ _ I) as [pl Hs]. rewrite E in Hs.
    destruct (seg_front _ _ _ _ _ _ _ Hs) as (Hpn & Hl1 & Hl2).
    unfold fits in Hf. cbn [b_used b_end b_off negb andb] in Hf. apply Z.leb_le in Hf.
    unfold SIZEOF_STRUCT_MEM in Hf.
    split; [|split].
    + rewrite El. intros b Hb Hu. rewrite elem_of_app, !elem_of_cons in Hb.
      assert (Hlo : b ∈ l1 ++ l2 -> lfree s <= b_off b)
        by (intros Hx; apply Hlow; [rewrite E; set_solver|exact Hu]).
      destruct (Z.eqb_spec p (lfree s)) as [Ep|Ep].
      * destruct Hb as [Hb|[->|[->|Hb]]]; [|discriminate|cbn [b_off]; lia|].
        -- specialize (Hl1 b Hb). specialize (Hlo ltac:(set_solver)). lia.
        -- specialize (Hl2 b Hb). clear - Hl2 Hf. subst p2. unfold SIZEOF_STRUCT_MEM. lia.
      * destruct Hb as [Hb|[->|[->|Hb]]]; [apply Hlo, elem_of_app; auto|discriminate| |apply Hlo, elem_of_app; auto].
        cbn [b_off]. clear - Hge Ha Hz. subst p2. unfold SIZEOF_STRUCT_MEM. lia.
    + rewrite Forall_app, !Forall_cons. cbn [b_off b_end]. tauto.
    + split; [lia|]. split.
      { destruct Hal as (_ & [Hp _] & _). unfold SIZEOF_STRUCT_MEM, MEM_ALIGNMENT in *. divmod. }
      exists l1, n, l2. replace (p + SIZEOF_STRUCT_MEM - SIZEOF_STRUCT_MEM) with p by lia.
      split; [exact E|]. split; [|reflexivity]. apply Forall_forall. intros b Hb.
      destruct (Z.lt_ge_cases (b_off b) (lfree s)); [apply Hfit; [rewrite E; apply elem_of_app; auto|lia]|auto].
Qed.

Lemma mem_malloc_first_fit_witness :
  exists r s' bs', mem_malloc mem_init 7 = Ret (r, s') /\ mem_inv s' bs' /\
    lowest (lfree s') bs' /\ r = Some 12.
Proof.
  destruct (mem_malloc_first_fit mem_init [Block 0 MEM_SIZE false] 7)
    as (r & s' & bs' & E & I & L & _).
  - apply mem_init_inv.
  - intros b Hb _. apply list_elem_of_singleton in Hb as ->. cbn. lia.
  - repeat constructor.
  - lia.
  - exists r, s', bs'. split; [exact E|]. split; [exact I|]. split; [exact L|].
    vm_compute in E. congruence.
Defined.

Lemma fits_range b size : fits b size = true -> b_used b = false /\
  size + SIZEOF_STRUCT_MEM <= b_end b - (b_off b + SIZEOF_STRUCT_MEM).
Proof.
  unfold fits. intros H. apply andb_true_iff in H as [H1 H2].
  split; [destruct (b_used b); [discriminate|reflexivity]|apply Z.leb_le, H2].
Qed.

(** Freeing undoes allocating.  If [mem_malloc] returns a region, freeing
    it at once merges its block with the remainder it was cut from: the heap
    has the same blocks as before and [lfree] has its old value. *)
Theorem mem_malloc_free s bs size r s1 :
  mem_inv s bs -> 0 < size < 2 ^ 32 - 32 -> mem_malloc s size = Ret (Some r, s1) ->
  exists s2, mem_free s1 (Some r) = Ret s2 /\ mem_inv s2 bs /\ lfree s2 = lfree s.
Proof.
  intros I Hz Hm. destruct (align_request_spec size) as [Ha _]; [lia|].
  destruct (mem_malloc_run s bs size I Hz)
    as [(s' & Em & _)|(l1 & p & n & l2 & s' & E & Hf & _ & Em & I' & Hge & El)]; [congruence|].
  rewrite Em in Hm. injection Hm as <- <-. set (p2 := p + SIZEOF_STRUCT_MEM + align_request size) in *.
  destruct (mem_free_run s' l1 p p2 (Block p2 n false :: l2) I') as (s2 & Hfr & I2 & El2).
  exists s2. split; [exact Hfr|].
  assert (Hlast : forall c, last l1 = Some c -> b_used c = true).
  { intros c Hc. destruct I as [I _]. pose proof (inv_coalesced _ _ _ I) as Hco. rewrite E in Hco.
    apply coalesced_app in Hco as (_ & _ & Hap). unfold apart in Hap. rewrite Hc in Hap.
    cbn in Hap. destruct Hap; [assumption|discriminate]. }
  assert (Hmerge : merged l1 p p2 (Block p2 n false :: l2) = bs).
  { unfold merged. cbn [merge_next b_used negb b_end]. rewrite E.
    destruct (last l1) as [c|]; [|reflexivity]. rewrite (Hlast c eq_refl). reflexivity. }
  rewrite Hmerge in I2. split; [exact I2|]. rewrite El2.
  assert (Hx : merged_lfree l1 p p2 (Block p2 n false :: l2) (lfree s) = lfree s).
  { unfold merged_lfree. cbn [head_free b_used negb andb].
    assert (Hne : p <> p2) by (subst p2; unfold SIZEOF_STRUCT_MEM; lia).
    destruct (Z.eqb_spec (lfree s) p2) as [Ex|Ex]; [|destruct (last l1) as [c|]; [|reflexivity];
      rewrite (Hlast c eq_refl); reflexivity].
    subst p2. unfold SIZEOF_STRUCT_MEM in *. lia. }
  rewrite El. destruct (Z.eqb_spec p (lfree s)) as [Ep|Ep].
  - destruct (Z.ltb_spec p p2) as [_|Hx2]; [|subst p2; unfold SIZEOF_STRUCT_MEM in *; lia].
    rewrite Ep at 2. exact Hx.
  - destruct (Z.ltb_spec p (lfree s)) as [|_]; [lia|]. exact Hx.
Qed.

Lemma mem_malloc_free_witness :
  exists s2, mem_free heap100 (Some 12) = Ret s2 /\ mem_inv s2 [Block 0 MEM_SIZE false] /\ lfree s2 = 0.
Proof.
  apply (mem_malloc_free mem_init [Block 0 MEM_SIZE false] 100 12 heap100);
    [apply mem_init_inv|lia|reflexivity].
Defined.

(** C35: freeing removes exactly one region and keeps the heap in order: the
    other regions are untouched, neighbouring free blocks are merged, and
    [lfree] is again the lowest free block. *)
Theorem mem_free_region s bs r e :
  mem_inv s bs -> lowest (lfree s) bs -> aligned bs -> (r, e) ∈ regions bs ->
  exists s' bs', mem_free s (Some r) = Ret s' /\ mem_inv s' bs' /\
    regions bs ≡ₚ (r, e) :: regions bs' /\ lowest (lfree s') bs' /\ aligned bs' /\
    (forall l1 b c l2, bs' = l1 ++ b :: c :: l2 -> b_used b = true \/ b_used c = true).
Proof.
  intros I Hlow Hal Hin. apply in_regions in Hin as (l1 & l2 & ->).
  destruct (mem_free_run s l1 _ e l2 I) as (s' & Hf & I' & El).
  replace (r - SIZEOF_STRUCT_MEM + SIZEOF_STRUCT_MEM) with r in Hf by lia.
  set (p := r - SIZEOF_STRUCT_MEM) in *.
  exists s', (merged l1 p e l2). split; [exact Hf|]. split; [exact I'|].
  destruct I as [I _]. destruct (inv_seg _ _ _ I) as [pl Hs].
  destruct (seg_front _ _ _ _ _ _ _ Hs) as (Hpn & Hl1 & Hl2).
  split; [|split; [|split]].
  - rewrite merged_regions, regions_split. subst p.
    replace (r - SIZEOF_STRUCT_MEM + SIZEOF_STRUCT_MEM) with r by lia. reflexivity.
  - rewrite El. intros b. apply merged_lowest; [lia|exact Hl1|].
    intros x Hx Hu. rewrite elem_of_app, elem_of_cons in Hx.
    assert (Hxl : x ∈ l1 \/ x ∈ l2 -> lfree s <= b_off x)
      by (intros Hx'; apply Hlow; [rewrite elem_of_app, elem_of_cons; tauto|exact Hu]).
    destruct (Z.ltb_spec p (lfree s)) as [Hlt|Hge].
    + destruct Hx as [Hx|[->|Hx]]; [|cbn; lia|].
      * specialize (Hl1 x Hx). specialize (Hxl (or_introl Hx)). lia.
      * specialize (Hl2 x Hx). lia.
    + destruct Hx as [Hx|[->|Hx]]; auto.
  - apply merged_aligned. unfold aligned in *. rewrite Forall_app, Forall_cons in *. exact Hal.
  - destruct I' as [I' _]. pose proof (inv_coalesced _ _ _ I') as Hco.
    intros m1 b c m2 E. rewrite E in Hco. apply coalesced_app in Hco as (_ & Hco & _). apply Hco.
Qed.

Lemma mem_free_region_witness :
  exists s' bs', mem_free heap100 (Some 12) = Ret s' /\ mem_inv s' bs' /\ regions bs' = [].
Proof.
  assert (I : mem_inv heap100 [Block 0 112 true; Block 112 MEM_SIZE false]).
  { split; [|reflexivity]. split.
    - exists 112. cbn. unfold SIZEOF_STRUCT_MEM, MEM_SIZE. repeat split; lia.
    - exists MEM_SIZE. reflexivity.
    - cbn. auto.
    - right. exists (Block 112 MEM_SIZE false). split; [set_solver|auto].
    - repeat constructor. }
  destruct (mem_free_region heap100 [Block 0 112 true; Block 112 MEM_SIZE false] 12 112 I)
    as (s' & bs' & E & I' & Hr & _).
  - intros b Hb Hu. rewrite !elem_of_cons in Hb. destruct Hb as [->|[->|Hb]];
      [discriminate|vm_compute; discriminate|apply not_elem_of_nil in Hb; contradiction].
  - repeat constructor.
  - apply in_regions. exists [], [Block 112 MEM_SIZE false]. reflexivity.
  - exists s', bs'. split; [exact E|]. split; [exact I'|].
    change (regions [Block 0 112 true; Block 112 MEM_SIZE false]) with [(12, 112)] in Hr.
    apply Permutation_length in Hr. destruct (regions bs'); [reflexivity|discriminate].
Defined.

(** A free of an address outside the heap returns without signalling the
    semaphore, and every later allocation blocks for ever. *)
Theorem mem_free_illegal_blocks s r size :
  mem_sem s = 1 -> MEM_SIZE <= r -> 0 < size -> align_request size <= MEM_SIZE ->
  exists s', mem_free s (Some r) = Ret s' /\ mem_malloc s' size = Blocked.
Proof.
  intros Hs Hr Hz Ha. unfold mem_free, sem_wait. rewrite Hs. cbn [Z.ltb Z.compare mbind outcome_bind].
  destruct (Z.leb_spec MEM_SIZE r); [|lia]. rewrite orb_true_r. eexists. split; [reflexivity|].
  unfold mem_malloc, sem_wait. destruct (Z.eqb_spec size 0); [lia|].
  destruct (Z.ltb_spec MEM_SIZE (align_request size)); [lia|]. reflexivity.
Qed.

(** A size within three bytes of [2^32] wraps to zero when it is rounded up,
    passes the test against [MEM_SIZE] and is granted a region of no bytes. *)
Theorem mem_malloc_wraps :
  exists s', mem_malloc mem_init 4294967295 = Ret (Some 12, s') /\ lfree s' = 12.
Proof. eexists. split; [vm_compute; reflexivity|reflexivity]. Qed.

(** Three calls that leave a free block of 184 bytes below [lfree]. *)
Definition hidden1 : mem_state := after (mem_malloc mem_init 200).
Definition hidden2 : mem_state := after (mem_malloc hidden1 5119700).
Definition hidden3 : mem_state := after (mem_realloc hidden2 12 4).

(** [mem_realloc] does not lower [lfree] when it cuts a free block below it:
    here an allocation of 140 bytes fails although the block cut off the first
    region, at offset 16, would hold it. *)
Theorem mem_realloc_hides_block :
  result (mem_malloc mem_init 200) = Some (Some 12) /\
  result (mem_malloc hidden1 5119700) = Some (Some 224) /\
  result (mem_realloc hidden2 12 4) = Some 12 /\
  ram hidden3 !! 16 = Some (Hdr 212 0 false) /\
  result (mem_malloc hidden3 140) = Some None.
Proof.
  split; [|split; [|split; [|split]]]; vm_compute; reflexivity.
Qed.
