(* ===== verification/Memp.v ===== *)
(** The memory pools of the TCP/IP stack, [SW_stub/lwtcp/memp.c]: for every
    type of object a singly linked list of the free elements, cut out of one
    static array.  The reclaim functions (hooks the stack registers) are
    arguments. *)

From S2P Require Import Prelude.
From stdpp Require Import base gmap list relations.
From Stdlib Require Import ZArith Lia.

Local Open Scope Z_scope.

(** ** Data *)

Inductive memp_t :=
| MEMP_PBUF | MEMP_UDP_PCB | MEMP_TCP_PCB | MEMP_TCP_PCB_LISTEN | MEMP_TCP_SEG
| MEMP_NETBUF | MEMP_NETCONN | MEMP_API_MSG | MEMP_TCP_MSG | MEMP_SYS_TIMEOUT.

#[global] Instance memp_t_eq_dec : EqDecision memp_t.
Proof. solve_decision. Defined.

(** The enumeration in order. *)
Definition memp_types : list memp_t :=
  [MEMP_PBUF; MEMP_UDP_PCB; MEMP_TCP_PCB; MEMP_TCP_PCB_LISTEN; MEMP_TCP_SEG;
   MEMP_NETBUF; MEMP_NETCONN; MEMP_API_MSG; MEMP_TCP_MSG; MEMP_SYS_TIMEOUT].

(** [memp_num], from [lwipopts.h]. *)
Definition memp_num (t : memp_t) : nat :=
  match t with
  | MEMP_PBUF => 512 | MEMP_UDP_PCB => 4 | MEMP_TCP_PCB => 12 | MEMP_TCP_PCB_LISTEN => 8
  | MEMP_TCP_SEG => 8 | MEMP_NETBUF => 32 | MEMP_NETCONN => 32 | MEMP_API_MSG => 8
  | MEMP_TCP_MSG => 8 | MEMP_SYS_TIMEOUT => 3
  end.

(** [sizeof(struct memp)]: one pointer of the 32-bit target. *)
Definition SIZEOF_MEMP : Z := 4.

(** [MEM_ALIGN_SIZE] with the alignment of four; [MEM_ALIGN] is the same on
    addresses. *)
Definition MEM_ALIGN_SIZE (n : Z) : Z :=
  n + (if n mod 4 =? 0 then 0 else 4 - n mod 4).

Record stats := Stats { s_used : Z; s_max : Z; s_err : Z; s_reclaimed : Z }.

(** [tab] is [memp_tab]; [nexts] the [next] field of the elements that hold
    one, by address. *)
Record memp_state := MempState {
  tab : memp_t -> option Z;
  nexts : gmap Z (option Z);
  stat : memp_t -> stats
}.

Definition upd {A} (f : memp_t -> A) (t : memp_t) (a : A) : memp_t -> A :=
  fun u => if decide (u = t) then a else f u.

(** [memp_sizes] are sizes of structures, which depend on the compiler, and
    [memory] is the address of [memp_memory]. *)
Section Pools.
Context (memp_sizes : memp_t -> Z) (memory : Z).

Definition elem_size (t : memp_t) : Z := MEM_ALIGN_SIZE (memp_sizes t + SIZEOF_MEMP).

(** ** Operations *)

(** The inner loop of [memp_init] from element [m] on: link [k] more elements;
    the result is the last element and the address after it. *)
Fixpoint link_pool (k : nat) (nx : gmap Z (option Z)) (size memp m : Z) : gmap Z (option Z) * Z * Z :=
  match k with
  | O => (nx, memp, m)
  | S k' => let m' := MEM_ALIGN_SIZE (m + size) in link_pool k' (<[m := Some m']> nx) size m m'
  end.

(** One iteration of the outer loop, from the address [memp]. *)
Definition init_pool (s : memp_state) (t : memp_t) (memp : Z) : memp_state * Z :=
  match memp_num t with
  | O => (MempState (upd (tab s) t None) (nexts s) (stat s), memp)
  | n =>
      let '(nx, lastp, m) := link_pool n (nexts s) (elem_size t) memp memp in
      (MempState (upd (tab s) t (Some memp)) (<[lastp := None]> nx) (stat s), m)
  end.

Definition memp_blank : memp_state :=
  MempState (fun _ => None) ∅ (fun _ => Stats 0 0 0 0).

Definition init_pools (ts : list memp_t) (s : memp_state) (memp : Z) : memp_state :=
  (fold_left (fun '(s, memp) t => init_pool s t memp) ts (s, memp)).1.

Definition memp_init : memp_state := init_pools memp_types memp_blank memory.

Definition memp_malloc (s : memp_state) (t : memp_t) : outcome (option Z * memp_state) :=
  match tab s t with
  | Some memp =>
      nx ← load (nexts s !! memp);
      let st := stat s t in
      let used := u16 (s_used st + 1) in
      let st := Stats used (if s_max st <? used then used else s_max st) (s_err st) (s_reclaimed st) in
      Ret (Some (MEM_ALIGN_SIZE (memp + SIZEOF_MEMP)),
           MempState (upd (tab s) t nx) (<[memp := None]> (nexts s)) (upd (stat s) t st))
  | None =>
      let st := stat s t in
      Ret (None, MempState (tab s) (nexts s)
             (upd (stat s) t (Stats (s_used st) (s_max st) (u16 (s_err st + 1)) (s_reclaimed st))))
  end.

Definition memp_free (s : memp_state) (t : memp_t) (mem : option Z) : memp_state :=
  match mem with
  | None => s
  | Some m =>
      let memp := m - SIZEOF_MEMP in
      let st := stat s t in
      MempState (upd (tab s) t (Some memp)) (<[memp := tab s t]> (nexts s))
        (upd (stat s) t (Stats (u16 (s_used st - 1)) (s_max st) (s_err st) (s_reclaimed st)))
  end.

(** [memp_reclaim]: the first registered function that reclaims something. *)
Fixpoint memp_reclaim (funcs : list (memp_state -> Z * memp_state)) (s : memp_state) (t : memp_t)
  : Z * memp_state :=
  match funcs with
  | [] => (0, s)
  | f :: r =>
      let '(n, s) := f s in
      if truthy n then
        let st := stat s t in
        (1, MempState (tab s) (nexts s)
              (upd (stat s) t (Stats (s_used st) (s_max st) (s_err st) (u16 (s_reclaimed st + 1)))))
      else memp_reclaim r s t
  end.

Definition memp_malloc2 (funcs : list (memp_state -> Z * memp_state)) (s : memp_state) (t : memp_t)
  : outcome (option Z * memp_state) :=
  r ← memp_malloc s t;
  match r with
  | (Some m, s) => Ret (Some m, s)
  | (None, s) => memp_malloc (memp_reclaim funcs s t).2 t
  end.

(** [memp_realloc]; the bytes copied are the smaller of the two sizes. *)
Definition memp_realloc (s : memp_state) (fromtype totype : memp_t) (mem : option Z)
  : outcome (option Z * Z * memp_state) :=
  match mem with
  | None => Ret (None, 0, s)
  | Some m =>
      r ← memp_malloc s totype;
      match r with
      | (Some rmem, s) =>
          let size := memp_sizes totype in
          let size := if memp_sizes fromtype <? size then memp_sizes fromtype else size in
          Ret (Some rmem, size, memp_free s fromtype (Some m))
      | (None, s) => Ret (None, 0, s)
      end
  end.

(** ** The pools as lists *)

(** The addresses of the elements of a pool that starts at [a]. *)
Fixpoint elems (k : nat) (a size : Z) : list Z :=
  match k with O => [] | S k' => a :: elems k' (a + size) size end.

(** Where the pools of the types [ts] end when they start at [a]. *)
Fixpoint pools_end (a : Z) (ts : list memp_t) : Z :=
  match ts with
  | [] => a
  | t :: r => pools_end (a + Z.of_nat (memp_num t) * elem_size t) r
  end.

(** The start of the pool of a type. *)
Fixpoint pool_start (a : Z) (ts : list memp_t) (t : memp_t) : Z :=
  match ts with
  | [] => a
  | u :: r => if decide (u = t) then a
              else pool_start (a + Z.of_nat (memp_num u) * elem_size u) r t
  end.

Definition pool (t : memp_t) : list Z :=
  elems (memp_num t) (pool_start memory memp_types t) (elem_size t).

(** The elements linked from a pointer. *)
Fixpoint linked (nx : gmap Z (option Z)) (p : option Z) (l : list Z) : Prop :=
  match l with
  | [] => p = None
  | a :: r => p = Some a /\ exists q, nx !! a = Some q /\ linked nx q r
  end.

(** The invariant: the free list of every type and the elements that clients
    hold make up the pool of that type, and [used] counts the latter. *)
Definition memp_inv (s : memp_state) (free live : memp_t -> list Z) : Prop :=
  forall t, linked (nexts s) (tab s t) (free t) /\ free t ++ live t ≡ₚ pool t /\
    s_used (stat s t) = Z.of_nat (length (live t)).

(** ** Lemmas *)

Hypothesis memory_aligned : memory mod 4 = 0.
Hypothesis sizes_pos : forall t, 0 < memp_sizes t.

Lemma align_id n : n mod 4 = 0 -> MEM_ALIGN_SIZE n = n.
Proof. intros H. unfold MEM_ALIGN_SIZE. rewrite H. cbn. lia. Qed.

Lemma align_mult n : MEM_ALIGN_SIZE n mod 4 = 0 /\ n <= MEM_ALIGN_SIZE n.
Proof. unfold MEM_ALIGN_SIZE. destruct (Z.eqb_spec (n mod 4) 0); divmod. Qed.

Lemma elem_size_spec t : elem_size t mod 4 = 0 /\ SIZEOF_MEMP < elem_size t.
Proof.
  unfold elem_size. pose proof (align_mult (memp_sizes t + SIZEOF_MEMP)) as [H1 H2].
  specialize (sizes_pos t). lia.
Qed.

Lemma memp_num_pos t : (0 < memp_num t <= 512)%nat.
Proof. destruct t; cbn; lia. Qed.

Lemma pool_linked_frame nx nx' p l :
  (forall x, x ∈ l -> nx' !! x = nx !! x) -> linked nx p l -> linked nx' p l.
Proof.
  revert p. induction l as [|a r IH]; intros p Hf; cbn; [auto|].
  intros (-> & q & Hq & Hr). split; [reflexivity|]. exists q.
  rewrite Hf by set_solver. split; [exact Hq|]. apply IH; [set_solver|exact Hr].
Qed.

Lemma elems_range k a size x : 0 <= size -> x ∈ elems k a size ->
  a <= x /\ x + size <= a + Z.of_nat k * size.
Proof.
  intros Hs. revert a. induction k as [|k IH]; intros a Hx; cbn in Hx; [set_solver|].
  rewrite Nat2Z.inj_succ. apply elem_of_cons in Hx as [->|Hx]; [nia|].
  apply IH in Hx. nia.
Qed.

Lemma elems_aligned k a size x : a mod 4 = 0 -> size mod 4 = 0 -> x ∈ elems k a size -> x mod 4 = 0.
Proof.
  intros Ha Hs. revert a Ha. induction k as [|k IH]; intros a Ha Hx; cbn in Hx; [set_solver|].
  apply elem_of_cons in Hx as [->|Hx]; [exact Ha|]. apply (IH (a + size)); [divmod|exact Hx].
Qed.

Lemma elems_nodup k a size : 0 < size -> NoDup (elems k a size).
Proof.
  intros Hs. revert a. induction k as [|k IH]; intros a; cbn; [constructor|].
  constructor; [|apply IH]. intros Hx. apply elems_range in Hx; lia.
Qed.

(** The inner loop of [memp_init], with the final store of the null pointer. *)
Lemma link_pool_spec k nx size memp m :
  m mod 4 = 0 -> size mod 4 = 0 -> 0 < size ->
  forall nx' l e, link_pool (S k) nx size memp m = (nx', l, e) ->
  e = m + Z.of_nat (S k) * size /\ m <= l /\
  linked (<[l := None]> nx') (Some m) (elems (S k) m size) /\
  forall x, x < m -> <[l := None]> nx' !! x = nx !! x.
Proof.
  intros Hm Hs Hp. revert nx memp m Hm.
  induction k as [|k IH]; intros nx memp m Hm nx' l e.
  - cbn [link_pool]. rewrite align_id by divmod. intros E. injection E as <- <- <-.
    split; [lia|]. split; [lia|]. split.
    + cbn. split; [reflexivity|]. exists None. rewrite lookup_insert_eq. auto.
    + intros x Hx. rewrite !lookup_insert_ne by lia. reflexivity.
  - change (link_pool (S (S k)) nx size memp m) with
      (let m' := MEM_ALIGN_SIZE (m + size) in link_pool (S k) (<[m := Some m']> nx) size m m').
    rewrite align_id by divmod. cbv zeta. intros E.
    destruct (IH _ m (m + size) ltac:(divmod) nx' l e E) as (-> & Hl & Hlk & Hfr).
    split; [lia|]. split; [lia|]. split.
    + cbn [elems linked]. split; [reflexivity|]. exists (Some (m + size)).
      rewrite Hfr by lia. rewrite lookup_insert_eq. split; [reflexivity|exact Hlk].
    + intros x Hx. rewrite Hfr by lia. apply lookup_insert_ne. lia.
Qed.

Lemma upd_eq {A} (f : memp_t -> A) t a : upd f t a t = a.
Proof. unfold upd. destruct (decide (t = t)); congruence. Qed.

Lemma upd_ne {A} (f : memp_t -> A) t u a : u <> t -> upd f t a u = f u.
Proof. unfold upd. destruct (decide (u = t)); congruence. Qed.

Lemma init_pool_spec s t a : a mod 4 = 0 ->
  exists s', init_pool s t a = (s', a + Z.of_nat (memp_num t) * elem_size t) /\
    linked (nexts s') (tab s' t) (elems (memp_num t) a (elem_size t)) /\
    (forall u, u <> t -> tab s' u = tab s u) /\ stat s' = stat s /\
    forall x, x < a -> nexts s' !! x = nexts s !! x.
Proof.
  intros Ha. destruct (elem_size_spec t) as [H4 Hp]. unfold SIZEOF_MEMP in Hp.
  unfold init_pool. pose proof (memp_num_pos t) as Hn.
  destruct (memp_num t) as [|k]; [lia|].
  destruct (link_pool (S k) (nexts s) (elem_size t) a a) as [[nx l] e] eqn:E.
  destruct (link_pool_spec k (nexts s) (elem_size t) a a Ha H4 ltac:(lia) nx l e E) as (-> & _ & Hlk & Hfr).
  eexists. split; [reflexivity|]. cbn [nexts tab stat]. rewrite upd_eq.
  split; [exact Hlk|]. split; [intros u Hu; apply upd_ne, Hu|auto].
Qed.

Lemma init_pools_spec ts s a s' : a mod 4 = 0 -> NoDup ts ->
  s' = init_pools ts s a ->
  (forall t, t ∈ ts -> linked (nexts s') (tab s' t) (elems (memp_num t) (pool_start a ts t) (elem_size t))) /\
  (forall t, t ∉ ts -> tab s' t = tab s t) /\ stat s' = stat s /\
  forall x, x < a -> nexts s' !! x = nexts s !! x.
Proof.
  revert s a. induction ts as [|t r IH]; intros s a Ha Hnd Es; unfold init_pools in *; cbn [fold_left pool_start] in *.
  - subst s'. cbn. split; [set_solver|auto].
  - apply NoDup_cons in Hnd as [Ht Hnd].
    destruct (init_pool_spec s t a Ha) as (s1 & E1 & Hlk & Htab & Hst & Hfr). rewrite E1 in Es.
    destruct (elem_size_spec t) as [H4 Hp]. unfold SIZEOF_MEMP in Hp.
    pose proof (memp_num_pos t) as Hn.
    set (a1 := a + Z.of_nat (memp_num t) * elem_size t).
    assert (Ha1 : a1 mod 4 = 0) by (subst a1; rewrite Z.add_mod, Z.mul_mod, H4, Z.mul_0_r, Ha by lia; reflexivity).
    destruct (IH s1 a1 Ha1 Hnd Es) as (I1 & I2 & I3 & I4).
    split; [|split; [|split]].
    + intros u Hu. destruct (decide (t = u)) as [->|Hne].
      * rewrite I2 by exact Ht. eapply pool_linked_frame; [|exact Hlk].
        intros x Hx. apply I4. apply elems_range in Hx; [|lia]. subst a1. lia.
      * apply I1. set_solver.
    + intros u Hu. rewrite I2 by set_solver. apply Htab. set_solver.
    + congruence.
    + intros x Hx. rewrite I4 by (subst a1; nia). apply Hfr. exact Hx.
Qed.

Lemma pool_start_range a ts t : t ∈ ts ->
  a <= pool_start a ts t /\
  pool_start a ts t + Z.of_nat (memp_num t) * elem_size t <= pools_end a ts.
Proof.
  assert (Hge : forall ts a, a <= pools_end a ts).
  { induction ts0 as [|u r IH]; intros a0; cbn; [lia|].
    specialize (IH (a0 + Z.of_nat (memp_num u) * elem_size u)).
    pose proof (elem_size_spec u). unfold SIZEOF_MEMP in *. nia. }
  revert a. induction ts as [|u r IH]; intros a Ht; [set_solver|]. cbn [pool_start pools_end].
  pose proof (elem_size_spec u) as Hu. unfold SIZEOF_MEMP in Hu.
  destruct (decide (u = t)) as [->|Hne].
  - specialize (Hge r (a + Z.of_nat (memp_num t) * elem_size t)). lia.
  - specialize (IH (a + Z.of_nat (memp_num u) * elem_size u) ltac:(set_solver)). nia.
Qed.

Lemma pool_start_disjoint a ts t u : t ∈ ts -> u ∈ ts -> t <> u ->
  pool_start a ts t + Z.of_nat (memp_num t) * elem_size t <= pool_start a ts u \/
  pool_start a ts u + Z.of_nat (memp_num u) * elem_size u <= pool_start a ts t.
Proof.
  revert a. induction ts as [|v r IH]; intros a Ht Hu Hne; [set_solver|]. cbn [pool_start].
  destruct (decide (v = t)) as [Et|Hvt], (decide (v = u)) as [Eu|Hvu]; [congruence| | |].
  - subst v. left. apply (pool_start_range (a + Z.of_nat (memp_num t) * elem_size t) r u). set_solver.
  - subst v. right. apply (pool_start_range (a + Z.of_nat (memp_num u) * elem_size u) r t). set_solver.
  - apply IH; set_solver.
Qed.

Lemma all_types t : t ∈ memp_types.
Proof. unfold memp_types. destruct t; set_solver. Qed.

Lemma memp_types_nodup : NoDup memp_types.
Proof. apply (bool_decide_unpack _). vm_compute. exact Logic.I. Qed.

Lemma pool_start_aligned a ts t : a mod 4 = 0 -> pool_start a ts t mod 4 = 0.
Proof.
  revert a. induction ts as [|u r IH]; intros a Ha; cbn; [exact Ha|].
  destruct (decide (u = t)); [exact Ha|]. apply IH.
  destruct (elem_size_spec u) as [H4 _].
  rewrite Z.add_mod, Z.mul_mod, H4, Z.mul_0_r, Ha by lia. reflexivity.
Qed.

(** The pools of the types are disjoint, duplicate free and aligned. *)
Lemma pool_facts t : NoDup (pool t) /\ length (pool t) = memp_num t /\
  (forall x, x ∈ pool t -> x mod 4 = 0 /\ memory <= x) /\
  forall u x, u <> t -> x ∈ pool t -> x ∉ pool u.
Proof.
  destruct (elem_size_spec t) as [H4 Hp]. unfold SIZEOF_MEMP in Hp.
  assert (Hlen : forall k a size, length (elems k a size) = k) by (induction k; intros; cbn; auto).
  split; [|split; [|split]].
  - apply elems_nodup. lia.
  - apply Hlen.
  - intros x Hx. split.
    + eapply elems_aligned; [| |exact Hx]; [apply pool_start_aligned, memory_aligned|exact H4].
    + apply elems_range in Hx; [|lia].
      pose proof (pool_start_range memory memp_types t (all_types t)). lia.
  - intros u x Hne Hx Hu. destruct (elem_size_spec u) as [_ Hpu]. unfold SIZEOF_MEMP in Hpu.
    apply elems_range in Hx; [|lia]. apply elems_range in Hu; [|lia].
    destruct (pool_start_disjoint memory memp_types t u (all_types t) (all_types u) ltac:(congruence)); lia.
Qed.

(** ** The operations keep the invariant *)

Lemma memp_init_inv : memp_inv memp_init pool (fun _ => []).
Proof.
  intros t.
  assert (E : memp_init = init_pools memp_types memp_blank memory) by (unfold memp_init; reflexivity).
  destruct (init_pools_spec memp_types memp_blank memory memp_init memory_aligned memp_types_nodup E)
    as (H1 & _ & H3 & _). clear E.
  specialize (H1 t (all_types t)). unfold pool. rewrite H3. clear H3.
  generalize dependent memp_init. intros s H1. split; [exact H1|].
  split; [rewrite app_nil_r; reflexivity|reflexivity].
Qed.

(** Elements of different types, or free and held, are different. *)
Lemma memp_inv_apart s free live t u x y : memp_inv s free live ->
  x ∈ free t -> y ∈ free u ++ live u -> u <> t -> x <> y.
Proof.
  intros I Hx Hy Hne ->. destruct (I t) as (_ & Pt & _). destruct (I u) as (_ & Pu & _).
  destruct (pool_facts t) as (_ & _ & _ & Hd). rewrite Pu in Hy.
  apply (Hd u y Hne); [rewrite <- Pt; set_solver|exact Hy].
Qed.

Lemma memp_inv_nodup s free live t : memp_inv s free live -> NoDup (free t ++ live t).
Proof. intros I. destruct (I t) as (_ & P & _). rewrite P. apply pool_facts. Qed.

Lemma memp_malloc_inv s free live t : memp_inv s free live ->
  exists r s' free' live', memp_malloc s t = Ret (r, s') /\ memp_inv s' free' live' /\
    match r with
    | None => free t = [] /\ live' = live
    | Some m => live' = upd live t ((m - SIZEOF_MEMP) :: live t) /\
                free t = (m - SIZEOF_MEMP) :: free' t
    end.
Proof.
  intros I. destruct (I t) as (Hl & P & U). unfold memp_malloc.
  destruct (free t) as [|a r] eqn:Ef; cbn [linked] in Hl.
  - rewrite Hl. eexists _, _, free, live. split; [reflexivity|]. split; [|auto].
    intros u. destruct (I u) as (A & B & C). cbn [nexts tab stat].
    split; [exact A|]. split; [exact B|]. unfold upd. destruct (decide (u = t)) as [->|]; [exact C|exact C].
  - destruct Hl as (Ht & q & Hq & Hr). rewrite Ht, Hq. cbn [load mbind outcome_bind].
    destruct (pool_facts t) as (Hnd & Hlen & Hal & _).
    assert (Ha : a ∈ pool t) by (rewrite <- P; set_solver).
    destruct (Hal a Ha) as [Ha4 _]. unfold SIZEOF_MEMP.
    rewrite (align_id (a + 4)) by divmod.
    eexists _, _, (upd free t r), (upd live t (a :: live t)). split; [reflexivity|].
    split; [|cbn beta iota; rewrite upd_eq; replace (a + 4 - 4) with a by lia; auto].
    assert (Hcount : (length (live t) < 512)%nat).
    { apply Permutation_length in P. rewrite length_app, Hlen in P. cbn in P.
      pose proof (memp_num_pos t). lia. }
    pose proof (memp_inv_nodup _ _ _ t I) as Hndt. rewrite Ef in Hndt.
    intros u. cbn [nexts tab stat]. destruct (decide (u = t)) as [->|Hne].
    + rewrite !upd_eq. split; [|split].
      * eapply pool_linked_frame; [|exact Hr]. intros x Hx. apply lookup_insert_ne.
        cbn in Hndt. apply NoDup_cons in Hndt as [Hn _]. set_solver.
      * rewrite <- P. symmetry. apply Permutation_middle.
      * cbn [s_used length]. rewrite U, u16_small by lia. lia.
    + rewrite !upd_ne by auto. destruct (I u) as (A & B & C). split; [|auto].
      eapply pool_linked_frame; [|exact A]. intros x Hx. apply lookup_insert_ne.
      apply (memp_inv_apart s free live t u a x I); [rewrite Ef; set_solver|set_solver|auto].
Qed.

Lemma memp_free_inv s free live t m l : memp_inv s free live -> live t ≡ₚ (m - SIZEOF_MEMP) :: l ->
  memp_inv (memp_free s t (Some m)) (upd free t ((m - SIZEOF_MEMP) :: free t)) (upd live t l).
Proof.
  intros I Hl u. set (a := m - SIZEOF_MEMP) in *. cbn [memp_free nexts tab stat]. fold a.
  destruct (I t) as (A & P & U). pose proof (memp_inv_nodup _ _ _ t I) as Hnd.
  assert (Ha : a ∈ live t) by (rewrite Hl; set_solver).
  destruct (pool_facts t) as (_ & Hlen & _ & Hd).
  destruct (decide (u = t)) as [->|Hne].
  - rewrite !upd_eq. cbn [s_used]. split; [|split].
    + cbn [linked]. split; [reflexivity|]. exists (tab s t). rewrite lookup_insert_eq. split; [reflexivity|].
      eapply pool_linked_frame; [|exact A]. intros x Hx. apply lookup_insert_ne. intros ->.
      apply NoDup_app in Hnd as (_ & Hnd & _). exact (Hnd x Hx Ha).
    + rewrite <- P, Hl. cbn. apply Permutation_middle.
    + apply Permutation_length in P. rewrite length_app, Hlen in P.
      apply Permutation_length in Hl. cbn in Hl. pose proof (memp_num_pos t).
      rewrite U, Hl, u16_small by lia. lia.
  - rewrite !upd_ne by auto. destruct (I u) as (B & Q & V). split; [|auto].
    eapply pool_linked_frame; [|exact B]. intros x Hx. apply lookup_insert_ne. intros ->.
    apply (Hd u x Hne); [rewrite <- P; set_solver|rewrite <- Q; set_solver].
Qed.

(** The calls of a client that holds the elements [live]. *)
Inductive pool_step : memp_state * (memp_t -> list Z) -> memp_state * (memp_t -> list Z) -> Prop :=
| pool_malloc s live t m s' : memp_malloc s t = Ret (Some m, s') ->
    pool_step (s, live) (s', upd live t ((m - SIZEOF_MEMP) :: live t))
| pool_nomem s live t s' : memp_malloc s t = Ret (None, s') -> pool_step (s, live) (s', live)
| pool_free s live t m l : live t ≡ₚ (m - SIZEOF_MEMP) :: l ->
    pool_step (s, live) (memp_free s t (Some m), upd live t l).

Definition pool_inv (x : memp_state * (memp_t -> list Z)) : Prop :=
  exists free, memp_inv x.1 free x.2.

Lemma pool_step_inv x y : pool_step x y -> pool_inv x -> pool_inv y.
Proof.
  intros Hs. destruct Hs as [s live t m s' H|s live t s' H|s live t m l H]; intros [free I]; cbn in *.
  - destruct (memp_malloc_inv s free live t I) as (r & s1 & free' & live' & E & I' & C).
    rewrite H in E. injection E as <- <-. destruct C as [-> _]. exists free'. exact I'.
  - destruct (memp_malloc_inv s free live t I) as (r & s1 & free' & live' & E & I' & C).
    rewrite H in E. injection E as <- <-. destruct C as [_ ->]. exists free'. exact I'.
  - exists (upd free t ((m - SIZEOF_MEMP) :: free t)). cbn. apply memp_free_inv; auto.
Qed.

(** ** Properties *)

(** C40: the pools hand out exactly their elements.  Whatever a client
    allocates and frees after [memp_init], it holds at most [memp_num]
    elements of each type, no element twice and none of another type's, all
    aligned and inside the array; [memp_malloc] never fails while the client
    holds fewer than [memp_num] elements of the type and fails when it holds
    that many; and [used] counts what the client holds. *)
Theorem memp_exact s live t :
  rtc pool_step (memp_init, fun _ => []) (s, live) ->
  (length (live t) <= memp_num t)%nat /\ NoDup (live t) /\
  (forall x, x ∈ live t -> x mod 4 = 0 /\ memory <= x) /\
  (forall u x, u <> t -> x ∈ live t -> x ∉ live u) /\
  s_used (stat s t) = Z.of_nat (length (live t)) /\
  exists r s', memp_malloc s t = Ret (r, s') /\
    (r = None <-> length (live t) = memp_num t) /\
    (forall m, r = Some m -> (m - SIZEOF_MEMP) ∉ live t).
Proof.
  intros Hrun.
  assert (Hinv : pool_inv (s, live)).
  { apply (rtc_invariant pool_step pool_inv pool_step_inv (memp_init, fun _ => [])); [exact Hrun|].
    exists pool. apply memp_init_inv. }
  destruct Hinv as [free I]. cbn [fst snd] in I. destruct (I t) as (_ & P & U).
  destruct (pool_facts t) as (_ & Hlen & Hal & Hd). pose proof (memp_inv_nodup _ _ _ t I) as Hnd.
  pose proof (Permutation_length P) as Hpl. rewrite length_app, Hlen in Hpl.
  split; [lia|]. split; [apply NoDup_app in Hnd; tauto|].
  split; [intros x Hx; apply Hal; rewrite <- P; set_solver|].
  split; [intros u x Hne Hx Hu; destruct (I u) as (_ & Q & _);
    apply (Hd u x Hne); [rewrite <- P|rewrite <- Q]; set_solver|].
  split; [exact U|].
  destruct (memp_malloc_inv s free live t I) as (r & s' & free' & live' & E & _ & C).
  exists r, s'. split; [exact E|]. destruct r as [m|].
  - destruct C as [_ C]. rewrite C in Hpl, Hnd. cbn in Hpl. split; [split; [discriminate|lia]|].
    intros m' Em. injection Em as <-. cbn in Hnd. apply NoDup_cons in Hnd as [Hn _]. set_solver.
  - destruct C as [C _]. rewrite C in Hpl. cbn in Hpl. split; [split; auto|discriminate].
Qed.
End Pools.

(** Sizes of the ten structures on a 32-bit target, and an array at 4096. *)
Definition ex_sizes (t : memp_t) : Z :=
  match t with
  | MEMP_PBUF => 16 | MEMP_UDP_PCB => 32 | MEMP_TCP_PCB => 140 | MEMP_TCP_PCB_LISTEN => 28
  | MEMP_TCP_SEG => 16 | MEMP_NETBUF => 18 | MEMP_NETCONN => 44 | MEMP_API_MSG => 24
  | MEMP_TCP_MSG => 12 | MEMP_SYS_TIMEOUT => 16
  end.

Lemma memp_exact_witness :
  (length (pool ex_sizes 4096 MEMP_SYS_TIMEOUT) = 3)%nat /\
  exists r s', memp_malloc (memp_init ex_sizes 4096) MEMP_SYS_TIMEOUT = Ret (r, s') /\ r <> None.
Proof.
  split; [reflexivity|].
  destruct (memp_exact ex_sizes 4096 eq_refl ltac:(intros []; reflexivity)
    (memp_init ex_sizes 4096) (fun _ => []) MEMP_SYS_TIMEOUT (rtc_refl _ _))
    as (_ & _ & _ & _ & _ & r & s' & E & H & _).
  exists r, s'. split; [exact E|]. intros Hr. apply H in Hr. discriminate.
Defined.
