(* ===== verification/TcpTypes.v ===== *)
(** The data of the TCP layer: [lwip/tcp.h], the constants of [lwipopts.h] and
    [err.h], sequence number comparison, segments and the protocol control
    block, and the environment the TCP functions act on. *)

From S2P Require Import Prelude Inet.
From stdpp Require Import base list.
From Stdlib Require Import ZArith Lia.

Local Open Scope Z_scope.

(** ** Constants *)

Definition TCP_MSS : Z := 128.
Definition TCP_SND_BUF : Z := 256.
(** [4 * TCP_SND_BUF/TCP_MSS] *)
Definition TCP_SND_QUEUELEN : Z := 8.
Definition TCP_WND : Z := 1024.
Definition TCP_MAXRTX : Z := 12.
Definition TCP_SYNMAXRTX : Z := 4.

Definition TCP_FIN : Z := 1.
Definition TCP_SYN : Z := 2.
Definition TCP_RST : Z := 4.
Definition TCP_PSH : Z := 8.
Definition TCP_ACK : Z := 16.
Definition TCP_URG : Z := 32.
Definition TCP_HLEN : Z := 20.
Definition IP_PROTO_TCP : Z := 6.

Definition TCP_SLOW_INTERVAL : Z := 500.
Definition TCP_FIN_WAIT_TIMEOUT : Z := 20000.
Definition TCP_SYN_RCVD_TIMEOUT : Z := 20000.
Definition TCP_OOSEQ_TIMEOUT : Z := 6.
Definition TCP_MSL : Z := 60000.

Definition TF_ACK_DELAY : Z := 1.
Definition TF_ACK_NOW : Z := 2.
Definition TF_INFR : Z := 4.
Definition TF_RESET : Z := 8.
Definition TF_CLOSED : Z := 16.
Definition TF_GOT_FIN : Z := 32.

(** [pcb->flags & f] as a condition, [pcb->flags |= f] and [&= ~f]. *)
Definition has (flags f : Z) : bool := truthy (Z.land flags f).
Definition raise (f flags : Z) : Z := Z.lor flags f.
Definition clear (f flags : Z) : Z := Z.land flags (255 - f).

Inductive err_t :=
| ERR_OK | ERR_MEM | ERR_BUF | ERR_ABRT | ERR_RST | ERR_CLSD | ERR_CONN | ERR_VAL
| ERR_ARG | ERR_RTE | ERR_USE.

#[global] Instance err_t_eq_dec : EqDecision err_t.
Proof. solve_decision. Defined.

(** ** Sequence numbers *)

Definition TCP_SEQ_LT (a b : Z) : bool := s32 (a - b) <? 0.
Definition TCP_SEQ_LEQ (a b : Z) : bool := s32 (a - b) <=? 0.
Definition TCP_SEQ_GT (a b : Z) : bool := 0 <? s32 (a - b).
Definition TCP_SEQ_GEQ (a b : Z) : bool := 0 <=? s32 (a - b).

(** ** Segments *)

(** A chain of pbufs: what its payload pointers point at, buffer by buffer,
    and the [tot_len] field of the first one, which is a field of its own. *)
Record pbufs := Pbufs { bufs : list (list Z); tot_len : Z }.

Definition pbuf_data (p : pbufs) : list Z := concat (bufs p).
Definition pbuf_clen (p : pbufs) : Z := Z.of_nat (length (bufs p)).

(** [struct tcp_hdr], with every field in host order; [h_off] is the offset
    byte and [h_flags] the flag byte of [_offset_flags]. *)
Record tcp_hdr := Hdr {
  src : Z; dest : Z; seqno : Z; ackno : Z;
  h_off : Z; h_flags : Z; wnd : Z; chksum : Z; urgp : Z
}.

Definition set_seqno (v : Z) (h : tcp_hdr) : tcp_hdr :=
  Hdr (src h) (dest h) v (ackno h) (h_off h) (h_flags h) (wnd h) (chksum h) (urgp h).
Definition set_ackno (v : Z) (h : tcp_hdr) : tcp_hdr :=
  Hdr (src h) (dest h) (seqno h) v (h_off h) (h_flags h) (wnd h) (chksum h) (urgp h).
Definition set_h_flags (v : Z) (h : tcp_hdr) : tcp_hdr :=
  Hdr (src h) (dest h) (seqno h) (ackno h) (h_off h) v (wnd h) (chksum h) (urgp h).
Definition set_wnd (v : Z) (h : tcp_hdr) : tcp_hdr :=
  Hdr (src h) (dest h) (seqno h) (ackno h) (h_off h) (h_flags h) v (chksum h) (urgp h).
Definition set_chksum (v : Z) (h : tcp_hdr) : tcp_hdr :=
  Hdr (src h) (dest h) (seqno h) (ackno h) (h_off h) (h_flags h) (wnd h) v (urgp h).

(** [struct tcp_seg]; the queues are lists, so [next] is the rest of the list.
    [seg_p] holds what follows the TCP header in the chain of the segment; it is
    [None] where the code sets [p] to the null pointer. *)
Record tcp_seg := Seg { seg_p : option pbufs; seg_len : Z; tcphdr : tcp_hdr }.

Definition set_tcphdr (h : tcp_hdr) (s : tcp_seg) : tcp_seg := Seg (seg_p s) (seg_len s) h.

(** [TCP_TCPLEN]: a SYN or FIN counts for one byte. *)
Definition TCP_TCPLEN (s : tcp_seg) : Z :=
  seg_len s + (if has (h_flags (tcphdr s)) TCP_FIN || has (h_flags (tcphdr s)) TCP_SYN
               then 1 else 0).

Definition seg_data (s : tcp_seg) : list Z :=
  match seg_p s with Some p => pbuf_data p | None => [] end.
Definition seg_clen (s : tcp_seg) : Z :=
  match seg_p s with Some p => pbuf_clen p | None => 0 end.

(** ** The protocol control block *)

Inductive tcp_state :=
| CLOSED | LISTEN | SYN_SENT | SYN_RCVD | ESTABLISHED | FIN_WAIT_1 | FIN_WAIT_2
| CLOSE_WAIT | CLOSING | LAST_ACK | TIME_WAIT.

#[global] Instance tcp_state_eq_dec : EqDecision tcp_state.
Proof. solve_decision. Defined.

(** The value of the enumeration, for the comparisons of states. *)
Definition state_num (s : tcp_state) : Z :=
  match s with
  | CLOSED => 0 | LISTEN => 1 | SYN_SENT => 2 | SYN_RCVD => 3 | ESTABLISHED => 4
  | FIN_WAIT_1 => 5 | FIN_WAIT_2 => 6 | CLOSE_WAIT => 7 | CLOSING => 8 | LAST_ACK => 9
  | TIME_WAIT => 10
  end.

(** [struct tcp_pcb].  Callbacks are function pointers, given by a number. *)
Record tcp_pcb := Pcb {
  state : tcp_state;
  callback_arg : Z;
  accept : option Z;
  local_ip : Z;
  local_port : Z;
  remote_ip : Z;
  remote_port : Z;
  rcv_nxt : Z;
  rcv_wnd : Z;
  tmr : Z;
  rtime : Z;
  mss : Z;
  flags : Z;
  rttest : Z;
  rtseq : Z;
  sa : Z;
  sv : Z;
  rto : Z;
  nrtx : Z;
  lastack : Z;
  dupacks : Z;
  cwnd : Z;
  ssthresh : Z;
  snd_nxt : Z;
  snd_max : Z;
  snd_wnd : Z;
  snd_wl1 : Z;
  snd_wl2 : Z;
  snd_lbb : Z;
  snd_buf : Z;
  snd_queuelen : Z;
  sent : option Z;
  acked : Z;
  recv : option Z;
  recv_data : option pbufs;
  connected : option Z;
  poll : option Z;
  errf : option Z;
  polltmr : Z;
  pollinterval : Z;
  unsent : list tcp_seg;
  unacked : list tcp_seg;
  ooseq : list tcp_seg
}.

(** One setter per field, in the order of the fields. *)

Definition set_state (v : tcp_state) (p : tcp_pcb) : tcp_pcb :=
  Pcb v (callback_arg p) (accept p) (local_ip p) (local_port p) (remote_ip p) (remote_port
    p) (rcv_nxt p) (rcv_wnd p) (tmr p) (rtime p) (mss p) (flags p) (rttest p) (rtseq p) (sa
    p) (sv p) (rto p) (nrtx p) (lastack p) (dupacks p) (cwnd p) (ssthresh p) (snd_nxt p)
    (snd_max p) (snd_wnd p) (snd_wl1 p) (snd_wl2 p) (snd_lbb p) (snd_buf p) (snd_queuelen p)
    (sent p) (acked p) (recv p) (recv_data p) (connected p) (poll p) (errf p) (polltmr p)
    (pollinterval p) (unsent p) (unacked p) (ooseq p).
Definition set_callback_arg (v : Z) (p : tcp_pcb) : tcp_pcb :=
  Pcb (state p) v (accept p) (local_ip p) (local_port p) (remote_ip p) (remote_port p)
    (rcv_nxt p) (rcv_wnd p) (tmr p) (rtime p) (mss p) (flags p) (rttest p) (rtseq p) (sa p)
    (sv p) (rto p) (nrtx p) (lastack p) (dupacks p) (cwnd p) (ssthresh p) (snd_nxt p)
    (snd_max p) (snd_wnd p) (snd_wl1 p) (snd_wl2 p) (snd_lbb p) (snd_buf p) (snd_queuelen p)
    (sent p) (acked p) (recv p) (recv_data p) (connected p) (poll p) (errf p) (polltmr p)
    (pollinterval p) (unsent p) (unacked p) (ooseq p).
Definition set_accept (v : option Z) (p : tcp_pcb) : tcp_pcb :=
  Pcb (state p) (callback_arg p) v (local_ip p) (local_port p) (remote_ip p) (remote_port p)
    (rcv_nxt p) (rcv_wnd p) (tmr p) (rtime p) (mss p) (flags p) (rttest p) (rtseq p) (sa p)
    (sv p) (rto p) (nrtx p) (lastack p) (dupacks p) (cwnd p) (ssthresh p) (snd_nxt p)
    (snd_max p) (snd_wnd p) (snd_wl1 p) (snd_wl2 p) (snd_lbb p) (snd_buf p) (snd_queuelen p)
    (sent p) (acked p) (recv p) (recv_data p) (connected p) (poll p) (errf p) (polltmr p)
    (pollinterval p) (unsent p) (unacked p) (ooseq p).
Definition set_local_ip (v : Z) (p : tcp_pcb) : tcp_pcb :=
  Pcb (state p) (callback_arg p) (accept p) v (local_port p) (remote_ip p) (remote_port p)
    (rcv_nxt p) (rcv_wnd p) (tmr p) (rtime p) (mss p) (flags p) (rttest p) (rtseq p) (sa p)
    (sv p) (rto p) (nrtx p) (lastack p) (dupacks p) (cwnd p) (ssthresh p) (snd_nxt p)
    (snd_max p) (snd_wnd p) (snd_wl1 p) (snd_wl2 p) (snd_lbb p) (snd_buf p) (snd_queuelen p)
    (sent p) (acked p) (recv p) (recv_data p) (connected p) (poll p) (errf p) (polltmr p)
    (pollinterval p) (unsent p) (unacked p) (ooseq p).
Definition set_local_port (v : Z) (p : tcp_pcb) : tcp_pcb :=
  Pcb (state p) (callback_arg p) (accept p) (local_ip p) v (remote_ip p) (remote_port p)
    (rcv_nxt p) (rcv_wnd p) (tmr p) (rtime p) (mss p) (flags p) (rttest p) (rtseq p) (sa p)
    (sv p) (rto p) (nrtx p) (lastack p) (dupacks p) (cwnd p) (ssthresh p) (snd_nxt p)
    (snd_max p) (snd_wnd p) (snd_wl1 p) (snd_wl2 p) (snd_lbb p) (snd_buf p) (snd_queuelen p)
    (sent p) (acked p) (recv p) (recv_data p) (connected p) (poll p) (errf p) (polltmr p)
    (pollinterval p) (unsent p) (unacked p) (ooseq p).
Definition set_remote_ip (v : Z) (p : tcp_pcb) : tcp_pcb :=
  Pcb (state p) (callback_arg p) (accept p) (local_ip p) (local_port p) v (remote_port p)
    (rcv_nxt p) (rcv_wnd p) (tmr p) (rtime p) (mss p) (flags p) (rttest p) (rtseq p) (sa p)
    (sv p) (rto p) (nrtx p) (lastack p) (dupacks p) (cwnd p) (ssthresh p) (snd_nxt p)
    (snd_max p) (snd_wnd p) (snd_wl1 p) (snd_wl2 p) (snd_lbb p) (snd_buf p) (snd_queuelen p)
    (sent p) (acked p) (recv p) (recv_data p) (connected p) (poll p) (errf p) (polltmr p)
    (pollinterval p) (unsent p) (unacked p) (ooseq p).
Definition set_remote_port (v : Z) (p : tcp_pcb) : tcp_pcb :=
  Pcb (state p) (callback_arg p) (accept p) (local_ip p) (local_port p) (remote_ip p) v
    (rcv_nxt p) (rcv_wnd p) (tmr p) (rtime p) (mss p) (flags p) (rttest p) (rtseq p) (sa p)
    (sv p) (rto p) (nrtx p) (lastack p) (dupacks p) (cwnd p) (ssthresh p) (snd_nxt p)
    (snd_max p) (snd_wnd p) (snd_wl1 p) (snd_wl2 p) (snd_lbb p) (snd_buf p) (snd_queuelen p)
    (sent p) (acked p) (recv p) (recv_data p) (connected p) (poll p) (errf p) (polltmr p)
    (pollinterval p) (unsent p) (unacked p) (ooseq p).
Definition set_rcv_nxt (v : Z) (p : tcp_pcb) : tcp_pcb :=
  Pcb (state p) (callback_arg p) (accept p) (local_ip p) (local_port p) (remote_ip p)
    (remote_port p) v (rcv_wnd p) (tmr p) (rtime p) (mss p) (flags p) (rttest p) (rtseq p)
    (sa p) (sv p) (rto p) (nrtx p) (lastack p) (dupacks p) (cwnd p) (ssthresh p) (snd_nxt p)
    (snd_max p) (snd_wnd p) (snd_wl1 p) (snd_wl2 p) (snd_lbb p) (snd_buf p) (snd_queuelen p)
    (sent p) (acked p) (recv p) (recv_data p) (connected p) (poll p) (errf p) (polltmr p)
    (pollinterval p) (unsent p) (unacked p) (ooseq p).
Definition set_rcv_wnd (v : Z) (p : tcp_pcb) : tcp_pcb :=
  Pcb (state p) (callback_arg p) (accept p) (local_ip p) (local_port p) (remote_ip p)
    (remote_port p) (rcv_nxt p) v (tmr p) (rtime p) (mss p) (flags p) (rttest p) (rtseq p)
    (sa p) (sv p) (rto p) (nrtx p) (lastack p) (dupacks p) (cwnd p) (ssthresh p) (snd_nxt p)
    (snd_max p) (snd_wnd p) (snd_wl1 p) (snd_wl2 p) (snd_lbb p) (snd_buf p) (snd_queuelen p)
    (sent p) (acked p) (recv p) (recv_data p) (connected p) (poll p) (errf p) (polltmr p)
    (pollinterval p) (unsent p) (unacked p) (ooseq p).
Definition set_tmr (v : Z) (p : tcp_pcb) : tcp_pcb :=
  Pcb (state p) (callback_arg p) (accept p) (local_ip p) (local_port p) (remote_ip p)
    (remote_port p) (rcv_nxt p) (rcv_wnd p) v (rtime p) (mss p) (flags p) (rttest p) (rtseq
    p) (sa p) (sv p) (rto p) (nrtx p) (lastack p) (dupacks p) (cwnd p) (ssthresh p) (snd_nxt
    p) (snd_max p) (snd_wnd p) (snd_wl1 p) (snd_wl2 p) (snd_lbb p) (snd_buf p) (snd_queuelen
    p) (sent p) (acked p) (recv p) (recv_data p) (connected p) (poll p) (errf p) (polltmr p)
    (pollinterval p) (unsent p) (unacked p) (ooseq p).
Definition set_rtime (v : Z) (p : tcp_pcb) : tcp_pcb :=
  Pcb (state p) (callback_arg p) (accept p) (local_ip p) (local_port p) (remote_ip p)
    (remote_port p) (rcv_nxt p) (rcv_wnd p) (tmr p) v (mss p) (flags p) (rttest p) (rtseq p)
    (sa p) (sv p) (rto p) (nrtx p) (lastack p) (dupacks p) (cwnd p) (ssthresh p) (snd_nxt p)
    (snd_max p) (snd_wnd p) (snd_wl1 p) (snd_wl2 p) (snd_lbb p) (snd_buf p) (snd_queuelen p)
    (sent p) (acked p) (recv p) (recv_data p) (connected p) (poll p) (errf p) (polltmr p)
    (pollinterval p) (unsent p) (unacked p) (ooseq p).
Definition set_mss (v : Z) (p : tcp_pcb) : tcp_pcb :=
  Pcb (state p) (callback_arg p) (accept p) (local_ip p) (local_port p) (remote_ip p)
    (remote_port p) (rcv_nxt p) (rcv_wnd p) (tmr p) (rtime p) v (flags p) (rttest p) (rtseq
    p) (sa p) (sv p) (rto p) (nrtx p) (lastack p) (dupacks p) (cwnd p) (ssthresh p) (snd_nxt
    p) (snd_max p) (snd_wnd p) (snd_wl1 p) (snd_wl2 p) (snd_lbb p) (snd_buf p) (snd_queuelen
    p) (sent p) (acked p) (recv p) (recv_data p) (connected p) (poll p) (errf p) (polltmr p)
    (pollinterval p) (unsent p) (unacked p) (ooseq p).
Definition set_flags (v : Z) (p : tcp_pcb) : tcp_pcb :=
  Pcb (state p) (callback_arg p) (accept p) (local_ip p) (local_port p) (remote_ip p)
    (remote_port p) (rcv_nxt p) (rcv_wnd p) (tmr p) (rtime p) (mss p) v (rttest p) (rtseq p)
    (sa p) (sv p) (rto p) (nrtx p) (lastack p) (dupacks p) (cwnd p) (ssthresh p) (snd_nxt p)
    (snd_max p) (snd_wnd p) (snd_wl1 p) (snd_wl2 p) (snd_lbb p) (snd_buf p) (snd_queuelen p)
    (sent p) (acked p) (recv p) (recv_data p) (connected p) (poll p) (errf p) (polltmr p)
    (pollinterval p) (unsent p) (unacked p) (ooseq p).
Definition set_rttest (v : Z) (p : tcp_pcb) : tcp_pcb :=
  Pcb (state p) (callback_arg p) (accept p) (local_ip p) (local_port p) (remote_ip p)
    (remote_port p) (rcv_nxt p) (rcv_wnd p) (tmr p) (rtime p) (mss p) (flags p) v (rtseq p)
    (sa p) (sv p) (rto p) (nrtx p) (lastack p) (dupacks p) (cwnd p) (ssthresh p) (snd_nxt p)
    (snd_max p) (snd_wnd p) (snd_wl1 p) (snd_wl2 p) (snd_lbb p) (snd_buf p) (snd_queuelen p)
    (sent p) (acked p) (recv p) (recv_data p) (connected p) (poll p) (errf p) (polltmr p)
    (pollinterval p) (unsent p) (unacked p) (ooseq p).
Definition set_rtseq (v : Z) (p : tcp_pcb) : tcp_pcb :=
  Pcb (state p) (callback_arg p) (accept p) (local_ip p) (local_port p) (remote_ip p)
    (remote_port p) (rcv_nxt p) (rcv_wnd p) (tmr p) (rtime p) (mss p) (flags p) (rttest p) v
    (sa p) (sv p) (rto p) (nrtx p) (lastack p) (dupacks p) (cwnd p) (ssthresh p) (snd_nxt p)
    (snd_max p) (snd_wnd p) (snd_wl1 p) (snd_wl2 p) (snd_lbb p) (snd_buf p) (snd_queuelen p)
    (sent p) (acked p) (recv p) (recv_data p) (connected p) (poll p) (errf p) (polltmr p)
    (pollinterval p) (unsent p) (unacked p) (ooseq p).
Definition set_sa (v : Z) (p : tcp_pcb) : tcp_pcb :=
  Pcb (state p) (callback_arg p) (accept p) (local_ip p) (local_port p) (remote_ip p)
    (remote_port p) (rcv_nxt p) (rcv_wnd p) (tmr p) (rtime p) (mss p) (flags p) (rttest p)
    (rtseq p) v (sv p) (rto p) (nrtx p) (lastack p) (dupacks p) (cwnd p) (ssthresh p)
    (snd_nxt p) (snd_max p) (snd_wnd p) (snd_wl1 p) (snd_wl2 p) (snd_lbb p) (snd_buf p)
    (snd_queuelen p) (sent p) (acked p) (recv p) (recv_data p) (connected p) (poll p) (errf
    p) (polltmr p) (pollinterval p) (unsent p) (unacked p) (ooseq p).
Definition set_sv (v : Z) (p : tcp_pcb) : tcp_pcb :=
  Pcb (state p) (callback_arg p) (accept p) (local_ip p) (local_port p) (remote_ip p)
    (remote_port p) (rcv_nxt p) (rcv_wnd p) (tmr p) (rtime p) (mss p) (flags p) (rttest p)
    (rtseq p) (sa p) v (rto p) (nrtx p) (lastack p) (dupacks p) (cwnd p) (ssthresh p)
    (snd_nxt p) (snd_max p) (snd_wnd p) (snd_wl1 p) (snd_wl2 p) (snd_lbb p) (snd_buf p)
    (snd_queuelen p) (sent p) (acked p) (recv p) (recv_data p) (connected p) (poll p) (errf
    p) (polltmr p) (pollinterval p) (unsent p) (unacked p) (ooseq p).
Definition set_rto (v : Z) (p : tcp_pcb) : tcp_pcb :=
  Pcb (state p) (callback_arg p) (accept p) (local_ip p) (local_port p) (remote_ip p)
    (remote_port p) (rcv_nxt p) (rcv_wnd p) (tmr p) (rtime p) (mss p) (flags p) (rttest p)
    (rtseq p) (sa p) (sv p) v (nrtx p) (lastack p) (dupacks p) (cwnd p) (ssthresh p)
    (snd_nxt p) (snd_max p) (snd_wnd p) (snd_wl1 p) (snd_wl2 p) (snd_lbb p) (snd_buf p)
    (snd_queuelen p) (sent p) (acked p) (recv p) (recv_data p) (connected p) (poll p) (errf
    p) (polltmr p) (pollinterval p) (unsent p) (unacked p) (ooseq p).
Definition set_nrtx (v : Z) (p : tcp_pcb) : tcp_pcb :=
  Pcb (state p) (callback_arg p) (accept p) (local_ip p) (local_port p) (remote_ip p)
    (remote_port p) (rcv_nxt p) (rcv_wnd p) (tmr p) (rtime p) (mss p) (flags p) (rttest p)
    (rtseq p) (sa p) (sv p) (rto p) v (lastack p) (dupacks p) (cwnd p) (ssthresh p) (snd_nxt
    p) (snd_max p) (snd_wnd p) (snd_wl1 p) (snd_wl2 p) (snd_lbb p) (snd_buf p) (snd_queuelen
    p) (sent p) (acked p) (recv p) (recv_data p) (connected p) (poll p) (errf p) (polltmr p)
    (pollinterval p) (unsent p) (unacked p) (ooseq p).
Definition set_lastack (v : Z) (p : tcp_pcb) : tcp_pcb :=
  Pcb (state p) (callback_arg p) (accept p) (local_ip p) (local_port p) (remote_ip p)
    (remote_port p) (rcv_nxt p) (rcv_wnd p) (tmr p) (rtime p) (mss p) (flags p) (rttest p)
    (rtseq p) (sa p) (sv p) (rto p) (nrtx p) v (dupacks p) (cwnd p) (ssthresh p) (snd_nxt p)
    (snd_max p) (snd_wnd p) (snd_wl1 p) (snd_wl2 p) (snd_lbb p) (snd_buf p) (snd_queuelen p)
    (sent p) (acked p) (recv p) (recv_data p) (connected p) (poll p) (errf p) (polltmr p)
    (pollinterval p) (unsent p) (unacked p) (ooseq p).
Definition set_dupacks (v : Z) (p : tcp_pcb) : tcp_pcb :=
  Pcb (state p) (callback_arg p) (accept p) (local_ip p) (local_port p) (remote_ip p)
    (remote_port p) (rcv_nxt p) (rcv_wnd p) (tmr p) (rtime p) (mss p) (flags p) (rttest p)
    (rtseq p) (sa p) (sv p) (rto p) (nrtx p) (lastack p) v (cwnd p) (ssthresh p) (snd_nxt p)
    (snd_max p) (snd_wnd p) (snd_wl1 p) (snd_wl2 p) (snd_lbb p) (snd_buf p) (snd_queuelen p)
    (sent p) (acked p) (recv p) (recv_data p) (connected p) (poll p) (errf p) (polltmr p)
    (pollinterval p) (unsent p) (unacked p) (ooseq p).
Definition set_cwnd (v : Z) (p : tcp_pcb) : tcp_pcb :=
  Pcb (state p) (callback_arg p) (accept p) (local_ip p) (local_port p) (remote_ip p)
    (remote_port p) (rcv_nxt p) (rcv_wnd p) (tmr p) (rtime p) (mss p) (flags p) (rttest p)
    (rtseq p) (sa p) (sv p) (rto p) (nrtx p) (lastack p) (dupacks p) v (ssthresh p) (snd_nxt
    p) (snd_max p) (snd_wnd p) (snd_wl1 p) (snd_wl2 p) (snd_lbb p) (snd_buf p) (snd_queuelen
    p) (sent p) (acked p) (recv p) (recv_data p) (connected p) (poll p) (errf p) (polltmr p)
    (pollinterval p) (unsent p) (unacked p) (ooseq p).
Definition set_ssthresh (v : Z) (p : tcp_pcb) : tcp_pcb :=
  Pcb (state p) (callback_arg p) (accept p) (local_ip p) (local_port p) (remote_ip p)
    (remote_port p) (rcv_nxt p) (rcv_wnd p) (tmr p) (rtime p) (mss p) (flags p) (rttest p)
    (rtseq p) (sa p) (sv p) (rto p) (nrtx p) (lastack p) (dupacks p) (cwnd p) v (snd_nxt p)
    (snd_max p) (snd_wnd p) (snd_wl1 p) (snd_wl2 p) (snd_lbb p) (snd_buf p) (snd_queuelen p)
    (sent p) (acked p) (recv p) (recv_data p) (connected p) (poll p) (errf p) (polltmr p)
    (pollinterval p) (unsent p) (unacked p) (ooseq p).
Definition set_snd_nxt (v : Z) (p : tcp_pcb) : tcp_pcb :=
  Pcb (state p) (callback_arg p) (accept p) (local_ip p) (local_port p) (remote_ip p)
    (remote_port p) (rcv_nxt p) (rcv_wnd p) (tmr p) (rtime p) (mss p) (flags p) (rttest p)
    (rtseq p) (sa p) (sv p) (rto p) (nrtx p) (lastack p) (dupacks p) (cwnd p) (ssthresh p) v
    (snd_max p) (snd_wnd p) (snd_wl1 p) (snd_wl2 p) (snd_lbb p) (snd_buf p) (snd_queuelen p)
    (sent p) (acked p) (recv p) (recv_data p) (connected p) (poll p) (errf p) (polltmr p)
    (pollinterval p) (unsent p) (unacked p) (ooseq p).
Definition set_snd_max (v : Z) (p : tcp_pcb) : tcp_pcb :=
  Pcb (state p) (callback_arg p) (accept p) (local_ip p) (local_port p) (remote_ip p)
    (remote_port p) (rcv_nxt p) (rcv_wnd p) (tmr p) (rtime p) (mss p) (flags p) (rttest p)
    (rtseq p) (sa p) (sv p) (rto p) (nrtx p) (lastack p) (dupacks p) (cwnd p) (ssthresh p)
    (snd_nxt p) v (snd_wnd p) (snd_wl1 p) (snd_wl2 p) (snd_lbb p) (snd_buf p) (snd_queuelen
    p) (sent p) (acked p) (recv p) (recv_data p) (connected p) (poll p) (errf p) (polltmr p)
    (pollinterval p) (unsent p) (unacked p) (ooseq p).
Definition set_snd_wnd (v : Z) (p : tcp_pcb) : tcp_pcb :=
  Pcb (state p) (callback_arg p) (accept p) (local_ip p) (local_port p) (remote_ip p)
    (remote_port p) (rcv_nxt p) (rcv_wnd p) (tmr p) (rtime p) (mss p) (flags p) (rttest p)
    (rtseq p) (sa p) (sv p) (rto p) (nrtx p) (lastack p) (dupacks p) (cwnd p) (ssthresh p)
    (snd_nxt p) (snd_max p) v (snd_wl1 p) (snd_wl2 p) (snd_lbb p) (snd_buf p) (snd_queuelen
    p) (sent p) (acked p) (recv p) (recv_data p) (connected p) (poll p) (errf p) (polltmr p)
    (pollinterval p) (unsent p) (unacked p) (ooseq p).
Definition set_snd_wl1 (v : Z) (p : tcp_pcb) : tcp_pcb :=
  Pcb (state p) (callback_arg p) (accept p) (local_ip p) (local_port p) (remote_ip p)
    (remote_port p) (rcv_nxt p) (rcv_wnd p) (tmr p) (rtime p) (mss p) (flags p) (rttest p)
    (rtseq p) (sa p) (sv p) (rto p) (nrtx p) (lastack p) (dupacks p) (cwnd p) (ssthresh p)
    (snd_nxt p) (snd_max p) (snd_wnd p) v (snd_wl2 p) (snd_lbb p) (snd_buf p) (snd_queuelen
    p) (sent p) (acked p) (recv p) (recv_data p) (connected p) (poll p) (errf p) (polltmr p)
    (pollinterval p) (unsent p) (unacked p) (ooseq p).
Definition set_snd_wl2 (v : Z) (p : tcp_pcb) : tcp_pcb :=
  Pcb (state p) (callback_arg p) (accept p) (local_ip p) (local_port p) (remote_ip p)
    (remote_port p) (rcv_nxt p) (rcv_wnd p) (tmr p) (rtime p) (mss p) (flags p) (rttest p)
    (rtseq p) (sa p) (sv p) (rto p) (nrtx p) (lastack p) (dupacks p) (cwnd p) (ssthresh p)
    (snd_nxt p) (snd_max p) (snd_wnd p) (snd_wl1 p) v (snd_lbb p) (snd_buf p) (snd_queuelen
    p) (sent p) (acked p) (recv p) (recv_data p) (connected p) (poll p) (errf p) (polltmr p)
    (pollinterval p) (unsent p) (unacked p) (ooseq p).
Definition set_snd_lbb (v : Z) (p : tcp_pcb) : tcp_pcb :=
  Pcb (state p) (callback_arg p) (accept p) (local_ip p) (local_port p) (remote_ip p)
    (remote_port p) (rcv_nxt p) (rcv_wnd p) (tmr p) (rtime p) (mss p) (flags p) (rttest p)
    (rtseq p) (sa p) (sv p) (rto p) (nrtx p) (lastack p) (dupacks p) (cwnd p) (ssthresh p)
    (snd_nxt p) (snd_max p) (snd_wnd p) (snd_wl1 p) (snd_wl2 p) v (snd_buf p) (snd_queuelen
    p) (sent p) (acked p) (recv p) (recv_data p) (connected p) (poll p) (errf p) (polltmr p)
    (pollinterval p) (unsent p) (unacked p) (ooseq p).
Definition set_snd_buf (v : Z) (p : tcp_pcb) : tcp_pcb :=
  Pcb (state p) (callback_arg p) (accept p) (local_ip p) (local_port p) (remote_ip p)
    (remote_port p) (rcv_nxt p) (rcv_wnd p) (tmr p) (rtime p) (mss p) (flags p) (rttest p)
    (rtseq p) (sa p) (sv p) (rto p) (nrtx p) (lastack p) (dupacks p) (cwnd p) (ssthresh p)
    (snd_nxt p) (snd_max p) (snd_wnd p) (snd_wl1 p) (snd_wl2 p) (snd_lbb p) v (snd_queuelen
    p) (sent p) (acked p) (recv p) (recv_data p) (connected p) (poll p) (errf p) (polltmr p)
    (pollinterval p) (unsent p) (unacked p) (ooseq p).
Definition set_snd_queuelen (v : Z) (p : tcp_pcb) : tcp_pcb :=
  Pcb (state p) (callback_arg p) (accept p) (local_ip p) (local_port p) (remote_ip p)
    (remote_port p) (rcv_nxt p) (rcv_wnd p) (tmr p) (rtime p) (mss p) (flags p) (rttest p)
    (rtseq p) (sa p) (sv p) (rto p) (nrtx p) (lastack p) (dupacks p) (cwnd p) (ssthresh p)
    (snd_nxt p) (snd_max p) (snd_wnd p) (snd_wl1 p) (snd_wl2 p) (snd_lbb p) (snd_buf p) v
    (sent p) (acked p) (recv p) (recv_data p) (connected p) (poll p) (errf p) (polltmr p)
    (pollinterval p) (unsent p) (unacked p) (ooseq p).
Definition set_sent (v : option Z) (p : tcp_pcb) : tcp_pcb :=
  Pcb (state p) (callback_arg p) (accept p) (local_ip p) (local_port p) (remote_ip p)
    (remote_port p) (rcv_nxt p) (rcv_wnd p) (tmr p) (rtime p) (mss p) (flags p) (rttest p)
    (rtseq p) (sa p) (sv p) (rto p) (nrtx p) (lastack p) (dupacks p) (cwnd p) (ssthresh p)
    (snd_nxt p) (snd_max p) (snd_wnd p) (snd_wl1 p) (snd_wl2 p) (snd_lbb p) (snd_buf p)
    (snd_queuelen p) v (acked p) (recv p) (recv_data p) (connected p) (poll p) (errf p)
    (polltmr p) (pollinterval p) (unsent p) (unacked p) (ooseq p).
Definition set_acked (v : Z) (p : tcp_pcb) : tcp_pcb :=
  Pcb (state p) (callback_arg p) (accept p) (local_ip p) (local_port p) (remote_ip p)
    (remote_port p) (rcv_nxt p) (rcv_wnd p) (tmr p) (rtime p) (mss p) (flags p) (rttest p)
    (rtseq p) (sa p) (sv p) (rto p) (nrtx p) (lastack p) (dupacks p) (cwnd p) (ssthresh p)
    (snd_nxt p) (snd_max p) (snd_wnd p) (snd_wl1 p) (snd_wl2 p) (snd_lbb p) (snd_buf p)
    (snd_queuelen p) (sent p) v (recv p) (recv_data p) (connected p) (poll p) (errf p)
    (polltmr p) (pollinterval p) (unsent p) (unacked p) (ooseq p).
Definition set_recv (v : option Z) (p : tcp_pcb) : tcp_pcb :=
  Pcb (state p) (callback_arg p) (accept p) (local_ip p) (local_port p) (remote_ip p)
    (remote_port p) (rcv_nxt p) (rcv_wnd p) (tmr p) (rtime p) (mss p) (flags p) (rttest p)
    (rtseq p) (sa p) (sv p) (rto p) (nrtx p) (lastack p) (dupacks p) (cwnd p) (ssthresh p)
    (snd_nxt p) (snd_max p) (snd_wnd p) (snd_wl1 p) (snd_wl2 p) (snd_lbb p) (snd_buf p)
    (snd_queuelen p) (sent p) (acked p) v (recv_data p) (connected p) (poll p) (errf p)
    (polltmr p) (pollinterval p) (unsent p) (unacked p) (ooseq p).
Definition set_recv_data (v : option pbufs) (p : tcp_pcb) : tcp_pcb :=
  Pcb (state p) (callback_arg p) (accept p) (local_ip p) (local_port p) (remote_ip p)
    (remote_port p) (rcv_nxt p) (rcv_wnd p) (tmr p) (rtime p) (mss p) (flags p) (rttest p)
    (rtseq p) (sa p) (sv p) (rto p) (nrtx p) (lastack p) (dupacks p) (cwnd p) (ssthresh p)
    (snd_nxt p) (snd_max p) (snd_wnd p) (snd_wl1 p) (snd_wl2 p) (snd_lbb p) (snd_buf p)
    (snd_queuelen p) (sent p) (acked p) (recv p) v (connected p) (poll p) (errf p) (polltmr
    p) (pollinterval p) (unsent p) (unacked p) (ooseq p).
Definition set_connected (v : option Z) (p : tcp_pcb) : tcp_pcb :=
  Pcb (state p) (callback_arg p) (accept p) (local_ip p) (local_port p) (remote_ip p)
    (remote_port p) (rcv_nxt p) (rcv_wnd p) (tmr p) (rtime p) (mss p) (flags p) (rttest p)
    (rtseq p) (sa p) (sv p) (rto p) (nrtx p) (lastack p) (dupacks p) (cwnd p) (ssthresh p)
    (snd_nxt p) (snd_max p) (snd_wnd p) (snd_wl1 p) (snd_wl2 p) (snd_lbb p) (snd_buf p)
    (snd_queuelen p) (sent p) (acked p) (recv p) (recv_data p) v (poll p) (errf p) (polltmr
    p) (pollinterval p) (unsent p) (unacked p) (ooseq p).
Definition set_poll (v : option Z) (p : tcp_pcb) : tcp_pcb :=
  Pcb (state p) (callback_arg p) (accept p) (local_ip p) (local_port p) (remote_ip p)
    (remote_port p) (rcv_nxt p) (rcv_wnd p) (tmr p) (rtime p) (mss p) (flags p) (rttest p)
    (rtseq p) (sa p) (sv p) (rto p) (nrtx p) (lastack p) (dupacks p) (cwnd p) (ssthresh p)
    (snd_nxt p) (snd_max p) (snd_wnd p) (snd_wl1 p) (snd_wl2 p) (snd_lbb p) (snd_buf p)
    (snd_queuelen p) (sent p) (acked p) (recv p) (recv_data p) (connected p) v (errf p)
    (polltmr p) (pollinterval p) (unsent p) (unacked p) (ooseq p).
Definition set_errf (v : option Z) (p : tcp_pcb) : tcp_pcb :=
  Pcb (state p) (callback_arg p) (accept p) (local_ip p) (local_port p) (remote_ip p)
    (remote_port p) (rcv_nxt p) (rcv_wnd p) (tmr p) (rtime p) (mss p) (flags p) (rttest p)
    (rtseq p) (sa p) (sv p) (rto p) (nrtx p) (lastack p) (dupacks p) (cwnd p) (ssthresh p)
    (snd_nxt p) (snd_max p) (snd_wnd p) (snd_wl1 p) (snd_wl2 p) (snd_lbb p) (snd_buf p)
    (snd_queuelen p) (sent p) (acked p) (recv p) (recv_data p) (connected p) (poll p) v
    (polltmr p) (pollinterval p) (unsent p) (unacked p) (ooseq p).
Definition set_polltmr (v : Z) (p : tcp_pcb) : tcp_pcb :=
  Pcb (state p) (callback_arg p) (accept p) (local_ip p) (local_port p) (remote_ip p)
    (remote_port p) (rcv_nxt p) (rcv_wnd p) (tmr p) (rtime p) (mss p) (flags p) (rttest p)
    (rtseq p) (sa p) (sv p) (rto p) (nrtx p) (lastack p) (dupacks p) (cwnd p) (ssthresh p)
    (snd_nxt p) (snd_max p) (snd_wnd p) (snd_wl1 p) (snd_wl2 p) (snd_lbb p) (snd_buf p)
    (snd_queuelen p) (sent p) (acked p) (recv p) (recv_data p) (connected p) (poll p) (errf
    p) v (pollinterval p) (unsent p) (unacked p) (ooseq p).
Definition set_pollinterval (v : Z) (p : tcp_pcb) : tcp_pcb :=
  Pcb (state p) (callback_arg p) (accept p) (local_ip p) (local_port p) (remote_ip p)
    (remote_port p) (rcv_nxt p) (rcv_wnd p) (tmr p) (rtime p) (mss p) (flags p) (rttest p)
    (rtseq p) (sa p) (sv p) (rto p) (nrtx p) (lastack p) (dupacks p) (cwnd p) (ssthresh p)
    (snd_nxt p) (snd_max p) (snd_wnd p) (snd_wl1 p) (snd_wl2 p) (snd_lbb p) (snd_buf p)
    (snd_queuelen p) (sent p) (acked p) (recv p) (recv_data p) (connected p) (poll p) (errf
    p) (polltmr p) v (unsent p) (unacked p) (ooseq p).
Definition set_unsent (v : list tcp_seg) (p : tcp_pcb) : tcp_pcb :=
  Pcb (state p) (callback_arg p) (accept p) (local_ip p) (local_port p) (remote_ip p)
    (remote_port p) (rcv_nxt p) (rcv_wnd p) (tmr p) (rtime p) (mss p) (flags p) (rttest p)
    (rtseq p) (sa p) (sv p) (rto p) (nrtx p) (lastack p) (dupacks p) (cwnd p) (ssthresh p)
    (snd_nxt p) (snd_max p) (snd_wnd p) (snd_wl1 p) (snd_wl2 p) (snd_lbb p) (snd_buf p)
    (snd_queuelen p) (sent p) (acked p) (recv p) (recv_data p) (connected p) (poll p) (errf
    p) (polltmr p) (pollinterval p) v (unacked p) (ooseq p).
Definition set_unacked (v : list tcp_seg) (p : tcp_pcb) : tcp_pcb :=
  Pcb (state p) (callback_arg p) (accept p) (local_ip p) (local_port p) (remote_ip p)
    (remote_port p) (rcv_nxt p) (rcv_wnd p) (tmr p) (rtime p) (mss p) (flags p) (rttest p)
    (rtseq p) (sa p) (sv p) (rto p) (nrtx p) (lastack p) (dupacks p) (cwnd p) (ssthresh p)
    (snd_nxt p) (snd_max p) (snd_wnd p) (snd_wl1 p) (snd_wl2 p) (snd_lbb p) (snd_buf p)
    (snd_queuelen p) (sent p) (acked p) (recv p) (recv_data p) (connected p) (poll p) (errf
    p) (polltmr p) (pollinterval p) (unsent p) v (ooseq p).
Definition set_ooseq (v : list tcp_seg) (p : tcp_pcb) : tcp_pcb :=
  Pcb (state p) (callback_arg p) (accept p) (local_ip p) (local_port p) (remote_ip p)
    (remote_port p) (rcv_nxt p) (rcv_wnd p) (tmr p) (rtime p) (mss p) (flags p) (rttest p)
    (rtseq p) (sa p) (sv p) (rto p) (nrtx p) (lastack p) (dupacks p) (cwnd p) (ssthresh p)
    (snd_nxt p) (snd_max p) (snd_wnd p) (snd_wl1 p) (snd_wl2 p) (snd_lbb p) (snd_buf p)
    (snd_queuelen p) (sent p) (acked p) (recv p) (recv_data p) (connected p) (poll p) (errf
    p) (polltmr p) (pollinterval p) (unsent p) (unacked p) v.

(** What [bzero] makes of a control block. *)
Definition pcb_zero : tcp_pcb :=
  Pcb CLOSED 0 None 0 0 0 0 0 0 0 0 0 0 0 0 0 0 0 0 0 0 0 0 0 0 0 0 0 0 0 0 None 0 None
    None None None None 0 0 [] [] [].

(** ** The environment *)

(** A packet handed to the IP layer. *)
Record packet := Packet { p_src : Z; p_dest : Z; p_hdr : tcp_hdr; p_data : list (list Z) }.

(** [allocs] tells for each allocation to come whether it succeeds (all do when
    the list is used up); [trace] lists the packets sent, the last one first;
    [tcp_ticks] and [iss] are variables of [tcp.c]. *)
Record env := Env { allocs : list bool; trace : list packet; tcp_ticks : Z; iss : Z }.

(** One allocation of a segment or a pbuf, as far as its caller can see. *)
Definition alloc (e : env) : bool * env :=
  match allocs e with
  | [] => (true, e)
  | b :: r => (b, Env r (trace e) (tcp_ticks e) (iss e))
  end.

Definition emit (k : packet) (e : env) : env :=
  Env (allocs e) (k :: trace e) (tcp_ticks e) (iss e).

(** The bytes of a header in memory, in network order. *)
Definition be16 (x : Z) : list Z := [x / 256 mod 256; x mod 256].
Definition be32 (x : Z) : list Z :=
  [x / 16777216 mod 256; x / 65536 mod 256; x / 256 mod 256; x mod 256].

(** The checksum is stored as it was computed, on the little-endian target. *)
Definition hdr_bytes (h : tcp_hdr) : list Z :=
  be16 (src h) ++ be16 (dest h) ++ be32 (seqno h) ++ be32 (ackno h) ++
  [h_off h; h_flags h] ++ be16 (wnd h) ++ [chksum h mod 256; chksum h / 256] ++ be16 (urgp h).

(** The chain of a packet as the checksum sees it: the header lies in front of
    the data of the first buffer. *)
Definition packet_chain (h : tcp_hdr) (data : list (list Z)) : list (list Z) :=
  match data with
  | [] => [hdr_bytes h]
  | d :: r => (hdr_bytes h ++ d) :: r
  end.

Definition chain_len (data : list (list Z)) : Z := TCP_HLEN + Z.of_nat (length (concat data)).

(** Zero the checksum field, compute the checksum and store it. *)
Definition checksummed (h : tcp_hdr) (data : list (list Z)) (lip rip : Z) : tcp_hdr :=
  let h := set_chksum 0 h in
  match inet_chksum_pseudo (packet_chain h data) lip rip IP_PROTO_TCP (u16 (chain_len data)) with
  | Some c => set_chksum c h
  | None => h
  end.

(** What the TCP layer asks of the network layer: the source address for a
    destination ([ip_route]), zero when there is no route. *)
Class Network := { ip_route : Z -> Z }.
