(* ===== verification/TcpOutput.v ===== *)
(** The output half of TCP, [SW_stub/lwtcp/tcp_output.c]: queueing data and
    control segments on the [unsent] queue, sending what the windows allow,
    retransmission and resets.  The functions act on one control block and on
    the environment. *)

From S2P Require Import Prelude Inet TcpTypes.
From stdpp Require Import base list.
From Stdlib Require Import ZArith Lia.

Local Open Scope Z_scope.

(** ** Queueing *)

(** The header of a new segment; [ackno] and [wnd] are filled in later. *)
Definition new_hdr (pcb : tcp_pcb) (seqno flags : Z) (optdata : option (list Z)) : tcp_hdr :=
  Hdr (local_port pcb) (remote_port pcb) seqno 0
      (match optdata with
       | Some o => Z.shiftl (5 + Z.of_nat (length o) / 4) 4
       | None => Z.shiftl 5 4
       end) flags 0 0 0.

(** The pbufs of a new segment: one for options or copied data, two for data
    that is only referenced; [None] when an allocation fails. *)
Definition segment_pbufs (e : env) (seglen : Z) (ptr : list Z) (copy : bool)
    (optdata : option (list Z)) : option pbufs * env :=
  match optdata with
  | Some o =>
      let '(ok, e) := alloc e in
      ((if ok : bool then Some (Pbufs [o] (Z.of_nat (length o))) else None), e)
  | None =>
      let d := take (Z.to_nat seglen) ptr in
      if copy then
        let '(ok, e) := alloc e in
        ((if ok : bool then Some (Pbufs [d] seglen) else None), e)
      else
        let '(ok, e) := alloc e in
        if ok : bool then
          let '(ok, e) := alloc e in
          ((if ok : bool then Some (Pbufs [[]; d] seglen) else None), e)
        else (None, e)
  end.

(** The loop of [tcp_enqueue].  Every round adds a pbuf to the count of queued
    pbufs, which [TCP_SND_QUEUELEN] bounds: nine rounds are enough. *)
Fixpoint enqueue_loop (fuel : nat) (e : env) (pcb : tcp_pcb) (flags : Z) (copy : bool)
    (optdata : option (list Z)) (queue : list tcp_seg) (left seqno : Z) (ptr : list Z)
    (queuelen seglen : Z) : outcome (option (list tcp_seg * Z * Z) * env) :=
  if (match queue with [] => true | _ => false end) || (0 <? left) then
    match fuel with
    | O => Undef
    | S k =>
        let seglen := if mss pcb <? left then mss pcb else left in
        let '(ok, e) := alloc e in
        if negb ok then Ret (None, e)
        else
          match segment_pbufs e seglen ptr copy optdata with
          | (None, e) => Ret (None, e)
          | (Some p, e) =>
              let queuelen := u8 (queuelen + pbuf_clen p) in
              if TCP_SND_QUEUELEN <? queuelen then Ret (None, e)
              else
                let seg := Seg (Some p) seglen (new_hdr pcb seqno flags optdata) in
                enqueue_loop k e pcb flags copy optdata (queue ++ [seg]) (u32 (left - seglen))
                  (u32 (seqno + seglen)) (drop (Z.to_nat seglen) ptr) queuelen seglen
          end
    end
  else Ret (Some (queue, queuelen, seglen), e).

(** Chaining the first new segment to the last one that is queued. *)
Definition can_chain (pcb : tcp_pcb) (useg q : tcp_seg) (flags : Z) : bool :=
  negb (TCP_TCPLEN useg =? 0) &&
  negb (has (h_flags (tcphdr useg)) (Z.lor TCP_SYN TCP_FIN)) &&
  negb (has flags (Z.lor TCP_SYN TCP_FIN)) &&
  (seg_len useg + seg_len q <=? mss pcb).

Definition chain_pbufs (h t : option pbufs) : option pbufs :=
  match h, t with
  | Some h, Some t => Some (Pbufs (bufs h ++ bufs t) (u16 (tot_len h + tot_len t)))
  | _, _ => h
  end.

Definition chain_seg (useg q : tcp_seg) : tcp_seg :=
  Seg (chain_pbufs (seg_p useg) (seg_p q)) (u16 (seg_len useg + seg_len q)) (tcphdr useg).

(** The last segment of the list with the PSH flag. *)
Definition push_last (q : list tcp_seg) : list tcp_seg :=
  match last q with
  | Some s => removelast q ++ [set_tcphdr (set_h_flags (Z.lor (h_flags (tcphdr s)) TCP_PSH) (tcphdr s)) s]
  | None => q
  end.

(** Appending the new segments to the [unsent] queue. *)
Definition join_unsent (pcb : tcp_pcb) (queue : list tcp_seg) (flags seglen : Z) : list tcp_seg :=
  let push q := if 0 <? seglen then push_last q else q in
  match last (unsent pcb), queue with
  | Some useg, q :: rest =>
      if can_chain pcb useg q flags then
        removelast (unsent pcb) ++ chain_seg useg q :: (match rest with [] => [] | _ => push rest end)
      else unsent pcb ++ push queue
  | _, _ => unsent pcb ++ push queue
  end.

Definition enqueue_fuel : nat := 9.

Definition tcp_enqueue (e : env) (pcb : tcp_pcb) (arg : option (list Z)) (len flags : Z)
    (copy : bool) (optdata : option (list Z)) : outcome (err_t * tcp_pcb * env) :=
  if snd_buf pcb <? len then Ret (ERR_MEM, pcb, e)
  else if TCP_SND_QUEUELEN <=? snd_queuelen pcb then Ret (ERR_MEM, pcb, e)
  else
    r ← enqueue_loop enqueue_fuel e pcb flags copy optdata [] len (snd_lbb pcb)
          (default [] arg) (snd_queuelen pcb) 0;
    match r with
    | (None, e) => Ret (ERR_MEM, pcb, e)
    | (Some (queue, queuelen, seglen), e) =>
        let len := if has flags TCP_SYN || has flags TCP_FIN then u16 (len + 1) else len in
        let pcb' := set_unsent (join_unsent pcb queue flags seglen) pcb in
        Ret (ERR_OK,
             set_snd_queuelen queuelen
               (set_snd_buf (u16 (snd_buf pcb - len)) (set_snd_lbb (u32 (snd_lbb pcb + len)) pcb')),
             e)
    end.

Definition tcp_send_ctrl (e : env) (pcb : tcp_pcb) (flags : Z) : outcome (err_t * tcp_pcb * env) :=
  tcp_enqueue e pcb None 0 flags true None.

Definition tcp_write (e : env) (pcb : tcp_pcb) (arg : list Z) (copy : bool)
  : outcome (err_t * tcp_pcb * env) :=
  let len := Z.of_nat (length arg) in
  match state pcb with
  | SYN_SENT | SYN_RCVD | ESTABLISHED | CLOSE_WAIT =>
      if 0 <? len then tcp_enqueue e pcb (Some arg) len 0 copy None else Ret (ERR_OK, pcb, e)
  | _ => Ret (ERR_CONN, pcb, e)
  end.

(** ** Sending *)

Section Output.
Context `{Network}.

Definition tcp_output_segment (e : env) (seg : tcp_seg) (pcb : tcp_pcb)
  : outcome (tcp_seg * tcp_pcb * env) :=
  let h := set_ackno (rcv_nxt pcb) (tcphdr seg) in
  let h := set_wnd (if rcv_wnd pcb <? mss pcb then 0 else rcv_wnd pcb) h in
  pcb ← (if local_ip pcb =? 0 then
           let a := ip_route (remote_ip pcb) in
           if a =? 0 then Undef else Ret (set_local_ip a pcb)
         else Ret pcb);
  let pcb := set_rtime 0 pcb in
  let pcb := if rttest pcb =? 0 then set_rtseq (seqno h) (set_rttest (u16 (tcp_ticks e)) pcb)
             else pcb in
  let data := match seg_p seg with Some p => bufs p | None => [] end in
  let h := checksummed h data (local_ip pcb) (remote_ip pcb) in
  Ret (set_tcphdr h seg, pcb, emit (Packet (local_ip pcb) (remote_ip pcb) h data) e).

(** The window test of [tcp_output] and [tcp_rexmit_seg]. *)
Definition send_wnd (pcb : tcp_pcb) : Z := if snd_wnd pcb <? cwnd pcb then snd_wnd pcb else cwnd pcb.
Definition in_wnd (pcb : tcp_pcb) (wnd : Z) (seg : tcp_seg) : bool :=
  u32 (u32 (seqno (tcphdr seg) - lastack pcb) + seg_len seg) <=? wnd.

(** The loop of [tcp_output]; every round takes a segment off [unsent]. *)
Fixpoint output_loop (fuel : nat) (e : env) (pcb : tcp_pcb) (wnd : Z) : outcome (tcp_pcb * env) :=
  match unsent pcb with
  | seg :: rest =>
      if in_wnd pcb wnd seg then
        match fuel with
        | O => Undef
        | S k =>
            let pcb := set_unsent rest (set_rtime 0 pcb) in
            let '(seg, pcb) :=
              if decide (state pcb <> SYN_SENT) then
                (set_tcphdr (set_h_flags (Z.lor (h_flags (tcphdr seg)) TCP_ACK) (tcphdr seg)) seg,
                 set_flags (clear (Z.lor TF_ACK_DELAY TF_ACK_NOW) (flags pcb)) pcb)
              else (seg, pcb) in
            r ← tcp_output_segment e seg pcb;
            let '(seg, pcb, e) := r in
            let pcb := set_snd_nxt (u32 (seqno (tcphdr seg) + TCP_TCPLEN seg)) pcb in
            let pcb := if TCP_SEQ_LT (snd_max pcb) (snd_nxt pcb) then set_snd_max (snd_nxt pcb) pcb
                       else pcb in
            let pcb := if 0 <? TCP_TCPLEN seg then set_unacked (unacked pcb ++ [seg]) pcb else pcb in
            output_loop k e pcb wnd
        end
      else Ret (pcb, e)
  | [] => Ret (pcb, e)
  end.

(** The header of a bare acknowledgement. *)
Definition ack_hdr (pcb : tcp_pcb) : tcp_hdr :=
  Hdr (local_port pcb) (remote_port pcb) (snd_nxt pcb) (rcv_nxt pcb) (Z.shiftl 5 4) TCP_ACK
      (rcv_wnd pcb) 0 0.

Definition tcp_output (e : env) (pcb : tcp_pcb) : outcome (err_t * tcp_pcb * env) :=
  if has (flags pcb) TF_ACK_NOW then
    let pcb := set_flags (clear (Z.lor TF_ACK_DELAY TF_ACK_NOW) (flags pcb)) pcb in
    let '(ok, e) := alloc e in
    if ok : bool then
      let h := checksummed (ack_hdr pcb) [[]] (local_ip pcb) (remote_ip pcb) in
      Ret (ERR_OK, pcb, emit (Packet (local_ip pcb) (remote_ip pcb) h [[]]) e)
    else Ret (ERR_BUF, pcb, e)
  else
    r ← output_loop (length (unsent pcb)) e pcb (send_wnd pcb);
    let '(pcb, e) := r in Ret (ERR_OK, pcb, e).

(** The macros [tcp_ack] and [tcp_ack_now]. *)
Definition tcp_ack_now (e : env) (pcb : tcp_pcb) : outcome (tcp_pcb * env) :=
  r ← tcp_output e (set_flags (raise TF_ACK_NOW (flags pcb)) pcb);
  let '(_, pcb, e) := r in Ret (pcb, e).

Definition tcp_ack (e : env) (pcb : tcp_pcb) : outcome (tcp_pcb * env) :=
  if has (flags pcb) TF_ACK_DELAY then tcp_ack_now e pcb
  else Ret (set_flags (raise TF_ACK_DELAY (flags pcb)) pcb, e).

(** [tcp_rexmit_seg] returns the segment, whose header it changes. *)
Definition tcp_rexmit_seg (e : env) (pcb : tcp_pcb) (seg : tcp_seg) : tcp_seg * tcp_pcb * env :=
  if in_wnd pcb (send_wnd pcb) seg then
    let h := set_wnd (rcv_wnd pcb) (set_ackno (rcv_nxt pcb) (tcphdr seg)) in
    let data := match seg_p seg with Some p => bufs p | None => [] end in
    let h := checksummed h data (local_ip pcb) (remote_ip pcb) in
    (set_tcphdr h seg,
     set_rttest 0 (set_rtime 0 (set_nrtx (u8 (nrtx pcb + 1)) pcb)),
     emit (Packet (local_ip pcb) (remote_ip pcb) h data) e)
  else (seg, pcb, e).

(** The packet [tcp_rst] sends; the allocation before it may abort connections
    to find memory, so [tcp_rst] is a definition of [Tcp]. *)
Definition rst_packet (seqno ackno lip rip lport rport : Z) : packet :=
  let h := Hdr lport rport seqno ackno (Z.shiftl 5 4) (Z.lor TCP_RST TCP_ACK) 0 0 0 in
  Packet lip rip (checksummed h [[]] lip rip) [[]].

End Output.

(** ** Flags *)

Lemma has_lor a b f : has (Z.lor a b) f = has a f || has b f.
Proof.
  unfold has, truthy. rewrite Z.land_lor_distr_l.
  destruct (Z.eqb_spec (Z.land a f) 0) as [->|Ha]; [rewrite Z.lor_0_l; reflexivity|].
  cbn [negb orb]. apply negb_true_iff, Z.eqb_neq. intros E. apply Z.lor_eq_0_iff in E. tauto.
Qed.

Lemma has_0 f : has 0 f = false.
Proof. reflexivity. Qed.

(** PSH and ACK do not change the length of a segment. *)
Lemma tcplen_flags s f : has f TCP_FIN = false -> has f TCP_SYN = false ->
  TCP_TCPLEN (set_tcphdr (set_h_flags (Z.lor (h_flags (tcphdr s)) f) (tcphdr s)) s) = TCP_TCPLEN s.
Proof.
  intros H1 H2. unfold TCP_TCPLEN. cbn [tcphdr set_tcphdr set_h_flags h_flags seg_len].
  rewrite !has_lor, H1, H2, !orb_false_r. reflexivity.
Qed.

(** ** Queues of segments *)

(** The segments of [q] follow each other from [s] up to [e]. *)
Fixpoint contiguous (s : Z) (q : list tcp_seg) (e : Z) : Prop :=
  match q with
  | [] => s = e
  | g :: r => seqno (tcphdr g) = s /\ contiguous (u32 (s + TCP_TCPLEN g)) r e
  end.

Lemma contiguous_app s a b e :
  contiguous s (a ++ b) e <-> exists m, contiguous s a m /\ contiguous m b e.
Proof.
  revert s. induction a as [|g r IH]; intros s; cbn [app contiguous].
  - split; [intros H; exists s; auto|intros (m & -> & H); exact H].
  - rewrite IH. split; [intros (E & m & H1 & H2); exists m; auto|intros (m & (E & H1) & H2); eauto].
Qed.

Definition queue_data (q : list tcp_seg) : list Z := concat (map seg_data q).
Definition queue_clen (q : list tcp_seg) : Z := foldr Z.add 0 (map seg_clen q).

Lemma queue_data_app a b : queue_data (a ++ b) = queue_data a ++ queue_data b.
Proof. unfold queue_data. rewrite map_app, concat_app. reflexivity. Qed.

Lemma queue_clen_app a b : queue_clen (a ++ b) = queue_clen a + queue_clen b.
Proof. unfold queue_clen. rewrite map_app, foldr_app. induction a; cbn; lia. Qed.

(** A queued segment: it has pbufs, whose [tot_len] is the length of their data,
    which is the length of the segment unless it is a SYN or a FIN; it holds at
    most [m] bytes of TCP data and takes at least one sequence number. *)
Definition seg_ok (m : Z) (g : tcp_seg) : Prop :=
  exists p, seg_p g = Some p /\ bufs p <> [] /\ tot_len p = Z.of_nat (length (pbuf_data p)) /\
    (TCP_TCPLEN g = seg_len g -> Z.of_nat (length (pbuf_data p)) = seg_len g) /\
    0 <= seg_len g <= m /\ 0 < TCP_TCPLEN g.

(** A change of the header that keeps the sequence number and the length. *)
Definition same_seg (g h : tcp_seg) : Prop :=
  seg_p g = seg_p h /\ seg_len g = seg_len h /\ seqno (tcphdr g) = seqno (tcphdr h) /\
  TCP_TCPLEN g = TCP_TCPLEN h.

Lemma same_contiguous q q' s e : Forall2 same_seg q q' -> contiguous s q e -> contiguous s q' e.
Proof.
  intros H. revert s. induction H as [|g h q q' (E1 & E2 & E3 & E4) _ IH]; intros s; cbn; [auto|].
  rewrite <- E3, <- E4. intros [-> Hc]. auto.
Qed.

Lemma same_data q q' : Forall2 same_seg q q' ->
  queue_data q = queue_data q' /\ queue_clen q = queue_clen q' /\
  forall m, Forall (seg_ok m) q -> Forall (seg_ok m) q'.
Proof.
  induction 1 as [|g h q q' (E1 & E2 & E3 & E4) _ (IH1 & IH2 & IH3)]; [auto|].
  unfold queue_data, queue_clen, seg_data, seg_clen in *. cbn [map concat foldr].
  rewrite E1, IH1, IH2. split; [reflexivity|]. split; [reflexivity|].
  intros m Hf. apply Forall_cons in Hf as [(p & A & B & C & D) Hf]. constructor; [|auto].
  exists p. rewrite <- E1, <- E2, <- E4. auto.
Qed.

Lemma same_refl q : Forall2 same_seg q q.
Proof. induction q; constructor; [repeat split|auto]. Qed.

Lemma last_split {A} (q : list A) x : last q = Some x -> q = removelast q ++ [x].
Proof.
  intros H. apply last_Some in H as [l ->]. rewrite removelast_last. reflexivity.
Qed.

Lemma push_last_same q : Forall2 same_seg q (push_last q).
Proof.
  unfold push_last. destruct (last q) as [s|] eqn:E; [|apply same_refl].
  rewrite (last_split q s E) at 1. apply Forall2_app; [apply same_refl|].
  constructor; [|constructor]. split; [reflexivity|]. split; [reflexivity|]. split; [reflexivity|].
  symmetry. apply tcplen_flags; reflexivity.
Qed.

(** ** Queueing *)

Lemma segment_pbufs_spec e seglen ptr copy o :
  match segment_pbufs e seglen ptr copy o with
  | (Some p, _) =>
      1 <= pbuf_clen p <= 2 /\ bufs p <> [] /\
      pbuf_data p = match o with Some o => o | None => take (Z.to_nat seglen) ptr end /\
      tot_len p = match o with Some o => Z.of_nat (length o) | None => seglen end
  | (None, _) => True
  end.
Proof.
  unfold segment_pbufs, pbuf_clen, pbuf_data.
  destruct o as [o|]; [destruct (alloc e) as [[] e1]; cbn; rewrite ?app_nil_r; auto; repeat split; lia || discriminate|].
  destruct copy.
  - destruct (alloc e) as [[] e1]; cbn; rewrite ?app_nil_r; auto; repeat split; lia || discriminate.
  - destruct (alloc e) as [[] e1]; [|exact Logic.I].
    destruct (alloc e1) as [[] e2]; cbn; rewrite ?app_nil_r; auto; repeat split; lia || discriminate.
Qed.

Lemma segment_pbufs_trace e seglen ptr copy o :
  trace (segment_pbufs e seglen ptr copy o).2 = trace e.
Proof.
  unfold segment_pbufs, alloc. destruct e as [al tr ti i0].
  destruct o; [|destruct copy]; destruct al as [|b1 al]; try (destruct b1); try reflexivity;
    destruct al as [|b2 al]; try (destruct b2); reflexivity.
Qed.

(** The rounds that send data: they end, and cut [left] bytes off [ptr] into
    segments that follow each other. *)
Lemma enqueue_loop_data fuel e pcb fl copy queue left sq ptr ql sl :
  has fl TCP_FIN = false -> has fl TCP_SYN = false -> 0 < mss pcb ->
  0 <= left < 2 ^ 32 -> left <= Z.of_nat (length ptr) -> 0 <= ql <= TCP_SND_QUEUELEN ->
  9 - ql <= Z.of_nat fuel -> (queue = [] -> 0 < left) -> 0 <= sq < 2 ^ 32 ->
  exists r e', enqueue_loop fuel e pcb fl copy None queue left sq ptr ql sl = Ret (r, e') /\
    trace e' = trace e /\
    match r with
    | None => True
    | Some (q', ql', sl') =>
        exists new, q' = queue ++ new /\ contiguous sq new (u32 (sq + left)) /\
          queue_data new = take (Z.to_nat left) ptr /\ Forall (seg_ok (mss pcb)) new /\
          Forall (fun g => h_flags (tcphdr g) = fl /\ 0 < seg_len g) new /\
          ql' = ql + queue_clen new /\ ql' <= TCP_SND_QUEUELEN
    end.
Proof.
  change (2 ^ 32) with 4294967296. intros Hf Hs Hm. unfold TCP_SND_QUEUELEN in *.
  revert e queue left sq ptr ql sl.
  induction fuel as [|k IH]; intros e queue left sq ptr ql sl Hl Hp Hq Hk Hne Hsq; [lia|].
  cbn [enqueue_loop].
  destruct (Z.ltb_spec 0 left) as [Hpos|Hz].
  2: { assert (left = 0) as -> by lia. destruct queue as [|g r]; [specialize (Hne eq_refl); lia|].
       cbn [orb]. exists (Some (g :: r, ql, sl)), e. split; [reflexivity|]. split; [reflexivity|].
       exists []. rewrite app_nil_r. cbn. rewrite Z.add_0_r, u32_small by lia.
       repeat split; auto; lia. }
  rewrite orb_true_r. set (n := if mss pcb <? left then mss pcb else left).
  assert (Hn : 0 < n <= left /\ n <= mss pcb) by (subst n; destruct (Z.ltb_spec (mss pcb) left); lia).
  clearbody n. destruct (alloc e) as [ok e1] eqn:Ea.
  assert (Ht1 : trace e1 = trace e)
    by (unfold alloc in Ea; destruct (allocs e); injection Ea as _ <-; reflexivity).
  destruct ok; cbn [negb]; [|exists None, e1; auto].
  pose proof (segment_pbufs_spec e1 n ptr copy None) as Hsp.
  pose proof (segment_pbufs_trace e1 n ptr copy None) as Ht2.
  destruct (segment_pbufs e1 n ptr copy None) as [[p|] e2]; cbn [snd] in Ht2; [|exists None, e2; split; [auto|split; [congruence|exact Logic.I]]].
  destruct Hsp as (Hc & Hb & Hd & Hto). rewrite u8_small by lia.
  change TCP_SND_QUEUELEN with 8. destruct (Z.ltb_spec 8 (ql + pbuf_clen p)) as [|Hle]; [exists None, e2; split; [auto|split; [congruence|auto]]|].
  rewrite (u32_small (left - n)) by lia.
  set (seg := Seg (Some p) n (new_hdr pcb sq fl None)).
  assert (Hlen : length (take (Z.to_nat n) ptr) = Z.to_nat n) by (rewrite length_take; lia).
  destruct (IH e2 (queue ++ [seg]) (left - n) (u32 (sq + n)) (drop (Z.to_nat n) ptr)
    (ql + pbuf_clen p) n) as (r & e' & -> & Ht & Hr).
  - lia.
  - rewrite length_drop. lia.
  - lia.
  - lia.
  - intros E. destruct queue; discriminate.
  - apply u32_range.
  - exists r, e'. split; [reflexivity|]. split; [congruence|]. destruct r as [[[q' ql'] sl']|]; [|exact Logic.I].
    destruct Hr as (new & -> & Hco & Hda & Hok & Hfl & -> & Hq'). exists (seg :: new).
    assert (El : TCP_TCPLEN seg = n)
      by (unfold TCP_TCPLEN, seg; cbn [tcphdr new_hdr h_flags seg_len]; rewrite Hf, Hs; cbn [orb]; lia).
    rewrite <- app_assoc. split; [reflexivity|]. split; [|split; [|split; [|split; [|split]]]].
    + cbn [contiguous]. split; [reflexivity|]. rewrite El. replace (u32 (sq + left)) with (u32 (u32 (sq + n) + (left - n))); [exact Hco|].
      unfold wrapu. rewrite Zplus_mod_idemp_l. f_equal. lia.
    + unfold queue_data in *. cbn [map concat]. rewrite Hda. unfold seg_data. cbn [seg seg_p].
      rewrite Hd. replace (Z.to_nat left) with (Z.to_nat n + Z.to_nat (left - n))%nat by lia.
      apply take_take_drop.
    + constructor; [|exact Hok]. exists p. rewrite El. cbn [seg seg_p seg_len]. rewrite Hd, Hto, Hlen.
      repeat split; auto; lia.
    + constructor; [|exact Hfl]. cbn. split; [reflexivity|lia].
    + unfold queue_clen. cbn [map foldr]. unfold seg_clen at 2. cbn [seg seg_p].
      fold (queue_clen new). lia.
    + exact Hq'.
Qed.

Lemma has_or_false f a b : has f (Z.lor a b) = false -> has f a = false /\ has f b = false.
Proof.
  unfold has, truthy. rewrite Z.land_lor_distr_r. intros H.
  apply negb_false_iff, Z.eqb_eq, Z.lor_eq_0_iff in H as [-> ->]. auto.
Qed.

Lemma queue_data_cons g q : queue_data (g :: q) = seg_data g ++ queue_data q.
Proof. reflexivity. Qed.

Lemma queue_clen_cons g q : queue_clen (g :: q) = seg_clen g + queue_clen q.
Proof. reflexivity. Qed.

(** Chaining two neighbouring segments. *)
Lemma chain_seg_spec pcb u q fl B s e :
  can_chain pcb u q fl = true -> has (h_flags (tcphdr q)) TCP_FIN = false ->
  has (h_flags (tcphdr q)) TCP_SYN = false -> mss pcb <= B < 65536 ->
  seg_ok B u -> seg_ok B q -> contiguous s [u; q] e ->
  contiguous s [chain_seg u q] e /\ seg_ok B (chain_seg u q) /\
  seg_data (chain_seg u q) = seg_data u ++ seg_data q /\
  seg_clen (chain_seg u q) = seg_clen u + seg_clen q.
Proof.
  intros Hc Hqf Hqs Hm (pu & Eu & Bu & Tu & Lu & Ru) (pq & Eq & Bq & Tq & Lq & Rq) (C1 & C2 & C3).
  unfold can_chain in Hc. rewrite !andb_true_iff, !negb_true_iff, Z.leb_le in Hc.
  destruct Hc as (((_ & Hu) & _) & Hsum). apply has_or_false in Hu as [Hus Huf].
  assert (Elen : TCP_TCPLEN u = seg_len u) by (unfold TCP_TCPLEN; rewrite Huf, Hus; cbn; lia).
  assert (Eqlen : TCP_TCPLEN q = seg_len q) by (unfold TCP_TCPLEN; rewrite Hqf, Hqs; cbn; lia).
  specialize (Lu Elen). specialize (Lq Eqlen). rewrite Elen in *. rewrite Eqlen in *.
  assert (Ech : TCP_TCPLEN (chain_seg u q) = seg_len u + seg_len q).
  { unfold TCP_TCPLEN, chain_seg; cbn [seg_len tcphdr]. rewrite Huf, Hus, u16_small by lia. cbn. lia. }
  unfold seg_ok, seg_data, seg_clen, chain_seg, chain_pbufs, pbuf_data, pbuf_clen in *.
  rewrite Eu, Eq in *. cbn [seg_p seg_len tcphdr bufs tot_len] in *.
  rewrite Ech. split; [|split; [|split]].
  - cbn [contiguous tcphdr]. rewrite Ech. split; [exact C1|].
    rewrite <- C3. unfold wrapu. rewrite Zplus_mod_idemp_l. f_equal. lia.
  - eexists. split; [reflexivity|]. cbn [bufs tot_len]. rewrite concat_app, length_app.
    split; [|split; [|split]].
    + intros E. apply app_eq_nil in E. tauto.
    + rewrite u16_small by lia. lia.
    + rewrite u16_small by lia. lia.
    + rewrite u16_small by lia. lia.
  - apply concat_app.
  - rewrite length_app. lia.
Qed.

(** Appending data segments to the [unsent] queue. *)
Lemma join_unsent_spec pcb new fl sl B s m e :
  has fl TCP_FIN = false -> has fl TCP_SYN = false -> mss pcb <= B < 65536 ->
  Forall (seg_ok B) (unsent pcb) -> Forall (seg_ok B) new ->
  Forall (fun g => h_flags (tcphdr g) = fl /\ 0 < seg_len g) new ->
  contiguous s (unsent pcb) m -> contiguous m new e ->
  let q := join_unsent pcb new fl sl in
  contiguous s q e /\ Forall (seg_ok B) q /\
  queue_data q = queue_data (unsent pcb) ++ queue_data new /\
  queue_clen q = queue_clen (unsent pcb) + queue_clen new.
Proof.
  intros Hf Hs Hm Ho Hn Hfl Hc1 Hc2. unfold join_unsent.
  assert (Hpush : forall r, exists r', (if 0 <? sl then push_last r else r) = r' /\ Forall2 same_seg r r')
    by (intros r; destruct (0 <? sl); eexists; split; [reflexivity|apply push_last_same|reflexivity|apply same_refl]).
  assert (Hdef : let q := unsent pcb ++ (if 0 <? sl then push_last new else new) in
    contiguous s q e /\ Forall (seg_ok B) q /\
    queue_data q = queue_data (unsent pcb) ++ queue_data new /\
    queue_clen q = queue_clen (unsent pcb) + queue_clen new).
  { destruct (Hpush new) as (r' & -> & Hr). destruct (same_data _ _ Hr) as (E1 & E2 & E3).
    cbv zeta. rewrite queue_data_app, queue_clen_app, E1, E2. split; [|split; [|auto]].
    - apply contiguous_app. exists m. split; [exact Hc1|]. eapply same_contiguous; eauto.
    - apply Forall_app. auto. }
  destruct (last (unsent pcb)) as [u|] eqn:El; [|exact Hdef].
  destruct new as [|q rest]; [exact Hdef|]. destruct (can_chain pcb u q fl) eqn:Hcc; [|exact Hdef].
  clear Hdef. pose proof (last_split _ _ El) as Eu. set (front := removelast (unsent pcb)) in *.
  rewrite Eu in Ho, Hc1 |- *. apply Forall_app in Ho as [Hof Hou]. apply Forall_cons in Hou as [Hou _].
  apply Forall_cons in Hn as [Hq Hrest]. apply Forall_cons in Hfl as [[Hqf _] _].
  apply contiguous_app in Hc1 as (m1 & Hc0 & Hc1). destruct Hc2 as [Hq1 Hc2].
  assert (Hpair : contiguous m1 [u; q] (u32 (m + TCP_TCPLEN q))).
  { destruct Hc1 as [A A2]. cbn in A2 |- *. split; [exact A|]. rewrite A2. split; [exact Hq1|reflexivity]. }
  destruct (chain_seg_spec pcb u q fl B m1 (u32 (m + TCP_TCPLEN q)) Hcc) as (C1 & C2 & C3 & C4); rewrite ?Hqf; auto.
  set (tl := match rest with [] => [] | _ => if 0 <? sl then push_last rest else rest end).
  assert (Htl : Forall2 same_seg rest tl).
  { subst tl. destruct rest as [|g r]; [constructor|]. destruct (Hpush (g :: r)) as (r' & -> & Hr). exact Hr. }
  destruct (same_data _ _ Htl) as (E1 & E2 & E3). cbv zeta.
  rewrite !queue_data_app, !queue_clen_app, !queue_data_cons, !queue_clen_cons, C3, C4, <- E1, <- E2.
  split; [|split; [|split]].
  - apply contiguous_app. exists m1. split; [exact Hc0|].
    change (chain_seg u q :: tl) with ([chain_seg u q] ++ tl). apply contiguous_app.
    eexists. split; [exact C1|]. eapply same_contiguous; eauto.
  - apply Forall_app. split; [exact Hof|]. constructor; [exact C2|]. apply E3, Hrest.
  - rewrite <- !app_assoc. reflexivity.
  - unfold queue_clen at 4. cbn [map foldr]. fold (queue_clen front) (queue_clen rest). lia.
Qed.

(** ** The state of the sender *)

(** What every function of this file keeps of the two send queues: the segments
    follow each other up to [snd_lbb], their pbufs are counted exactly in
    [snd_queuelen], and they are no longer than the largest segment size. *)
Record queue_ok (pcb : tcp_pcb) : Prop := {
  q_from : exists s, contiguous s (unacked pcb ++ unsent pcb) (snd_lbb pcb);
  q_segs : Forall (seg_ok TCP_MSS) (unacked pcb ++ unsent pcb);
  q_len : snd_queuelen pcb = queue_clen (unacked pcb ++ unsent pcb);
  q_max : snd_queuelen pcb <= TCP_SND_QUEUELEN;
  q_mss : 0 < mss pcb <= TCP_MSS;
  q_buf : 0 <= snd_buf pcb < 65536;
  q_lbb : 0 <= snd_lbb pcb < 2 ^ 32
}.

Lemma empty_queue_ok pcb :
  unsent pcb = [] -> unacked pcb = [] -> snd_queuelen pcb = 0 -> 0 < mss pcb <= TCP_MSS ->
  0 <= snd_buf pcb < 65536 -> 0 <= snd_lbb pcb < 2 ^ 32 -> queue_ok pcb.
Proof.
  intros E1 E2 E3 H1 H2 H3. split; auto; rewrite ?E1, ?E2, ?E3; try (unfold TCP_SND_QUEUELEN; lia).
  - exists (snd_lbb pcb). reflexivity.
  - apply Forall_nil_2.
  - reflexivity.
Qed.

Lemma queue_clen_nonneg q : 0 <= queue_clen q.
Proof. unfold queue_clen, seg_clen, pbuf_clen. induction q as [|g q IH]; cbn; [lia|]. destruct (seg_p g); lia. Qed.

Lemma seg_ok_le B C g : B <= C -> seg_ok B g -> seg_ok C g.
Proof. intros H (p & H1 & H2 & H3 & H4 & H5). exists p. repeat split; auto; lia. Qed.

(** The control block after the segments [q] were queued for [n] numbers. *)
Definition queued (q : list tcp_seg) (ql n : Z) (pcb : tcp_pcb) : tcp_pcb :=
  set_snd_queuelen ql (set_snd_buf (u16 (snd_buf pcb - n))
    (set_snd_lbb (u32 (snd_lbb pcb + n)) (set_unsent q pcb))).

(** [queued] keeps the invariant when the new queue is right. *)
Lemma queued_ok pcb s q n :
  queue_ok pcb -> contiguous s (unacked pcb ++ q) (u32 (snd_lbb pcb + n)) ->
  Forall (seg_ok TCP_MSS) q -> queue_clen (unacked pcb ++ q) <= TCP_SND_QUEUELEN ->
  queue_ok (queued q (queue_clen (unacked pcb ++ q)) n pcb).
Proof.
  intros [H1 H2 H3 H4 H5 H6 H7] Hc Hq Hl. apply Forall_app in H2 as [H2 _].
  split; cbn; auto.
  - exists s. exact Hc.
  - apply Forall_app. auto.
  - apply u16_range.
  - apply u32_range.
Qed.

(** Queueing data: the call returns, and either changes nothing or appends
    the bytes to the queue. *)
Lemma tcp_enqueue_data e pcb arg copy :
  queue_ok pcb -> 0 < Z.of_nat (length arg) < 65536 ->
  let len := Z.of_nat (length arg) in
  exists err pcb' e', tcp_enqueue e pcb (Some arg) len 0 copy None = Ret (err, pcb', e') /\
    trace e' = trace e /\
    ((err = ERR_MEM /\ pcb' = pcb) \/
     (err = ERR_OK /\ len <= snd_buf pcb /\ queue_ok pcb' /\
      exists q ql, pcb' = queued q ql len pcb /\
        queue_data q = queue_data (unsent pcb) ++ arg)).
Proof.
  intros Hok Hl len. pose proof Hok as [[s H1] H2 H3 H4 H5 H6 H7]. change (2 ^ 32) with 4294967296 in *.
  unfold tcp_enqueue. destruct (Z.ltb_spec (snd_buf pcb) len); [exists ERR_MEM, pcb, e; auto|].
  destruct (Z.leb_spec TCP_SND_QUEUELEN (snd_queuelen pcb)); [exists ERR_MEM, pcb, e; auto|].
  pose proof (queue_clen_nonneg (unacked pcb ++ unsent pcb)) as Hq0. unfold TCP_SND_QUEUELEN, TCP_MSS in *.
  destruct (enqueue_loop_data enqueue_fuel e pcb 0 copy [] len (snd_lbb pcb) arg (snd_queuelen pcb) 0)
    as (r & e1 & E & Ht & Hr); try reflexivity; try (unfold enqueue_fuel, TCP_SND_QUEUELEN; lia).
  change (default [] (Some arg)) with arg. rewrite E. cbn [mbind outcome_bind].
  destruct r as [[[q ql] sl]|]; [|exists ERR_MEM, pcb, e1; auto].
  destruct Hr as (new & -> & Hc & Hd & Hs & Hf & -> & Hlq). cbn [app] in *.
  apply contiguous_app in H1 as (m & C1 & C2). apply Forall_app in H2 as [S1 S2].
  destruct (join_unsent_spec pcb new 0 sl 128 m (snd_lbb pcb) (u32 (snd_lbb pcb + len)))
    as (J1 & J2 & J3 & J4); try reflexivity; try lia; auto.
  { eapply Forall_impl; [exact Hs|]. intros g. apply seg_ok_le. lia. }
  rewrite take_ge in Hd by lia.
  eexists ERR_OK, _, e1. split; [reflexivity|]. split; [exact Ht|]. right. split; [reflexivity|].
  split; [lia|]. set (q := join_unsent pcb new 0 sl) in *.
  assert (Eq : snd_queuelen pcb + queue_clen new = queue_clen (unacked pcb ++ q))
    by (rewrite queue_clen_app, J4, H3, queue_clen_app; lia).
  split.
  - rewrite Eq. apply (queued_ok pcb s); auto.
    + apply contiguous_app. exists m. auto.
    + rewrite <- Eq. exact Hlq.
  - exists q, (snd_queuelen pcb + queue_clen new). split; [reflexivity|]. rewrite J3, Hd. reflexivity.
Qed.

(** The states in which data can be queued. *)
Lemma state_case pcb :
  (state pcb = SYN_SENT \/ state pcb = SYN_RCVD \/ state pcb = ESTABLISHED \/
   state pcb = CLOSE_WAIT) \/
  ~ (state pcb = SYN_SENT \/ state pcb = SYN_RCVD \/ state pcb = ESTABLISHED \/
     state pcb = CLOSE_WAIT).
Proof. destruct (state pcb); (left; tauto) || (right; intuition discriminate). Qed.

(** C2: [tcp_write] returns, sends nothing, and keeps the invariant of the send
    queues.  On success the bytes of the application are appended, in order, to
    the bytes queued on [unsent], [snd_lbb] advances by their number and
    [snd_buf] goes down by it without wrapping, and no other field of the
    control block changes; on an error nothing changes, and [ERR_CONN] is the
    answer exactly in the states in which no data can be sent. *)
Theorem tcp_write_spec e pcb arg copy :
  queue_ok pcb -> Z.of_nat (length arg) < 65536 ->
  let len := Z.of_nat (length arg) in
  exists err pcb' e', tcp_write e pcb arg copy = Ret (err, pcb', e') /\
    trace e' = trace e /\ queue_ok pcb' /\
    (err = ERR_CONN <-> ~ (state pcb = SYN_SENT \/ state pcb = SYN_RCVD \/
                           state pcb = ESTABLISHED \/ state pcb = CLOSE_WAIT)) /\
    match err with
    | ERR_OK =>
        queue_data (unacked pcb' ++ unsent pcb') = queue_data (unacked pcb ++ unsent pcb) ++ arg /\
        snd_lbb pcb' = u32 (snd_lbb pcb + len) /\ snd_buf pcb' = snd_buf pcb - len /\
        (len = 0 -> pcb' = pcb) /\
        pcb' = set_snd_queuelen (snd_queuelen pcb') (set_snd_buf (snd_buf pcb')
                 (set_snd_lbb (snd_lbb pcb') (set_unsent (unsent pcb') pcb)))
    | ERR_MEM | ERR_CONN => pcb' = pcb
    | _ => False
    end.
Proof.
  intros Hok Hlen len. pose proof Hok as [_ _ _ _ _ Hb Hlb].
  assert (Hdo : (state pcb = SYN_SENT \/ state pcb = SYN_RCVD \/ state pcb = ESTABLISHED \/
                 state pcb = CLOSE_WAIT) ->
    tcp_write e pcb arg copy =
      if 0 <? len then tcp_enqueue e pcb (Some arg) len 0 copy None else Ret (ERR_OK, pcb, e))
    by (intros [E|[E|[E|E]]]; unfold tcp_write; rewrite E; reflexivity).
  destruct (state_case pcb) as [Hs|Hs].
  2: { exists ERR_CONN, pcb, e. split; [|tauto].
       unfold tcp_write. destruct (state pcb); try reflexivity; exfalso; apply Hs; auto. }
  rewrite Hdo by exact Hs.
  destruct (Z.ltb_spec 0 len) as [Hpos|Hz].
  - destruct (tcp_enqueue_data e pcb arg copy Hok) as (err & pcb' & e' & E & Ht & Hr); [unfold len in *; lia|].
    fold len in E, Hr. rewrite E.
    exists err, pcb', e'. split; [reflexivity|]. split; [exact Ht|].
    destruct Hr as [[-> ->]|(-> & Hle & Hok' & q & ql & -> & Hd)].
    + split; [exact Hok|]. split; [|reflexivity]. split; [discriminate|tauto].
    + split; [exact Hok'|]. split; [split; [discriminate|tauto]|].
      unfold queued; cbn [unacked unsent snd_lbb snd_buf snd_queuelen set_snd_queuelen set_snd_buf set_snd_lbb set_unsent]. rewrite !queue_data_app, Hd, <- app_assoc.
      rewrite u16_small by (fold len; lia). fold len. repeat split; lia.
  - exists ERR_OK, pcb, e. assert (len = 0) as E0 by (unfold len in *; lia).
    assert (arg = []) as -> by (apply length_zero_iff_nil; unfold len in *; lia).
    split; [reflexivity|]. split; [reflexivity|]. split; [exact Hok|]. split; [split; [discriminate|tauto]|].
    rewrite E0, app_nil_r, Z.add_0_r, Z.sub_0_r, u32_small by (revert Hlb; change (2 ^ 32) with 4294967296; lia).
    repeat split; auto. destruct pcb; reflexivity.
Qed.

Lemma tcp_write_spec_witness :
  let pcb := set_state ESTABLISHED (set_mss 128 (set_snd_buf 256 pcb_zero)) in
  let arg := List.repeat 7 200 in
  queue_ok pcb /\ Z.of_nat (length arg) < 65536 /\
  exists err pcb' e', tcp_write (Env [] [] 0 0) pcb arg true = Ret (err, pcb', e') /\
    trace e' = [] /\ queue_ok pcb' /\ err = ERR_OK /\ snd_buf pcb' = 56.
Proof.
  assert (Hok : queue_ok (set_state ESTABLISHED (set_mss 128 (set_snd_buf 256 pcb_zero)))).
  { apply empty_queue_ok; cbn; unfold TCP_MSS; try reflexivity; lia. }
  cbv zeta. split; [exact Hok|]. split; [vm_compute; reflexivity|].
  destruct (tcp_write_spec (Env [] [] 0 0) _ (List.repeat 7 200) true Hok) as (err & pcb' & e' & E & H1 & H2 & H3).
  { vm_compute. reflexivity. }
  exists err, pcb', e'. split; [exact E|]. split; [exact H1|]. split; [exact H2|].
  vm_compute in E. injection E as <- <- _. split; reflexivity.
Defined.

(** *** When allocation succeeds *)

(** The pbufs that [left] bytes need: one per segment, and one more per segment
    when the data is not copied. *)
Definition pbufs_needed (m left : Z) (copy : bool) : Z :=
  (if copy then 1 else 2) * ((left + m - 1) / m).

Lemma pbufs_needed_step m left copy : 0 < m -> 0 < left ->
  pbufs_needed m left copy =
  (if copy then 1 else 2) + pbufs_needed m (left - (if m <? left then m else left)) copy.
Proof.
  intros Hm Hl. unfold pbufs_needed.
  assert (E : (left + m - 1) / m = 1 + (left - (if m <? left then m else left) + m - 1) / m).
  { destruct (Z.ltb_spec m left) as [H|H].
    - replace (left + m - 1) with (left - m + m - 1 + 1 * m) by lia. rewrite Z.div_add by lia. lia.
    - replace (left - left + m - 1) with (m - 1) by lia. rewrite (Z.div_small (m - 1)) by lia.
      replace (left + m - 1) with (left - 1 + 1 * m) by lia. rewrite Z.div_add by lia.
      rewrite Z.div_small by lia. lia. }
  rewrite E. destruct copy; lia.
Qed.

Lemma pbufs_needed_nonneg m left copy : 0 < m -> 0 <= left -> 0 <= pbufs_needed m left copy.
Proof.
  intros. unfold pbufs_needed. pose proof (Z.div_pos (left + m - 1) m). destruct copy; lia.
Qed.

(** With allocation that always succeeds the loop fails only when the queue of
    pbufs would be too long. *)
Lemma enqueue_loop_room fuel e pcb fl copy queue left sq ptr ql sl :
  allocs e = [] -> 0 < mss pcb -> 0 <= left < 2 ^ 32 -> 0 <= ql <= TCP_SND_QUEUELEN ->
  9 - ql <= Z.of_nat fuel -> (queue = [] -> 0 < left) ->
  exists r, enqueue_loop fuel e pcb fl copy None queue left sq ptr ql sl = Ret (r, e) /\
    (r <> None <-> ql + pbufs_needed (mss pcb) left copy <= TCP_SND_QUEUELEN).
Proof.
  change (2 ^ 32) with 4294967296. unfold TCP_SND_QUEUELEN in *. intros He Hm.
  assert (Ha : alloc e = (true, e)) by (unfold alloc; rewrite He; reflexivity).
  revert queue left sq ptr ql sl.
  induction fuel as [|k IH]; intros queue left sq ptr ql sl Hl Hq Hk Hne; [lia|].
  cbn [enqueue_loop]. destruct (Z.ltb_spec 0 left) as [Hpos|Hz].
  2: { assert (left = 0) as -> by lia. destruct queue as [|g r]; [specialize (Hne eq_refl); lia|].
       eexists. split; [reflexivity|].
       assert (E : pbufs_needed (mss pcb) 0 copy = 0)
         by (unfold pbufs_needed; rewrite Z.div_small by lia; destruct copy; reflexivity).
       rewrite E. split; [lia|discriminate]. }
  rewrite orb_true_r, (pbufs_needed_step _ left) by lia.
  set (n := if mss pcb <? left then mss pcb else left).
  assert (Hn : 0 < n <= left) by (subst n; destruct (Z.ltb_spec (mss pcb) left); lia).
  clearbody n. rewrite Ha. cbn [negb].
  assert (Es : exists p, segment_pbufs e n ptr copy None = (Some p, e) /\
    pbuf_clen p = if copy then 1 else 2)
    by (unfold segment_pbufs; destruct copy; rewrite ?Ha; eexists; split; reflexivity).
  destruct Es as (p & -> & Ec). rewrite Ec. set (c := if copy then 1 else 2).
  assert (Hc : 1 <= c <= 2) by (subst c; destruct copy; lia).
  rewrite u8_small by lia. change TCP_SND_QUEUELEN with 8.
  pose proof (pbufs_needed_nonneg (mss pcb) (left - n) copy Hm ltac:(lia)) as Hp.
  destruct (Z.ltb_spec 8 (ql + c)).
  - eexists. split; [reflexivity|]. split; [congruence|lia].
  - rewrite (u32_small (left - n)) by lia.
    destruct (IH (queue ++ [Seg (Some p) n (new_hdr pcb sq fl None)]) (left - n) (u32 (sq + n))
      (drop (Z.to_nat n) ptr) (ql + c) n) as (r & -> & Hr); try lia.
    { intros E. destruct queue; discriminate. }
    exists r. split; [reflexivity|]. rewrite Hr. lia.
Qed.

(** C9: when memory is available, data is accepted exactly when it fits: in a
    state that can send, [tcp_write] of at least one byte succeeds if and only
    if the bytes fit in the send buffer and the pbufs they need fit in the
    queue of [TCP_SND_QUEUELEN] pbufs. *)
Theorem tcp_write_accepts e pcb arg copy :
  queue_ok pcb -> allocs e = [] -> 0 < Z.of_nat (length arg) < 65536 ->
  (state pcb = SYN_SENT \/ state pcb = SYN_RCVD \/ state pcb = ESTABLISHED \/
   state pcb = CLOSE_WAIT) ->
  exists err pcb' e', tcp_write e pcb arg copy = Ret (err, pcb', e') /\
    (err = ERR_OK <->
     Z.of_nat (length arg) <= snd_buf pcb /\
     snd_queuelen pcb + pbufs_needed (mss pcb) (Z.of_nat (length arg)) copy <= TCP_SND_QUEUELEN).
Proof.
  intros Hok He Hl Hs. destruct Hok as [_ _ H3 H4 H5 _ _].
  set (len := Z.of_nat (length arg)) in *.
  assert (Hw : tcp_write e pcb arg copy = tcp_enqueue e pcb (Some arg) len 0 copy None).
  { unfold tcp_write. fold len. destruct (Z.ltb_spec 0 len); [|lia].
    destruct Hs as [->|[->|[->| ->]]]; reflexivity. }
  rewrite Hw. unfold tcp_enqueue. change (default [] (Some arg)) with arg.
  pose proof (queue_clen_nonneg (unacked pcb ++ unsent pcb)) as Hq0. unfold TCP_MSS in *.
  rewrite (pbufs_needed_step (mss pcb) len) by lia.
  pose proof (pbufs_needed_nonneg (mss pcb) (len - (if mss pcb <? len then mss pcb else len)) copy) as Hp.
  assert (Hd : 0 <= len - (if mss pcb <? len then mss pcb else len)) by (destruct (Z.ltb_spec (mss pcb) len); lia).
  assert (Hc : 1 <= (if copy then 1 else 2)) by (destruct copy; lia).
  destruct (Z.ltb_spec (snd_buf pcb) len); [eexists _, _, _; split; [reflexivity|split; [discriminate|lia]]|].
  destruct (Z.leb_spec TCP_SND_QUEUELEN (snd_queuelen pcb)); [eexists _, _, _; split; [reflexivity|split; [discriminate|lia]]|].
  destruct (enqueue_loop_room enqueue_fuel e pcb 0 copy [] len (snd_lbb pcb) arg (snd_queuelen pcb) 0)
    as (r & -> & Hr); unfold enqueue_fuel, TCP_SND_QUEUELEN in *; auto;
    try (change (2 ^ 32) with 4294967296); try lia.
  rewrite (pbufs_needed_step (mss pcb) len) in Hr by lia.
  cbn [mbind outcome_bind]. destruct r as [[[q ql] sl]|]; eexists _, _, _; (split; [reflexivity|]); rewrite <- Hr.
  - split; [intros _|reflexivity]. split; [lia|discriminate].
  - split; [discriminate|]. intros [_ H']. congruence.
Qed.

Lemma tcp_write_accepts_witness :
  let pcb := set_state ESTABLISHED (set_mss 128 (set_snd_buf 256 pcb_zero)) in
  queue_ok pcb /\ 0 < Z.of_nat (length (List.repeat 7 200)) < 65536 /\
  exists err pcb' e',
    tcp_write (Env [] [] 0 0) pcb (List.repeat 7 200) false = Ret (err, pcb', e') /\
    (err = ERR_OK <-> 200 <= 256 /\ 0 + pbufs_needed 128 200 false <= TCP_SND_QUEUELEN).
Proof.
  assert (Hok : queue_ok (set_state ESTABLISHED (set_mss 128 (set_snd_buf 256 pcb_zero)))).
  { apply empty_queue_ok; cbn; unfold TCP_MSS; try reflexivity; lia. }
  cbv zeta. split; [exact Hok|]. split; [vm_compute; split; reflexivity|].
  apply (tcp_write_accepts (Env [] [] 0 0) _ (List.repeat 7 200) false Hok eq_refl).
  - vm_compute. split; reflexivity.
  - cbn. auto.
Defined.

(** *** Control segments *)

(** The single round that queues no data. *)
Lemma enqueue_loop_ctrl k e pcb fl copy o sq ql : 0 <= mss pcb ->
  enqueue_loop (S (S k)) e pcb fl copy o [] 0 sq [] ql 0 =
  (let '(ok, e1) := alloc e in
   if negb ok then Ret (None, e1)
   else match segment_pbufs e1 0 [] copy o with
        | (None, e2) => Ret (None, e2)
        | (Some p, e2) =>
            if TCP_SND_QUEUELEN <? u8 (ql + pbuf_clen p) then Ret (None, e2)
            else Ret (Some ([Seg (Some p) 0 (new_hdr pcb sq fl o)], u8 (ql + pbuf_clen p), 0), e2)
        end).
Proof.
  intros Hm. cbn [enqueue_loop orb]. destruct (Z.ltb_spec (mss pcb) 0); [lia|].
  destruct (alloc e) as [[] e1]; [|reflexivity]. cbn [negb].
  destruct (segment_pbufs e1 0 [] copy o) as [[p|] e2]; [|reflexivity].
  destruct (TCP_SND_QUEUELEN <? u8 (ql + pbuf_clen p)); reflexivity.
Qed.

(** A FIN or a SYN is one segment without data that takes one number. *)
Lemma tcp_enqueue_ctrl e pcb fl copy o :
  queue_ok pcb -> has fl TCP_FIN || has fl TCP_SYN = true ->
  exists err pcb' e', tcp_enqueue e pcb None 0 fl copy o = Ret (err, pcb', e') /\
    trace e' = trace e /\
    ((err = ERR_MEM /\ pcb' = pcb) \/
     (err = ERR_OK /\ queue_ok pcb' /\
      exists p ql, pbuf_data p = default [] o /\
        pcb' = queued (unsent pcb ++ [Seg (Some p) 0 (new_hdr pcb (snd_lbb pcb) fl o)]) ql 1 pcb)).
Proof.
  intros Hok Hf. pose proof Hok as [[s H1] H2 H3 H4 H5 H6 H7]. change (2 ^ 32) with 4294967296 in H7.
  unfold tcp_enqueue. destruct (Z.ltb_spec (snd_buf pcb) 0); [lia|].
  destruct (Z.leb_spec TCP_SND_QUEUELEN (snd_queuelen pcb)); [exists ERR_MEM, pcb, e; auto|].
  pose proof (queue_clen_nonneg (unacked pcb ++ unsent pcb)) as Hq0. unfold TCP_SND_QUEUELEN, TCP_MSS in *.
  change (default [] None) with (@nil Z).
  change enqueue_fuel with (S (S 7)). rewrite enqueue_loop_ctrl by lia.
  destruct (alloc e) as [ok e1] eqn:Ea.
  assert (Ht1 : trace e1 = trace e)
    by (unfold alloc in Ea; destruct (allocs e); injection Ea as _ <-; reflexivity).
  destruct ok; cbn [negb mbind outcome_bind]; [|exists ERR_MEM, pcb, e1; auto].
  pose proof (segment_pbufs_spec e1 0 [] copy o) as Hsp.
  pose proof (segment_pbufs_trace e1 0 [] copy o) as Ht2.
  destruct (segment_pbufs e1 0 [] copy o) as [[p|] e2]; cbn [snd] in Ht2; cbn [mbind outcome_bind];
    [|exists ERR_MEM, pcb, e2; repeat split; [congruence|auto]].
  destruct Hsp as (Hc & Hb & Hd & Hto). rewrite u8_small by lia.
  change TCP_SND_QUEUELEN with 8.
  destruct (Z.ltb_spec 8 (snd_queuelen pcb + pbuf_clen p)); cbn [mbind outcome_bind];
    [exists ERR_MEM, pcb, e2; repeat split; [congruence|auto]|].
  set (seg := Seg (Some p) 0 (new_hdr pcb (snd_lbb pcb) fl o)).
  assert (Hlen : u16 (0 + 1) = 1) by reflexivity. rewrite orb_comm, Hf, Hlen.
  assert (Hj : join_unsent pcb [seg] fl 0 = unsent pcb ++ [seg]).
  { unfold join_unsent. cbn [Z.ltb Z.compare]. destruct (last (unsent pcb)) as [u|]; [|reflexivity].
    replace (can_chain pcb u seg fl) with false; [reflexivity|].
    unfold can_chain. replace (has fl (Z.lor TCP_SYN TCP_FIN)) with true; [rewrite !andb_false_r; reflexivity|].
    symmetry. destruct (has fl (Z.lor TCP_SYN TCP_FIN)) eqn:E; [reflexivity|].
    apply has_or_false in E as [E1 E2]. rewrite E1, E2 in Hf. discriminate. }
  rewrite Hj. eexists ERR_OK, _, e2. split; [reflexivity|]. split; [congruence|]. right.
  assert (El : TCP_TCPLEN seg = 1)
    by (unfold TCP_TCPLEN, seg; cbn [tcphdr new_hdr h_flags seg_len]; rewrite Hf; reflexivity).
  assert (Eq : snd_queuelen pcb + pbuf_clen p = queue_clen (unacked pcb ++ unsent pcb ++ [seg])).
  { rewrite app_assoc, queue_clen_app, <- H3. unfold queue_clen, seg_clen; cbn. lia. }
  split; [reflexivity|]. split.
  - rewrite Eq. apply (queued_ok pcb s); auto.
    + rewrite app_assoc. apply contiguous_app. exists (snd_lbb pcb). split; [exact H1|].
      cbn [contiguous]. rewrite El. auto.
    + apply Forall_app in H2 as [_ H2]. apply Forall_app. split; [exact H2|].
      constructor; [|apply Forall_nil_2]. exists p. rewrite El. cbn [seg seg_p seg_len].
      rewrite Hto, Hd. unfold TCP_MSS. repeat split; auto; try lia. destruct o; reflexivity.
    + rewrite <- Eq. unfold TCP_SND_QUEUELEN. lia.
  - exists p, (snd_queuelen pcb + pbuf_clen p). split; [|reflexivity].
    rewrite Hd. destruct o; reflexivity.
Qed.

(** Closing queues exactly one segment behind everything that was queued
    before, with the FIN flag, no data and the next sequence number, or fails
    and changes nothing; the invariant of the queues is kept.  The number the
    FIN takes is subtracted from [snd_buf] modulo 2^16. *)
Theorem tcp_send_fin e pcb :
  queue_ok pcb ->
  exists err pcb' e', tcp_send_ctrl e pcb TCP_FIN = Ret (err, pcb', e') /\ trace e' = trace e /\
    ((err = ERR_MEM /\ pcb' = pcb) \/
     (err = ERR_OK /\ queue_ok pcb' /\ unacked pcb' = unacked pcb /\
      snd_lbb pcb' = u32 (snd_lbb pcb + 1) /\ snd_buf pcb' = u16 (snd_buf pcb - 1) /\
      exists fin, unsent pcb' = unsent pcb ++ [fin] /\ seqno (tcphdr fin) = snd_lbb pcb /\
        h_flags (tcphdr fin) = TCP_FIN /\ seg_data fin = [] /\ seg_len fin = 0)).
Proof.
  intros Hok. destruct (tcp_enqueue_ctrl e pcb TCP_FIN true None Hok eq_refl)
    as (err & pcb' & e' & E & Ht & H). exists err, pcb', e'. split; [exact E|]. split; [exact Ht|].
  destruct H as [H|(-> & Hok' & p & ql & Hd & ->)]; [left; exact H|right].
  split; [reflexivity|]. split; [exact Hok'|]. split; [reflexivity|]. split; [reflexivity|].
  split; [reflexivity|]. eexists. split; [reflexivity|].
  split; [reflexivity|]. split; [reflexivity|]. split; [exact Hd|reflexivity].
Qed.

Lemma tcp_send_fin_witness :
  let pcb := set_state ESTABLISHED (set_mss 128 (set_snd_buf 256 pcb_zero)) in
  queue_ok pcb /\
  exists err pcb' e', tcp_send_ctrl (Env [] [] 0 0) pcb TCP_FIN = Ret (err, pcb', e') /\
    err = ERR_OK /\ snd_lbb pcb' = 1 /\ snd_buf pcb' = 255.
Proof.
  assert (Hok : queue_ok (set_state ESTABLISHED (set_mss 128 (set_snd_buf 256 pcb_zero)))).
  { apply empty_queue_ok; cbn; unfold TCP_MSS; try reflexivity; lia. }
  cbv zeta. split; [exact Hok|].
  destruct (tcp_send_fin (Env [] [] 0 0) _ Hok) as (err & pcb' & e' & E & H1 & H2).
  exists err, pcb', e'. split; [exact E|].
  vm_compute in E. injection E as <- <- _. repeat split; reflexivity.
Defined.

(** A FIN queued when the send buffer is full wraps [snd_buf] around to 65535:
    the guard of [tcp_enqueue] runs before the FIN is counted. *)
Theorem fin_wraps_snd_buf :
  exists pcb' e', tcp_send_ctrl (Env [] [] 0 0) (set_mss 128 pcb_zero) TCP_FIN = Ret (ERR_OK, pcb', e') /\
    snd_buf (set_mss 128 pcb_zero) = 0 /\ snd_buf pcb' = 65535.
Proof. eexists _, _. split; [reflexivity|]. split; reflexivity. Qed.

(** ** Sending *)

Section OutputSpec.
Context `{Network}.

(** The source address: [ip_route] answers when none is set. *)
Definition source (pcb : tcp_pcb) : Z :=
  if local_ip pcb =? 0 then ip_route (remote_ip pcb) else local_ip pcb.

(** A segment as it is put on the wire. *)
Definition out_hdr (pcb : tcp_pcb) (seg : tcp_seg) : tcp_hdr :=
  let h := if decide (state pcb <> SYN_SENT)
           then set_h_flags (Z.lor (h_flags (tcphdr seg)) TCP_ACK) (tcphdr seg) else tcphdr seg in
  let h := set_wnd (if rcv_wnd pcb <? mss pcb then 0 else rcv_wnd pcb) (set_ackno (rcv_nxt pcb) h) in
  checksummed h (match seg_p seg with Some p => bufs p | None => [] end) (source pcb) (remote_ip pcb).
Definition out_seg (pcb : tcp_pcb) (seg : tcp_seg) : tcp_seg := set_tcphdr (out_hdr pcb seg) seg.
Definition out_packet (pcb : tcp_pcb) (seg : tcp_seg) : packet :=
  Packet (source pcb) (remote_ip pcb) (out_hdr pcb seg)
    (match seg_p seg with Some p => bufs p | None => [] end).

(** The longest prefix of a queue whose segments are all inside the window. *)
Fixpoint sendable (pcb : tcp_pcb) (wnd : Z) (q : list tcp_seg) : list tcp_seg :=
  match q with
  | seg :: rest => if in_wnd pcb wnd seg then seg :: sendable pcb wnd rest else []
  | [] => []
  end.

Definition seg_end (seg : tcp_seg) : Z := u32 (seqno (tcphdr seg) + TCP_TCPLEN seg).

(** [snd_max] after sending the segments of a list. *)
Definition max_end (m : Z) (q : list tcp_seg) : Z :=
  fold_left (fun m g => if TCP_SEQ_LT m (seg_end g) then seg_end g else m) q m.

(** The fields that sending changes, with the values of [a]; the others are
    those of [b]. *)
Definition merge (a b : tcp_pcb) : tcp_pcb :=
  set_unsent (unsent a) (set_unacked (unacked a) (set_snd_nxt (snd_nxt a) (set_snd_max (snd_max a)
    (set_flags (flags a) (set_rtime (rtime a) (set_rttest (rttest a) (set_rtseq (rtseq a)
      (set_local_ip (local_ip a) b)))))))).

(** [a] comes from [b] by sending. *)
Definition sent_from (a b : tcp_pcb) : Prop := a = merge a b.

Lemma sent_from_refl a : sent_from a a.
Proof. destruct a; reflexivity. Qed.

Lemma sent_from_trans a b c : sent_from a b -> sent_from b c -> sent_from a c.
Proof. unfold sent_from. intros H1 H2. rewrite H1 at 1. rewrite H2. reflexivity. Qed.

Lemma checksummed_same h d a b :
  h_flags (checksummed h d a b) = h_flags h /\ seqno (checksummed h d a b) = seqno h.
Proof. unfold checksummed. destruct (inet_chksum_pseudo _ _ _ _ _); split; reflexivity. Qed.

Lemma out_seg_same pcb seg : same_seg seg (out_seg pcb seg).
Proof.
  unfold same_seg, out_seg. cbn [seg_p seg_len tcphdr set_tcphdr].
  split; [reflexivity|]. split; [reflexivity|].
  assert (E : seqno (out_hdr pcb seg) = seqno (tcphdr seg) /\
    (h_flags (out_hdr pcb seg) = h_flags (tcphdr seg) \/
     h_flags (out_hdr pcb seg) = Z.lor (h_flags (tcphdr seg)) TCP_ACK)).
  { unfold out_hdr. match goal with |- context [checksummed ?h ?d ?a ?b] =>
      destruct (checksummed_same h d a b) as [-> ->] end.
    destruct (decide _); cbn; auto. }
  destruct E as [E [F|F]]; rewrite E; (split; [reflexivity|]).
  - unfold TCP_TCPLEN. cbn [tcphdr set_tcphdr seg_len]. rewrite F. reflexivity.
  - symmetry. etransitivity; [|apply (tcplen_flags seg TCP_ACK); reflexivity].
    unfold TCP_TCPLEN. cbn [tcphdr set_tcphdr set_h_flags h_flags seg_len]. rewrite F. reflexivity.
Qed.

(** What goes out does not depend on the fields that sending changes. *)
Lemma out_merge a b : source b <> 0 -> sent_from a b -> local_ip a = source b ->
  source a = source b /\ out_seg a = out_seg b /\ out_packet a = out_packet b /\
  (forall q w, sendable a w q = sendable b w q).
Proof.
  intros Hs Hm Hl. unfold sent_from in Hm. set (s := source b) in *.
  assert (Es : source a = s).
  { unfold source. rewrite Hl. destruct (Z.eqb_spec s 0); [contradiction|reflexivity]. }
  split; [exact Es|].
  assert (E : out_hdr a = out_hdr b).
  { unfold out_hdr. fold s. rewrite Es. rewrite Hm. reflexivity. }
  split; [unfold out_seg; rewrite E; reflexivity|].
  split; [unfold out_packet; fold s; rewrite E, Es, Hm; reflexivity|].
  intros q w. induction q as [|g q IH]; [reflexivity|]. cbn [sendable]. rewrite IH.
  rewrite Hm. reflexivity.
Qed.

(** The acknowledgement flags after a segment was sent. *)
Definition acked_flags (pcb : tcp_pcb) : Z :=
  if decide (state pcb <> SYN_SENT) then clear (Z.lor TF_ACK_DELAY TF_ACK_NOW) (flags pcb)
  else flags pcb.

(** The control block after one round of the loop, in the steps of the code. *)
Definition unqueue (pcb : tcp_pcb) (rest : list tcp_seg) : tcp_pcb :=
  set_flags (acked_flags pcb) (set_unsent rest (set_rtime 0 pcb)).
Definition timed (e : env) (seg : tcp_seg) (p : tcp_pcb) : tcp_pcb :=
  if rttest p =? 0 then set_rtseq (seqno (tcphdr seg)) (set_rttest (u16 (tcp_ticks e)) p) else p.
Definition advanced (seg : tcp_seg) (p : tcp_pcb) : tcp_pcb :=
  if TCP_SEQ_LT (snd_max p) (seg_end seg)
  then set_snd_max (seg_end seg) (set_snd_nxt (seg_end seg) p) else set_snd_nxt (seg_end seg) p.
Definition filed (seg sent : tcp_seg) (p : tcp_pcb) : tcp_pcb :=
  if 0 <? TCP_TCPLEN seg then set_unacked (unacked p ++ [sent]) p else p.
Definition after_send (e : env) (pcb : tcp_pcb) (seg : tcp_seg) (rest : list tcp_seg) : tcp_pcb :=
  filed seg (out_seg pcb seg) (advanced seg
    (timed e seg (set_rtime 0 (set_local_ip (source pcb) (unqueue pcb rest))))).

Lemma timed_fields e seg p :
  sent_from (timed e seg p) p /\ local_ip (timed e seg p) = local_ip p /\
  remote_ip (timed e seg p) = remote_ip p /\ unsent (timed e seg p) = unsent p /\
  unacked (timed e seg p) = unacked p /\ snd_max (timed e seg p) = snd_max p /\
  flags (timed e seg p) = flags p.
Proof. unfold timed. destruct (rttest p =? 0), p; repeat split. Qed.

Lemma advanced_fields seg p :
  sent_from (advanced seg p) p /\ local_ip (advanced seg p) = local_ip p /\
  unsent (advanced seg p) = unsent p /\ unacked (advanced seg p) = unacked p /\
  snd_nxt (advanced seg p) = seg_end seg /\
  snd_max (advanced seg p) = (if TCP_SEQ_LT (snd_max p) (seg_end seg) then seg_end seg else snd_max p) /\
  flags (advanced seg p) = flags p.
Proof. unfold advanced. destruct (TCP_SEQ_LT _ _), p; repeat split. Qed.

Lemma filed_fields seg s p :
  sent_from (filed seg s p) p /\ local_ip (filed seg s p) = local_ip p /\
  unsent (filed seg s p) = unsent p /\
  unacked (filed seg s p) = unacked p ++ (if 0 <? TCP_TCPLEN seg then [s] else []) /\
  snd_nxt (filed seg s p) = snd_nxt p /\ snd_max (filed seg s p) = snd_max p /\
  flags (filed seg s p) = flags p.
Proof. unfold filed. destruct (0 <? TCP_TCPLEN seg), p; cbn; rewrite ?app_nil_r; repeat split. Qed.

Lemma after_send_fields e pcb seg rest :
  let p := after_send e pcb seg rest in
  sent_from p pcb /\ local_ip p = source pcb /\ unsent p = rest /\
  unacked p = unacked pcb ++ (if 0 <? TCP_TCPLEN seg then [out_seg pcb seg] else []) /\
  snd_nxt p = seg_end seg /\
  snd_max p = (if TCP_SEQ_LT (snd_max pcb) (seg_end seg) then seg_end seg else snd_max pcb) /\
  flags p = acked_flags pcb.
Proof.
  cbv zeta. unfold after_send.
  set (p1 := set_rtime 0 (set_local_ip (source pcb) (unqueue pcb rest))).
  assert (B0 : sent_from p1 pcb) by (subst p1; destruct pcb; reflexivity).
  assert (B : local_ip p1 = source pcb /\ unsent p1 = rest /\
    unacked p1 = unacked pcb /\ snd_max p1 = snd_max pcb /\ flags p1 = acked_flags pcb)
    by (subst p1; repeat split).
  clearbody p1. destruct B as (B1 & B2 & B3 & B4 & B5).
  destruct (timed_fields e seg p1) as (T0 & T1 & _ & T2 & T3 & T4 & T5).
  set (p2 := timed e seg p1) in *. clearbody p2.
  destruct (advanced_fields seg p2) as (A0 & A1 & A2 & A3 & A4 & A5 & A6).
  set (p3 := advanced seg p2) in *. clearbody p3.
  destruct (filed_fields seg (out_seg pcb seg) p3) as (F0 & F1 & F2 & F3 & F4 & F5 & F6).
  rewrite F1, F2, F3, F4, F5, F6, A1, A2, A3, A4, A5, A6, T1, T2, T3, T4, T5, B1, B2, B3, B4, B5.
  split; [|repeat split].
  eapply sent_from_trans; [exact F0|]. eapply sent_from_trans; [exact A0|].
  eapply sent_from_trans; eauto.
Qed.

(** The segment as [tcp_output] hands it to [tcp_output_segment]. *)
Definition acked_seg (pcb : tcp_pcb) (seg : tcp_seg) : tcp_seg :=
  if decide (state pcb <> SYN_SENT)
  then set_tcphdr (set_h_flags (Z.lor (h_flags (tcphdr seg)) TCP_ACK) (tcphdr seg)) seg else seg.

Lemma output_segment_eq e pcb seg rest : source pcb <> 0 ->
  tcp_output_segment e (acked_seg pcb seg) (unqueue pcb rest) =
  Ret (out_seg pcb seg, timed e seg (set_rtime 0 (set_local_ip (source pcb) (unqueue pcb rest))),
       emit (out_packet pcb seg) e).
Proof.
  intros Hs.
  assert (Esg : seg_p (acked_seg pcb seg) = seg_p seg /\ seg_len (acked_seg pcb seg) = seg_len seg /\
    seqno (tcphdr (acked_seg pcb seg)) = seqno (tcphdr seg) /\
    tcphdr (acked_seg pcb seg) = if decide (state pcb <> SYN_SENT)
      then set_h_flags (Z.lor (h_flags (tcphdr seg)) TCP_ACK) (tcphdr seg) else tcphdr seg)
    by (unfold acked_seg; destruct (decide _); repeat split).
  unfold out_seg, out_packet, out_hdr. set (sg := acked_seg pcb seg) in *. clearbody sg.
  destruct Esg as (Ep & El & Es & Eh). rewrite <- Eh.
  assert (Eu : exists p, p = unqueue pcb rest /\ local_ip p = local_ip pcb /\
    remote_ip p = remote_ip pcb /\ rcv_nxt p = rcv_nxt pcb /\ rcv_wnd p = rcv_wnd pcb /\ mss p = mss pcb)
    by (eexists; repeat split).
  destruct Eu as (p & <- & U1 & U2 & U3 & U4 & U5). unfold tcp_output_segment. rewrite U1, U2, U3, U4, U5.
  set (s := source pcb) in *.
  assert (Eb : (if local_ip pcb =? 0
      then if ip_route (remote_ip pcb) =? 0 then Undef else Ret (set_local_ip (ip_route (remote_ip pcb)) p)
      else Ret p) = Ret (set_local_ip s p)).
  { unfold s, source in Hs |- *. destruct (Z.eqb_spec (local_ip pcb) 0).
    - destruct (Z.eqb_spec (ip_route (remote_ip pcb)) 0); [contradiction|reflexivity].
    - rewrite <- U1. destruct p. reflexivity. }
  cbv zeta. rewrite Eb. cbn [mbind outcome_bind].
  assert (Et : (if rttest (set_rtime 0 (set_local_ip s p)) =? 0
      then set_rtseq (seqno (set_wnd (if rcv_wnd pcb <? mss pcb then 0 else rcv_wnd pcb)
             (set_ackno (rcv_nxt pcb) (tcphdr sg))))
           (set_rttest (u16 (tcp_ticks e)) (set_rtime 0 (set_local_ip s p)))
      else set_rtime 0 (set_local_ip s p)) = timed e seg (set_rtime 0 (set_local_ip s p))).
  { unfold timed. cbn [seqno set_wnd set_ackno]. rewrite Es. reflexivity. }
  rewrite Et. destruct (timed_fields e seg (set_rtime 0 (set_local_ip s p))) as (_ & T1 & T2 & _).
  rewrite T1, T2. cbn [local_ip remote_ip set_rtime set_local_ip].
  rewrite U2, Ep. unfold set_tcphdr. rewrite Ep, El. reflexivity.
Qed.

(** One round of the loop. *)
Lemma output_step k e pcb w seg rest :
  unsent pcb = seg :: rest -> in_wnd pcb w seg = true -> source pcb <> 0 ->
  output_loop (S k) e pcb w =
  output_loop k (emit (out_packet pcb seg) e) (after_send e pcb seg rest) w.
Proof.
  intros Hu Hw Hs. destruct (out_seg_same pcb seg) as (_ & _ & E1 & E2).
  cbn [output_loop]. rewrite Hu, Hw.
  assert (E0 : (if decide (state (set_unsent rest (set_rtime 0 pcb)) <> SYN_SENT)
     then (set_tcphdr (set_h_flags (Z.lor (h_flags (tcphdr seg)) TCP_ACK) (tcphdr seg)) seg,
           set_flags (clear (Z.lor TF_ACK_DELAY TF_ACK_NOW) (flags (set_unsent rest (set_rtime 0 pcb))))
                     (set_unsent rest (set_rtime 0 pcb)))
     else (seg, set_unsent rest (set_rtime 0 pcb))) = (acked_seg pcb seg, unqueue pcb rest)).
  { unfold unqueue, acked_seg, acked_flags. cbn [state set_unsent set_rtime flags].
    destruct (decide (state pcb <> SYN_SENT)); [reflexivity|]. destruct pcb; reflexivity. }
  rewrite E0, output_segment_eq by exact Hs. cbn [mbind outcome_bind].
  unfold after_send. set (p := timed _ _ _). clearbody p.
  rewrite <- E1, <- E2. fold (seg_end seg). unfold filed, advanced.
  cbn [snd_max snd_nxt set_snd_nxt]. destruct (TCP_SEQ_LT (snd_max p) (seg_end seg)); reflexivity.
Qed.

(** The loop sends the longest prefix that fits. *)
Lemma output_loop_spec q : forall e pcb w,
  unsent pcb = q -> source pcb <> 0 ->
  let out := sendable pcb w q in
  exists p, output_loop (length q) e pcb w =
      Ret (p, Env (allocs e) (rev (map (out_packet pcb) out) ++ trace e) (tcp_ticks e) (iss e)) /\
    sent_from p pcb /\ q = out ++ unsent p /\
    match unsent p with g :: _ => in_wnd pcb w g = false | [] => True end /\
    unacked p = unacked pcb ++ map (out_seg pcb) (filter (fun g => 0 < TCP_TCPLEN g) out) /\
    snd_nxt p = (match last out with Some g => seg_end g | None => snd_nxt pcb end) /\
    snd_max p = max_end (snd_max pcb) out /\
    flags p = (match out with [] => flags pcb | _ => acked_flags pcb end).
Proof.
  induction q as [|g q IH]; intros e pcb w Hu Hs; cbv zeta.
  { exists pcb. cbn [length output_loop]. rewrite Hu. cbn. rewrite app_nil_r.
    split; [destruct e; reflexivity|]. split; [apply sent_from_refl|]. repeat split. }
  cbn [sendable length]. destruct (in_wnd pcb w g) eqn:Ew.
  2: { exists pcb. cbn [output_loop]. rewrite Hu, Ew. cbn. rewrite app_nil_r.
       split; [destruct e; reflexivity|]. split; [apply sent_from_refl|]. repeat split. }
  rewrite (output_step _ _ _ _ g q Hu Ew Hs).
  destruct (after_send_fields e pcb g q) as (F0 & F1 & F2 & F3 & F4 & F5 & F6).
  set (p := after_send e pcb g q) in *. clearbody p.
  destruct (out_merge p pcb Hs F0 F1) as (M1 & M2 & M3 & M4).
  destruct (IH (emit (out_packet pcb g) e) p w F2 ltac:(rewrite M1; exact Hs))
    as (p' & -> & G0 & G1 & G2 & G3 & G4 & G5 & G6).
  rewrite M4, M2 in G3. rewrite M4 in G1, G4, G5, G6. rewrite M4, M3. exists p'.
  cbn [emit allocs trace tcp_ticks iss map rev]. rewrite <- app_assoc.
  split; [reflexivity|]. split; [eapply sent_from_trans; eauto|].
  split; [cbn [app]; f_equal; exact G1|].
  split; [destruct (unsent p') as [|h r]; [exact Logic.I|]; unfold in_wnd in *; rewrite F0 in G2; exact G2|].
  split; [|split; [|split]].
  - rewrite G3, F3, <- app_assoc. f_equal. rewrite filter_cons.
    destruct (Z.ltb_spec 0 (TCP_TCPLEN g)), (decide (0 < TCP_TCPLEN g)); try lia; reflexivity.
  - rewrite G4. destruct (sendable pcb w q) as [|h r]; [exact F4|].
    change (last (g :: h :: r)) with (last (h :: r)).
    destruct (last (h :: r)) eqn:El; [reflexivity|]. apply last_None in El. discriminate.
  - rewrite G5, F5. reflexivity.
  - rewrite G6. destruct (sendable pcb w q); [exact F6|].
    unfold acked_flags. rewrite F0. cbn [state merge set_unsent set_unacked set_snd_nxt set_snd_max
      set_flags set_rtime set_rttest set_rtseq set_local_ip flags].
    rewrite F6. unfold acked_flags. destruct (decide (state pcb <> SYN_SENT)); [|reflexivity].
    unfold clear. rewrite <- Z.land_assoc. f_equal.
Qed.

(** The segments of a queue that is in order all take sequence numbers. *)
Lemma filter_tcplen B q : Forall (seg_ok B) q -> filter (fun g => 0 < TCP_TCPLEN g) q = q.
Proof.
  induction 1 as [|g q (p & _ & _ & _ & _ & _ & H1) _ IH]; [reflexivity|].
  rewrite filter_cons, decide_True by exact H1. rewrite IH. reflexivity.
Qed.

Lemma out_segs_same pcb q : Forall2 same_seg q (map (out_seg pcb) q).
Proof. induction q; constructor; [apply out_seg_same|auto]. Qed.

(** Moving segments from [unsent] to [unacked] keeps the invariant. *)
Lemma queue_ok_sent a b out :
  queue_ok b -> sent_from a b -> unsent b = out ++ unsent a ->
  unacked a = unacked b ++ map (out_seg b) out ->
  queue_ok a /\ queue_data (unacked a ++ unsent a) = queue_data (unacked b ++ unsent b).
Proof.
  intros [[s H1] H2 H3 H4 H5 H6 H7] Hm Hu Hk.
  assert (Hq : Forall2 same_seg (unacked b ++ unsent b) (unacked a ++ unsent a)).
  { rewrite Hk, Hu, <- app_assoc. apply Forall2_app; [apply same_refl|].
    apply Forall2_app; [apply out_segs_same|apply same_refl]. }
  destruct (same_data _ _ Hq) as (E1 & E2 & E3).
  assert (Hf : snd_lbb a = snd_lbb b /\ snd_queuelen a = snd_queuelen b /\ mss a = mss b /\
    snd_buf a = snd_buf b) by (unfold sent_from in Hm; rewrite Hm; repeat split).
  destruct Hf as (F1 & F2 & F3 & F4). split; [|symmetry; exact E1].
  split; rewrite ?F1, ?F2, ?F3, ?F4, <- ?E2; auto.
  exists s. eapply same_contiguous; eauto.
Qed.

Lemma sendable_app pcb w q : exists r, q = sendable pcb w q ++ r.
Proof.
  induction q as [|g q [r IH]]; [exists []; reflexivity|]. cbn. destruct (in_wnd pcb w g); [|eauto].
  exists r. cbn. rewrite <- IH. reflexivity.
Qed.

(** C3: when no immediate acknowledgement is due, [tcp_output] sends exactly the
    longest prefix of [unsent] whose segments lie inside the smaller of the
    peer's window and the congestion window, one packet each, in order, with
    the current acknowledgement and window; the segments move to the end of
    [unacked], [snd_nxt] is the end of the last one, [snd_max] never goes back,
    the invariant of the queues and the bytes they hold are kept, and nothing
    else changes than what [sent_from] lists. *)
Theorem tcp_output_sends e pcb :
  queue_ok pcb -> source pcb <> 0 -> has (flags pcb) TF_ACK_NOW = false ->
  let out := sendable pcb (send_wnd pcb) (unsent pcb) in
  exists p, tcp_output e pcb =
      Ret (ERR_OK, p, Env (allocs e) (rev (map (out_packet pcb) out) ++ trace e) (tcp_ticks e) (iss e)) /\
    sent_from p pcb /\ unsent pcb = out ++ unsent p /\
    match unsent p with g :: _ => in_wnd pcb (send_wnd pcb) g = false | [] => True end /\
    unacked p = unacked pcb ++ map (out_seg pcb) out /\
    snd_nxt p = (match last out with Some g => seg_end g | None => snd_nxt pcb end) /\
    snd_max p = max_end (snd_max pcb) out /\
    queue_ok p /\ queue_data (unacked p ++ unsent p) = queue_data (unacked pcb ++ unsent pcb).
Proof.
  intros Hok Hs Hf. cbv zeta. unfold tcp_output. rewrite Hf.
  destruct (output_loop_spec (unsent pcb) e pcb (send_wnd pcb) eq_refl Hs)
    as (p & -> & G0 & G1 & G2 & G3 & G4 & G5 & G6).
  pose proof Hok as [_ H2 _ _ _ _ _]. apply Forall_app in H2 as [_ H2].
  rewrite G1 in H2. apply Forall_app in H2 as [H2 _]. rewrite (filter_tcplen _ _ H2) in G3.
  destruct (queue_ok_sent p pcb _ Hok G0 G1 G3) as [Q1 Q2].
  exists p. cbn [mbind outcome_bind]. repeat (split; [assumption || reflexivity|]). exact Q2.
Qed.

(** ** Checksums of what is sent *)

(** The header fields have their widths. *)
Definition hdr_ok (h : tcp_hdr) : Prop := 0 <= h_off h < 256 /\ 0 <= h_flags h < 256.

(** The receiver's test of a packet. *)
Definition packet_verifies (k : packet) : Prop :=
  inet_chksum_pseudo (packet_chain (p_hdr k) (p_data k)) (p_src k) (p_dest k) IP_PROTO_TCP
    (u16 (chain_len (p_data k))) = Some 0.

(** Data that fits behind a header. *)
Definition data_ok (data : list (list Z)) : Prop :=
  data <> [] /\ Forall (fun d => bytes d /\ Z.of_nat (length d) + TCP_HLEN < 65536) data.

Lemma bytes_be16 x : bytes (be16 x).
Proof. unfold bytes, be16. repeat constructor; apply Z.mod_pos_bound; lia. Qed.
Lemma bytes_be32 x : bytes (be32 x).
Proof. unfold bytes, be32. repeat constructor; apply Z.mod_pos_bound; lia. Qed.
#[local] Hint Resolve bytes_be16 bytes_be32 : lwtcp.

(** The header in front of its checksum field. *)
Definition hdr_front (h : tcp_hdr) : list Z :=
  be16 (src h) ++ be16 (dest h) ++ be32 (seqno h) ++ be32 (ackno h) ++
  [h_off h; h_flags h] ++ be16 (wnd h).

Lemma hdr_bytes_split h c :
  hdr_bytes (set_chksum c h) = hdr_front h ++ [c mod 256; c / 256] ++ be16 (urgp h).
Proof. reflexivity. Qed.

(** What [checksummed] stores verifies. *)
Lemma checksummed_verifies h data lip rip :
  hdr_ok h -> data_ok data -> addr_ok lip -> addr_ok rip ->
  packet_verifies (Packet lip rip (checksummed h data lip rip) data).
Proof.
  intros [Ho Hf] [Hne Hd] Hl Hr. destruct data as [|d r]; [congruence|]. clear Hne.
  apply Forall_cons in Hd as [[Hb Hlen] Hd]. unfold TCP_HLEN in *.
  assert (Hc : chain_ok ((hdr_front h ++ [0; 0] ++ be16 (urgp h) ++ d) :: r)).
  { constructor.
    - split; [|rewrite !length_app; cbn; lia]. rewrite !bytes_app. unfold hdr_front. rewrite !bytes_app.
      repeat split; auto with lwtcp; repeat constructor; lia.
    - eapply Forall_impl; [exact Hd|]. intros x [H1 H2]. split; [exact H1|lia]. }
  destruct (stored_checksum_verifies (hdr_front h) (be16 (urgp h) ++ d) r lip rip IP_PROTO_TCP
    (u16 (chain_len (d :: r))) Hc eq_refl Hl Hr) as (c & E1 & E2); [unfold IP_PROTO_TCP; lia|apply u16_range|].
  unfold packet_verifies, checksummed. cbn [p_hdr p_data p_src p_dest packet_chain].
  rewrite hdr_bytes_split, <- !app_assoc. cbn [app] in E1 |- *. change (0 mod 256) with 0. change (0 / 256) with 0.
  rewrite E1. change (set_chksum c (set_chksum 0 h)) with (set_chksum c h).
  rewrite hdr_bytes_split, <- !app_assoc. exact E2.
Qed.

(** A segment that can be put on the wire. *)
Definition seg_wire (g : tcp_seg) : Prop :=
  hdr_ok (tcphdr g) /\ exists p, seg_p g = Some p /\ data_ok (bufs p).

Lemma lor_byte a b : 0 <= a < 256 -> 0 <= b < 256 -> 0 <= Z.lor a b < 256.
Proof.
  intros Ha Hb. split; [apply Z.lor_nonneg; lia|].
  destruct (Z.eq_dec (Z.lor a b) 0) as [->|Hn]; [lia|].
  apply (Z.log2_lt_pow2 _ 8); [pose proof (proj2 (Z.lor_nonneg a b)); lia|].
  rewrite Z.log2_lor by lia. destruct (Z.eq_dec a 0) as [->|], (Z.eq_dec b 0) as [->|]; cbn -[Z.log2];
    try (change (Z.log2 0) with 0);
    try (pose proof (proj1 (Z.log2_lt_pow2 a 8 ltac:(lia)) ltac:(lia)));
    try (pose proof (proj1 (Z.log2_lt_pow2 b 8 ltac:(lia)) ltac:(lia))); lia.
Qed.

Lemma out_packet_verifies pcb g : seg_wire g -> addr_ok (source pcb) -> addr_ok (remote_ip pcb) ->
  packet_verifies (out_packet pcb g).
Proof.
  intros [[Ho Hf] (p & Ep & Hd)] Hs Hr. unfold out_packet, out_hdr. rewrite Ep.
  apply checksummed_verifies; auto. split; destruct (decide _); cbn; auto.
  apply lor_byte; [exact Hf|unfold TCP_ACK; lia].
Qed.

Lemma ack_hdr_ok p : hdr_ok (ack_hdr p).
Proof. split; split; vm_compute; congruence. Qed.

Lemma empty_data_ok : data_ok [[]].
Proof. split; [discriminate|]. repeat constructor. Qed.

(** C8: everything TCP sends carries a checksum that the receiver's test of
    [tcp_input] accepts: the segments and the acknowledgements that [tcp_output]
    sends, the segment that [tcp_rexmit_seg] sends again, and resets. *)
Theorem sent_packets_verify e pcb seg :
  Forall seg_wire (unsent pcb) -> seg_wire seg -> source pcb <> 0 ->
  addr_ok (source pcb) -> addr_ok (local_ip pcb) -> addr_ok (remote_ip pcb) ->
  (exists err p e' new, tcp_output e pcb = Ret (err, p, e') /\
     trace e' = new ++ trace e /\ Forall packet_verifies new) /\
  (exists new, trace (tcp_rexmit_seg e pcb seg).2 = new ++ trace e /\ Forall packet_verifies new) /\
  (forall seqno ackno lport rport,
     packet_verifies (rst_packet seqno ackno (local_ip pcb) (remote_ip pcb) lport rport)).
Proof.
  intros Hu Hseg Hs As Al Ar. split; [|split].
  - unfold tcp_output. destruct (has (flags pcb) TF_ACK_NOW).
    + assert (Hack : forall f, packet_verifies (Packet (local_ip pcb) (remote_ip pcb)
        (checksummed (ack_hdr (set_flags f pcb)) [[]] (local_ip pcb) (remote_ip pcb)) [[]]))
        by (intros f; apply checksummed_verifies; auto using empty_data_ok, ack_hdr_ok).
      unfold alloc. destruct (allocs e) as [|[] al].
      1,2: eexists _, _, _, [_]; (split; [reflexivity|]); (split; [reflexivity|]);
        apply Forall_cons; split; [apply Hack|apply Forall_nil_2].
      eexists _, _, _, []. split; [reflexivity|]. split; [reflexivity|]. apply Forall_nil_2.
    + destruct (output_loop_spec (unsent pcb) e pcb (send_wnd pcb) eq_refl Hs)
        as (p & -> & _ & G1 & _). cbn [mbind outcome_bind]. eexists _, _, _, _.
      split; [reflexivity|]. split; [reflexivity|]. rewrite G1 in Hu. apply Forall_app in Hu as [Hu _].
      apply Forall_rev, Forall_map. eapply Forall_impl; [exact Hu|].
      intros g Hg. apply out_packet_verifies; auto.
  - unfold tcp_rexmit_seg. destruct (in_wnd pcb (send_wnd pcb) seg); [|exists []; split; [reflexivity|apply Forall_nil_2]].
    destruct Hseg as [[Ho Hf] (p & Ep & Hd)]. cbn [snd emit trace].
    eexists [_]. split; [reflexivity|]. apply Forall_cons; split; [|apply Forall_nil_2].
    rewrite Ep. apply checksummed_verifies; auto. split; auto.
  - intros. apply checksummed_verifies; auto using empty_data_ok. split; split; vm_compute; congruence.
Qed.

End OutputSpec.

(** ** A concrete connection *)

(** A host that has an address of its own and needs no route. *)
#[local] Instance addressed : Network := { ip_route _ := 0 }.

(** A connection with 200 bytes queued and a congestion window of 128. *)
Definition written : tcp_pcb := Eval vm_compute in
  match tcp_write (Env [] [] 0 0) (set_cwnd 128 (set_snd_wnd 1024 (set_local_ip 1
          (set_state ESTABLISHED (set_mss 128 (set_snd_buf 256 pcb_zero)))))) (List.repeat 7 200) true with
  | Ret (_, p, _) => p
  | _ => pcb_zero
  end.

Lemma tcp_output_sends_witness :
  queue_ok written /\ source written <> 0 /\ has (flags written) TF_ACK_NOW = false /\
  exists p' e', tcp_output (Env [] [] 0 0) written = Ret (ERR_OK, p', e') /\
    length (trace e') = 1%nat /\ snd_nxt p' = 128 /\ length (unsent p') = 1%nat /\ queue_ok p'.
Proof.
  assert (Hok : queue_ok written).
  { assert (E : snd_queuelen written = 2 /\ mss written = 128 /\ snd_buf written = 56 /\
      snd_lbb written = 200 /\ queue_clen (unacked written ++ unsent written) = 2)
      by (vm_compute; repeat split).
    destruct E as (E1 & E2 & E3 & E4 & E5).
    split; rewrite ?E1, ?E2, ?E3, ?E4, ?E5; unfold TCP_SND_QUEUELEN, TCP_MSS; try lia.
    - exists 0. vm_compute. repeat split.
    - repeat constructor; eexists; (split; [reflexivity|]); vm_compute;
        repeat split; discriminate || reflexivity. }
  assert (Hs : source written <> 0) by (vm_compute; discriminate).
  split; [exact Hok|]. split; [exact Hs|]. split; [reflexivity|].
  destruct (tcp_output_sends (Env [] [] 0 0) written Hok Hs eq_refl)
    as (p' & E & _ & H2 & _ & _ & H5 & _ & H7 & _).
  exists p'. eexists. split; [exact E|].
  assert (Eo : exists g, sendable written (send_wnd written) (unsent written) = [g] /\ seg_end g = 128).
  { exists (default (Seg None 0 (Hdr 0 0 0 0 0 0 0 0 0)) (head (unsent written))).
    vm_compute. split; reflexivity. }
  destruct Eo as (g & Eo & Eg). rewrite Eo in *.
  split; [reflexivity|]. split; [rewrite H5; exact Eg|]. split; [|exact H7].
  apply (f_equal (@length _)) in H2. rewrite length_app in H2. cbn in H2 |- *. lia.
Defined.

Lemma sent_packets_verify_witness :
  Forall seg_wire (unsent written) /\
  exists err p e' new, tcp_output (Env [] [] 0 0) written = Ret (err, p, e') /\
     trace e' = new ++ [] /\ Forall packet_verifies new.
Proof.
  assert (Hw : Forall seg_wire (unsent written)).
  { repeat constructor; try (vm_compute; discriminate || reflexivity);
      eexists; (split; [reflexivity|]); (split; [discriminate|]);
      repeat constructor; vm_compute; discriminate || reflexivity. }
  split; [exact Hw|].
  refine (proj1 (sent_packets_verify (Env [] [] 0 0) written
    (Seg (Some (Pbufs [[]] 0)) 0 (Hdr 0 0 0 0 80 0 0 0 0)) Hw _ _ _ _ _));
    try (vm_compute; intuition discriminate).
  split; [split; cbn; lia|]. eexists. split; [reflexivity|]. apply empty_data_ok.
Defined.
