(* ===== verification/TcpInput.v ===== *)
(** The input half of TCP that works on one control block,
    [SW_stub/lwtcp/tcp_input.c]: acknowledgements ([ack_input]), congestion and
    round-trip estimation, in-sequence and out-of-sequence data ([data_input]),
    and the options of a SYN ([tcp_parseopt]).  The state machine and the
    demultiplexing, which need all control blocks, are in [Tcp]. *)

From S2P Require Import Prelude Inet TcpTypes TcpOutput.
From stdpp Require Import base list.
From Stdlib Require Import ZArith Lia.

Local Open Scope Z_scope.

(** ** Buffers of a segment *)

Definition blen (b : list Z) : Z := Z.of_nat (length b).

(** Walking over the buffers that lie before the new start of the data: their
    length becomes zero.  [pbuf_header] takes a 16-bit signed size, so that a
    cut of more than 32768 bytes from one buffer is not a cut. *)
Fixpoint skip_bufs (bs : list (list Z)) (off : Z) : outcome (list (list Z) * Z) :=
  match bs with
  | [] => Undef
  | b :: r =>
      if blen b <? off then
        '(r', k) ← skip_bufs r (off - blen b);
        Ret ([] :: r', blen b + k)
      else if 32768 <? off then Undef
      else Ret (drop (Z.to_nat off) b :: r, 0)
  end.

(** Cutting [off] bytes off the front.  Only when the first buffer is cut does
    [pbuf_header] adjust the [tot_len] of the first buffer. *)
Definition trim_front (p : pbufs) (off : Z) : outcome pbufs :=
  match bufs p with
  | [] => Undef
  | b :: r =>
      if blen b <? off then
        '(bs, k) ← skip_bufs (bufs p) off;
        Ret (Pbufs bs (u16 (tot_len p - k)))
      else if 32768 <? off then Undef
      else Ret (Pbufs (drop (Z.to_nat off) b :: r) (u16 (tot_len p - off)))
  end.

(** [pbuf_realloc] to a smaller size; the buffers behind the cut are freed. *)
Fixpoint cut_bufs (bs : list (list Z)) (rsize : Z) : outcome (list (list Z)) :=
  match bs with
  | [] => Undef
  | b :: r =>
      if blen b <? rsize then
        r' ← cut_bufs r (rsize - blen b); Ret (b :: r')
      else Ret [take (Z.to_nat rsize) b]
  end.

Definition pbuf_realloc (p : pbufs) (size : Z) : outcome pbufs :=
  if tot_len p <=? size then Ret p
  else bs ← cut_bufs (bufs p) size; Ret (Pbufs bs size).

(** [seg.len = len; pbuf_realloc(seg.p, seg.len)] *)
Definition cut_seg (g : tcp_seg) (len : Z) : outcome tcp_seg :=
  p ← load (seg_p g);
  p ← pbuf_realloc p (u16 len);
  Ret (Seg (Some p) (u16 len) (tcphdr g)).

(** ** Options *)

(** The walk over the options; [c] is an 8-bit index.  A read beyond the bytes
    of the packet is undefined. *)
Fixpoint parseopt_loop (fuel : nat) (opts : list Z) (limit c mss : Z) : outcome Z :=
  if c <? limit then
    match fuel with
    | O => Undef
    | S k =>
        opt ← load (opts !! Z.to_nat c);
        if opt =? 0 then Ret mss
        else if opt =? 1 then parseopt_loop k opts limit (u8 (c + 1)) mss
        else
          l ← load (opts !! Z.to_nat (c + 1));
          if (opt =? 2) && (l =? 4) then
            hi ← load (opts !! Z.to_nat (c + 2));
            lo ← load (opts !! Z.to_nat (c + 3));
            let v := u16 (Z.lor (Z.shiftl hi 8) lo) in
            Ret (if TCP_MSS <? v then TCP_MSS else v)
          else if l =? 0 then Ret mss
          else parseopt_loop k opts limit (u8 (c + l)) mss
    end
  else Ret mss.

(** The index takes 256 values: a walk that is not over after 256 rounds is
    never over. *)
Definition parseopt_fuel : nat := 256.

Definition tcp_parseopt (h : tcp_hdr) (opts : list Z) (pcb : tcp_pcb) : outcome tcp_pcb :=
  if 80 <? Z.land (h_off h) 240 then
    m ← parseopt_loop parseopt_fuel opts (Z.shiftl (Z.shiftr (h_off h) 4 - 5) 2) 0 (mss pcb);
    Ret (set_mss m pcb)
  else Ret pcb.

Section Input.
Context `{Network}.

(** ** Acknowledgements *)

(** The send window follows the newest segment. *)
Definition update_window (inseg : tcp_seg) (pcb : tcp_pcb) : tcp_pcb :=
  let h := tcphdr inseg in
  if TCP_SEQ_LT (snd_wl1 pcb) (seqno h) ||
     ((snd_wl1 pcb =? seqno h) && TCP_SEQ_LT (snd_wl2 pcb) (ackno h)) ||
     ((snd_wl2 pcb =? ackno h) && (snd_wnd pcb <? wnd h))
  then set_snd_wl2 (ackno h) (set_snd_wl1 (seqno h) (set_snd_wnd (wnd h) pcb))
  else pcb.

(** [if(cwnd + inc > cwnd) cwnd += inc], the sum being an [int]. *)
Definition inflate (inc : Z) (pcb : tcp_pcb) : tcp_pcb :=
  if cwnd pcb <? cwnd pcb + inc then set_cwnd (u16 (cwnd pcb + inc)) pcb else pcb.

(** A duplicate acknowledgement; the third one retransmits. *)
Definition dup_ack (e : env) (pcb : tcp_pcb) : tcp_pcb * env :=
  let pcb := set_dupacks (u8 (dupacks pcb + 1)) pcb in
  match unacked pcb with
  | seg :: rest =>
      if 3 <=? dupacks pcb then
        if has (flags pcb) TF_INFR then (inflate (mss pcb) pcb, e)
        else
          let '(seg, pcb, e) := tcp_rexmit_seg e pcb seg in
          let pcb := set_unacked (seg :: rest) pcb in
          let flight := u32 (snd_max pcb - lastack pcb) / 2 in
          let pcb := set_ssthresh (u16 (Z.max flight (2 * mss pcb))) pcb in
          let pcb := set_cwnd (u16 (ssthresh pcb + 3 * mss pcb)) pcb in
          (set_flags (raise TF_INFR (flags pcb)) pcb, e)
      else (pcb, e)
  | [] => (pcb, e)
  end.

(** Slow start and congestion avoidance. *)
Definition grow_cwnd (pcb : tcp_pcb) : outcome tcp_pcb :=
  if 4 <=? state_num (state pcb) then
    if cwnd pcb <? ssthresh pcb then Ret (inflate (mss pcb) pcb)
    else if cwnd pcb =? 0 then Undef
    else Ret (inflate (mss pcb * mss pcb / cwnd pcb) pcb)
  else Ret pcb.

(** Taking the acknowledged segments off [unsent] and off [unacked]. *)
Definition acked_by (ackno : Z) (g : tcp_seg) : bool :=
  TCP_SEQ_LEQ (u32 (seqno (tcphdr g) + TCP_TCPLEN g)) ackno.

Fixpoint ack_unsent (ackno : Z) (q : list tcp_seg) (nxt ql : Z) : list tcp_seg * Z * Z :=
  match q with
  | g :: r =>
      if acked_by ackno g then
        ack_unsent ackno r (match r with h :: _ => seqno (tcphdr h) | [] => nxt end)
          (u8 (ql - seg_clen g))
      else (q, nxt, ql)
  | [] => ([], nxt, ql)
  end.

Fixpoint ack_unacked (ackno : Z) (q : list tcp_seg) (ql : Z) : list tcp_seg * Z :=
  match q with
  | g :: r => if acked_by ackno g then ack_unacked ackno r (u8 (ql - seg_clen g)) else (q, ql)
  | [] => ([], ql)
  end.

(** The retransmission time-out from the round-trip estimate. *)
Definition rto_of (pcb : tcp_pcb) : Z := u16 (Z.shiftr (sa pcb) 3 + sv pcb).

(** An acknowledgement of new data. *)
Definition new_ack (ackno : Z) (pcb : tcp_pcb) : outcome tcp_pcb :=
  let pcb := if has (flags pcb) TF_INFR
             then set_cwnd (ssthresh pcb) (set_flags (clear TF_INFR (flags pcb)) pcb) else pcb in
  let pcb := set_rto (rto_of pcb) (set_nrtx 0 pcb) in
  let pcb := set_acked (u16 (ackno - lastack pcb)) pcb in
  let pcb := set_snd_buf (u16 (snd_buf pcb + acked pcb)) pcb in
  let pcb := set_lastack ackno (set_dupacks 0 pcb) in
  pcb ← grow_cwnd pcb;
  let '(q, nxt, ql) := ack_unsent ackno (unsent pcb) (snd_nxt pcb) (snd_queuelen pcb) in
  let pcb := set_snd_queuelen ql (set_snd_nxt nxt (set_unsent q pcb)) in
  let '(q, ql) := ack_unacked ackno (unacked pcb) (snd_queuelen pcb) in
  Ret (set_polltmr 0 (set_snd_queuelen ql (set_unacked q pcb))).

(** Round-trip estimation, with the [int] and [int32_t] objects at 32 bits. *)
Definition estimate_rtt (ticks ackno : Z) (pcb : tcp_pcb) : tcp_pcb :=
  if truthy (rttest pcb) && TCP_SEQ_LT (rtseq pcb) ackno then
    let m := s32 (ticks - rttest pcb) in
    let m := s32 (m - Z.shiftr (sa pcb) 3) in
    let pcb := set_sa (s32 (sa pcb + m)) pcb in
    let m := if m <? 0 then s32 (- m) else m in
    let m := s32 (m - Z.shiftr (sv pcb) 2) in
    let pcb := set_sv (s32 (sv pcb + m)) pcb in
    set_rttest 0 (set_rto (rto_of pcb) pcb)
  else pcb.

(** The part of [tcp_receive] under the ACK flag. *)
Definition ack_input (e : env) (inseg : tcp_seg) (pcb : tcp_pcb) : outcome (tcp_pcb * env) :=
  let ackno := ackno (tcphdr inseg) in
  let pcb := update_window inseg pcb in
  '(pcb, e) ←
    (if lastack pcb =? ackno then Ret (dup_ack e pcb)
     else if TCP_SEQ_LT (lastack pcb) ackno && TCP_SEQ_LEQ ackno (snd_max pcb) then
       pcb ← new_ack ackno pcb; Ret (pcb, e)
     else Ret (pcb, e));
  Ret (estimate_rtt (tcp_ticks e) ackno pcb, e).

(** ** Data *)

(** The first edge of a segment that starts before [rcv_nxt]. *)
Definition trim_first_edge (inseg : tcp_seg) (rcv_nxt : Z) : outcome tcp_seg :=
  let s := seqno (tcphdr inseg) in
  if TCP_SEQ_LT s rcv_nxt && TCP_SEQ_LT rcv_nxt (u32 (s + seg_len inseg)) then
    let off := s32 (rcv_nxt - s) in
    p ← load (seg_p inseg);
    p ← trim_front p off;
    Ret (Seg (Some p) (u16 (seg_len inseg - (rcv_nxt - s)))
           (set_seqno rcv_nxt (tcphdr inseg)))
  else Ret inseg.

Definition advance (n : Z) (pcb : tcp_pcb) : tcp_pcb :=
  let pcb := set_rcv_nxt (u32 (rcv_nxt pcb + n)) pcb in
  set_rcv_wnd (if rcv_wnd pcb <? n then 0 else u16 (rcv_wnd pcb - n)) pcb.

(** The queued segments that are now in sequence; the FIN test looks at the
    incoming segment. *)
Fixpoint dequeue (inflags : Z) (q : list tcp_seg) (pcb : tcp_pcb) : outcome tcp_pcb :=
  match q with
  | c :: rest =>
      if seqno (tcphdr c) =? rcv_nxt pcb then
        let pcb := advance (TCP_TCPLEN c) pcb in
        p ← load (seg_p c);
        pcb ← (if 0 <? tot_len p then
                 d ← load (recv_data pcb);
                 Ret (set_recv_data (Some (Pbufs (bufs d ++ bufs p) (u16 (tot_len d + tot_len p)))) pcb)
               else Ret pcb);
        let pcb := if has inflags TCP_FIN then set_flags (raise TF_GOT_FIN (flags pcb)) pcb else pcb in
        dequeue inflags rest pcb
      else Ret (set_ooseq q pcb)
  | [] => Ret (set_ooseq [] pcb)
  end.

(** A segment that starts at [rcv_nxt]. *)
Definition in_sequence (e : env) (inseg : tcp_seg) (pcb : tcp_pcb)
  : outcome (tcp_seg * tcp_pcb * env) :=
  let s := seqno (tcphdr inseg) in
  inseg ← (match ooseq pcb with
           | o :: _ =>
               if TCP_SEQ_LEQ (seqno (tcphdr o)) (u32 (s + seg_len inseg))
               then cut_seg inseg (seqno (tcphdr o) - s) else Ret inseg
           | [] => Ret inseg
           end);
  let pcb := advance (TCP_TCPLEN inseg) pcb in
  p ← load (seg_p inseg);
  let '(inseg, pcb) := if 0 <? tot_len p
                       then (Seg None (seg_len inseg) (tcphdr inseg), set_recv_data (Some p) pcb)
                       else (inseg, pcb) in
  let f := h_flags (tcphdr inseg) in
  let pcb := if has f TCP_FIN then set_flags (raise TF_GOT_FIN (flags pcb)) pcb else pcb in
  pcb ← dequeue f (ooseq pcb) pcb;
  '(pcb, e) ← tcp_ack e pcb;
  Ret (inseg, pcb, e).

(** [tcp_seg_copy] and the link that uses its result: when the allocation
    fails the queue stays as it is. *)
Definition link_copy (e : env) (linked kept : outcome (list tcp_seg)) : outcome (list tcp_seg * env) :=
  let '(ok, e) := alloc e in
  q ← (if ok : bool then linked else kept); Ret (q, e).

(** The second edge of [g] is cut where the segment at [s] starts. *)
Definition cut_to (g : tcp_seg) (s : Z) : outcome tcp_seg :=
  if TCP_SEQ_GT (u32 (seqno (tcphdr g) + seg_len g)) s
  then cut_seg g (s - seqno (tcphdr g)) else Ret g.

(** The walk over the queue: [prev] is the segment before [q]; the result is
    the queue from [prev] on. *)
Fixpoint ooseq_insert (e : env) (inseg : tcp_seg) (prev : option tcp_seg) (q : list tcp_seg)
  : outcome (list tcp_seg * tcp_seg * env) :=
  let s := seqno (tcphdr inseg) in
  let from_prev l := match prev with Some p => p :: l | None => l end in
  match q with
  | [] => Ret (from_prev [], inseg, e)
  | next :: rest =>
      let sn := seqno (tcphdr next) in
      let onward :=
        match rest with
        | [] =>
            if TCP_SEQ_GT s sn then
              '(l, e) ← link_copy e (next' ← cut_to next s; Ret [next'; inseg]) (Ret [next]);
              Ret (from_prev l, inseg, e)
            else Ret (from_prev [next], inseg, e)
        | _ =>
            '(l, inseg, e) ← ooseq_insert e inseg (Some next) rest;
            Ret (from_prev l, inseg, e)
        end in
      if s =? sn then
        if seg_len next <? seg_len inseg then
          '(l, e) ← link_copy e (Ret (inseg :: rest)) (Ret (next :: rest));
          Ret (from_prev l, inseg, e)
        else Ret (from_prev (next :: rest), inseg, e)
      else
        match prev with
        | None =>
            if TCP_SEQ_LT s sn then
              inseg ← cut_to inseg sn;
              '(l, e) ← link_copy e (Ret (inseg :: next :: rest)) (Ret (next :: rest));
              Ret (l, inseg, e)
            else onward
        | Some p =>
            if TCP_SEQ_LT (seqno (tcphdr p)) s && TCP_SEQ_LT s sn then
              inseg ← cut_to inseg sn;
              '(l, e) ← link_copy e (p' ← cut_to p s; Ret (p' :: inseg :: next :: rest))
                          (Ret (p :: next :: rest));
              Ret (l, inseg, e)
            else onward
        end
  end.

(** A segment inside the window but ahead of [rcv_nxt]. *)
Definition out_of_sequence (e : env) (inseg : tcp_seg) (pcb : tcp_pcb)
  : outcome (tcp_seg * tcp_pcb * env) :=
  '(pcb, e) ← tcp_ack_now e pcb;
  match ooseq pcb with
  | [] =>
      let '(ok, e) := alloc e in
      Ret (inseg, set_ooseq (if ok : bool then [inseg] else []) pcb, e)
  | q =>
      '(q, inseg, e) ← ooseq_insert e inseg None q;
      Ret (inseg, set_ooseq q pcb, e)
  end.

(** The part of [tcp_receive] for segments that take sequence numbers. *)
Definition data_input (e : env) (inseg : tcp_seg) (pcb : tcp_pcb)
  : outcome (tcp_seg * tcp_pcb * env) :=
  inseg ← trim_first_edge inseg (rcv_nxt pcb);
  let s := seqno (tcphdr inseg) in
  if TCP_SEQ_GEQ s (rcv_nxt pcb) && TCP_SEQ_LT s (u32 (rcv_nxt pcb + rcv_wnd pcb)) then
    if rcv_nxt pcb =? s then in_sequence e inseg pcb else out_of_sequence e inseg pcb
  else Ret (inseg, pcb, e).

Definition tcp_receive (e : env) (inseg : tcp_seg) (pcb : tcp_pcb)
  : outcome (tcp_seg * tcp_pcb * env) :=
  '(pcb, e) ← (if has (h_flags (tcphdr inseg)) TCP_ACK then ack_input e inseg pcb else Ret (pcb, e));
  if 0 <? TCP_TCPLEN inseg then data_input e inseg pcb
  else
    let s := seqno (tcphdr inseg) in
    if TCP_SEQ_GT (rcv_nxt pcb) s || TCP_SEQ_GEQ s (u32 (rcv_nxt pcb + rcv_wnd pcb)) then
      '(pcb, e) ← tcp_ack_now e pcb; Ret (inseg, pcb, e)
    else Ret (inseg, pcb, e).

End Input.

(** ** Sequence numbers as distances *)

(** Numbers that differ by less than half the space compare as integers. *)
Lemma s32_cong z k : (z - k) mod 4294967296 = 0 -> -2147483648 <= k < 2147483648 -> s32 z = k.
Proof.
  intros Hz Hk. rewrite <- (s32_small k Hk). unfold wraps. change (2 ^ 32) with 4294967296.
  replace (z mod 4294967296) with (k mod 4294967296); [reflexivity|]. divmod.
Qed.

(** [dist r x] is how far [x] lies behind [r]. *)
Definition dist (r x : Z) : Z := u32 (x - r).

Lemma dist_range r x : 0 <= dist r x < 4294967296.
Proof. apply u32_range. Qed.

Lemma dist_self r : dist r r = 0.
Proof. unfold dist. rewrite Z.sub_diag. reflexivity. Qed.

(** The difference of two numbers near [r]. *)
Lemma seq_diff r x y : dist r x < 1000000 -> dist r y < 1000000 -> s32 (x - y) = dist r x - dist r y.
Proof.
  unfold dist, wrapu. change (2 ^ 32) with 4294967296. intros Hx Hy. apply s32_cong; divmod.
Qed.

Lemma dist_add r x n : 0 <= n -> dist r x + n < 4294967296 -> dist r (u32 (x + n)) = dist r x + n.
Proof. unfold dist, wrapu. change (2 ^ 32) with 4294967296. intros. divmod. Qed.

Lemma dist_inv r x : 0 <= x < 4294967296 -> u32 (r + dist r x) = x.
Proof. unfold dist, wrapu. change (2 ^ 32) with 4294967296. intros. divmod. Qed.

(** Moving the reference point forward. *)
Lemma dist_rebase r n x : 0 <= n <= dist r x -> dist (u32 (r + n)) x = dist r x - n.
Proof. unfold dist, wrapu. change (2 ^ 32) with 4294967296. intros. divmod. Qed.

Lemma dist_u16 r x y : dist r y <= dist r x -> dist r x - dist r y < 65536 ->
  u16 (x - y) = dist r x - dist r y.
Proof.
  unfold dist, wrapu. change (2 ^ 32) with 4294967296. change (2 ^ 16) with 65536. intros. divmod.
Qed.

(** ** Cutting buffers *)

Lemma bind_Ret {A B} (x : outcome A) (f : A -> outcome B) a : x = Ret a -> (x ≫= f) = f a.
Proof. intros ->. reflexivity. Qed.

Lemma skip_bufs_spec bs off :
  0 < off <= 32768 -> off <= Z.of_nat (length (concat bs)) ->
  exists bs' k, skip_bufs bs off = Ret (bs', k) /\ bs' <> [] /\
    concat bs' = drop (Z.to_nat off) (concat bs) /\ 0 <= k <= off.
Proof.
  revert off. induction bs as [|b r IH]; intros off H1 H2; [cbn in H2; lia|].
  cbn [skip_bufs concat] in *. rewrite length_app in H2. unfold blen.
  destruct (Z.ltb_spec (Z.of_nat (length b)) off).
  - destruct (IH (off - Z.of_nat (length b))) as (bs' & k & -> & Hn & Hd & Hk); [lia|lia|].
    cbn [mbind outcome_bind]. eexists _, _. split; [reflexivity|]. split; [discriminate|].
    split; [|lia]. cbn [concat app]. rewrite Hd, drop_app_ge by lia. f_equal. lia.
  - destruct (Z.ltb_spec 32768 off); [lia|]. eexists _, _. split; [reflexivity|].
    split; [discriminate|]. split; [|lia]. cbn [concat]. rewrite drop_app_le by lia. reflexivity.
Qed.

Lemma trim_front_spec p off :
  0 < off <= 32768 -> off <= Z.of_nat (length (pbuf_data p)) ->
  off <= tot_len p < 65536 ->
  exists p', trim_front p off = Ret p' /\ bufs p' <> [] /\
    pbuf_data p' = drop (Z.to_nat off) (pbuf_data p) /\
    tot_len p - off <= tot_len p' <= tot_len p.
Proof.
  intros H1 H2 H3. unfold trim_front, pbuf_data, blen in *. destruct (bufs p) as [|b r] eqn:E; [cbn in H2; lia|].
  destruct (Z.ltb_spec (Z.of_nat (length b)) off).
  - destruct (skip_bufs_spec (b :: r) off H1 H2) as (bs' & k & -> & Hn & Hd & Hk).
    cbn [mbind outcome_bind]. eexists. split; [reflexivity|]. cbn [bufs tot_len].
    rewrite u16_small by lia. repeat split; auto; lia.
  - destruct (Z.ltb_spec 32768 off); [lia|]. eexists. split; [reflexivity|]. cbn [bufs tot_len concat].
    rewrite u16_small, drop_app_le by lia. repeat split; [discriminate|lia|lia].
Qed.

Lemma cut_bufs_spec bs n : bs <> [] -> 0 <= n <= Z.of_nat (length (concat bs)) ->
  exists bs', cut_bufs bs n = Ret bs' /\ bs' <> [] /\ concat bs' = take (Z.to_nat n) (concat bs).
Proof.
  revert n. induction bs as [|b r IH]; intros n Hn H1; [congruence|].
  cbn [cut_bufs concat] in *. rewrite length_app in H1. unfold blen.
  destruct (Z.ltb_spec (Z.of_nat (length b)) n).
  - destruct r as [|c r]; [cbn in H1; lia|].
    destruct (IH (n - Z.of_nat (length b))) as (bs' & -> & Hb & Hc); [discriminate|lia|].
    cbn [mbind outcome_bind]. eexists. split; [reflexivity|]. split; [discriminate|].
    cbn [concat] in *. rewrite Hc, (take_app_ge b) by lia. do 2 f_equal. lia.
  - eexists. split; [reflexivity|]. split; [discriminate|].
    cbn [concat]. rewrite app_nil_r, take_app_le by lia. reflexivity.
Qed.

Lemma pbuf_realloc_spec p n :
  bufs p <> [] -> 0 <= n <= Z.of_nat (length (pbuf_data p)) -> n < tot_len p ->
  exists p', pbuf_realloc p n = Ret p' /\ bufs p' <> [] /\
    pbuf_data p' = take (Z.to_nat n) (pbuf_data p) /\ tot_len p' = n.
Proof.
  intros Hb H1 H2. unfold pbuf_realloc. destruct (Z.leb_spec (tot_len p) n); [lia|].
  destruct (cut_bufs_spec (bufs p) n Hb H1) as (bs' & -> & Hn & Hc).
  cbn [mbind outcome_bind]. eexists. split; [reflexivity|]. auto.
Qed.

(** ** The stream of the peer *)

Section Delivery.
Context `{Network}.

(** [S n] is the byte the peer numbers [n]. *)
Variable S : Z -> Z.

(** The [n] bytes from number [s] on. *)
Definition run (s n : Z) : list Z := map (fun i => S (u32 (s + i))) (seqZ 0 n).

Lemma length_run s n : length (run s n) = Z.to_nat n.
Proof. unfold run. rewrite length_map, length_seqZ. reflexivity. Qed.

Lemma run_app s a b : 0 <= a -> 0 <= b -> run s (a + b) = run s a ++ run (u32 (s + a)) b.
Proof.
  intros Ha Hb. unfold run. rewrite seqZ_app, map_app by lia. f_equal.
  rewrite (Z.add_comm 0 a), <- fmap_add_seqZ.
  change (Z.add a <$> seqZ 0 b) with (map (Z.add a) (seqZ 0 b)). rewrite map_map. apply map_ext.
  intros i. f_equal. unfold wrapu. rewrite Zplus_mod_idemp_l. f_equal. lia.
Qed.

Lemma take_run s n k : 0 <= k <= n -> take (Z.to_nat k) (run s n) = run s k.
Proof.
  intros Hk. replace n with (k + (n - k)) by lia. rewrite run_app by lia.
  apply take_app_length'. symmetry. apply length_run.
Qed.

Lemma drop_run s n k : 0 <= k <= n -> drop (Z.to_nat k) (run s n) = run (u32 (s + k)) (n - k).
Proof.
  intros Hk. replace n with (k + (n - k)) at 1 by lia. rewrite run_app by lia.
  apply drop_app_length'. symmetry. apply length_run.
Qed.

(** A segment without SYN or FIN that carries the bytes of the stream at its
    number.  [tot_len] may exceed the length, see [trim_front]. *)
Record carries (g : tcp_seg) : Prop := {
  c_data : exists p, seg_p g = Some p /\ bufs p <> [] /\
    pbuf_data p = run (seqno (tcphdr g)) (seg_len g) /\ seg_len g <= tot_len p < 65536;
  c_len : 0 < seg_len g < 65536;
  c_seq : 0 <= seqno (tcphdr g) < 4294967296;
  c_fin : has (h_flags (tcphdr g)) TCP_FIN = false;
  c_syn : has (h_flags (tcphdr g)) TCP_SYN = false
}.

Lemma carries_tcplen g : carries g -> TCP_TCPLEN g = seg_len g.
Proof. intros [_ _ _ H1 H2]. unfold TCP_TCPLEN. rewrite H1, H2. cbn. lia. Qed.

(** Cutting the second edge. *)
Lemma cut_seg_spec g x n :
  carries g -> u16 x = n -> 0 < n <= seg_len g ->
  exists g', cut_seg g x = Ret g' /\ carries g' /\ tcphdr g' = tcphdr g /\ seg_len g' = n.
Proof.
  intros [(p & Ep & Hb & Hd & Ht) Hl Hs H1 H2] Ex Hn. unfold cut_seg. rewrite Ep, Ex. cbn [load mbind outcome_bind].
  assert (Hlen : length (pbuf_data p) = Z.to_nat (seg_len g)) by (rewrite Hd; apply length_run).
  assert (Hp : exists p', pbuf_realloc p n = Ret p' /\ bufs p' <> [] /\
    pbuf_data p' = run (seqno (tcphdr g)) n /\ n <= tot_len p' < 65536).
  { destruct (Z.eq_dec (tot_len p) n) as [E|E].
    - exists p. unfold pbuf_realloc. rewrite E, Z.leb_refl. assert (n = seg_len g) as -> by lia.
      repeat split; auto; lia.
    - destruct (pbuf_realloc_spec p n) as (p' & -> & B & D & T); [auto|lia|lia|].
      exists p'. rewrite D, Hd, take_run by lia. repeat split; auto; lia. }
  destruct Hp as (p' & -> & B & D & T). cbn [mbind outcome_bind]. eexists. split; [reflexivity|].
  split; [|split; reflexivity]. split; cbn [seg_p seg_len tcphdr]; auto; [|lia].
  exists p'. auto.
Qed.

(** [cut_to] makes a segment end where a later one starts. *)
Lemma cut_to_spec r g s :
  carries g -> 0 <= s < 4294967296 -> dist r (seqno (tcphdr g)) < dist r s -> dist r s < 65536 ->
  exists g', cut_to g s = Ret g' /\ carries g' /\ tcphdr g' = tcphdr g /\
    seg_len g' = Z.min (seg_len g) (dist r s - dist r (seqno (tcphdr g))).
Proof.
  intros Hg Hs Hlt Hw. pose proof Hg as [_ Hl Hsg _ _]. unfold cut_to, TCP_SEQ_GT.
  pose proof (dist_range r (seqno (tcphdr g))).
  rewrite (seq_diff r) by (rewrite ?dist_add; lia). rewrite dist_add by lia.
  destruct (Z.ltb_spec 0 (dist r (seqno (tcphdr g)) + seg_len g - dist r s)).
  - destruct (cut_seg_spec g (s - seqno (tcphdr g)) (dist r s - dist r (seqno (tcphdr g))))
      as (g' & E & C & T & L); [auto|apply (dist_u16 r); lia|lia|].
    exists g'. rewrite L. repeat split; auto; try apply C; lia.
  - exists g. repeat split; auto; try apply Hg; lia.
Qed.

(** Cutting the first edge. *)
Lemma trim_first_edge_spec g r :
  carries g -> 0 <= r < 4294967296 -> seg_len g <= 32768 ->
  exists g', trim_first_edge g r = Ret g' /\ carries g' /\
    (seqno (tcphdr g') = r \/ g' = g) /\ h_flags (tcphdr g') = h_flags (tcphdr g).
Proof.
  intros Hg Hr H32. pose proof Hg as [(p & Ep & Hb & Hd & Ht) Hl Hs H1 H2].
  set (s := seqno (tcphdr g)) in *. set (n := seg_len g) in *. unfold trim_first_edge. fold s n.
  destruct (TCP_SEQ_LT s r && TCP_SEQ_LT r (u32 (s + n))) eqn:E.
  2: { exists g. repeat split; auto; apply Hg. }
  apply andb_true_iff in E as [E1 E2]. unfold TCP_SEQ_LT in *. rewrite Z.ltb_lt in E1, E2.
  assert (Hk : exists k, 0 < k < n /\ dist s r = k).
  { exists (dist s r). split; [|reflexivity]. revert E1 E2. unfold dist, wraps, wrapu.
    change (2 ^ 32) with 4294967296. change (2 ^ (32 - 1)) with 2147483648. intros E1 E2.
    destruct (Z.ltb_spec ((s - r) mod 4294967296) 2147483648) in E1;
    destruct (Z.ltb_spec ((r - (s + n) mod 4294967296) mod 4294967296) 2147483648) in E2;
      divmod. }
  destruct Hk as (k & Hk & Ek).
  assert (Eoff : s32 (r - s) = k).
  { apply s32_cong; [|lia]. revert Ek. unfold dist, wrapu. change (2 ^ 32) with 4294967296. divmod. }
  assert (Elen : u16 (n - (r - s)) = n - k).
  { revert Ek. unfold dist, wrapu. change (2 ^ 32) with 4294967296. change (2 ^ 16) with 65536. divmod. }
  rewrite Ep, Eoff, Elen. cbn [load mbind outcome_bind].
  assert (Hlen : length (pbuf_data p) = Z.to_nat n) by (rewrite Hd; apply length_run).
  destruct (trim_front_spec p k) as (p' & -> & B & D & T); [lia|lia|lia|].
  cbn [mbind outcome_bind]. eexists. split; [reflexivity|].
  split; [|split; [left; reflexivity|reflexivity]].
  split; cbn [seg_p seg_len tcphdr set_seqno seqno h_flags]; auto; [|lia].
  exists p'. split; [reflexivity|]. split; [exact B|]. split; [|lia].
  rewrite D, Hd, drop_run by lia. f_equal.
  rewrite <- Ek. apply dist_inv. exact Hr.
Qed.

(** The out-of-sequence queue: the segments carry the stream, in order and
    without overlap, the first one at a distance of at least [lo] from [r]. *)
Fixpoint ordered (r lo : Z) (q : list tcp_seg) : Prop :=
  match q with
  | [] => True
  | g :: rest =>
      carries g /\ lo <= dist r (seqno (tcphdr g)) < 65536 /\
      ordered r (dist r (seqno (tcphdr g)) + seg_len g) rest
  end.

Lemma ordered_weaken r lo lo' q : lo' <= lo -> ordered r lo q -> ordered r lo' q.
Proof. destruct q; cbn; [auto|]. intros Hl (H1 & H2 & H3). repeat split; auto; try apply H1; lia. Qed.

Lemma ordered_rebase r n lo q : 0 <= n <= lo -> ordered r lo q -> ordered (u32 (r + n)) (lo - n) q.
Proof.
  revert lo. induction q as [|g q IH]; intros lo Hn; cbn; [auto|]. intros (H1 & H2 & H3).
  rewrite dist_rebase by lia. split; [exact H1|]. split; [lia|].
  replace (dist r (seqno (tcphdr g)) - n + seg_len g)
    with (dist r (seqno (tcphdr g)) + seg_len g - n) by lia.
  apply IH; [|exact H3]. destruct H1 as [_ H1 _ _ _]. lia.
Qed.

Lemma advance_fields n pcb :
  rcv_nxt (advance n pcb) = u32 (rcv_nxt pcb + n) /\ recv_data (advance n pcb) = recv_data pcb /\
  flags (advance n pcb) = flags pcb /\ ooseq (advance n pcb) = ooseq pcb.
Proof. repeat split. Qed.

Lemma u32_add r a b : u32 (u32 (r + a) + b) = u32 (r + (a + b)).
Proof. unfold wrapu. rewrite Zplus_mod_idemp_l. f_equal. lia. Qed.

(** Draining the queue: it delivers on, and what stays is ahead. *)
Lemma dequeue_spec r f q : forall n pcb d,
  has f TCP_FIN = false -> ordered r n q -> 0 <= n < 131072 -> 0 <= r < 4294967296 ->
  rcv_nxt pcb = u32 (r + n) -> recv_data pcb = Some d -> pbuf_data d = run r n ->
  exists pcb' n' d', dequeue f q pcb = Ret pcb' /\ n <= n' < 131072 /\
    rcv_nxt pcb' = u32 (r + n') /\ recv_data pcb' = Some d' /\ pbuf_data d' = run r n' /\
    flags pcb' = flags pcb /\ ordered r (n' + 1) (ooseq pcb').
Proof.
  induction q as [|g q IH]; intros n pcb d Hf Ho Hn Hr Er Ed Ep; cbn [dequeue].
  { exists (set_ooseq [] pcb), n, d. repeat split; auto; lia. }
  destruct Ho as (Hg & Hd & Ho). pose proof Hg as [(p & Es & Hb & Hda & Ht) Hl Hs _ _].
  set (k := dist r (seqno (tcphdr g))) in *.
  assert (Ek : seqno (tcphdr g) = u32 (r + k)) by (symmetry; apply dist_inv; exact Hs).
  destruct (Z.eqb_spec (seqno (tcphdr g)) (rcv_nxt pcb)) as [E|E].
  - assert (k = n) as Hkn.
    { rewrite Er in E. unfold k, dist. rewrite E. unfold wrapu.
      change (2 ^ 32) with 4294967296. divmod. }
    rewrite (carries_tcplen g Hg), Es, Hf. cbn [load mbind outcome_bind].
    destruct (Z.ltb_spec 0 (tot_len p)); [|lia].
    change (recv_data (advance (seg_len g) pcb)) with (recv_data pcb). rewrite Ed. cbn [load mbind outcome_bind].
    set (d1 := Pbufs (bufs d ++ bufs p) (u16 (tot_len d + tot_len p))).
    destruct (IH (n + seg_len g) (set_recv_data (Some d1) (advance (seg_len g) pcb)) d1)
      as (pcb' & n' & d' & -> & H1 & H2 & H3 & H4 & H5 & H6); auto; try lia.
    + rewrite <- Hkn at 1. exact Ho.
    + cbn. rewrite Er, u32_add. reflexivity.
    + unfold pbuf_data, d1 in *. cbn [bufs]. rewrite concat_app, Ep, Hda, run_app by lia.
      rewrite Ek, Hkn. reflexivity.
    + exists pcb', n', d'. repeat split; auto; lia.
  - exists (set_ooseq (g :: q) pcb), n, d. repeat split; auto; try lia; try apply Hg.
    cbn [set_ooseq ooseq]. fold k. destruct (Z.eq_dec k n) as [->|Hne]; [|lia].
    exfalso. apply E. rewrite Er. exact Ek.
Qed.

(** The flags and the trace are all that an acknowledgement changes. *)
Lemma tcp_ack_now_spec e pcb :
  exists f e', tcp_ack_now e pcb = Ret (set_flags f pcb, e').
Proof.
  unfold tcp_ack_now, tcp_output. cbn [flags set_flags].
  assert (E : has (raise TF_ACK_NOW (flags pcb)) TF_ACK_NOW = true).
  { unfold raise. rewrite has_lor. apply orb_true_r. }
  rewrite E. destruct (alloc e) as [[] e1]; cbn [mbind outcome_bind]; eexists _, _; reflexivity.
Qed.

Lemma tcp_ack_spec e pcb :
  exists f e', tcp_ack e pcb = Ret (set_flags f pcb, e').
Proof.
  unfold tcp_ack. destruct (has (flags pcb) TF_ACK_DELAY); [apply tcp_ack_now_spec|eauto].
Qed.

(** The receiver's invariant and what it promises: [recv_data] holds the next
    [n] bytes of the stream, and the queue is ahead of [rcv_nxt]. *)
Definition delivered (r n : Z) (pcb : tcp_pcb) : Prop :=
  rcv_nxt pcb = u32 (r + n) /\
  match recv_data pcb with Some p => pbuf_data p | None => [] end = run r n /\
  ordered (rcv_nxt pcb) 1 (ooseq pcb).

Lemma in_sequence_spec e g pcb :
  carries g -> seqno (tcphdr g) = rcv_nxt pcb -> ordered (rcv_nxt pcb) 1 (ooseq pcb) ->
  exists g' pcb' e' n, in_sequence e g pcb = Ret (g', pcb', e') /\ 0 < n < 131072 /\
    delivered (rcv_nxt pcb) n pcb'.
Proof.
  intros Hg Es Ho. pose proof Hg as [_ Hl Hs _ _]. rewrite Es in Hs. set (r := rcv_nxt pcb) in *.
  unfold in_sequence. rewrite Es.
  assert (Hcut : exists g1, (match ooseq pcb with
      | o :: _ => if TCP_SEQ_LEQ (seqno (tcphdr o)) (u32 (r + seg_len g))
                  then cut_seg g (seqno (tcphdr o) - r) else Ret g
      | [] => Ret g
      end) = Ret g1 /\ carries g1 /\ tcphdr g1 = tcphdr g /\ ordered r (seg_len g1) (ooseq pcb)).
  { destruct (ooseq pcb) as [|o q]; [exists g; cbn; auto|]. destruct Ho as (Hc & Hd & Ho).
    pose proof (dist_self r) as Hself. unfold TCP_SEQ_LEQ.
    assert (Er : dist r (u32 (r + seg_len g)) = seg_len g) by (rewrite dist_add; lia).
    rewrite (seq_diff r) by (rewrite ?Er; lia). rewrite Er.
    destruct (Z.leb_spec (dist r (seqno (tcphdr o)) - seg_len g) 0).
    - destruct (cut_seg_spec g (seqno (tcphdr o) - r) (dist r (seqno (tcphdr o))))
        as (g1 & E & C & T & L); [auto| |lia|].
      { rewrite (dist_u16 r) by lia. lia. }
      exists g1. rewrite L. split; [exact E|]. split; [exact C|]. split; [exact T|].
      split; [exact Hc|]. split; [lia|exact Ho].
    - exists g. split; [reflexivity|]. split; [exact Hg|]. split; [reflexivity|].
      split; [exact Hc|]. split; [lia|exact Ho]. }
  destruct Hcut as (g1 & -> & Hg1 & Eh & Ho1). cbn [mbind outcome_bind].
  rewrite (carries_tcplen g1 Hg1). pose proof Hg1 as [(p & Ep & Hb & Hda & Ht) Hl1 _ Hfin _].
  rewrite Ep. cbn [load mbind outcome_bind]. destruct (Z.ltb_spec 0 (tot_len p)); [|lia].
  cbn [tcphdr seg_len]. rewrite Hfin.
  destruct (dequeue_spec r (h_flags (tcphdr g1)) (ooseq pcb) (seg_len g1)
    (set_recv_data (Some p) (advance (seg_len g1) pcb)) p)
    as (pcb2 & n & d & Edq & H1 & H2 & H3 & H4 & _ & H6); auto; try lia.
  { rewrite Hda, Eh, Es. reflexivity. }
  change (ooseq (set_recv_data (Some p) (advance (seg_len g1) pcb))) with (ooseq pcb).
  rewrite Edq. cbn [mbind outcome_bind].
  destruct (tcp_ack_spec e pcb2) as (f & e' & ->). cbn [mbind outcome_bind].
  eexists _, _, _, n. split; [reflexivity|]. split; [lia|].
  unfold delivered. cbn [rcv_nxt recv_data ooseq set_flags].
  split; [exact H2|]. split; [rewrite H3; exact H4|].
  rewrite H2. replace 1 with (n + 1 - n) by lia. apply ordered_rebase; [lia|exact H6].
Qed.

(** Comparing two numbers of the window. *)
Lemma seq_lt_dist r x y : dist r x < 65536 -> dist r y < 65536 ->
  TCP_SEQ_LT x y = (dist r x <? dist r y).
Proof.
  intros Hx Hy. unfold TCP_SEQ_LT. rewrite (seq_diff r) by lia.
  destruct (Z.ltb_spec (dist r x - dist r y) 0), (Z.ltb_spec (dist r x) (dist r y)); lia.
Qed.

Lemma seq_gt_dist r x y : dist r x < 65536 -> dist r y < 65536 ->
  TCP_SEQ_GT x y = (dist r y <? dist r x).
Proof.
  intros Hx Hy. unfold TCP_SEQ_GT. rewrite (seq_diff r) by lia.
  destruct (Z.ltb_spec 0 (dist r x - dist r y)), (Z.ltb_spec (dist r y) (dist r x)); lia.
Qed.

Lemma dist_inj r x y : 0 <= x < 4294967296 -> 0 <= y < 4294967296 -> dist r x = dist r y -> x = y.
Proof. intros Hx Hy E. rewrite <- (dist_inv r x Hx), <- (dist_inv r y Hy), E. reflexivity. Qed.

(** Linking a copy gives one of the two lists. *)
Lemma link_copy_spec (P : list tcp_seg -> Prop) e a b :
  (exists l, a = Ret l /\ P l) -> (exists l, b = Ret l /\ P l) ->
  exists l e', link_copy e a b = Ret (l, e') /\ P l.
Proof.
  intros (la & -> & Ha) (lb & -> & Hb). unfold link_copy. destruct (alloc e) as [[] e1];
    cbn [mbind outcome_bind]; eauto.
Qed.

(** A segment cut at the number of a later one ends before it. *)
Lemma cut_before r lo g s :
  carries g -> 0 <= s < 4294967296 -> lo <= dist r (seqno (tcphdr g)) < dist r s -> dist r s < 65536 ->
  exists g', cut_to g s = Ret g' /\ tcphdr g' = tcphdr g /\
    forall q, ordered r (dist r s) q -> ordered r lo (g' :: q).
Proof.
  intros Hg Hs Hlt Hw. destruct (cut_to_spec r g s Hg Hs) as (g' & E & C & T & L); [lia|lia|].
  exists g'. split; [exact E|]. split; [exact T|]. intros q Hq. cbn [ordered]. rewrite T, L.
  split; [exact C|]. split; [lia|]. eapply ordered_weaken; [|exact Hq]. lia.
Qed.

(** Inserting keeps the queue in order, unless a longer segment replaces one. *)
Lemma ooseq_insert_spec r q : forall e g prev lo,
  carries g -> lo <= dist r (seqno (tcphdr g)) < 65536 -> q <> [] ->
  Forall (fun h => seqno (tcphdr h) = seqno (tcphdr g) -> seg_len g <= seg_len h) q ->
  match prev with
  | Some p => ordered r lo (p :: q) /\ dist r (seqno (tcphdr p)) < dist r (seqno (tcphdr g))
  | None => ordered r lo q
  end ->
  exists l g' e', ooseq_insert e g prev q = Ret (l, g', e') /\ ordered r lo l.
Proof.
  induction q as [|next rest IH]; intros e g prev lo Hg Hd Hne Hdup Hp; [congruence|]. clear Hne.
  apply Forall_cons in Hdup as [Hdn Hdr].
  set (keep l := match prev with Some p => p :: l | None => l end).
  assert (Hn : carries next /\ dist r (seqno (tcphdr next)) < 65536 /\
    forall l lo', (forall lo'', lo'' <= dist r (seqno (tcphdr next)) ->
                   (match prev with Some p => dist r (seqno (tcphdr p)) + seg_len p | None => lo end) <= lo'' ->
                   ordered r lo'' l) -> lo' = lo -> ordered r lo' (keep l)).
  { destruct prev as [p|]; cbn [ordered] in Hp.
    - destruct Hp as ((P1 & P2 & N1 & N2 & N3) & P4). split; [exact N1|]. split; [lia|].
      intros l lo' Hl ->. cbn [keep ordered]. split; [exact P1|]. split; [exact P2|]. apply Hl; lia.
    - destruct Hp as (N1 & N2 & N3). split; [exact N1|]. split; [lia|].
      intros l lo' Hl ->. apply Hl; lia. }
  destruct Hn as (Hnc & Hn & Hkeep).
  assert (Hrest : forall lo'', lo'' <= dist r (seqno (tcphdr next)) -> ordered r lo'' (next :: rest)).
  { intros lo'' Hl. destruct prev as [p|]; [destruct Hp as [(_ & _ & Hp) _]|]; eapply ordered_weaken;
      try exact Hl; destruct Hp as (A & B & C); cbn [ordered]; repeat split; try apply A; auto; lia. }
  pose proof Hg as [_ Hgl Hgs _ _]. pose proof Hnc as [_ Hnl Hns _ _].
  set (s := seqno (tcphdr g)) in *. set (sn := seqno (tcphdr next)) in *.
  (* the branches that go on past [next] *)
  assert (Honward : dist r sn < dist r s -> exists l g' e',
    match rest with
    | [] =>
        if TCP_SEQ_GT s sn then
          '(l, e) ← link_copy e (next' ← cut_to next s; Ret [next'; g]) (Ret [next]);
          Ret (keep l, g, e)
        else Ret (keep [next], g, e)
    | _ => '(l, inseg, e) ← ooseq_insert e g (Some next) rest; Ret (keep l, inseg, e)
    end = Ret (l, g', e') /\ ordered r lo l).
  { intros Hlt. destruct rest as [|h rest].
    - rewrite (seq_gt_dist r) by lia. destruct (Z.ltb_spec (dist r sn) (dist r s)); [|lia].
      destruct (cut_before r (dist r sn) next s Hnc Hgs) as (n' & En & _ & Ho); [fold sn; lia|lia|].
      rewrite En. cbn [mbind outcome_bind].
      destruct (link_copy_spec (fun l => forall lo'', lo'' <= dist r sn -> ordered r lo'' l) e
        (Ret [n'; g]) (Ret [next])) as (l & e' & -> & Hl).
      + eexists. split; [reflexivity|]. intros lo'' Hlo. eapply ordered_weaken; [exact Hlo|].
        apply Ho. cbn [ordered]. fold s. split; [exact Hg|]. split; [lia|exact Logic.I].
      + eexists. split; [reflexivity|]. exact Hrest.
      + cbn [mbind outcome_bind]. eexists _, _, _. split; [reflexivity|]. apply Hkeep; auto.
    - destruct (IH e g (Some next) (dist r sn) Hg) as (l & g' & e' & -> & Hl);
        [fold s; lia|discriminate|exact Hdr|split; [apply Hrest; lia|exact Hlt]|].
      cbn [mbind outcome_bind]. eexists _, _, _. split; [reflexivity|]. apply Hkeep; auto.
      intros lo'' Hlo _. eapply ordered_weaken; [exact Hlo|exact Hl]. }
  cbn [ooseq_insert]. fold s sn. change (match prev with Some p => fun l => p :: l | None => fun l => l end) with keep.
  destruct (Z.eqb_spec s sn) as [E|E].
  - destruct (Z.ltb_spec (seg_len next) (seg_len g)); [specialize (Hdn (eq_sym E)); lia|].
    eexists _, _, _. split; [reflexivity|]. apply Hkeep; auto.
  - assert (Hds : dist r s <> dist r sn) by (intros F; apply E; exact (dist_inj r s sn Hgs Hns F)).
    destruct prev as [p|].
    + destruct Hp as [(P1 & P2 & Hp) P4]. rewrite !(seq_lt_dist r) by lia.
      destruct (Z.ltb_spec (dist r (seqno (tcphdr p))) (dist r s)); [|lia].
      destruct (Z.ltb_spec (dist r s) (dist r sn)); cbn [andb]; [|apply Honward; lia].
      destruct (cut_before r (dist r s) g sn Hg Hns) as (g' & Eg & Tg & Hog); [fold s; lia|lia|].
      rewrite Eg. cbn [mbind outcome_bind].
      destruct (cut_before r lo p s P1 Hgs) as (p' & Epp & _ & Hop); [lia|lia|].
      rewrite Epp. cbn [mbind outcome_bind].
      destruct (link_copy_spec (ordered r lo) e (Ret (p' :: g' :: next :: rest)) (Ret (p :: next :: rest)))
        as (l & e' & -> & Hl).
      * eexists. split; [reflexivity|]. apply Hop, Hog, Hrest. lia.
      * eexists. split; [reflexivity|]. split; [exact P1|]. split; [exact P2|exact Hp].
      * cbn [mbind outcome_bind]. eauto.
    + rewrite (seq_lt_dist r) by lia.
      destruct (Z.ltb_spec (dist r s) (dist r sn)); [|apply Honward; lia].
      destruct (cut_before r lo g sn Hg Hns) as (g' & Eg & Tg & Hog); [fold s; lia|lia|].
      rewrite Eg. cbn [mbind outcome_bind].
      destruct (link_copy_spec (ordered r lo) e (Ret (g' :: next :: rest)) (Ret (next :: rest)))
        as (l & e' & -> & Hl).
      * eexists. split; [reflexivity|]. apply Hog, Hrest. lia.
      * eexists. split; [reflexivity|]. exact Hp.
      * cbn [mbind outcome_bind]. eauto.
Qed.

Lemma delivered_nothing pcb : 0 <= rcv_nxt pcb < 4294967296 -> recv_data pcb = None ->
  ordered (rcv_nxt pcb) 1 (ooseq pcb) -> delivered (rcv_nxt pcb) 0 pcb.
Proof. intros Hr Hd Ho. unfold delivered. rewrite Hd, Z.add_0_r, u32_small by lia. auto. Qed.

Lemma out_of_sequence_spec e g pcb r :
  carries g -> 1 <= dist r (seqno (tcphdr g)) < 65536 -> ordered r 1 (ooseq pcb) ->
  Forall (fun h => seqno (tcphdr h) = seqno (tcphdr g) -> seg_len g <= seg_len h) (ooseq pcb) ->
  exists q f g' e', out_of_sequence e g pcb = Ret (g', set_ooseq q (set_flags f pcb), e') /\
    ordered r 1 q.
Proof.
  intros Hg Hd Ho Hdup. unfold out_of_sequence.
  destruct (tcp_ack_now_spec e pcb) as (f & e1 & ->). cbn [mbind outcome_bind ooseq set_flags].
  destruct (ooseq pcb) as [|o q].
  - destruct (alloc e1) as [[] e2]; eexists _, f, _, _; (split; [reflexivity|]); [|exact Logic.I].
    cbn [ordered]. split; [exact Hg|]. split; [lia|exact Logic.I].
  - destruct (ooseq_insert_spec r (o :: q) e1 g None 1 Hg) as (l & g' & e' & -> & Hl);
      [lia|discriminate|exact Hdup|exact Ho|].
    cbn [mbind outcome_bind]. eexists _, f, _, _. split; [reflexivity|exact Hl].
Qed.


End Delivery.

(** ** Concrete runs *)

(** A host that has an address of its own and needs no route. *)
#[local] Instance addressed : Network := { ip_route _ := 0 }.

(** The stream [0, 1, 2, ...], a segment of it and a connection that expects
    number 0. *)
Definition count_up (n : Z) : Z := n mod 256.
Definition piece (s n : Z) : tcp_seg :=
  Seg (Some (Pbufs [run count_up s n] n)) n (Hdr 1 2 s 0 80 TCP_ACK 1024 0 0).
Definition receiver : tcp_pcb := set_state ESTABLISHED (set_rcv_wnd 1024 (set_mss 128 pcb_zero)).

Lemma piece_carries s n : 0 <= s < 4294967296 -> 0 < n < 65536 -> carries count_up (piece s n).
Proof.
  intros Hs Hn. split; cbn [piece seg_p seg_len tcphdr seqno h_flags]; auto; try reflexivity.
  eexists. split; [reflexivity|]. split; [discriminate|]. unfold pbuf_data. cbn [bufs tot_len concat].
  rewrite app_nil_r. split; [reflexivity|lia].
Qed.


(** A sequence of segments given to the data part. *)
Fixpoint feed (pcb : tcp_pcb) (l : list tcp_seg) : outcome tcp_pcb :=
  match l with
  | [] => Ret pcb
  | g :: r =>
      x ← data_input (Env [] [] 0 0) g (set_recv_data None pcb);
      let '(_, pcb, _) := x in feed pcb r
  end.

(** What is expected next and what is queued after a run. *)
Definition fed (l : list tcp_seg) : option (Z * list Z) :=
  match feed receiver l with
  | Ret p => Some (rcv_nxt p, map (fun g => seqno (tcphdr g)) (ooseq p))
  | _ => None
  end.

(** A longer segment replaces the queued one with the same number without being
    cut at the next one, so that the queue overlaps; after the queue is drained
    its head lies behind [rcv_nxt], and the next segment in sequence is then
    "cut" to a length of 65516 bytes and moves [rcv_nxt] by as much. *)
Theorem longer_duplicate_overlaps :
  fed [piece 10 10; piece 20 10; piece 10 30; piece 0 10] = Some (40, [20]) /\
  fed [piece 10 10; piece 20 10; piece 10 30; piece 0 10; piece 40 1] = Some (65556, [20]).
Proof. split; vm_compute; reflexivity. Qed.

(** A FIN without data in sequence, with the number after it queued: the queued
    pbuf is chained to a null [recv_data]. *)
Theorem fin_then_queued_data :
  data_input (Env [] [] 0 0) (Seg (Some (Pbufs [[]] 0)) 0 (Hdr 1 2 0 0 80 (TCP_ACK + TCP_FIN) 1024 0 0))
    (set_ooseq [piece 1 5] receiver) = Undef.
Proof. vm_compute. reflexivity. Qed.

(** When the front of a segment is cut across its buffers, the part cut from the
    last of them is not taken off [tot_len]. *)
Theorem trim_front_tot_len :
  trim_front (Pbufs [[1; 2]; [3; 4]] 4) 3 = Ret (Pbufs [[]; [4]] 2).
Proof. reflexivity. Qed.

(** The guard of the congestion window compares [int]s and never fires; the
    window wraps around. *)
Theorem inflate_wraps pcb :
  cwnd pcb = 65500 -> mss pcb = 128 -> cwnd (inflate (mss pcb) pcb) = 92.
Proof. intros E1 E2. unfold inflate. rewrite E1, E2. reflexivity. Qed.

(** ** Options *)

(** Well-formed options, as RFC 793 writes them. *)
Inductive tcp_opt := Nop | Mss (v : Z) | Other (kind : Z) (data : list Z).

Definition opt_ok (o : tcp_opt) : Prop :=
  match o with
  | Nop => True
  | Mss v => 0 <= v < 65536
  | Other k d => k <> 0 /\ k <> 1 /\ (k = 2 -> length d <> 2%nat)
  end.

Definition opt_bytes (o : tcp_opt) : list Z :=
  match o with
  | Nop => [1]
  | Mss v => [2; 4; v / 256; v mod 256]
  | Other k d => k :: Z.of_nat (2 + length d) :: d
  end.

Fixpoint opts_bytes (os : list tcp_opt) : list Z :=
  match os with [] => [] | o :: r => opt_bytes o ++ opts_bytes r end.

Fixpoint first_mss (os : list tcp_opt) : option Z :=
  match os with
  | [] => None
  | Mss v :: _ => Some v
  | _ :: r => first_mss r
  end.

(** The new segment size: the peer's, but not more than [TCP_MSS]. *)
Definition new_mss (m : Z) (os : list tcp_opt) : Z :=
  match first_mss os with Some v => Z.min v TCP_MSS | None => m end.

Lemma lookup_pre {A} (pre l : list A) n : (pre ++ l) !! (length pre + n)%nat = l !! n.
Proof. rewrite lookup_app_r by lia. f_equal. lia. Qed.

Lemma load_pre (pre l : list Z) c k x :
  c = Z.of_nat (length pre) -> l !! k = Some x -> load ((pre ++ l) !! Z.to_nat (c + Z.of_nat k)) = Ret x.
Proof.
  intros -> H. replace (Z.to_nat _) with (length pre + k)%nat by lia. rewrite lookup_pre, H. reflexivity.
Qed.

Lemma parseopt_loop_spec os : forall fuel pre tail c limit m,
  c = Z.of_nat (length pre) -> Forall opt_ok os -> (length os < fuel)%nat ->
  limit < 256 -> c + Z.of_nat (length (opts_bytes os)) <= limit ->
  (c + Z.of_nat (length (opts_bytes os)) = limit \/ exists t, tail = 0 :: t) ->
  parseopt_loop fuel (pre ++ opts_bytes os ++ tail) limit c m = Ret (new_mss m os).
Proof.
  induction os as [|o os IH]; intros fuel pre tail c limit m Hc Hok Hf Hl Hb Ht;
    (destruct fuel as [|k]; [cbn in Hf; lia|]); cbn [parseopt_loop opts_bytes app].
  - destruct (Z.ltb_spec c limit); [|reflexivity].
    destruct Ht as [E|[t ->]]; [cbn in E; lia|].
    pose proof (load_pre pre (0 :: t) c 0 0 Hc eq_refl) as E. cbn [Z.of_nat] in E. rewrite Z.add_0_r in E.
    rewrite E. reflexivity.
  - apply Forall_cons in Hok as [Ho Hok]. cbn [opts_bytes] in Hb, Ht. rewrite length_app in Hb, Ht. cbn in Hf.
    assert (H1 : (1 <= length (opt_bytes o))%nat) by (destruct o; cbn; lia).
    destruct (Z.ltb_spec c limit); [|lia]. rewrite <- app_assoc.
    pose proof (fun j x => load_pre pre (opt_bytes o ++ opts_bytes os ++ tail) c j x Hc) as Hload.
    assert (Hrec : parseopt_loop k (pre ++ opt_bytes o ++ opts_bytes os ++ tail) limit
        (u8 (c + Z.of_nat (length (opt_bytes o)))) m = Ret (new_mss m os)).
    { rewrite u8_small by lia. rewrite app_assoc. apply IH; auto; try lia.
      - rewrite length_app. lia.
      - destruct Ht as [Ht|Ht]; [left; lia|right; exact Ht]. }
    pose proof (Hload 0%nat) as L0. pose proof (Hload 1%nat) as L1.
    pose proof (Hload 2%nat) as L2. pose proof (Hload 3%nat) as L3. clear Hload.
    cbn [Z.of_nat] in L0. rewrite Z.add_0_r in L0.
    change (Z.of_nat 1) with 1 in *. change (Z.of_nat 2) with 2 in *. change (Z.of_nat 3) with 3 in *.
    destruct o as [|v|kd d]; cbn [opt_bytes app length] in *.
    + rewrite (L0 1 eq_refl). exact Hrec.
    + cbn in Ho. rewrite (L0 2 eq_refl), (L1 4 eq_refl), (L2 _ eq_refl), (L3 _ eq_refl).
      cbn [mbind outcome_bind Z.eqb Pos.eqb andb].
      assert (Ev : u16 (Z.lor (Z.shiftl (v / 256) 8) (v mod 256)) = v).
      { rewrite shiftl_8, (lor_add_shift _ _ 8) by (try lia; divmod). apply u16_small in Ho as Hu.
        change (2 ^ 8) with 256. replace (v / 256 * 256 + v mod 256) with v by divmod. exact Hu. }
      rewrite Ev. unfold new_mss. cbn [first_mss]. f_equal.
      destruct (Z.ltb_spec TCP_MSS v); lia.
    + destruct Ho as (O1 & O2 & O3). rewrite (L0 kd eq_refl), (L1 _ eq_refl).
      cbn [mbind outcome_bind]. destruct (Z.eqb_spec kd 0); [contradiction|].
      destruct (Z.eqb_spec kd 1); [contradiction|].
      destruct (Z.eqb_spec (Z.of_nat (2 + length d)) 0); [lia|].
      destruct (Z.eqb_spec kd 2) as [->|]; cbn [andb]; [|exact Hrec].
      destruct (Z.eqb_spec (Z.of_nat (2 + length d)) 4); [specialize (O3 eq_refl); lia|exact Hrec].
Qed.

(** [tcp_parseopt] parses every well-formed list of options: it returns, and
    the segment size becomes that of the first MSS option, limited to
    [TCP_MSS], or stays what it was when there is none. *)
Theorem tcp_parseopt_mss h os tail pcb :
  Forall opt_ok os -> 0 <= h_off h < 256 ->
  let limit := 4 * (h_off h / 16) - 20 in
  0 < limit -> Z.of_nat (length (opts_bytes os)) <= limit ->
  (Z.of_nat (length (opts_bytes os)) = limit \/ exists t, tail = 0 :: t) ->
  tcp_parseopt h (opts_bytes os ++ tail) pcb = Ret (set_mss (new_mss (mss pcb) os) pcb).
Proof.
  intros Hok Ho limit Hl Hb Ht. unfold tcp_parseopt.
  assert (Eo : Z.land (h_off h) 240 = h_off h / 16 * 16).
  { change 240 with (Z.shiftl (Z.ones 4) 4). apply Z.bits_inj'. intros n Hn.
    rewrite Z.land_spec. change 16 with (2 ^ 4). rewrite <- Z.shiftr_div_pow2, <- Z.shiftl_mul_pow2 by lia.
    rewrite !Z.shiftl_spec by lia. destruct (Z.lt_ge_cases n 4).
    - rewrite !(Z.testbit_neg_r _ (n - 4)) by lia. apply andb_false_r.
    - rewrite Z.shiftr_spec by lia. replace (n - 4 + 4) with n by lia.
      rewrite Z.testbit_ones_nonneg by lia. destruct (Z.ltb_spec (n - 4) 4); [apply andb_true_r|].
      rewrite andb_false_r. symmetry. apply (testbit_above 8); lia. }
  assert (Es : Z.shiftl (Z.shiftr (h_off h) 4 - 5) 2 = limit).
  { rewrite Z.shiftr_div_pow2, Z.shiftl_mul_pow2 by lia. subst limit. change (2 ^ 4) with 16. lia. }
  rewrite Eo, Es. assert (Hlim : limit < 256) by (subst limit; divmod).
  destruct (Z.ltb_spec 80 (h_off h / 16 * 16)); [|subst limit; lia].
  assert (Hn : (length os <= length (opts_bytes os))%nat).
  { clear. induction os as [|o os IH]; [cbn; lia|]. cbn [opts_bytes length]. rewrite length_app.
    destruct o; cbn; lia. }
  change (opts_bytes os ++ tail) with ([] ++ opts_bytes os ++ tail).
  rewrite (parseopt_loop_spec os parseopt_fuel [] tail 0 limit) by (try (unfold parseopt_fuel; lia); auto).
  reflexivity.
Qed.

Lemma tcp_parseopt_mss_witness :
  let h := Hdr 1 2 0 0 112 TCP_SYN 1024 0 0 in
  Forall opt_ok [Nop; Mss 100] /\
  tcp_parseopt h (opts_bytes [Nop; Mss 100] ++ [0; 0; 0]) pcb_zero = Ret (set_mss 100 pcb_zero).
Proof.
  cbv zeta. split; [repeat constructor; cbn; lia|].
  refine (tcp_parseopt_mss (Hdr 1 2 0 0 112 TCP_SYN 1024 0 0) [Nop; Mss 100] [0; 0; 0] pcb_zero _ _ _ _ _).
  - repeat constructor; cbn; lia.
  - cbn; lia.
  - vm_compute. reflexivity.
  - vm_compute. discriminate.
  - right. eexists. reflexivity.
Defined.

(** The 8-bit index wraps: on the options [1, 5, 255] the walk never ends,
    whatever the fuel. *)
Theorem parseopt_diverges fuel tail m :
  parseopt_loop fuel (1 :: 5 :: 255 :: tail) 4 0 m = Undef.
Proof.
  cut (parseopt_loop fuel (1 :: 5 :: 255 :: tail) 4 0 m = Undef /\
       parseopt_loop fuel (1 :: 5 :: 255 :: tail) 4 1 m = Undef); [tauto|].
  induction fuel as [|k [IH0 IH1]]; [split; reflexivity|]. split; [exact IH1|exact IH0].
Qed.

(** An MSS option of zero is taken as it is. *)
Theorem parseopt_mss_zero pcb :
  tcp_parseopt (Hdr 1 2 0 0 96 TCP_SYN 1024 0 0) [2; 4; 0; 0] pcb = Ret (set_mss 0 pcb).
Proof. reflexivity. Qed.

(** ** Acknowledgements *)

(** What stays of a queue, and the numbers a queue takes. *)
Fixpoint drop_acked (ackno : Z) (q : list tcp_seg) : list tcp_seg :=
  match q with
  | g :: r => if acked_by ackno g then drop_acked ackno r else q
  | [] => []
  end.

Definition tot (q : list tcp_seg) : Z := foldr Z.add 0 (map TCP_TCPLEN q).

Lemma tot_app a b : tot (a ++ b) = tot a + tot b.
Proof. unfold tot. rewrite map_app, foldr_app. induction a; cbn; lia. Qed.

Lemma contiguous_tot s q e : 0 <= s < 4294967296 -> contiguous s q e -> e = u32 (s + tot q).
Proof.
  revert s. induction q as [|g q IH]; intros s Hs; cbn [contiguous].
  - intros <-. unfold tot. cbn. rewrite Z.add_0_r, u32_small by lia. reflexivity.
  - intros [_ H]. rewrite (IH _ (u32_range _) H), u32_add. reflexivity.
Qed.

Lemma seg_tcplen B g : seg_ok B g -> 0 < TCP_TCPLEN g <= B + 1 /\ 1 <= seg_clen g.
Proof.
  intros (p & Ep & Hb & _ & _ & Hl & Ht). split.
  - split; [exact Ht|]. unfold TCP_TCPLEN. destruct (_ || _); lia.
  - unfold seg_clen, pbuf_clen. rewrite Ep. destruct (bufs p); [congruence|cbn [length]; lia].
Qed.

Lemma tot_bound q : Forall (seg_ok TCP_MSS) q -> 0 <= tot q <= 129 * queue_clen q.
Proof.
  induction 1 as [|g q Hg _ IH]; [cbn; lia|]. rewrite queue_clen_cons.
  destruct (seg_tcplen _ _ Hg) as [H1 H2]. change (tot (g :: q)) with (TCP_TCPLEN g + tot q).
  unfold TCP_MSS in H1. lia.
Qed.

(** Which segments of a queue that starts at distance [k] an ackno at distance
    [a] acknowledges. *)
Lemma drop_acked_spec r ackno a q : forall k e,
  contiguous (u32 (r + k)) q e -> Forall (seg_ok TCP_MSS) q -> 0 <= k -> k + tot q < 500000 ->
  dist r ackno = a -> a < 500000 ->
  exists gone, q = gone ++ drop_acked ackno q /\ Forall (fun g => acked_by ackno g = true) gone /\
    (gone <> [] -> k + tot gone <= a) /\
    match drop_acked ackno q with g :: _ => a < k + tot gone + TCP_TCPLEN g | [] => True end.
Proof.
  induction q as [|g q IH]; intros k e Hc Hok Hk Hb Ea Ha; [exists []; cbn; repeat split; auto; congruence|].
  destruct Hc as [Es Hc]. apply Forall_cons in Hok as [Hg Hok].
  destruct (seg_tcplen _ _ Hg) as [[H1 _] _].
  change (tot (g :: q)) with (TCP_TCPLEN g + tot q) in Hb. pose proof (tot_bound q Hok) as Ht.
  pose proof (queue_clen_nonneg q).
  assert (Eq : acked_by ackno g = (k + TCP_TCPLEN g <=? a)).
  { unfold acked_by, TCP_SEQ_LEQ. rewrite Es, u32_add.
    assert (Ed : dist r (u32 (r + (k + TCP_TCPLEN g))) = k + TCP_TCPLEN g)
      by (unfold dist, wrapu; change (2 ^ 32) with 4294967296; divmod).
    rewrite (seq_diff r) by lia. rewrite Ed, Ea.
    destruct (Z.leb_spec (k + TCP_TCPLEN g - a) 0), (Z.leb_spec (k + TCP_TCPLEN g) a); lia. }
  cbn [drop_acked]. rewrite Eq. destruct (Z.leb_spec (k + TCP_TCPLEN g) a) as [Hle|Hgt].
  - rewrite u32_add in Hc. destruct (IH (k + TCP_TCPLEN g) e Hc Hok) as (gone & E1 & E2 & E3 & E4);
      [lia|lia|exact Ea|exact Ha|].
    exists (g :: gone). change (tot (g :: gone)) with (TCP_TCPLEN g + tot gone).
    split; [cbn; rewrite <- E1; reflexivity|].
    split; [constructor; [exact Eq|exact E2]|]. split.
    + intros _. destruct gone as [|h gone]; [cbn; lia|]. specialize (E3 ltac:(discriminate)). lia.
    + destruct (drop_acked ackno q); [exact Logic.I|lia].
  - exists []. repeat split; auto; [congruence|]. change (tot []) with 0. lia.
Qed.

Lemma ack_unacked_spec ackno q : forall ql,
  queue_clen q <= ql < 256 -> exists gone, q = gone ++ drop_acked ackno q /\
    ack_unacked ackno q ql = (drop_acked ackno q, ql - queue_clen gone).
Proof.
  induction q as [|g q IH]; intros ql Hq; [exists []; cbn; rewrite Z.sub_0_r; auto|].
  cbn [ack_unacked drop_acked]. rewrite queue_clen_cons in Hq.
  pose proof (queue_clen_nonneg q). pose proof (queue_clen_nonneg [g]) as Hg.
  rewrite queue_clen_cons in Hg. unfold queue_clen at 1 in Hg. cbn in Hg.
  destruct (acked_by ackno g); [|exists []; cbn; rewrite Z.sub_0_r; auto].
  rewrite u8_small by lia. destruct (IH (ql - seg_clen g)) as (gone & E & ->); [lia|].
  exists (g :: gone). rewrite queue_clen_cons. split; [cbn; rewrite <- E; reflexivity|].
  f_equal. lia.
Qed.

Lemma ack_unsent_spec ackno q : forall nxt ql,
  queue_clen q <= ql < 256 -> exists gone nxt', q = gone ++ drop_acked ackno q /\
    ack_unsent ackno q nxt ql = (drop_acked ackno q, nxt', ql - queue_clen gone).
Proof.
  induction q as [|g q IH]; intros nxt ql Hq; [exists [], nxt; cbn; rewrite Z.sub_0_r; auto|].
  cbn [ack_unsent drop_acked]. rewrite queue_clen_cons in Hq.
  pose proof (queue_clen_nonneg q). pose proof (queue_clen_nonneg [g]) as Hg.
  rewrite queue_clen_cons in Hg. unfold queue_clen at 1 in Hg. cbn in Hg.
  destruct (acked_by ackno g); [|exists [], nxt; cbn; rewrite Z.sub_0_r; auto].
  rewrite u8_small by lia.
  destruct (IH (match q with h :: _ => seqno (tcphdr h) | [] => nxt end) (ql - seg_clen g))
    as (gone & nxt' & E & ->); [lia|].
  exists (g :: gone), nxt'. rewrite queue_clen_cons. split; [cbn; rewrite <- E; reflexivity|].
  f_equal. lia.
Qed.

(** The sender's invariant: the queues hold what lies between [lastack] and
    [snd_lbb], the first segment being acknowledged at most in part, and no
    more was sent than queued. *)
Record sender_ok (pcb : tcp_pcb) : Prop := {
  s_queue : queue_ok pcb;
  s_ack : 0 <= lastack pcb < 4294967296;
  s_from : exists s, 0 <= s < 4294967296 /\
    contiguous s (unacked pcb ++ unsent pcb) (snd_lbb pcb) /\
    match unacked pcb ++ unsent pcb with
    | g :: _ => dist s (lastack pcb) < TCP_TCPLEN g
    | [] => lastack pcb = s
    end /\
    dist s (lastack pcb) <= dist s (snd_max pcb) <= dist s (snd_lbb pcb)
}.

(** The distance of an acknowledgement that passes the test for new data; at
    exactly half the space the test fails to tell old from new. *)
Lemma ack_guard s la ac mx :
  dist s la <= dist s mx < 100000 -> dist la ac <> 2147483648 -> 
  TCP_SEQ_LT la ac && TCP_SEQ_LEQ ac mx = true -> dist s la < dist s ac <= dist s mx.
Proof.
  unfold TCP_SEQ_LT, TCP_SEQ_LEQ, dist, wraps, wrapu. change (2 ^ 32) with 4294967296.
  change (2 ^ (32 - 1)) with 2147483648. rewrite andb_true_iff, Z.ltb_lt, Z.leb_le.
  destruct (Z.ltb_spec ((la - ac) mod 4294967296) 2147483648);
  destruct (Z.ltb_spec ((ac - mx) mod 4294967296) 2147483648); divmod.
Qed.

Lemma grow_cwnd_spec pcb : 0 < cwnd pcb -> exists c, grow_cwnd pcb = Ret (set_cwnd c pcb).
Proof.
  intros Hc. unfold grow_cwnd, inflate.
  assert (E : pcb = set_cwnd (cwnd pcb) pcb) by (destruct pcb; reflexivity).
  destruct (4 <=? state_num (state pcb)); [|exists (cwnd pcb); f_equal; exact E].
  destruct (cwnd pcb <? ssthresh pcb).
  - destruct (cwnd pcb <? _); [eauto|exists (cwnd pcb); f_equal; exact E].
  - destruct (Z.eqb_spec (cwnd pcb) 0); [lia|].
    destruct (cwnd pcb <? _); [eauto|exists (cwnd pcb); f_equal; exact E].
Qed.

(** What [new_ack] does to the fields of the send queues. *)
Lemma new_ack_run ackno pcb :
  0 < cwnd pcb -> 0 < ssthresh pcb -> queue_clen (unacked pcb ++ unsent pcb) = snd_queuelen pcb ->
  snd_queuelen pcb < 256 ->
  exists p, new_ack ackno pcb = Ret p /\
    lastack p = ackno /\ snd_buf p = u16 (snd_buf pcb + u16 (ackno - lastack pcb)) /\
    unsent p = drop_acked ackno (unsent pcb) /\ unacked p = drop_acked ackno (unacked pcb) /\
    snd_queuelen p = queue_clen (unacked p ++ unsent p) /\
    mss p = mss pcb /\ snd_lbb p = snd_lbb pcb /\ snd_max p = snd_max pcb /\ nrtx p = 0 /\ dupacks p = 0.
Proof.
  intros Hc Hs Hq Hq2. unfold new_ack.
  set (p0 := if has (flags pcb) TF_INFR
             then set_cwnd (ssthresh pcb) (set_flags (clear TF_INFR (flags pcb)) pcb) else pcb).
  assert (F0 : 0 < cwnd p0 /\ unsent p0 = unsent pcb /\ unacked p0 = unacked pcb /\
    snd_queuelen p0 = snd_queuelen pcb /\ lastack p0 = lastack pcb /\ snd_buf p0 = snd_buf pcb /\
    mss p0 = mss pcb /\ snd_lbb p0 = snd_lbb pcb /\ snd_max p0 = snd_max pcb)
    by (subst p0; destruct (has (flags pcb) TF_INFR); repeat split; auto).
  clearbody p0. destruct F0 as (F1 & F2 & F3 & F4 & F5 & F6 & F7 & F8 & F9). cbv zeta.
  match goal with |- context [grow_cwnd ?x] => destruct (grow_cwnd_spec x F1) as (c & ->) end.
  cbn [mbind outcome_bind unsent snd_nxt snd_queuelen set_cwnd set_lastack set_dupacks set_snd_buf
    set_acked set_rto set_nrtx]. rewrite F2, F4. rewrite queue_clen_app in Hq.
  pose proof (queue_clen_nonneg (unacked pcb)). pose proof (queue_clen_nonneg (unsent pcb)).
  destruct (ack_unsent_spec ackno (unsent pcb) (snd_nxt p0) (snd_queuelen pcb)) as (g1 & nxt & E1 & ->); [lia|].
  cbn [unacked snd_queuelen set_snd_queuelen set_snd_nxt set_unsent set_cwnd set_lastack set_dupacks
    set_snd_buf set_acked set_rto set_nrtx]. rewrite F3.
  pose proof (f_equal queue_clen E1) as C1. rewrite queue_clen_app in C1.
  pose proof (queue_clen_nonneg (drop_acked ackno (unsent pcb))). pose proof (queue_clen_nonneg g1).
  destruct (ack_unacked_spec ackno (unacked pcb) (snd_queuelen pcb - queue_clen g1)) as (g2 & E2 & ->); [lia|].
  pose proof (f_equal queue_clen E2) as C2. rewrite queue_clen_app in C2.
  eexists. split; [reflexivity|].
  cbn [lastack snd_buf unsent unacked snd_queuelen mss snd_lbb snd_max nrtx dupacks set_polltmr set_unacked
    set_snd_queuelen set_snd_nxt set_unsent set_cwnd set_lastack set_dupacks set_snd_buf set_acked set_rto
    set_nrtx acked]. rewrite F5, F6, F7, F8, F9, queue_clen_app.
  repeat split; lia.
Qed.

Lemma drop_acked_app ackno a b :
  (drop_acked ackno a <> [] -> drop_acked ackno b = b) ->
  drop_acked ackno (a ++ b) = drop_acked ackno a ++ drop_acked ackno b.
Proof.
  induction a as [|g a IH]; intros Hb; [reflexivity|]. cbn [app drop_acked] in *.
  destruct (acked_by ackno g); [apply IH; exact Hb|]. rewrite Hb by discriminate. reflexivity.
Qed.

Lemma drop_acked_head ackno q :
  match drop_acked ackno q with g :: _ => acked_by ackno g = false | [] => True end.
Proof. induction q as [|g q IH]; cbn; [exact Logic.I|]. destruct (acked_by ackno g) eqn:E; auto. Qed.

(** The invariant for what is left of the queues. *)
Lemma sender_ok_rest pcb p s gone a :
  queue_ok pcb -> 0 <= s < 4294967296 -> contiguous s (unacked pcb ++ unsent pcb) (snd_lbb pcb) ->
  unacked pcb ++ unsent pcb = gone ++ unacked p ++ unsent p ->
  0 <= tot gone <= a ->
  match unacked p ++ unsent p with g :: _ => a < 0 + tot gone + TCP_TCPLEN g | [] => True end ->
  0 <= lastack p < 4294967296 -> dist s (lastack p) = a ->
  a <= dist s (snd_max p) <= dist s (snd_lbb pcb) ->
  snd_queuelen p = queue_clen (unacked p ++ unsent p) -> mss p = mss pcb -> snd_lbb p = snd_lbb pcb ->
  0 <= snd_buf p < 65536 -> sender_ok p.
Proof.
  intros [_ Q2 Q3 Q4 Q5 _ Q7] Hs Hc E Hg Hh Hla Ea Hm P1 P2 P3 P4.
  pose proof (queue_clen_nonneg gone). rewrite E in Hc, Q2, Q3. rewrite queue_clen_app in Q3.
  apply Forall_app in Q2 as [_ Q2].
  pose proof (contiguous_tot s _ _ Hs Hc) as El. rewrite tot_app in El.
  pose proof (tot_bound _ Q2) as Hb. pose proof (queue_clen_nonneg (unacked p ++ unsent p)).
  apply contiguous_app in Hc as (m & C1 & C2). rewrite (contiguous_tot s _ _ Hs C1) in C2.
  assert (Hr : forall x, tot gone <= dist s x -> dist (u32 (s + tot gone)) x = dist s x - tot gone)
    by (intros x Hx; apply dist_rebase; lia).
  assert (Dl : dist s (snd_lbb pcb) <= tot gone + tot (unacked p ++ unsent p)).
  { rewrite El. unfold dist, wrapu. change (2 ^ 32) with 4294967296. divmod. }
  split; [|exact Hla|].
  - split; rewrite ?P1, ?P2, ?P3; auto; [eauto|lia].
  - exists (u32 (s + tot gone)). rewrite P3, !Hr by lia.
    split; [apply u32_range|]. split; [exact C2|]. split; [|lia].
    destruct (unacked p ++ unsent p) as [|g r]; [|lia].
    change (tot []) with 0 in Dl. assert (a = tot gone) as Ha by lia.
    rewrite <- Ha, <- Ea. symmetry. apply dist_inv. exact Hla.
Qed.

(** What is dropped from the two queues is a prefix of the whole. *)
Lemma drop_acked_queues s ackno a q1 q2 e :
  0 <= s < 4294967296 -> contiguous s (q1 ++ q2) e -> Forall (seg_ok TCP_MSS) (q1 ++ q2) ->
  tot (q1 ++ q2) < 500000 -> dist s ackno = a -> a < 500000 ->
  drop_acked ackno (q1 ++ q2) = drop_acked ackno q1 ++ drop_acked ackno q2.
Proof.
  intros Hs Hc Q2 Hb Ea Ha. apply contiguous_app in Hc as (m & C1 & C2).
  rewrite tot_app in Hb. apply Forall_app in Q2 as [K1 K2].
  pose proof (tot_bound _ K1). pose proof (tot_bound _ K2).
  pose proof (queue_clen_nonneg q1). pose proof (queue_clen_nonneg q2).
  rewrite <- (Z.add_0_r s), <- (u32_small (s + 0)) in C1 by lia.
  destruct (drop_acked_spec s ackno a q1 0 m C1 K1) as (g1 & E1 & _ & _ & L1); try lia.
  rewrite Z.add_0_r, u32_small in C1 by lia. rewrite (contiguous_tot s _ _ Hs C1) in C2.
  destruct (drop_acked_spec s ackno a q2 (tot q1) _ C2 K2) as (g2 & E2 & _ & L2 & _); try lia.
  apply drop_acked_app. intros Hne. destruct (drop_acked ackno q1) as [|h t] eqn:Ed; [congruence|].
  assert (g2 = []) as ->; [|exact (eq_sym E2)]. destruct g2 as [|h2 t2]; [reflexivity|].
  exfalso. specialize (L2 ltac:(discriminate)). rewrite E1, tot_app in L2.
  change (tot (h :: t)) with (TCP_TCPLEN h + tot t) in L2.
  change (tot (h2 :: t2)) with (TCP_TCPLEN h2 + tot t2) in L2.
  rewrite E1 in K1. rewrite E2 in K2. apply Forall_app in K1 as [_ K1]. apply Forall_app in K2 as [K2 _].
  apply Forall_cons in K1 as [_ K1]. apply Forall_cons in K2 as [K2 K3].
  pose proof (tot_bound _ K1). pose proof (tot_bound _ K3). pose proof (seg_tcplen _ _ K2).
  pose proof (queue_clen_nonneg t). pose proof (queue_clen_nonneg t2). lia.
Qed.

(** C4: an acknowledgement of new data releases exactly what it acknowledges.
    For a sender that satisfies [sender_ok], an ackno that passes the test of
    [tcp_receive] removes from the queues the segments it covers completely,
    which form a prefix, and no other; [lastack] becomes the ackno; the send
    buffer grows by the number of bytes acknowledged, so that the buffer space
    and the bytes outstanding keep their sum; and the invariant is kept.  The
    ackno must not be half the sequence space away from [lastack], see
    [ack_half_space]. *)
Theorem new_ack_releases ackno pcb :
  sender_ok pcb -> 0 <= ackno < 4294967296 -> 0 < cwnd pcb -> 0 < ssthresh pcb ->
  TCP_SEQ_LT (lastack pcb) ackno && TCP_SEQ_LEQ ackno (snd_max pcb) = true ->
  dist (lastack pcb) ackno <> 2147483648 ->
  snd_buf pcb + dist (lastack pcb) (snd_lbb pcb) < 65536 ->
  exists p gone, new_ack ackno pcb = Ret p /\ sender_ok p /\ lastack p = ackno /\
    unacked pcb ++ unsent pcb = gone ++ unacked p ++ unsent p /\
    Forall (fun g => acked_by ackno g = true) gone /\
    match unacked p ++ unsent p with g :: _ => acked_by ackno g = false | [] => True end /\
    snd_buf p + dist ackno (snd_lbb p) = snd_buf pcb + dist (lastack pcb) (snd_lbb pcb).
Proof.
  intros [Hq Hla (s & Hs & Hc & Hhead & Hmax)] Hac Hcw Hss Hg Hhalf Hsum.
  pose proof Hq as [_ Q2 Q3 Q4 Q5 Q6 Q7]. change (2 ^ 32) with 4294967296 in Q7.
  pose proof (tot_bound _ Q2) as Hb. rewrite <- Q3 in Hb. unfold TCP_SND_QUEUELEN in Q4.
  pose proof (contiguous_tot s _ _ Hs Hc) as El.
  assert (Dl : dist s (snd_lbb pcb) = tot (unacked pcb ++ unsent pcb)).
  { rewrite El, dist_add, dist_self by (rewrite ?dist_self; lia). lia. }
  destruct (ack_guard s (lastack pcb) ackno (snd_max pcb) ltac:(lia) Hhalf Hg) as [A1 A2]. set (a := dist s ackno) in *.
  pose proof (dist_range s (lastack pcb)).
  destruct (new_ack_run ackno pcb Hcw Hss (eq_sym Q3) ltac:(lia))
    as (p & Ep & P1 & P2 & P3 & P4 & P5 & P6 & P7 & P8 & _).
  assert (Hd : drop_acked ackno (unacked pcb ++ unsent pcb) = unacked p ++ unsent p).
  { rewrite P3, P4. apply (drop_acked_queues s _ a _ _ (snd_lbb pcb)); auto; lia. }
  rewrite <- (Z.add_0_r s), <- (u32_small (s + 0)) in Hc by lia.
  destruct (drop_acked_spec s ackno a _ 0 _ Hc Q2) as (gone & E & Hall & Hlo & Hhi); try lia.
  rewrite Z.add_0_r, u32_small in Hc by lia. rewrite Hd in E, Hhi.
  assert (Hgone : 0 <= tot gone <= a).
  { pose proof Q2 as Q2'. rewrite E in Q2'. apply Forall_app in Q2' as [Q2' _].
    pose proof (tot_bound _ Q2'). destruct gone; [cbn; lia|]. specialize (Hlo ltac:(discriminate)). lia. }
  exists p, gone. split; [exact Ep|]. split; [|split; [exact P1|split; [exact E|split; [exact Hall|split]]]].
  - apply (sender_ok_rest pcb p s gone a); auto; try lia.
    + rewrite P1. reflexivity.
    + rewrite P8. lia.
    + rewrite P2. apply u16_range.
  - rewrite <- Hd. apply drop_acked_head.
  - rewrite P2, P7. rewrite (dist_u16 s) by lia.
    assert (D1 : dist ackno (snd_lbb pcb) = dist s (snd_lbb pcb) - a).
    { rewrite <- (dist_inv s ackno Hac). apply dist_rebase. fold a. lia. }
    assert (D2 : dist (lastack pcb) (snd_lbb pcb) = dist s (snd_lbb pcb) - dist s (lastack pcb)).
    { rewrite <- (dist_inv s (lastack pcb) Hla) at 1. apply dist_rebase. lia. }
    rewrite D1, D2 in *. fold a. rewrite u16_small by lia. lia.
Qed.

(** A sender with a segment of 100 bytes on the way and 50 bytes queued. *)
Definition sending : tcp_pcb :=
  set_unacked [piece 0 100] (set_unsent [piece 100 50] (set_snd_lbb 150 (set_snd_max 100
    (set_snd_queuelen 2 (set_mss 128 (set_snd_buf 106 (set_cwnd 128 (set_ssthresh 1000 pcb_zero)))))))).

Lemma sending_ok : sender_ok sending.
Proof.
  assert (Hs : forall s, 0 <= s < 4294967296 -> forall n, 0 < n <= 128 -> seg_ok TCP_MSS (piece s n)).
  { intros s Hs n Hn. unfold seg_ok, TCP_MSS. cbn [piece seg_p seg_len].
    eexists. split; [reflexivity|]. split; [discriminate|]. unfold pbuf_data. cbn [bufs tot_len concat].
    rewrite app_nil_r, length_run. change (TCP_TCPLEN (piece s n)) with (n + 0). lia. }
  split.
  - split; cbn [unacked unsent snd_lbb snd_queuelen mss snd_buf sending set_unacked set_unsent set_snd_lbb
      set_snd_max set_snd_queuelen set_mss set_snd_buf set_cwnd set_ssthresh pcb_zero];
      unfold TCP_SND_QUEUELEN, TCP_MSS; try lia.
    + exists 0. vm_compute. repeat split.
    + repeat constructor; apply Hs; lia.
    + vm_compute. reflexivity.
  - cbn. lia.
  - exists 0. split; [lia|]. split; [vm_compute; repeat split|]. split; vm_compute; intuition discriminate.
Qed.

Lemma new_ack_releases_witness :
  sender_ok sending /\
  exists p gone, new_ack 100 sending = Ret p /\ sender_ok p /\ lastack p = 100 /\
    [piece 0 100; piece 100 50] = gone ++ unacked p ++ unsent p /\ snd_buf p = 206.
Proof.
  split; [apply sending_ok|].
  destruct (new_ack_releases 100 sending sending_ok) as (p & gone & E & H1 & H2 & H3 & _ & _ & _);
    try (vm_compute; intuition discriminate).
  exists p, gone. split; [exact E|]. split; [exact H1|]. split; [exact H2|]. split; [exact H3|].
  vm_compute in E. injection E as <-. reflexivity.
Defined.

(** With nothing outstanding, an ackno half the space away passes the test for
    new data and becomes [lastack]. *)
Theorem ack_half_space :
  match ack_input (Env [] [] 0 0) (Seg None 0 (Hdr 1 2 0 2147483648 80 TCP_ACK 0 0 0))
      (set_cwnd 1 pcb_zero) with
  | Ret (p, _) => Some (snd_max p, lastack p)
  | _ => None
  end = Some (0, 2147483648).
Proof. vm_compute. reflexivity. Qed.
