(* ===== verification/TcpNet.v ===== *)
(** The state TCP keeps across its control blocks and the monad its functions
    run in: the blocks by address, the three lists of [tcp.c], the environment
    of [TcpTypes] and the callbacks of the application. *)

From S2P Require Import Prelude TcpTypes TcpOutput.
From stdpp Require Import base gmap list.
From Stdlib Require Import ZArith Lia.

Local Open Scope Z_scope.

(** Control blocks live in [pcbs] by address.  A freed block is no longer there
    and addresses are not used twice, so that a use of a freed block is
    [Undef].  The lists [tcp_active_pcbs], [tcp_tw_pcbs] and [tcp_listen_pcbs],
    linked through the [next] fields, are lists of addresses. *)
Record net := Net {
  pcbs : gmap Z tcp_pcb;
  tcp_active_pcbs : list Z;
  tcp_tw_pcbs : list Z;
  tcp_listen_pcbs : list Z;
  nenv : env;
  tcp_timer : Z;
  last_port : Z;
  next_pcb : Z
}.

Definition set_pcbs (v : gmap Z tcp_pcb) (n : net) : net :=
  Net v (tcp_active_pcbs n) (tcp_tw_pcbs n) (tcp_listen_pcbs n) (nenv n) (tcp_timer n) (last_port n) (next_pcb n).
Definition set_nenv (v : env) (n : net) : net :=
  Net (pcbs n) (tcp_active_pcbs n) (tcp_tw_pcbs n) (tcp_listen_pcbs n) v (tcp_timer n) (last_port n) (next_pcb n).
Definition set_timer (v : Z) (n : net) : net :=
  Net (pcbs n) (tcp_active_pcbs n) (tcp_tw_pcbs n) (tcp_listen_pcbs n) (nenv n) v (last_port n) (next_pcb n).
Definition set_port (v : Z) (n : net) : net :=
  Net (pcbs n) (tcp_active_pcbs n) (tcp_tw_pcbs n) (tcp_listen_pcbs n) (nenv n) (tcp_timer n) v (next_pcb n).
Definition set_next (v : Z) (n : net) : net :=
  Net (pcbs n) (tcp_active_pcbs n) (tcp_tw_pcbs n) (tcp_listen_pcbs n) (nenv n) (tcp_timer n) (last_port n) v.

(** The three lists by name. *)
Inductive which := Active | TimeWait | Listening.

#[global] Instance which_eq_dec : EqDecision which.
Proof. solve_decision. Defined.

Definition pcblist (w : which) (n : net) : list Z :=
  match w with
  | Active => tcp_active_pcbs n
  | TimeWait => tcp_tw_pcbs n
  | Listening => tcp_listen_pcbs n
  end.

Definition set_list (w : which) (v : list Z) (n : net) : net :=
  match w with
  | Active => Net (pcbs n) v (tcp_tw_pcbs n) (tcp_listen_pcbs n) (nenv n) (tcp_timer n) (last_port n) (next_pcb n)
  | TimeWait => Net (pcbs n) (tcp_active_pcbs n) v (tcp_listen_pcbs n) (nenv n) (tcp_timer n) (last_port n) (next_pcb n)
  | Listening => Net (pcbs n) (tcp_active_pcbs n) (tcp_tw_pcbs n) v (nenv n) (tcp_timer n) (last_port n) (next_pcb n)
  end.

(** ** The monad *)

Definition M (A : Type) : Type := net -> outcome (A * net).

#[global] Instance M_ret : MRet M := fun A a n => Ret (a, n).
#[global] Instance M_bind : MBind M := fun A B f m n =>
  match m n with Ret (a, n) => f a n | Blocked => Blocked | Undef => Undef end.

Definition undef {A} : M A := fun _ => Undef.
Definition get : M net := fun n => Ret (n, n).
Definition modify (f : net -> net) : M unit := fun n => Ret (tt, f n).

(** A load through a pointer to a control block, and a store. *)
Definition pcb (id : Z) : M tcp_pcb := fun n =>
  match pcbs n !! id with Some p => Ret (p, n) | None => Undef end.
Definition update (id : Z) (f : tcp_pcb -> tcp_pcb) : M unit := fun n =>
  match pcbs n !! id with
  | Some p => Ret (tt, set_pcbs (<[id := f p]> (pcbs n)) n)
  | None => Undef
  end.

(** A function on one control block and the environment. *)
Definition on_pcb {A} (id : Z) (f : env -> tcp_pcb -> outcome (A * tcp_pcb * env)) : M A := fun n =>
  match pcbs n !! id with
  | Some p =>
      match f (nenv n) p with
      | Ret (a, p, e) => Ret (a, set_nenv e (set_pcbs (<[id := p]> (pcbs n)) n))
      | Blocked => Blocked
      | Undef => Undef
      end
  | None => Undef
  end.
Definition quiet (f : env -> tcp_pcb -> outcome (tcp_pcb * env)) (e : env) (p : tcp_pcb)
  : outcome (unit * tcp_pcb * env) :=
  r ← f e p; let '(p, e) := r in Ret (tt, p, e).

Definition allocate : M bool := fun n =>
  let '(ok, e) := alloc (nenv n) in Ret (ok, set_nenv e n).

(** [memp_free] of a control block. *)
Definition free_pcb (id : Z) : M unit := fun n =>
  match pcbs n !! id with
  | Some _ => Ret (tt, set_pcbs (delete id (pcbs n)) n)
  | None => Undef
  end.

(** ** Lists *)

(** [TCP_REG] *)
Definition TCP_REG (w : which) (id : Z) : M unit :=
  modify (fun n => set_list w (id :: pcblist w n) n).

(** A list without an element, and a list cut behind it. *)
Fixpoint unlink (id : Z) (l : list Z) : list Z :=
  match l with
  | [] => []
  | x :: r => if x =? id then r else x :: unlink id r
  end.
Fixpoint cut_after (id : Z) (l : list Z) : list Z :=
  match l with
  | [] => []
  | x :: r => if x =? id then [x] else x :: cut_after id r
  end.

(** [TCP_RMV] ends with [npcb->next = NULL]: a block that is on another list
    than the one it is removed from cuts that list. *)
Definition TCP_RMV (w : which) (id : Z) : M unit :=
  modify (fun n =>
    if decide (id ∈ pcblist w n) then set_list w (unlink id (pcblist w n)) n
    else fold_right (fun w' n => set_list w' (cut_after id (pcblist w' n)) n) n
           [Active; TimeWait; Listening]).

(** The block behind [id] on the list that holds it. *)
Fixpoint after (id : Z) (l : list Z) : option (option Z) :=
  match l with
  | [] => None
  | x :: r => if x =? id then Some (head r) else after id r
  end.
Definition next_of (id : Z) (n : net) : option Z :=
  default None (union (after id (tcp_active_pcbs n))
    (union (after id (tcp_tw_pcbs n)) (after id (tcp_listen_pcbs n)))).

(** The first block of a list that satisfies a test; every block up to it is
    read. *)
Fixpoint search (test : tcp_pcb -> bool) (l : list Z) : M (option Z) :=
  match l with
  | [] => mret None
  | id :: r => p ← pcb id; if test p then mret (Some id) else search test r
  end.

(** ** The application *)

(** The callbacks, by the number of the function, its argument and what the
    call passes.  They may call any function of TCP. *)
Class Application := {
  call_accept : Z -> Z -> Z -> M err_t;
  call_connected : Z -> Z -> Z -> M err_t;
  call_sent : Z -> Z -> Z -> Z -> M err_t;
  call_recv : Z -> Z -> Z -> option pbufs -> M err_t;
  call_poll : Z -> Z -> Z -> M err_t;
  call_errf : Z -> Z -> err_t -> M unit
}.
