(* ===== verification/Tcp.v ===== *)
(** The functions of [SW_stub/lwtcp/tcp.c]: creation, binding, listening,
    connecting, closing and aborting of connections, the timers, and the
    reclaiming of memory. *)

From S2P Require Import Prelude TcpTypes TcpOutput TcpNet.
From stdpp Require Import base gmap list.
From Stdlib Require Import ZArith Lia.

Local Open Scope Z_scope.

(** [tcp_init]; the reclaim functions it registers are the ones [tcp_rst] and
    [tcp_new] call. *)
Definition tcp_init (n : net) : net :=
  let e := nenv n in
  Net (pcbs n) [] [] [] (Env (allocs e) (trace e) 0 (iss e)) 0 (last_port n) (next_pcb n).

(** The memory before [tcp_init]: static variables have their initial values. *)
Definition boot (allocs : list bool) : net :=
  Net ∅ [] [] [] (Env allocs [] 0 6510) 0 4096 1.

(** ** Control blocks *)

(** [tcp_pcb_purge] *)
Definition tcp_pcb_purge (p : tcp_pcb) : tcp_pcb :=
  match state p with
  | CLOSED | TIME_WAIT | LISTEN => p
  | _ => set_unacked [] (set_unsent [] (set_ooseq [] p))
  end.

(** [tcp_next_iss] *)
Definition tcp_next_iss : M Z := fun n =>
  let e := nenv n in
  let i := u32 (iss e + tcp_ticks e) in
  Ret (i, set_nenv (Env (allocs e) (trace e) (tcp_ticks e) i) n).

(** The setters of the callbacks. *)
Definition tcp_arg (id arg : Z) : M unit := update id (set_callback_arg arg).
Definition tcp_recv (id : Z) (f : option Z) : M unit := update id (set_recv f).
Definition tcp_sent (id : Z) (f : option Z) : M unit := update id (set_sent f).
Definition tcp_err (id : Z) (f : option Z) : M unit := update id (set_errf f).
Definition tcp_poll (id : Z) (f : option Z) (interval : Z) : M unit :=
  update id (fun p => set_pollinterval interval (set_poll f p)).
Definition tcp_accept (id : Z) (f : option Z) : M unit := update id (set_accept f).

(** The walk of the reclaim functions: the block that was idle longest, if any
    was idle at all. *)
Fixpoint oldest (ticks : Z) (l : list Z) (inactivity : Z) (inactive : option Z) : M (option Z) :=
  match l with
  | [] => mret inactive
  | id :: r =>
      p ← pcb id;
      let idle := u32 (ticks - tmr p) in
      if inactivity <? idle then oldest ticks r idle (Some id) else oldest ticks r inactivity inactive
  end.

Definition find_inactive : M (option Z) :=
  n ← get; oldest (tcp_ticks (nenv n)) (tcp_active_pcbs n) 0 None.

Section Tcp.
Context `{Network} `{Application}.

(** [tcp_pcb_remove] *)
Definition tcp_pcb_remove (w : which) (id : Z) : M unit :=
  TCP_RMV w id;;
  update id tcp_pcb_purge;;
  p ← pcb id;
  (if decide (state p <> TIME_WAIT /\ state p <> LISTEN) then
     if has (flags p) TF_ACK_DELAY then
       update id (fun p => set_flags (raise TF_ACK_NOW (flags p)) p);;
       on_pcb id tcp_output;; mret tt
     else mret tt
   else mret tt);;
  update id (set_state CLOSED).

(** [tcp_abort], given the function that sends the reset. *)
Definition abort_with (rst : Z -> Z -> Z -> Z -> Z -> Z -> M unit) (id : Z) : M unit :=
  p ← pcb id;
  match state p with
  | TIME_WAIT => tcp_pcb_remove TimeWait id;; free_pcb id
  | LISTEN => tcp_pcb_remove Listening id;; free_pcb id
  | _ =>
      tcp_pcb_remove Active id;;
      free_pcb id;;
      (match errf p with Some f => call_errf f (callback_arg p) ERR_ABRT | None => mret tt end);;
      rst (snd_nxt p) (rcv_nxt p) (local_ip p) (remote_ip p) (local_port p) (remote_port p)
  end.

(** [tcp_mem_reclaim], which [mem_reclaim] calls; it always returns 0. *)
Definition mem_reclaim_with (abort : Z -> M unit) : M unit :=
  o ← find_inactive;
  match o with Some id => abort id | None => mret tt end.

(** [tcp_rst].  When the allocation fails a connection is aborted, which sends
    a reset of its own and may abort another connection. *)
Fixpoint tcp_rst_fuel (fuel : nat) (seqno ackno lip rip lport rport : Z) : M unit :=
  ok ← allocate;
  ok ← (if ok : bool then mret true
        else
          match fuel with
          | O => undef
          | S k => mem_reclaim_with (abort_with (tcp_rst_fuel k));; allocate
          end);
  if ok : bool then
    modify (fun n => set_nenv (emit (rst_packet seqno ackno lip rip lport rport) (nenv n)) n)
  else mret tt.

(** Each reclaim takes a block off the active list. *)
Definition tcp_rst (seqno ackno lip rip lport rport : Z) : M unit :=
  n ← get;
  tcp_rst_fuel (S (length (tcp_active_pcbs n))) seqno ackno lip rip lport rport.

Definition tcp_abort (id : Z) : M unit := abort_with tcp_rst id.

Definition tcp_mem_reclaim : M Z := mem_reclaim_with tcp_abort;; mret 0.

(** The pools that TCP reclaims memory for. *)
Inductive reclaim_type := R_TCP_SEG | R_PBUF | R_TCP_PCB.

Definition reclaim_ooseq : M bool :=
  n ← get;
  o ← search (fun p => match ooseq p with [] => false | _ => true end) (tcp_active_pcbs n);
  match o with
  | Some id => update id (set_ooseq []);; mret true
  | None => mret false
  end.

Definition tcp_memp_reclaim (t : reclaim_type) : M bool :=
  match t with
  | R_TCP_SEG | R_PBUF => reclaim_ooseq
  | R_TCP_PCB =>
      n ← get;
      match tcp_tw_pcbs n with
      | id :: r => modify (set_list TimeWait r);; free_pcb id;; mret true
      | [] =>
          o ← find_inactive;
          match o with
          | Some id => tcp_abort id;; mret true
          | None => mret false
          end
      end
  end.

(** What [tcp_new] writes into a zeroed block. *)
Definition new_pcb (iss ticks : Z) : tcp_pcb :=
  set_tmr (u16 ticks) (set_snd_lbb iss (set_lastack iss (set_snd_max iss (set_snd_nxt iss
    (set_snd_wl2 iss (set_cwnd 1 (set_sv 6 (set_rto 6 (set_mss TCP_MSS (set_rcv_wnd TCP_WND
      (set_snd_buf TCP_SND_BUF pcb_zero))))))))))).

Definition add_pcb (p : tcp_pcb) : M Z := fun n =>
  let id := next_pcb n in
  Ret (id, set_next (id + 1) (set_pcbs (<[id := p]> (pcbs n)) n)).

(** [tcp_new]; the result is [None] when there is no memory even after
    [tcp_memp_reclaim]. *)
Definition tcp_new : M (option Z) :=
  ok ← allocate;
  ok ← (if ok : bool then mret true else tcp_memp_reclaim R_TCP_PCB;; allocate);
  if ok : bool then
    i ← tcp_next_iss;
    n ← get;
    id ← add_pcb (new_pcb i (tcp_ticks (nenv n)));
    mret (Some id)
  else mret None.

(** [tcp_close] *)
Definition tcp_close (id : Z) : M err_t :=
  p ← pcb id;
  let fin (s : tcp_state) : M err_t :=
    err ← on_pcb id (fun e p => tcp_send_ctrl e p TCP_FIN);
    if decide (err = ERR_OK) then update id (set_state s);; on_pcb id tcp_output
    else mret err in
  match state p with
  | LISTEN => tcp_pcb_remove Listening id;; free_pcb id;; mret ERR_OK
  | SYN_SENT => tcp_pcb_remove Active id;; free_pcb id;; mret ERR_OK
  | SYN_RCVD | ESTABLISHED => fin FIN_WAIT_1
  | CLOSE_WAIT => fin LAST_ACK
  | _ => mret ERR_OK
  end.

(** [tcp_bind]; the address 0 is [IP_ADDR_ANY]. *)
Definition in_use (ip port : Z) (p : tcp_pcb) : bool :=
  (local_port p =? port) && ((local_ip p =? 0) || (ip =? 0) || (local_ip p =? ip)).

Definition tcp_bind (id ip port : Z) : M err_t :=
  n ← get;
  o ← search (in_use ip port) (tcp_listen_pcbs n);
  match o with
  | Some _ => mret ERR_USE
  | None =>
      o ← search (in_use ip port) (tcp_active_pcbs n);
      match o with
      | Some _ => mret ERR_USE
      | None =>
          update id (fun p => set_local_port port (if ip =? 0 then p else set_local_ip ip p));;
          mret ERR_OK
      end
  end.

(** [tcp_listen]: the block is copied to a smaller one, which has no more than
    these fields. *)
Definition listen_pcb (p : tcp_pcb) : tcp_pcb :=
  set_local_port (local_port p) (set_local_ip (local_ip p) (set_accept (accept p)
    (set_callback_arg (callback_arg p) (set_state (state p) pcb_zero)))).

Definition tcp_listen (id : Z) : M (option Z) :=
  update id (set_state LISTEN);;
  ok ← allocate;
  if ok : bool then
    p ← pcb id;
    id' ← add_pcb (listen_pcb p);
    free_pcb id;;
    TCP_REG Listening id';;
    mret (Some id')
  else mret None.

(** [tcp_recved] *)
Definition tcp_recved (id len : Z) : M unit :=
  on_pcb id (quiet (fun e p =>
    let p := set_rcv_wnd (u16 (rcv_wnd p + len)) p in
    let p := if TCP_WND <? rcv_wnd p then set_rcv_wnd TCP_WND p else p in
    if negb (has (flags p) TF_ACK_DELAY) || negb (has (flags p) TF_ACK_NOW)
    then tcp_ack e p else Ret (p, e))).

(** [tcp_new_port]: the three searches start again with every candidate. *)
Definition uses_port (port : Z) (p : tcp_pcb) : bool := local_port p =? port.

Fixpoint new_port (fuel : nat) (port : Z) : M Z :=
  match fuel with
  | O => undef
  | S k =>
      let port := u16 (port + 1) in
      let port := if 32767 <? port then 4096 else port in
      n ← get;
      a ← search (uses_port port) (tcp_active_pcbs n);
      match a with
      | Some _ => new_port k port
      | None =>
          t ← search (uses_port port) (tcp_tw_pcbs n);
          match t with
          | Some _ => new_port k port
          | None =>
              l ← search (uses_port port) (tcp_listen_pcbs n);
              match l with
              | Some _ => new_port k port
              | None => mret port
              end
          end
      end
  end.

(** The candidates 4096 to 32767. *)
Definition port_fuel : nat := Z.to_nat 28672.

Definition tcp_new_port : M Z :=
  n ← get;
  port ← new_port port_fuel (last_port n);
  modify (set_port port);;
  mret port.

(** [tcp_connect] *)
Definition mss_option (m : Z) : list Z := [2; 4; m / 256; Z.land m 255].

Definition tcp_connect (id : Z) (ipaddr : option Z) (port : Z) (connected : option Z) : M err_t :=
  match ipaddr with
  | None => mret ERR_VAL
  | Some ip =>
      update id (fun p => set_remote_port port (set_remote_ip ip p));;
      p ← pcb id;
      (if local_port p =? 0 then
         lp ← tcp_new_port; update id (set_local_port lp)
       else mret tt);;
      i ← tcp_next_iss;
      update id (fun p =>
        set_connected connected (set_state SYN_SENT (set_ssthresh (u16 (TCP_MSS * 10)) (set_cwnd 1
          (set_mss TCP_MSS (set_snd_wnd TCP_WND (set_rcv_wnd TCP_WND (set_snd_lbb (u32 (i - 1))
            (set_lastack (u32 (i - 1)) (set_snd_nxt i (set_rcv_nxt 0 p)))))))))));;
      TCP_REG Active id;;
      ret ← on_pcb id (fun e p => tcp_enqueue e p None 0 TCP_SYN false (Some (mss_option (mss p))));
      (if decide (ret = ERR_OK) then on_pcb id tcp_output;; mret tt else mret tt);;
      mret ret
  end.

(** ** Timers *)

Definition tcp_backoff : list Z := [1; 2; 4; 8; 16; 32; 64; 64; 64; 64; 64; 64; 64].

(** The new time-out: a shift of an [int32_t] by 32 or more is undefined. *)
Definition backed_off (p : tcp_pcb) : outcome Z :=
  b ← load (tcp_backoff !! Z.to_nat (nrtx p));
  if 32 <=? b then Undef
  else Ret (u16 (Z.shiftl (Z.shiftr (sa p) 3 + sv p) b)).

(** A retransmission time-out. *)
Definition retransmit (e : env) (p : tcp_pcb) : outcome (tcp_pcb * env) :=
  match unacked p with
  | [] => Ret (p, e)
  | seg :: rest =>
      p ← (if decide (state p = SYN_SENT) then Ret p
           else r ← backed_off p; Ret (set_rto r p));
      let p := match rest with
               | [] => p
               | g :: _ => set_snd_nxt (seqno (tcphdr g)) (set_unsent (rest ++ unsent p) p)
               end in
      let '(seg, p, e) := tcp_rexmit_seg e p seg in
      let p := set_unacked [seg] p in
      let eff_wnd := if cwnd p <? snd_wnd p then cwnd p else snd_wnd p in
      let p := set_ssthresh (u16 (Z.shiftr eff_wnd 1)) p in
      let p := if ssthresh p <? mss p then set_ssthresh (u16 (mss p * 2)) p else p in
      Ret (set_cwnd (mss p) p, e)
  end.

(** One active block in [tcp_slowtmr], up to the decision to remove it. *)
Definition slow_pcb (e : env) (p : tcp_pcb) : outcome (bool * tcp_pcb * env) :=
  let ticks := tcp_ticks e in
  let dead := (bool_decide (state p = SYN_SENT) && (nrtx p =? TCP_SYNMAXRTX)) || (nrtx p =? TCP_MAXRTX) in
  r ← (if dead then Ret (p, e)
       else
         let p := set_rtime (u8 (rtime p + 1)) p in
         if match unacked p with [] => false | _ => rto p <=? rtime p end
         then retransmit e p else Ret (p, e));
  let '(p, e) := r in
  let dead := dead || (bool_decide (state p = FIN_WAIT_2) &&
    (TCP_FIN_WAIT_TIMEOUT / TCP_SLOW_INTERVAL <? u32 (ticks - tmr p))) in
  let p := match ooseq p with
           | [] => p
           | _ => if rto p * TCP_OOSEQ_TIMEOUT <=? u32 (ticks - tmr p) then set_ooseq [] p else p
           end in
  let dead := dead || (bool_decide (state p = SYN_RCVD) &&
    (TCP_SYN_RCVD_TIMEOUT / TCP_SLOW_INTERVAL <? u32 (ticks - tmr p))) in
  Ret (dead, p, e).

(** The poll function of a block that stays. *)
Definition poll_pcb (id : Z) : M unit :=
  update id (fun p => set_polltmr (u8 (polltmr p + 1)) p);;
  p ← pcb id;
  match poll p with
  | Some f =>
      if pollinterval p <=? polltmr p then
        update id (set_polltmr 0);;
        call_poll f (callback_arg p) id;;
        on_pcb id tcp_output;; mret tt
      else mret tt
  | None => mret tt
  end.

(** The walk over the active list; [prev] is only read to unlink a block. *)
Fixpoint slow_active (fuel : nat) (cur : option Z) : M unit :=
  match cur with
  | None => mret tt
  | Some id =>
      match fuel with
      | O => undef
      | S k =>
          dead ← on_pcb id slow_pcb;
          if dead : bool then
            update id tcp_pcb_purge;;
            n ← get;
            let nxt := next_of id n in
            modify (fun n => set_list Active (unlink id (tcp_active_pcbs n)) n);;
            p ← pcb id;
            (match errf p with Some f => call_errf f (callback_arg p) ERR_ABRT | None => mret tt end);;
            free_pcb id;;
            slow_active k nxt
          else
            poll_pcb id;;
            n ← get;
            slow_active k (next_of id n)
      end
  end.

(** The walk over the TIME-WAIT list. *)
Fixpoint slow_tw (l : list Z) : M unit :=
  match l with
  | [] => mret tt
  | id :: r =>
      p ← pcb id;
      n ← get;
      (if 2 * TCP_MSL / TCP_SLOW_INTERVAL <? u32 (tcp_ticks (nenv n) - tmr p) then
         update id tcp_pcb_purge;;
         modify (fun n => set_list TimeWait (unlink id (tcp_tw_pcbs n)) n);;
         free_pcb id
       else mret tt);;
      slow_tw r
  end.

Definition tick (n : net) : net :=
  let e := nenv n in set_nenv (Env (allocs e) (trace e) (u32 (tcp_ticks e + 1)) (iss e)) n.

Definition tcp_slowtmr : M unit :=
  modify tick;;
  n ← get;
  slow_active (S (length (tcp_active_pcbs n))) (head (tcp_active_pcbs n));;
  n ← get;
  slow_tw (tcp_tw_pcbs n).

(** [tcp_fasttmr] *)
Definition fast_pcb (e : env) (p : tcp_pcb) : outcome (tcp_pcb * env) :=
  if has (flags p) TF_ACK_DELAY then
    r ← tcp_ack_now e p;
    let '(p, e) := r in
    Ret (set_flags (clear (Z.lor TF_ACK_DELAY TF_ACK_NOW) (flags p)) p, e)
  else Ret (p, e).

Fixpoint fast_all (l : list Z) : M unit :=
  match l with
  | [] => mret tt
  | id :: r => on_pcb id (quiet fast_pcb);; fast_all r
  end.

Definition tcp_fasttmr : M unit := n ← get; fast_all (tcp_active_pcbs n).

(** [tcp_tmr] *)
Definition tcp_tmr : M unit :=
  modify (fun n => let t := u8 (tcp_timer n + 1) in set_timer (if t =? 10 then 0 else t) n);;
  n ← get;
  (if truthy (Z.land (tcp_timer n) 1) then tcp_fasttmr else mret tt);;
  n ← get;
  if (tcp_timer n =? 0) || (tcp_timer n =? 5) then tcp_slowtmr else mret tt.

End Tcp.
