(* ===== verification/TcpProcess.v ===== *)
(** The state machine and the demultiplexing of [SW_stub/lwtcp/tcp_input.c]:
    [tcp_process] and [tcp_input], on the bytes of an IP packet. *)

From S2P Require Import Prelude Inet TcpTypes TcpOutput TcpInput TcpNet Tcp.
From stdpp Require Import base gmap list.
From Stdlib Require Import ZArith Lia.

Local Open Scope Z_scope.

(** ** Packets as bytes *)

(** Reading a field of two or four bytes in network order, and an address as
    the little-endian target holds it. *)
Definition get8 (b : list Z) (i : nat) : outcome Z := load (b !! i).
Definition get16 (b : list Z) (i : nat) : outcome Z :=
  x ← get8 b i; y ← get8 b (S i); Ret (x * 256 + y).
Definition get32 (b : list Z) (i : nat) : outcome Z :=
  x ← get16 b i; y ← get16 b (S (S i)); Ret (x * 65536 + y).
Definition get_addr (b : list Z) (i : nat) : outcome Z :=
  x ← get32 b i; Ret (htonl x).

(** The TCP header at the start of [b], converted to host order; the checksum
    field is kept as it is stored. *)
Definition get_hdr (b : list Z) : outcome tcp_hdr :=
  sp ← get16 b 0; dp ← get16 b 2; sq ← get32 b 4; ak ← get32 b 8;
  o ← get8 b 12; f ← get8 b 13; w ← get16 b 14;
  c ← get16 b 16; u ← get16 b 18;
  Ret (Hdr sp dp sq ak o f w (htons c) u).

Definition ip_addr_isbroadcast (addr mask : Z) : bool :=
  (Z.land addr (u32 (Z.lnot mask)) =? Z.land 4294967295 (u32 (Z.lnot mask))) ||
  (addr =? 4294967295) || (addr =? 0).

Definition ip_addr_ismulticast (addr : Z) : bool :=
  Z.land addr (htonl 4026531840) =? htonl 3758096384.

Definition lift {A} (x : outcome A) : M A := fun n => a ← x; Ret (a, n).

Lemma lift_bind {A B} (a : A) (f : A -> M B) n : (lift (Ret a) ≫= f) n = f a n.
Proof. reflexivity. Qed.

Section Process.
Context `{Network} `{Application}.

(** ** The state machine *)

(** Running [tcp_receive] on a block and the incoming segment. *)
Definition receive (id : Z) (inseg : tcp_seg) : M tcp_seg := on_pcb id (fun e p => tcp_receive e inseg p).
Definition ack_now (id : Z) : M unit := on_pcb id (quiet tcp_ack_now).

(** A reset is acceptable when it is for the SYN that was sent or lies inside
    the window. *)
Definition rst_acceptable (h : tcp_hdr) (p : tcp_pcb) : bool :=
  match state p with
  | LISTEN => false
  | SYN_SENT => ackno h =? snd_nxt p
  | _ => TCP_SEQ_GEQ (seqno h) (rcv_nxt p) && TCP_SEQ_LEQ (seqno h) (u32 (rcv_nxt p + rcv_wnd p))
  end.

(** From an active state to TIME-WAIT. *)
Definition to_time_wait (id : Z) : M unit :=
  ack_now id;;
  update id tcp_pcb_purge;;
  TCP_RMV Active id;;
  update id (set_state TIME_WAIT);;
  TCP_REG TimeWait id.

(** The new block for a SYN in LISTEN. *)
Definition syn_pcb (h : tcp_hdr) (src dest : Z) (l p : tcp_pcb) : tcp_pcb :=
  set_callback_arg (callback_arg l) (set_accept (accept l) (set_snd_wl1 (seqno h)
    (set_ssthresh (u16 (wnd h)) (set_snd_wnd (wnd h) (set_rcv_nxt (u32 (seqno h + 1))
      (set_state SYN_RCVD (set_remote_port (TcpTypes.src h) (set_remote_ip src
        (set_local_port (local_port l) (set_local_ip dest p)))))))))).

Definition process_listen (id : Z) (h : tcp_hdr) (inseg : tcp_seg) (opts : list Z) (src dest : outcome Z) : M err_t :=
  if has (h_flags h) TCP_ACK then
    dest ← lift dest; src ← lift src;
    tcp_rst (u32 (ackno h + 1)) (u32 (seqno h + TCP_TCPLEN inseg)) dest src (TcpTypes.dest h) (TcpTypes.src h);;
    mret ERR_OK
  else if has (h_flags h) TCP_SYN then
    o ← tcp_new;
    match o with
    | None => mret ERR_OK
    | Some nid =>
        dest ← lift dest; src ← lift src;
        l ← pcb id;
        update nid (syn_pcb h src dest l);;
        TCP_REG Active nid;;
        on_pcb nid (fun e p => p ← tcp_parseopt h opts p; Ret (tt, p, e));;
        on_pcb nid (fun e p =>
          tcp_enqueue e p None 0 (Z.lor TCP_SYN TCP_ACK) false (Some (mss_option (mss p))));;
        on_pcb nid tcp_output
    end
  else mret ERR_OK.

Definition process_syn_sent (id : Z) (h : tcp_hdr) (opts : list Z) : M err_t :=
  p ← pcb id;
  if has (h_flags h) TCP_ACK && has (h_flags h) TCP_SYN then
    match unacked p with
    | [] => undef
    | rseg :: rest =>
        if ackno h =? u32 (seqno (tcphdr rseg) + 1) then
          update id (fun p =>
            set_unacked rest (set_snd_queuelen (u8 (snd_queuelen p - 1)) (set_cwnd (mss p)
              (set_state ESTABLISHED (set_rcv_wnd (wnd h) (set_lastack (ackno h)
                (set_rcv_nxt (u32 (seqno h + 1)) p)))))));;
          on_pcb id (fun e p => p ← tcp_parseopt h opts p; Ret (tt, p, e));;
          p ← pcb id;
          (match connected p with
           | Some f => call_connected f (callback_arg p) id;; mret tt
           | None => mret tt
           end);;
          on_pcb id (quiet tcp_ack);;
          mret ERR_OK
        else mret ERR_OK
    end
  else mret ERR_OK.

Definition process_syn_rcvd (id : Z) (h : tcp_hdr) (inseg : tcp_seg) : M tcp_seg :=
  p ← pcb id;
  if has (h_flags h) TCP_ACK && negb (has (h_flags h) TCP_RST) then
    if TCP_SEQ_LT (lastack p) (ackno h) && TCP_SEQ_LEQ (ackno h) (snd_nxt p) then
      update id (set_state ESTABLISHED);;
      ok ← (match accept p with
            | Some f => err ← call_accept f (callback_arg p) id; mret (bool_decide (err = ERR_OK))
            | None => mret false
            end);
      if ok : bool then
        inseg ← receive id inseg;
        update id (fun p => set_cwnd (mss p) p);;
        mret inseg
      else tcp_abort id;; mret inseg
    else mret inseg
  else mret inseg.

(** The states in which data is received, after [tcp_receive]. *)
Definition process_closing (id : Z) (h : tcp_hdr) (s : tcp_state) : M unit :=
  p ← pcb id;
  let fin := has (h_flags h) TCP_FIN in
  let acked := has (h_flags h) TCP_ACK && (ackno h =? snd_nxt p) in
  match s with
  | CLOSE_WAIT | ESTABLISHED => if fin then ack_now id;; update id (set_state CLOSE_WAIT) else mret tt
  | FIN_WAIT_1 =>
      if fin then
        if acked then to_time_wait id
        else ack_now id;; update id (set_state CLOSING)
      else if acked then update id (set_state FIN_WAIT_2) else mret tt
  | FIN_WAIT_2 => if fin then to_time_wait id else mret tt
  | CLOSING => if acked then to_time_wait id else mret tt
  | LAST_ACK =>
      if acked then update id (fun p => set_flags (raise TF_CLOSED (flags p)) (set_state CLOSED p))
      else mret tt
  | _ => mret tt
  end.

Definition process_time_wait (id : Z) (h : tcp_hdr) (inseg : tcp_seg) : M unit :=
  let e := u32 (seqno h + TCP_TCPLEN inseg) in
  update id (fun p => if TCP_SEQ_GT e (rcv_nxt p) then set_rcv_nxt e p else p);;
  if 0 <? TCP_TCPLEN inseg then ack_now id else mret tt.

(** [tcp_process]; it returns the segment as [tcp_receive] leaves it.  The
    addresses are the ones it finds 20 bytes in front of the TCP header, which
    only LISTEN reads. *)
Definition tcp_process (id : Z) (inseg : tcp_seg) (opts : list Z) (src dest : outcome Z) : M (err_t * tcp_seg) :=
  p ← pcb id;
  let h := tcphdr inseg in
  if has (h_flags h) TCP_RST then
    (if rst_acceptable h p then
       update id (fun p => set_flags (clear TF_ACK_DELAY (raise TF_RESET (flags p))) p)
     else mret tt);;
    mret (ERR_RST, inseg)
  else
    n ← get;
    (if decide (state p <> LISTEN) then update id (set_tmr (u16 (tcp_ticks (nenv n)))) else mret tt);;
    match state p with
    | CLOSED => mret (ERR_OK, inseg)
    | LISTEN => err ← process_listen id h inseg opts src dest; mret (err, inseg)
    | SYN_SENT => err ← process_syn_sent id h opts; mret (err, inseg)
    | SYN_RCVD => inseg ← process_syn_rcvd id h inseg; mret (ERR_OK, inseg)
    | TIME_WAIT => process_time_wait id h inseg;; mret (ERR_OK, inseg)
    | s => inseg ← receive id inseg; process_closing id h s;; mret (ERR_OK, inseg)
    end.

(** ** Input *)

Definition match_connection (h : tcp_hdr) (src dest : Z) (p : tcp_pcb) : bool :=
  (remote_port p =? TcpTypes.src h) && (local_port p =? TcpTypes.dest h) &&
  (remote_ip p =? src) && (local_ip p =? dest).
Definition match_listener (h : tcp_hdr) (dest : Z) (p : tcp_pcb) : bool :=
  ((local_ip p =? 0) || (local_ip p =? dest)) && (local_port p =? TcpTypes.dest h).

(** Moving a block to the front of its list. *)
Definition to_front (w : which) (id : Z) : M unit :=
  modify (fun n => set_list w (id :: unlink id (pcblist w n)) n).

Definition demux (h : tcp_hdr) (src dest : Z) : M (option Z) :=
  n ← get;
  a ← search (match_connection h src dest) (tcp_active_pcbs n);
  match a with
  | Some id => to_front Active id;; mret (Some id)
  | None =>
      t ← search (match_connection h src dest) (tcp_tw_pcbs n);
      match t with
      | Some id => mret (Some id)
      | None =>
          l ← search (match_listener h dest) (tcp_listen_pcbs n);
          match l with
          | Some id => to_front Listening id;; mret (Some id)
          | None => mret None
          end
      end
  end.

(** What follows [tcp_process] when neither a reset nor the end of the
    connection was found: the callbacks. *)
Definition deliver (id : Z) : M unit :=
  p ← pcb id;
  if state_num (state p) <? state_num TIME_WAIT then
    err ← (match sent p with
           | Some f => if 0 <? acked p then call_sent f (callback_arg p) id (acked p) else mret ERR_OK
           | None => mret ERR_OK
           end);
    p ← pcb id;
    err ← (match recv p with
           | Some f =>
               err ← (match recv_data p with
                      | Some d => call_recv f (callback_arg p) id (Some d)
                      | None => mret err
                      end);
               p ← pcb id;
               if has (flags p) TF_GOT_FIN then
                 (match recv p with
                  | Some f => call_recv f (callback_arg p) id None
                  | None => undef
                  end)
               else mret err
           | None =>
               (if has (flags p) TF_GOT_FIN then tcp_close id;; mret tt else mret tt);;
               mret ERR_OK
           end);
    if decide (err = ERR_OK) then on_pcb id tcp_output;; mret tt else mret tt
  else if decide (state p = TIME_WAIT) then on_pcb id tcp_output;; mret tt
  else mret tt.

Definition finish (id : Z) : M unit :=
  p ← pcb id;
  if decide (state p = LISTEN) then mret tt
  else if has (flags p) TF_RESET then
    (match errf p with Some f => call_errf f (callback_arg p) ERR_RST | None => mret tt end);;
    p ← pcb id;
    (if decide (state p = TIME_WAIT) then tcp_pcb_remove TimeWait id else tcp_pcb_remove Active id);;
    free_pcb id
  else if has (flags p) TF_CLOSED then
    tcp_pcb_remove Active id;; free_pcb id
  else deliver id.

(** A segment for a block that was found. *)
Definition input_pcb (id : Z) (inseg : tcp_seg) (opts : list Z) (src dest : outcome Z) : M unit :=
  update id (fun p => if decide (state p <> LISTEN /\ state p <> TIME_WAIT) then set_recv_data None p else p);;
  r ← tcp_process id inseg opts src dest;
  if decide (fst r = ERR_ABRT) then mret tt else finish id.

(** A segment of TCP: [b] are its bytes; [psrc] and [pdest] are what
    [tcp_process] takes for the addresses.  A data offset that lies behind the
    end makes the lengths wrap around, and a connection goes on with bytes that
    are not there. *)
Definition input_segment (src dest : Z) (psrc pdest : outcome Z) (b : list Z) : M unit :=
  c ← lift (load (inet_chksum_pseudo [b] src dest IP_PROTO_TCP (u16 (Z.of_nat (length b)))));
  if truthy c then mret tt
  else
    h ← lift (get_hdr b);
    let off := 4 * Z.shiftr (h_off h) 4 in
    let len := u16 (Z.of_nat (length b) - off) in
    o ← demux h src dest;
    match o with
    | Some id =>
        if Z.of_nat (length b) <? off then undef
        else
          input_pcb id (Seg (Some (Pbufs [drop (Z.to_nat off) b] len)) len h) (drop 20 b) psrc pdest
    | None =>
        if has (h_flags h) TCP_RST then mret tt
        else
          tcp_rst (ackno h)
            (u32 (seqno h + len + (if has (h_flags h) TCP_FIN || has (h_flags h) TCP_SYN then 1 else 0)))
            dest src (TcpTypes.dest h) (TcpTypes.src h)
    end.

(** [tcp_input] on the bytes of an IP packet; [netmask] is that of the
    interface. *)
Definition tcp_input (netmask : Z) (pkt : list Z) : M unit :=
  v ← lift (get8 pkt 0);
  let hl := 4 * Z.land v 15 in
  src ← lift (get_addr pkt 12);
  dest ← lift (get_addr pkt 16);
  if ip_addr_isbroadcast dest netmask || ip_addr_ismulticast dest then mret tt
  else if Z.of_nat (length pkt) <? hl then undef
  else
    let addr i := if i <? 0 then Undef else get_addr pkt (Z.to_nat i) in
    input_segment src dest (addr (hl - 8)) (addr (hl - 4)) (drop (Z.to_nat hl) pkt).

End Process.

(** ** Packets on the wire *)

(** An address in memory, and the bytes of a TCP packet behind an IP header of 20
    bytes: [sr_lwip_output] copies the chain into one buffer. *)
Definition addr_bytes (a : Z) : list Z :=
  [a mod 256; a / 256 mod 256; a / 65536 mod 256; a / 16777216 mod 256].
Definition ip_bytes (src dest : Z) : list Z :=
  [69; 0; 0; 0; 0; 0; 0; 0; 64; 6; 0; 0] ++ addr_bytes src ++ addr_bytes dest.
Definition wire (k : packet) : list Z :=
  ip_bytes (p_src k) (p_dest k) ++ hdr_bytes (p_hdr k) ++ concat (p_data k).

(** The fields of a header have their widths. *)
Definition hdr_wf (h : tcp_hdr) : Prop :=
  0 <= TcpTypes.src h < 65536 /\ 0 <= TcpTypes.dest h < 65536 /\
  0 <= seqno h < 4294967296 /\ 0 <= ackno h < 4294967296 /\
  0 <= wnd h < 65536 /\ 0 <= chksum h < 65536 /\ 0 <= urgp h < 65536.

(** Lookups behind a prefix. *)
Lemma lookups_behind {A} (pre l : list A) :
  (pre ++ l) !! length pre = l !! 0%nat /\ (pre ++ l) !! S (length pre) = l !! 1%nat /\
  (pre ++ l) !! S (S (length pre)) = l !! 2%nat /\ (pre ++ l) !! S (S (S (length pre))) = l !! 3%nat.
Proof. repeat split; rewrite lookup_app_r by lia; f_equal; lia. Qed.

Lemma get16_be16 pre x rest : 0 <= x < 65536 ->
  get16 (pre ++ be16 x ++ rest) (length pre) = Ret x.
Proof.
  intros Hx. unfold get16, get8. destruct (lookups_behind pre (be16 x ++ rest)) as (-> & -> & _).
  cbn [lookup list_lookup app be16 load mbind outcome_bind]. f_equal. divmod.
Qed.

Lemma get32_be32 pre x rest : 0 <= x < 4294967296 ->
  get32 (pre ++ be32 x ++ rest) (length pre) = Ret x.
Proof.
  intros Hx. unfold get32, get16, get8.
  destruct (lookups_behind pre (be32 x ++ rest)) as (-> & -> & -> & ->).
  cbn [lookup list_lookup app be32 load mbind outcome_bind]. f_equal. divmod.
Qed.

(** Reading back what was written. *)
Lemma get_hdr_bytes h d : hdr_wf h -> get_hdr (hdr_bytes h ++ d) = Ret h.
Proof.
  intros (H1 & H2 & H3 & H4 & H5 & H6 & H7). unfold get_hdr, hdr_bytes. rewrite <- !app_assoc.
  match goal with |- context [get16 (be16 _ ++ ?r) 0] =>
    rewrite (get16_be16 [] (TcpTypes.src h) r H1 : get16 (be16 _ ++ r) 0 = _) end.
  cbn [mbind outcome_bind].
  change 2%nat with (length (be16 (TcpTypes.src h))). rewrite get16_be16 by lia. cbn [mbind outcome_bind].
  rewrite (app_assoc (be16 _) (be16 _)).
  change 4%nat with (length (be16 (TcpTypes.src h) ++ be16 (TcpTypes.dest h))).
  rewrite get32_be32 by lia. cbn [mbind outcome_bind]. rewrite (app_assoc _ (be32 (seqno h))).
  change 8%nat with (length ((be16 (TcpTypes.src h) ++ be16 (TcpTypes.dest h)) ++ be32 (seqno h))).
  rewrite get32_be32 by lia. cbn [mbind outcome_bind]. rewrite (app_assoc _ (be32 (ackno h))).
  set (f := _ ++ be32 (ackno h)). assert (Hf : length f = 12%nat) by reflexivity.
  assert (L : forall i rest, (f ++ rest) !! (12 + i)%nat = rest !! i)
    by (intros i rest; rewrite <- Hf; rewrite lookup_app_r by lia; f_equal; lia).
  clearbody f. unfold get16, get8.
  pose proof (fun r => L 0%nat r) as L0. pose proof (fun r => L 1%nat r) as L1.
  pose proof (fun r => L 2%nat r) as L2. pose proof (fun r => L 3%nat r) as L3.
  pose proof (fun r => L 4%nat r) as L4. pose proof (fun r => L 5%nat r) as L5.
  pose proof (fun r => L 6%nat r) as L6. pose proof (fun r => L 7%nat r) as L7. clear L.
  cbn [Nat.add] in *. rewrite L0, L1, L2, L3, L4, L5, L6, L7.
  cbn [lookup list_lookup app be16 load mbind outcome_bind]. destruct h. cbn in *. f_equal. f_equal.
  - divmod.
  - rewrite htons_digits by divmod. divmod.
  - divmod.
Qed.

(** ** The byte swap of an address *)

Lemma land_field n k : 0 <= k -> Z.land n (255 * 2 ^ k) = (n / 2 ^ k mod 256) * 2 ^ k.
Proof.
  intros Hk. apply Z.bits_inj'. intros i Hi. rewrite Z.land_spec.
  rewrite <- !Z.shiftl_mul_pow2, <- Z.shiftr_div_pow2 by lia. rewrite !Z.shiftl_spec by lia.
  destruct (Z.lt_ge_cases i k).
  - rewrite !(Z.testbit_neg_r _ (i - k)) by lia. apply andb_false_r.
  - change 256 with (2 ^ 8). rewrite <- Z.land_ones, Z.land_spec, Z.shiftr_spec by lia.
    change (Z.ones 8) with 255. f_equal. f_equal. lia.
Qed.

Lemma htonl_digits n : 0 <= n < 4294967296 ->
  htonl n = (n mod 256) * 16777216 + (n / 256 mod 256) * 65536 + (n / 65536 mod 256) * 256 + n / 16777216.
Proof.
  intros Hn. unfold htonl. rewrite land_255.
  change 65280 with (255 * 2 ^ 8). change 16711680 with (255 * 2 ^ 16). change 4278190080 with (255 * 2 ^ 24).
  rewrite !land_field by lia. rewrite !Z.shiftl_mul_pow2, !Z.shiftr_div_pow2 by lia.
  change (2 ^ 24) with 16777216. change (2 ^ 16) with 65536. change (2 ^ 8) with 256.
  rewrite (Z.div_mul (n / 16777216 mod 256) 16777216) by lia.
  replace (n / 65536 mod 256 * 65536 / 256) with (n / 65536 mod 256 * 256) by divmod.
  replace (n / 256 mod 256 * 256 * 256) with (n / 256 mod 256 * 65536) by lia.
  replace (n / 65536 mod 256 * 256) with (n / 65536 mod 256 * 2 ^ 8) by reflexivity.
  rewrite (lor_add_shift (n / 65536 mod 256) (n / 16777216 mod 256) 8 ltac:(lia)) by (change (2 ^ 8) with 256; divmod).
  replace (n mod 256 * 16777216) with (n mod 256 * 2 ^ 24) by reflexivity.
  rewrite (lor_add_shift (n mod 256) (n / 256 mod 256 * 65536) 24 ltac:(lia)) by (change (2 ^ 24) with 16777216; divmod).
  change (2 ^ 24) with 16777216. change (2 ^ 8) with 256.
  replace (n mod 256 * 16777216 + n / 256 mod 256 * 65536)
    with ((n mod 256 * 256 + n / 256 mod 256) * 2 ^ 16) by (change (2 ^ 16) with 65536; lia).
  rewrite lor_add_shift by (change (2 ^ 16) with 65536; lia || divmod).
  change (2 ^ 16) with 65536. replace (n / 16777216 mod 256) with (n / 16777216) by divmod. lia.
Qed.

Lemma htonl_le a : 0 <= a < 4294967296 ->
  htonl ((a mod 256 * 256 + a / 256 mod 256) * 65536 + (a / 65536 mod 256 * 256 + a / 16777216 mod 256)) = a.
Proof.
  intros Ha.
  assert (E : a = a mod 256 + 256 * (a / 256 mod 256) + 65536 * (a / 65536 mod 256) +
                  16777216 * (a / 16777216 mod 256)) by divmod.
  pose proof (Z.mod_pos_bound a 256 ltac:(lia)). pose proof (Z.mod_pos_bound (a / 256) 256 ltac:(lia)).
  pose proof (Z.mod_pos_bound (a / 65536) 256 ltac:(lia)).
  pose proof (Z.mod_pos_bound (a / 16777216) 256 ltac:(lia)).
  set (b0 := a mod 256) in *. set (b1 := a / 256 mod 256) in *. set (b2 := a / 65536 mod 256) in *.
  set (b3 := a / 16777216 mod 256) in *. clearbody b0 b1 b2 b3.
  set (n := (b0 * 256 + b1) * 65536 + (b2 * 256 + b3)).
  assert (E0 : n mod 256 = b3) by (subst n; divmod).
  assert (E1 : n / 256 mod 256 = b2) by (subst n; divmod).
  assert (E2 : n / 65536 mod 256 = b1) by (subst n; divmod).
  assert (E3 : n / 16777216 = b0) by (subst n; divmod).
  rewrite htonl_digits, E0, E1, E2, E3 by (subst n; lia). lia.
Qed.

Lemma get_addr_bytes pre a rest : 0 <= a < 4294967296 ->
  get_addr (pre ++ addr_bytes a ++ rest) (length pre) = Ret a.
Proof.
  intros Ha. unfold get_addr, get32, get16, get8, addr_bytes.
  destruct (lookups_behind pre ([a mod 256; a / 256 mod 256; a / 65536 mod 256; a / 16777216 mod 256] ++ rest))
    as (-> & -> & -> & ->).
  cbn [lookup list_lookup app load mbind outcome_bind]. f_equal. apply htonl_le; lia.
Qed.

(** ** From one host to another *)

Section Wire.
Context `{Network} `{Application}.

(** The checksum of a chain is that of its bytes. *)
Lemma chksum_flat chain src dest len :
  chain_ok chain -> Z.of_nat (length (concat chain)) < 65536 -> addr_ok src -> addr_ok dest ->
  0 <= len < 65536 ->
  inet_chksum_pseudo [concat chain] src dest IP_PROTO_TCP len =
  inet_chksum_pseudo chain src dest IP_PROTO_TCP len.
Proof.
  intros Hc Hl Hs Hd Hn. rewrite !inet_chksum_pseudo_sum; auto; try (unfold IP_PROTO_TCP; lia).
  - cbn [concat]. rewrite app_nil_r. reflexivity.
  - constructor; [split; [apply chain_bytes; exact Hc|exact Hl]|constructor].
Qed.

Lemma packet_chain_flat h data : concat (packet_chain h data) = hdr_bytes h ++ concat data.
Proof. destruct data; cbn; [reflexivity|]. rewrite ?app_assoc; reflexivity. Qed.

Lemma length_hdr_bytes h : length (hdr_bytes h) = 20%nat.
Proof. reflexivity. Qed.

Lemma packet_chain_ok h data :
  0 <= h_off h < 256 -> 0 <= h_flags h < 256 -> 0 <= chksum h < 65536 -> Forall bytes data ->
  Z.of_nat (length (concat data)) + 20 < 65536 -> chain_ok (packet_chain h data).
Proof.
  intros H1 H2 H3 Hd Hl.
  assert (Hb : bytes (hdr_bytes h)).
  { unfold bytes, hdr_bytes, be16, be32. cbn [app].
    repeat (apply Forall_cons; split; [divmod|]). apply Forall_nil_2. }
  destruct data as [|d r]; cbn [packet_chain].
  - constructor; [split; [exact Hb|reflexivity]|constructor].
  - apply Forall_cons in Hd as [Hd Hr]. cbn [concat] in Hl. rewrite length_app in Hl. constructor.
    + split; [apply bytes_app; auto|]. rewrite length_app, length_hdr_bytes. lia.
    + apply Forall_forall. intros x Hx. split; [rewrite Forall_forall in Hr; auto|].
      assert (length x <= length (concat r))%nat; [|lia]. clear -Hx.
      induction Hx; cbn [concat]; rewrite length_app; lia.
Qed.


End Wire.

(** A host without routes whose application does nothing. *)
#[local] Instance unrouted : Network := { ip_route _ := 0 }.
#[local] Instance silent : Application := {
  call_accept _ _ _ := mret ERR_OK; call_connected _ _ _ := mret ERR_OK;
  call_sent _ _ _ _ := mret ERR_OK; call_recv _ _ _ _ := mret ERR_OK;
  call_poll _ _ _ := mret ERR_OK; call_errf _ _ _ := mret tt
}.

(** A reset for nobody. *)
Definition stray_rst : packet :=
  Packet 1 33554442 (checksummed (Hdr 80 5000 7 0 80 TCP_RST 0 0 0) [[1; 2; 3]] 1 33554442) [[1; 2; 3]].

