(* ===== verification/TcpRun.v ===== *)
(** Two hosts that exchange packets as bytes: executions of the whole TCP
    layer, from [tcp_connect] and [tcp_listen] to delivered data and TIME-WAIT. *)

From S2P Require Import Prelude Inet TcpTypes TcpOutput TcpInput TcpNet Tcp TcpProcess.
From stdpp Require Import base gmap list.
From Stdlib Require Import ZArith Lia.

Local Open Scope Z_scope.

(** ** Two hosts *)

Definition client_ip : Z := 16777226.
Definition server_ip : Z := 33554442.

#[local] Instance no_routes : Network := { ip_route _ := 0 }.

(** An application that accepts every connection and acknowledges all it reads. *)
#[local] Instance echo_less : Application := {
  call_accept f arg id := tcp_recv id (Some 1);; mret ERR_OK;
  call_connected f arg id := mret ERR_OK;
  call_sent f arg id len := mret ERR_OK;
  call_recv f arg id d :=
    match d with Some d => tcp_recved id (tot_len d);; mret ERR_OK | None => mret ERR_OK end;
  call_poll f arg id := mret ERR_OK;
  call_errf f arg err := mret tt
}.

Definition clear_trace : M (list packet) := fun n =>
  let e := nenv n in
  Ret (rev (trace e), set_nenv (Env (allocs e) [] (tcp_ticks e) (iss e)) n).

Fixpoint inputs (l : list packet) : M unit :=
  match l with
  | [] => mret tt
  | k :: r => tcp_input 16777215 (wire k);; inputs r
  end.

(** One exchange: what [a] sent goes to [b], and what [b] sent then goes to [a]. *)
Definition exchange (a b : net) : outcome (net * net) :=
  '(l, a) ← clear_trace a;
  '(_, b) ← inputs l b;
  '(l, b) ← clear_trace b;
  '(_, a) ← inputs l a;
  Ret (a, b).

Fixpoint exchanges (k : nat) (a b : net) : outcome (net * net) :=
  match k with
  | O => Ret (a, b)
  | S k => '(a, b) ← exchange a b; exchanges k a b
  end.

Definition client : outcome (Z * net) :=
  (o ← tcp_new;
   match o with
   | Some id => tcp_bind id client_ip 5000;; tcp_connect id (Some server_ip) 80 None;; mret id
   | None => undef
   end) (boot []).
Definition server (accept : option Z) : outcome net :=
  '(_, n) ← (o ← tcp_new;
   match o with
   | Some id =>
       tcp_bind id server_ip 80;; o ← tcp_listen id;
       match o with Some id => tcp_accept id accept | None => undef end
   | None => undef
   end) (boot []);
  Ret n.

Definition states (n : net) (l : list Z) : list (option tcp_state) := map (fun id => state <$> pcbs n !! id) l.

Definition handshake (accept : option Z) : outcome (net * net) :=
  '(_, c) ← client; s ← server accept; exchanges 2 c s.

Definition received (n : net) : list (list Z) :=
  map (fun id => match pcbs n !! id with
                 | Some p => match recv_data p with Some d => pbuf_data d | None => [] end
                 | None => []
                 end) (tcp_active_pcbs n).

Definition message : list Z := [72; 101; 108; 108; 111].

Definition transfer : outcome (list (option tcp_state) * list (list Z)) :=
  '(c, s) ← handshake (Some 1);
  '(_, c) ← on_pcb 1 (fun e p => tcp_write e p message true) c;
  '(_, c) ← on_pcb 1 tcp_output c;
  '(c, s) ← exchange c s;
  Ret (states c (tcp_active_pcbs c) ++ states s (tcp_active_pcbs s), received s).

(** Ticks of the slow timer. *)
Fixpoint slow_ticks (k : nat) : M unit :=
  match k with O => mret tt | S k => tcp_slowtmr;; slow_ticks k end.

(** The client's data is lost on the way and sent again by the timer. *)
Definition lossy_transfer : outcome (list (list Z) * list (list Z)) :=
  '(c, s) ← handshake (Some 1);
  '(_, c) ← on_pcb 1 (fun e p => tcp_write e p message true) c;
  '(_, c) ← on_pcb 1 tcp_output c;
  '(_, c) ← clear_trace c;
  '(c, s) ← exchange c s;
  let before := received s in
  '(_, c) ← slow_ticks 7 c;
  '(c, s) ← exchange c s;
  Ret (before, received s).

(** The client closes, then the server does; after the TIME-WAIT the client has
    no connection left. *)
Definition closing : outcome (list (list (option tcp_state)) * (list Z * list Z * list Z)) :=
  '(c, s) ← handshake (Some 1);
  '(_, c) ← on_pcb 1 (fun e p => tcp_write e p message true) c;
  '(_, c) ← on_pcb 1 tcp_output c;
  '(c, s) ← exchange c s;
  '(_, c) ← tcp_close 1 c;
  '(c, s) ← exchange c s;
  let s1 := states c [1] ++ states s [3] in
  '(_, s) ← tcp_fasttmr s;
  '(s, c) ← exchange s c;
  let s2 := states c [1] ++ states s [3] in
  '(_, s) ← tcp_close 3 s;
  '(s, c) ← exchange s c;
  let s3 := states c [1] ++ states s [3] in
  '(_, c') ← slow_ticks 241 c;
  Ret ([s1; s2; s3], (tcp_tw_pcbs c, tcp_active_pcbs s, tcp_tw_pcbs c')).


(** A data segment that is lost is sent again by the slow timer and then
    delivered. *)
Theorem lost_segment_recovers : lossy_transfer = Ret ([[]], [message]).
Proof. vm_compute. reflexivity. Qed.

(** ** What goes wrong *)

(** Without an accept function the connection is aborted while [tcp_process]
    returns [ERR_OK]: [tcp_input] goes on with the freed block. *)
Theorem no_accept_use_after_free :
  ('(c, s) ← handshake None;
   '(_, c) ← on_pcb 1 (fun e p => tcp_write e p message true) c;
   '(_, c) ← on_pcb 1 tcp_output c;
   exchange c s) = Undef.
Proof. vm_compute. reflexivity. Qed.

(** A SYN that could not be queued leaves the block in SYN-SENT with nothing
    unacknowledged: an answer to it makes [tcp_process] read through a null
    pointer. *)
Definition half_connected : outcome net :=
  '(err, n) ← (o ← tcp_new;
   match o with
   | Some id => tcp_bind id client_ip 5000;; tcp_connect id (Some server_ip) 80 None
   | None => undef
   end) (boot [true; false]);
  if decide (err = ERR_MEM) then Ret n else Undef.

Definition syn_ack : packet :=
  let h := Hdr 80 5000 1000 6510 80 (Z.lor TCP_SYN TCP_ACK) 1024 0 0 in
  Packet server_ip client_ip (checksummed h [[]] server_ip client_ip) [[]].

Theorem failed_connect_null_read :
  match half_connected with
  | Ret n => Some (states n (tcp_active_pcbs n), tcp_input 16777215 (wire syn_ack) n)
  | _ => None
  end = Some ([Some SYN_SENT], Undef).
Proof. vm_compute. reflexivity. Qed.
