(* ===== verification/TcpInv.v ===== *)
(** What holds of the lists of control blocks in every state that the functions
    of TCP reach: the "axioms about the lists" of [lwip/tcp.h]. *)

From S2P Require Import Prelude TcpTypes TcpOutput TcpInput TcpNet Tcp TcpProcess TcpRun.
From stdpp Require Import base gmap list relations.
From Stdlib Require Import ZArith Lia.

Local Open Scope Z_scope.

(** ** Functions on one block keep its state *)

(** Takes apart a computation that returned. *)
Ltac unret :=
  repeat match goal with
  | H : Ret _ = Ret _ |- _ => injection H; clear H; intros; subst
  | H : Undef = Ret _ |- _ => discriminate H
  | H : Blocked = Ret _ |- _ => discriminate H
  | H : (match ?x with _ => _ end) = Ret _ |- _ => let E := fresh "E" in destruct x eqn:E
  | H : (_ ≫= _) = Ret _ |- _ => unfold mbind, outcome_bind in H
  | H : (_, _) = (_, _) |- _ => injection H; clear H; intros; subst
  end.

(** What the lists depend on: the state, and whether the connection is about to
    be removed. *)
Definition tag (p : tcp_pcb) : tcp_state * bool := (state p, has (flags p) TF_CLOSED).

Lemma has_raise f fl g : has f g = false -> has (raise f fl) g = has fl g.
Proof. intros E. unfold raise. rewrite has_lor, E. apply orb_false_r. Qed.

Lemma has_clear f fl g : Z.land (255 - f) g = g -> has (clear f fl) g = has fl g.
Proof. intros E. unfold has, clear. rewrite <- Z.land_assoc, E. reflexivity. Qed.

Lemma tag_flags fl p q : state p = state q -> has fl TF_CLOSED = has (flags q) TF_CLOSED ->
  tag (set_flags fl p) = tag q.
Proof. intros E1 E2. unfold tag. cbn [state flags set_flags]. rewrite E1, E2. reflexivity. Qed.

Ltac tags :=
  first [ reflexivity
        | apply tag_flags; [reflexivity | first [apply has_raise; reflexivity | apply has_clear; reflexivity]] ].

Lemma bind_inv {A B} (x : outcome A) (f : A -> outcome B) b :
  (x ≫= f) = Ret b -> exists a, x = Ret a /\ f a = Ret b.
Proof. destruct x as [a| |]; [|discriminate..]. intros E. exists a. split; [reflexivity|exact E]. Qed.

Definition keeps_tag {A} (f : env -> tcp_pcb -> outcome (A * tcp_pcb * env)) : Prop :=
  forall e p a p' e', f e p = Ret (a, p', e') -> tag p' = tag p.

Section Keeps.
Context `{Network}.

Lemma output_segment_tag e g p g' p' e' :
  tcp_output_segment e g p = Ret (g', p', e') -> tag p' = tag p.
Proof. unfold tcp_output_segment. intros H1. unret; destruct (rttest _ =? 0); reflexivity. Qed.

Lemma output_loop_tag k : forall e p w p' e', output_loop k e p w = Ret (p', e') -> tag p' = tag p.
Proof.
  induction k as [|k IH]; intros e p w p' e'; cbn [output_loop]; intros E.
  - destruct (unsent p); unret; reflexivity.
  - destruct (unsent p) as [|g rest]; [unret; reflexivity|].
    destruct (in_wnd p w g); [|unret; reflexivity].
    destruct (if decide _ then _ else _) as [g1 p1] eqn:E1.
    assert (S1 : tag p1 = tag p) by (destruct (decide _) in E1; injection E1 as _ <-; tags).
    unfold mbind, outcome_bind in E.
    destruct (tcp_output_segment e g1 p1) as [[[g2 p2] e2]| |] eqn:E2; try discriminate.
    apply output_segment_tag in E2. apply IH in E.
    rewrite E, <- S1, <- E2. destruct (TCP_SEQ_LT _ _), (0 <? _); reflexivity.
Qed.

Lemma tcp_output_tag : keeps_tag tcp_output.
Proof.
  intros e p a p' e'. unfold tcp_output. destruct (has (flags p) TF_ACK_NOW).
  - destruct (alloc e) as [[] e1]; intros E; unret; tags.
  - intros E. unfold mbind, outcome_bind in E.
    destruct (output_loop _ e p _) as [[p1 e1]| |] eqn:E1; unret. eapply output_loop_tag; eauto.
Qed.

Lemma tcp_enqueue_tag arg len fl copy o : keeps_tag (fun e p => tcp_enqueue e p arg len fl copy o).
Proof.
  intros e p a p' e'. unfold tcp_enqueue. destruct (snd_buf p <? len); [intros E; unret; reflexivity|].
  destruct (_ <=? _); [intros E; unret; reflexivity|].
  destruct (enqueue_loop _ _ _ _ _ _ _ _ _ _ _ _) as [[[[[q ql] sl]|] e1]| |]; intros E;
    cbn [mbind outcome_bind] in E; unret; reflexivity.
Qed.

Lemma tcp_ack_now_tag e p p' e' : tcp_ack_now e p = Ret (p', e') -> tag p' = tag p.
Proof.
  unfold tcp_ack_now. intros E. unfold mbind, outcome_bind in E.
  destruct (tcp_output e _) as [[[r p1] e1]| |] eqn:E1; unret. apply tcp_output_tag in E1.
  rewrite E1. tags.
Qed.

Lemma tcp_ack_tag e p p' e' : tcp_ack e p = Ret (p', e') -> tag p' = tag p.
Proof.
  unfold tcp_ack. destruct (has (flags p) TF_ACK_DELAY); [apply tcp_ack_now_tag|].
  intros E. unret. tags.
Qed.

Lemma rexmit_tag e p g : tag (tcp_rexmit_seg e p g).1.2 = tag p.
Proof. unfold tcp_rexmit_seg. destruct (in_wnd _ _ _); reflexivity. Qed.

Lemma inflate_tag i p : tag (inflate i p) = tag p.
Proof. unfold inflate. destruct (_ <? _); reflexivity. Qed.

Lemma dup_ack_tag e p : tag (dup_ack e p).1 = tag p.
Proof.
  unfold dup_ack. cbn [unacked set_dupacks]. destruct (unacked p) as [|g r]; [reflexivity|].
  destruct (3 <=? _); [|reflexivity].
  destruct (has _ _); [etransitivity; [apply inflate_tag|reflexivity]|].
  pose proof (rexmit_tag e (set_dupacks (u8 (dupacks p + 1)) p) g) as E.
  destruct (tcp_rexmit_seg e (set_dupacks (u8 (dupacks p + 1)) p) g) as [[g1 p1] e1]. etransitivity; [|exact E].
  cbn [fst snd]. tags.
Qed.

Lemma grow_cwnd_tag p p' : grow_cwnd p = Ret p' -> tag p' = tag p.
Proof. unfold grow_cwnd. intros E. unret; try reflexivity; apply inflate_tag. Qed.

Lemma new_ack_tag a p p' : new_ack a p = Ret p' -> tag p' = tag p.
Proof.
  unfold new_ack.
  set (p0 := if has (flags p) TF_INFR
             then set_cwnd (ssthresh p) (set_flags (clear TF_INFR (flags p)) p) else p).
  assert (S0 : tag p0 = tag p).
  { subst p0. destruct (has (flags p) TF_INFR); [|reflexivity]. unfold tag.
    cbn [state flags set_cwnd set_flags]. rewrite has_clear; reflexivity. }
  clearbody p0. rewrite <- S0. clear S0. cbv zeta.
  match goal with |- context [grow_cwnd ?x] => assert (S1 : tag x = tag p0) by reflexivity;
    destruct (grow_cwnd x) as [p1| |] eqn:E1; [|discriminate..]; rewrite <- S1 end.
  apply grow_cwnd_tag in E1. rewrite <- E1. clear.
  cbn [mbind outcome_bind]. destruct (ack_unsent _ _ _ _) as [[q nx] ql].
  destruct (ack_unacked _ _ _) as [q2 ql2]. intros E. injection E as <-. reflexivity.
Qed.

Lemma estimate_rtt_tag t a p : tag (estimate_rtt t a p) = tag p.
Proof. unfold estimate_rtt. destruct (_ && _); reflexivity. Qed.

Lemma ack_input_tag e g p p' e' : ack_input e g p = Ret (p', e') -> tag p' = tag p.
Proof.
  assert (E0 : tag (update_window g p) = tag p) by (unfold update_window; destruct (_ || _); reflexivity).
  rewrite <- E0. clear E0. unfold ack_input. generalize (update_window g p). clear p. intros p. cbv zeta.
  intros (x & E1 & E)%bind_inv. destruct x as [p1 e1]. injection E as <- _. rewrite estimate_rtt_tag.
  destruct (lastack p =? _).
  - pose proof (dup_ack_tag e p) as Ed. destruct (dup_ack e p) as [p2 e2]. injection E1 as <- _. exact Ed.
  - destruct (_ && _); [|injection E1 as <- _; reflexivity].
    apply bind_inv in E1 as (p2 & E2 & E1). injection E1 as <- _. eapply new_ack_tag; eauto.
Qed.

Lemma tag_fin (b : bool) p :
  tag (if b then set_flags (raise TF_GOT_FIN (flags p)) p else p) = tag p.
Proof. destruct b; [tags|reflexivity]. Qed.

Lemma dequeue_tag f q : forall p p', dequeue f q p = Ret p' -> tag p' = tag p.
Proof.
  induction q as [|g q IH]; intros p p'; cbn [dequeue]; intros E; [unret; reflexivity|].
  destruct (_ =? _); [|unret; reflexivity]. unfold mbind, outcome_bind, load in E.
  destruct (seg_p g) as [d|]; [|discriminate].
  destruct (0 <? tot_len d); [destruct (recv_data _); [|discriminate]|];
    apply IH in E; rewrite E, tag_fin; reflexivity.
Qed.

Lemma in_sequence_tag e g p g' p' e' : in_sequence e g p = Ret (g', p', e') -> tag p' = tag p.
Proof.
  unfold in_sequence. cbv zeta. intros E. unfold mbind, outcome_bind in E.
  destruct (match ooseq p with [] => _ | _ => _ end) as [g1| |]; try discriminate.
  unfold load in E. destruct (seg_p g1) as [d|]; [|discriminate].
  destruct (if 0 <? tot_len d then _ else _) as [g2 p2] eqn:E2.
  assert (S2 : tag p2 = tag p) by (destruct (0 <? tot_len d); injection E2 as _ <-; reflexivity).
  match type of E with context [dequeue ?f ?q ?x] => destruct (dequeue f q x) as [p3| |] eqn:E3 end;
    try discriminate.
  apply dequeue_tag in E3. destruct (tcp_ack e p3) as [[p4 e4]| |] eqn:E4; try discriminate.
  apply tcp_ack_tag in E4. injection E as _ <- _. rewrite E4, E3, <- S2.
  apply tag_fin.
Qed.

Lemma out_of_sequence_tag e g p g' p' e' : out_of_sequence e g p = Ret (g', p', e') -> tag p' = tag p.
Proof.
  unfold out_of_sequence. intros E. unfold mbind, outcome_bind in E.
  destruct (tcp_ack_now e p) as [[p1 e1]| |] eqn:E1; try discriminate. apply tcp_ack_now_tag in E1.
  rewrite <- E1. destruct (ooseq p1) as [|o q]; [destruct (alloc e1); unret; reflexivity|].
  destruct (ooseq_insert e1 g None (o :: q)) as [[[l g1] e2]| |]; unret; reflexivity.
Qed.

Lemma tcp_receive_tag e g p g' p' e' : tcp_receive e g p = Ret (g', p', e') -> tag p' = tag p.
Proof.
  unfold tcp_receive. intros E. unfold mbind, outcome_bind in E.
  destruct (if has _ _ then ack_input e g p else Ret (p, e)) as [[p1 e1]| |] eqn:E1; try discriminate.
  assert (S1 : tag p1 = tag p)
    by (destruct (has (h_flags (tcphdr g)) TCP_ACK); [eapply ack_input_tag; eauto|unret; reflexivity]).
  rewrite <- S1. destruct (0 <? TCP_TCPLEN g).
  - unfold data_input in E. unfold mbind, outcome_bind in E.
    destruct (trim_first_edge g (rcv_nxt p1)) as [g1| |]; try discriminate.
    destruct (_ && _); [|unret; reflexivity]. destruct (_ =? _);
      [eapply in_sequence_tag|eapply out_of_sequence_tag]; eauto.
  - destruct (_ || _); [|unret; reflexivity].
    destruct (tcp_ack_now e1 p1) as [[p2 e2]| |] eqn:E2; try discriminate.
    injection E as _ <- _. exact (tcp_ack_now_tag _ _ _ _ E2).
Qed.

Lemma retransmit_tag e p p' e' : retransmit e p = Ret (p', e') -> tag p' = tag p.
Proof.
  unfold retransmit. destruct (unacked p) as [|g r]; [intros E; unret; reflexivity|].
  intros E. unfold mbind, outcome_bind in E.
  destruct (if decide _ then Ret p else _) as [p1| |] eqn:E1; try discriminate.
  assert (S1 : tag p1 = tag p) by (destruct (decide _) in E1; [unret; reflexivity|];
    destruct (backed_off p); try discriminate; injection E1 as <-; reflexivity).
  set (p2 := match r with [] => p1 | _ => _ end) in E.
  assert (S2 : tag p2 = tag p) by (subst p2; destruct r; exact S1). clearbody p2.
  pose proof (rexmit_tag e p2 g) as S3.
  destruct (tcp_rexmit_seg e p2 g) as [[g3 p3] e3]. cbn [fst snd] in S3. rewrite <- S2, <- S3.
  injection E as <- _. cbn [state set_cwnd]. destruct (_ <? _); reflexivity.
Qed.

Lemma slow_pcb_tag : keeps_tag slow_pcb.
Proof.
  intros e p a p' e'. unfold slow_pcb. cbv zeta. intros E. unfold mbind, outcome_bind in E.
  match type of E with match ?x with _ => _ end = _ => destruct x as [[p1 e1]| |] eqn:E1 end; try discriminate.
  assert (S1 : tag p1 = tag p).
  { destruct (_ || _); [unret; reflexivity|]. destruct (match unacked _ with [] => _ | _ => _ end);
      [apply retransmit_tag in E1; exact E1|unret; reflexivity]. }
  injection E as _ <- _. rewrite <- S1. destruct (ooseq p1); [reflexivity|].
  destruct (rto p1 * _ <=? _); reflexivity.
Qed.

Lemma fast_pcb_tag e p p' e' : fast_pcb e p = Ret (p', e') -> tag p' = tag p.
Proof.
  unfold fast_pcb. destruct (has _ _); [|intros E; unret; reflexivity]. intros E.
  unfold mbind, outcome_bind in E. destruct (tcp_ack_now e p) as [[p1 e1]| |] eqn:E1; try discriminate.
  apply tcp_ack_now_tag in E1. injection E as <- _. rewrite <- E1. tags.
Qed.

Lemma quiet_tag f : (forall e p p' e', f e p = Ret (p', e') -> tag p' = tag p) -> keeps_tag (quiet f).
Proof.
  intros Hf e p a p' e' E. unfold quiet, mbind, outcome_bind in E.
  destruct (f e p) as [[p1 e1]| |] eqn:E1; try discriminate. injection E as _ <- _. eauto.
Qed.

Lemma parseopt_tag h o : keeps_tag (fun e p => p ← tcp_parseopt h o p; Ret (tt, p, e)).
Proof.
  intros e p a p' e' E. unfold mbind, outcome_bind in E.
  destruct (tcp_parseopt h o p) as [p1| |] eqn:E1; try discriminate. injection E as _ <- _.
  unfold tcp_parseopt in E1. destruct (_ <? _); [|unret; reflexivity].
  destruct (parseopt_loop _ _ _ _ _); try discriminate. cbn in E1. unret. reflexivity.
Qed.

End Keeps.

(** ** The lists *)

(** What the invariant looks at: the tags of the blocks, the lists and the next
    address. *)
Record view := View {
  tags_of : gmap Z (tcp_state * bool);
  actives : list Z;
  waiting : list Z;
  listening : list Z;
  fresh : Z
}.

Definition view_of (n : net) : view :=
  View (tag <$> pcbs n) (tcp_active_pcbs n) (tcp_tw_pcbs n) (tcp_listen_pcbs n) (next_pcb n).

Definition on_list (v : view) (w : which) : list Z :=
  match w with Active => actives v | TimeWait => waiting v | Listening => listening v end.

(** The states of the blocks of a list.  The block [x], if any, is in the middle
    of being removed: it may be CLOSED on the active list. *)
Definition fits (x : option Z) (id : Z) (w : which) (t : tcp_state * bool) : Prop :=
  match w with
  | Active => t.1 <> LISTEN /\ t.1 <> TIME_WAIT /\ (t.1 = CLOSED -> x = Some id)
  | TimeWait => t.1 = TIME_WAIT
  | Listening => t.1 = LISTEN
  end.

Record list_inv (x : option Z) (v : view) : Prop := {
  lists_nodup : forall w, NoDup (on_list v w);
  lists_fit : forall w id, id ∈ on_list v w -> exists t, tags_of v !! id = Some t /\ fits x id w t;
  old_ids : forall id t, tags_of v !! id = Some t -> id < fresh v;
  all_listed : forall id t, tags_of v !! id = Some t -> t.1 <> CLOSED -> t.1 <> LISTEN ->
    x <> Some id -> exists w, id ∈ on_list v w;
  no_closed : forall id t, tags_of v !! id = Some t -> t.2 = true -> x = Some id
}.

(** A block that is in use: connected or on a list. *)
Definition pinned (v : view) (id : Z) : Prop :=
  id < fresh v /\ exists t, tags_of v !! id = Some t /\ (t.1 <> CLOSED \/ exists w, id ∈ on_list v w).

(** What a call leaves alone: freed blocks stay freed, and a block in use stays
    where it is or is freed. *)
Record later (v v' : view) : Prop := {
  later_fresh : fresh v <= fresh v';
  later_freed : forall id, id < fresh v -> tags_of v !! id = None -> tags_of v' !! id = None;
  later_pinned : forall id, pinned v id -> tags_of v' !! id = None \/
    pinned v' id /\ forall w, id ∈ on_list v' w <-> id ∈ on_list v w
}.

Lemma later_refl v : later v v.
Proof. split; [lia|auto|]. intros id Hp. right. split; [exact Hp|reflexivity]. Qed.

Lemma later_trans a b c : later a b -> later b c -> later a c.
Proof.
  intros [A1 A2 A3] [B1 B2 B3]. split; [lia| |].
  - intros id Hid E. apply B2; [lia|auto].
  - intros id Hp. destruct (A3 id Hp) as [E|[Hb Hl]].
    + left. destruct Hp as [Hid _]. apply B2; [lia|exact E].
    + destruct (B3 id Hb) as [E|[Hc Hl2]]; [left; exact E|]. right. split; [exact Hc|].
      intros w. rewrite Hl2. apply Hl.
Qed.

(** *** Single steps *)

Definition with_tag (id : Z) (t : tcp_state * bool) (v : view) : view :=
  View (<[id := t]> (tags_of v)) (actives v) (waiting v) (listening v) (fresh v).
Definition with_list (w : which) (l : list Z) (v : view) : view :=
  match w with
  | Active => View (tags_of v) l (waiting v) (listening v) (fresh v)
  | TimeWait => View (tags_of v) (actives v) l (listening v) (fresh v)
  | Listening => View (tags_of v) (actives v) (waiting v) l (fresh v)
  end.
Definition without (id : Z) (v : view) : view :=
  View (delete id (tags_of v)) (actives v) (waiting v) (listening v) (fresh v).

Lemma on_with_tag id t v w : on_list (with_tag id t v) w = on_list v w.
Proof. destruct w; reflexivity. Qed.
Lemma on_without id v w : on_list (without id v) w = on_list v w.
Proof. destruct w; reflexivity. Qed.
Lemma on_with_list w l v w' : on_list (with_list w l v) w' = if decide (w' = w) then l else on_list v w'.
Proof. destruct w, w'; reflexivity. Qed.
Lemma tags_with_list w l v : tags_of (with_list w l v) = tags_of v.
Proof. destruct w; reflexivity. Qed.
Lemma fresh_with_list w l v : fresh (with_list w l v) = fresh v.
Proof. destruct w; reflexivity. Qed.

(** The list a tag belongs to is determined. *)
Lemma one_list x v id w w' : list_inv x v -> id ∈ on_list v w -> id ∈ on_list v w' -> w = w'.
Proof.
  intros Hv H1 H2. destruct (lists_fit x v Hv w id H1) as (t & E1 & F1).
  destruct (lists_fit x v Hv w' id H2) as (t' & E2 & F2). simplify_eq.
  destruct w, w'; cbn in F1, F2; first [reflexivity | intuition congruence].
Qed.

Lemma inv_weaken x v : list_inv None v -> list_inv x v.
Proof.
  intros [A B C D E]. split; [exact A| |exact C| |].
  - intros w id Hi. destruct (B w id Hi) as (t & Et & F). exists t. split; [exact Et|].
    destruct w; cbn in F |- *; [|exact F|exact F]. destruct F as (F1 & F2 & F3). split; [exact F1|split; [exact F2|]].
    intros Ec. specialize (F3 Ec). discriminate F3.
  - intros id t Et Hc Hl _. eapply D; eauto.
  - intros id t Et Hb. specialize (E id t Et Hb). discriminate E.
Qed.

(** Nothing is in between any more. *)
Lemma inv_settled id v : list_inv (Some id) v ->
  (forall t, tags_of v !! id = Some t -> t.2 = false /\
     (t.1 = CLOSED -> forall w, id ∉ on_list v w) /\
     (t.1 <> CLOSED -> t.1 <> LISTEN -> exists w, id ∈ on_list v w)) ->
  list_inv None v.
Proof.
  intros [A B C D E] Hs. split; [exact A| |exact C| |].
  - intros w id' Hi. destruct (B w id' Hi) as (t & Et & F). exists t. split; [exact Et|].
    destruct w; cbn in F |- *; [|exact F|exact F]. destruct F as (F1 & F2 & F3). split; [exact F1|split; [exact F2|]].
    intros Ec. specialize (F3 Ec). injection F3 as <-. destruct (Hs t Et) as (_ & G & _).
    exfalso. exact (G Ec Active Hi).
  - intros id' t Et Hc Hl _. destruct (decide (id' = id)) as [->|Hne]; [apply (Hs t Et); auto|].
    eapply D; eauto. congruence.
  - intros id' t Et Hb. specialize (E id' t Et Hb). injection E as <-. destruct (Hs t Et) as (G & _).
    congruence.
Qed.

Lemma inv_with_tag x v id t :
  list_inv x v -> id < fresh v -> (forall w, id ∈ on_list v w -> fits x id w t) ->
  (t.1 <> CLOSED -> t.1 <> LISTEN -> x <> Some id -> exists w, id ∈ on_list v w) ->
  (t.2 = true -> x = Some id) -> list_inv x (with_tag id t v).
Proof.
  intros [A B C D E] Hid Hf Hl Hb. split.
  - intros w. rewrite on_with_tag. apply A.
  - intros w i. rewrite on_with_tag. intros Hi. cbn [tags_of with_tag].
    destruct (decide (i = id)) as [->|Hne].
    + exists t. split; [apply lookup_insert_eq|auto].
    + rewrite lookup_insert_ne by congruence. auto.
  - intros i u. cbn [tags_of with_tag fresh]. destruct (decide (i = id)) as [->|Hne]; [auto|].
    rewrite lookup_insert_ne by congruence. apply C.
  - intros i u. cbn [tags_of with_tag]. setoid_rewrite on_with_tag.
    destruct (decide (i = id)) as [->|Hne]; [rewrite lookup_insert_eq; intros [= <-]; exact Hl|].
    rewrite lookup_insert_ne by congruence. apply D.
  - intros i u. cbn [tags_of with_tag]. destruct (decide (i = id)) as [->|Hne];
      [rewrite lookup_insert_eq; intros [= <-]; exact Hb|].
    rewrite lookup_insert_ne by congruence. apply E.
Qed.

Lemma inv_with_list x v w l :
  list_inv x v -> NoDup l ->
  (forall id, id ∈ l -> exists t, tags_of v !! id = Some t /\ fits x id w t) ->
  (forall id, id ∈ on_list v w -> id ∈ l \/ x = Some id) -> list_inv x (with_list w l v).
Proof.
  intros [A B C D E] Hn Hf Hk. split.
  - intros w'. rewrite on_with_list. destruct (decide (w' = w)); auto.
  - intros w' i. rewrite on_with_list, tags_with_list. destruct (decide (w' = w)) as [->|]; auto.
  - intros i t. rewrite tags_with_list, fresh_with_list. apply C.
  - intros i t. rewrite tags_with_list. intros Et H1 H2 H3. destruct (D i t Et H1 H2 H3) as (w0 & Hw).
    exists w0. rewrite on_with_list. destruct (decide (w0 = w)) as [->|]; [|exact Hw].
    destruct (Hk i Hw); [assumption|contradiction].
  - intros i t. rewrite tags_with_list. apply E.
Qed.

Lemma inv_without x id v :
  list_inv x v -> (forall w, id ∉ on_list v w) -> list_inv x (without id v).
Proof.
  intros [A B C D E] Hn. split.
  - intros w. rewrite on_without. apply A.
  - intros w i. rewrite on_without. intros Hi. destruct (B w i Hi) as (t & Et & F). exists t.
    split; [|exact F]. cbn [tags_of without]. rewrite lookup_delete_ne; [exact Et|].
    intros <-. exact (Hn w Hi).
  - intros i t. cbn [tags_of without fresh]. intros Et. apply lookup_delete_Some in Et as [_ Et]. eauto.
  - intros i t. cbn [tags_of without]. setoid_rewrite on_without. intros Et.
    apply lookup_delete_Some in Et as [_ Et]. eauto.
  - intros i t. cbn [tags_of without]. intros Et. apply lookup_delete_Some in Et as [_ Et]. eauto.
Qed.

(** A block that is freed is no longer in between. *)
Lemma inv_gone id v : list_inv (Some id) v -> tags_of v !! id = None -> list_inv None v.
Proof. intros Hv E. apply (inv_settled id); [exact Hv|]. congruence. Qed.

(** *** Removing a block from its list and freeing it *)

Lemma elem_unlink id l i : NoDup l -> i ∈ unlink id l <-> i ∈ l /\ i <> id.
Proof.
  induction 1 as [|y l Hy Hl IH]; cbn [unlink]; [set_solver|].
  destruct (Z.eqb_spec y id) as [->|Hne]; [set_solver|]. rewrite !elem_of_cons, IH. set_solver.
Qed.

Lemma unlink_absent id l : id ∉ l -> unlink id l = l.
Proof.
  induction l as [|y l IH]; cbn [unlink]; [reflexivity|]. intros Hn.
  destruct (Z.eqb_spec y id) as [->|Hne]; [set_solver|]. f_equal. apply IH. set_solver.
Qed.

Lemma cut_absent id l : id ∉ l -> cut_after id l = l.
Proof.
  induction l as [|y l IH]; cbn [cut_after]; [reflexivity|]. intros Hn.
  destruct (Z.eqb_spec y id) as [->|Hne]; [set_solver|]. f_equal. apply IH. set_solver.
Qed.

Lemma nodup_unlink id l : NoDup l -> NoDup (unlink id l).
Proof.
  intros Hl. induction Hl as [|y l Hy Hl IH]; cbn [unlink]; [constructor|].
  destruct (Z.eqb_spec y id); [exact Hl|]. constructor; [|exact IH].
  rewrite elem_unlink by exact Hl. tauto.
Qed.

Definition unlisted (id : Z) (v : view) : view :=
  View (tags_of v) (unlink id (actives v)) (unlink id (waiting v)) (unlink id (listening v)) (fresh v).

Lemma on_unlisted id v w : on_list (unlisted id v) w = unlink id (on_list v w).
Proof. destruct w; reflexivity. Qed.

Lemma inv_unlisted x id v : list_inv x v -> x = Some id \/ x = None -> list_inv (Some id) (unlisted id v).
Proof.
  intros Hv Hx. assert (Hv' : list_inv (Some id) v) by (destruct Hx as [->| ->]; [|apply inv_weaken]; exact Hv).
  destruct Hv' as [A B C D E]. split.
  - intros w. rewrite on_unlisted. apply nodup_unlink, A.
  - intros w i. rewrite on_unlisted, elem_unlink by apply A. intros [Hi _]. exact (B w i Hi).
  - exact C.
  - intros i t Et H1 H2 H3. destruct (D i t Et H1 H2 H3) as (w & Hw). exists w.
    rewrite on_unlisted, elem_unlink by apply A. split; [exact Hw|congruence].
  - exact E.
Qed.

Definition dropped (id : Z) (v : view) : view := without id (unlisted id v).

Lemma on_dropped id v w : on_list (dropped id v) w = unlink id (on_list v w).
Proof. unfold dropped. rewrite on_without. apply on_unlisted. Qed.

Lemma tags_dropped id v i : tags_of (dropped id v) !! i = if decide (i = id) then None else tags_of v !! i.
Proof.
  unfold dropped. cbn [tags_of without unlisted]. destruct (decide (i = id)) as [->|Hne].
  - apply lookup_delete_eq.
  - apply lookup_delete_ne. congruence.
Qed.

Lemma inv_dropped x id v : list_inv x v -> list_inv x (dropped id v).
Proof.
  intros [A B C D E]. split.
  - intros w. rewrite on_dropped. apply nodup_unlink, A.
  - intros w i. rewrite on_dropped, elem_unlink, tags_dropped by apply A. intros [Hi Hne].
    rewrite decide_False by exact Hne. exact (B w i Hi).
  - intros i t. rewrite tags_dropped. destruct (decide (i = id)); [discriminate|]. apply C.
  - intros i t. rewrite tags_dropped. destruct (decide (i = id)) as [|Hne]; [discriminate|].
    intros Et H1 H2 H3. destruct (D i t Et H1 H2 H3) as (w & Hw). exists w.
    rewrite on_dropped, elem_unlink by apply A. auto.
  - intros i t. rewrite tags_dropped. destruct (decide (i = id)); [discriminate|]. apply E.
Qed.

Lemma inv_dropped_none id v : list_inv (Some id) v -> list_inv None (dropped id v).
Proof.
  intros Hv. apply (inv_gone id); [apply inv_dropped; exact Hv|].
  rewrite tags_dropped, decide_True; reflexivity.
Qed.

Lemma later_dropped x id v : list_inv x v -> later v (dropped id v).
Proof.
  intros Hv. split; [cbn; lia| |].
  - intros i _ E. rewrite tags_dropped. destruct (decide (i = id)); auto.
  - intros i (Hi & t & Et & Hp). rewrite tags_dropped. destruct (decide (i = id)) as [|Hne]; [left; reflexivity|].
    right. assert (Hl : forall w, i ∈ on_list (dropped id v) w <-> i ∈ on_list v w)
      by (intros w; rewrite on_dropped, elem_unlink by apply Hv; tauto).
    split; [|exact Hl]. split; [exact Hi|]. exists t. rewrite tags_dropped, decide_False by exact Hne.
    split; [exact Et|]. destruct Hp as [Hp|(w & Hw)]; [left; exact Hp|right; exists w; apply Hl, Hw].
Qed.

(** ** Programs *)

Lemma mbind_inv {A B} (m : M A) (f : A -> M B) n b n' :
  (m ≫= f) n = Ret (b, n') -> exists a n1, m n = Ret (a, n1) /\ f a n1 = Ret (b, n').
Proof.
  unfold mbind, M_bind. destruct (m n) as [[a n1]| |]; [|discriminate..]. intros E.
  exists a, n1. split; [reflexivity|exact E].
Qed.

Ltac mstep H := let a := fresh "a" in let n := fresh "n" in let E := fresh "E" in
  apply mbind_inv in H as (a & n & E & H).

(** Programs that change nothing the invariant looks at. *)
Definition calm {A} (m : M A) : Prop :=
  forall n a n', m n = Ret (a, n') -> view_of n' = view_of n.

(** Programs that keep the invariant, and what they leave alone, also while the
    block [x] is being removed. *)
Definition keeps {A} (x : option Z) (m : M A) : Prop :=
  forall n a n', list_inv x (view_of n) -> m n = Ret (a, n') ->
    list_inv x (view_of n') /\ later (view_of n) (view_of n').

Lemma calm_keeps {A} x (m : M A) : calm m -> keeps x m.
Proof. intros Hm n a n' Hi E. rewrite (Hm n a n' E). split; [exact Hi|apply later_refl]. Qed.

Lemma calm_ret {A} (a : A) : calm (mret a).
Proof. intros n b n' E. injection E as _ <-. reflexivity. Qed.

Lemma calm_bind {A B} (m : M A) (f : A -> M B) : calm m -> (forall a, calm (f a)) -> calm (m ≫= f).
Proof. intros Hm Hf n b n' E. mstep E. rewrite (Hf _ _ _ _ E). eapply Hm; eauto. Qed.

Lemma keeps_bind {A B} x (m : M A) (f : A -> M B) :
  keeps x m -> (forall a, keeps x (f a)) -> keeps x (m ≫= f).
Proof.
  intros Hm Hf n b n' Hi E. mstep E. destruct (Hm _ _ _ Hi E0) as [H1 L1].
  destruct (Hf _ _ _ _ H1 E) as [H2 L2]. split; [exact H2|]. eapply later_trans; eauto.
Qed.

Lemma calm_get : calm get.
Proof. intros n a n' E. injection E as _ <-. reflexivity. Qed.

Lemma calm_undef {A} : calm (@undef A).
Proof. intros n a n' E. discriminate E. Qed.

Lemma calm_lift {A} (o : outcome A) : calm (lift o).
Proof.
  intros n a n' E. unfold lift in E. apply bind_inv in E as (y & _ & E). injection E as _ <-. reflexivity.
Qed.

Lemma calm_pcb id : calm (pcb id).
Proof. intros n a n'. unfold pcb. destruct (pcbs n !! id); [|discriminate]. intros E. injection E as _ <-. reflexivity. Qed.

Lemma calm_modify f : (forall n, view_of (f n) = view_of n) -> calm (modify f).
Proof. intros Hf n a n' E. injection E as _ <-. apply Hf. Qed.

Lemma tags_insert n id p q : pcbs n !! id = Some p -> tag q = tag p ->
  tag <$> <[id := q]> (pcbs n) = tag <$> pcbs n.
Proof.
  intros E Ht. rewrite fmap_insert, Ht. apply insert_id. rewrite lookup_fmap, E. reflexivity.
Qed.

Lemma calm_update id f : (forall p, tag (f p) = tag p) -> calm (update id f).
Proof.
  intros Hf n a n'. unfold update. destruct (pcbs n !! id) as [p|] eqn:E; [|discriminate].
  intros H1. injection H1 as _ <-. unfold view_of. cbn [set_pcbs pcbs tcp_active_pcbs tcp_tw_pcbs
    tcp_listen_pcbs next_pcb]. rewrite (tags_insert n id p) by auto. reflexivity.
Qed.

Lemma calm_on_pcb {A} id (f : env -> tcp_pcb -> outcome (A * tcp_pcb * env)) :
  keeps_tag f -> calm (on_pcb id f).
Proof.
  intros Hf n a n'. unfold on_pcb. destruct (pcbs n !! id) as [p|] eqn:E; [|discriminate].
  destruct (f (nenv n) p) as [[[b q] e]| |] eqn:Ef; [|discriminate..]. intros H1. injection H1 as _ <-.
  unfold view_of. cbn [set_nenv set_pcbs pcbs tcp_active_pcbs tcp_tw_pcbs tcp_listen_pcbs next_pcb].
  rewrite (tags_insert n id p) by eauto. reflexivity.
Qed.

Lemma calm_allocate : calm allocate.
Proof.
  intros n a n'. unfold allocate. destruct (alloc (nenv n)) as [ok e]. intros E. injection E as _ <-. reflexivity.
Qed.

Lemma search_returns test l : forall n o n', search test l n = Ret (o, n') ->
  n' = n /\ forall id, o = Some id -> id ∈ l /\ exists p, pcbs n !! id = Some p /\ test p = true.
Proof.
  induction l as [|y l IH]; intros n o n'; cbn [search].
  - intros E. injection E as <- <-. split; [reflexivity|discriminate].
  - intros E. mstep E. unfold pcb in E0. destruct (pcbs n !! y) as [p|] eqn:Ey; [|discriminate].
    injection E0 as <- <-. destruct (test p) eqn:Et.
    + injection E as <- <-. split; [reflexivity|]. intros id [= <-]. split; [left|eauto].
    + destruct (IH _ _ _ E) as [-> Hs]. split; [reflexivity|]. intros id Ho.
      destruct (Hs id Ho) as [H1 H2]. split; [right; exact H1|exact H2].
Qed.

Lemma calm_search test l : calm (search test l).
Proof. intros n o n' E. apply search_returns in E as [-> _]. reflexivity. Qed.

Lemma calm_next_iss : calm tcp_next_iss.
Proof. intros n a n' E. injection E as _ <-. reflexivity. Qed.

Create HintDb calm.
#[export] Hint Resolve calm_ret calm_bind calm_get calm_undef calm_lift calm_pcb calm_allocate calm_search
  calm_next_iss : calm.
#[export] Hint Extern 2 (calm (match ?x with _ => _ end)) => destruct x : calm.

Lemma calm_oldest t l : forall i o, calm (oldest t l i o).
Proof. induction l as [|y l IH]; intros i o; cbn [oldest]; auto 6 with calm. Qed.

Lemma calm_new_port k : forall p, calm (new_port k p).
Proof. induction k as [|k IH]; intros p; cbn [new_port]; auto 15 with calm. Qed.

Lemma calm_find_inactive : calm find_inactive.
Proof. apply calm_bind; [apply calm_get|]. intros n. apply calm_oldest. Qed.
#[export] Hint Resolve calm_oldest calm_new_port calm_find_inactive : calm.

(** *** The steps that do change it *)

Lemma update_view id f n a n' : update id f n = Ret (a, n') ->
  exists p, pcbs n !! id = Some p /\ view_of n' = with_tag id (tag (f p)) (view_of n).
Proof.
  unfold update. destruct (pcbs n !! id) as [p|]; [|discriminate]. intros E. injection E as _ <-.
  exists p. split; [reflexivity|]. unfold view_of, with_tag. cbn [set_pcbs pcbs tcp_active_pcbs tcp_tw_pcbs
    tcp_listen_pcbs next_pcb tags_of actives waiting listening fresh]. rewrite fmap_insert. reflexivity.
Qed.

Lemma free_view id n a n' : free_pcb id n = Ret (a, n') -> view_of n' = without id (view_of n).
Proof.
  unfold free_pcb. destruct (pcbs n !! id) as [p|]; [|discriminate]. intros E. injection E as _ <-.
  unfold view_of, without. cbn [set_pcbs pcbs tcp_active_pcbs tcp_tw_pcbs
    tcp_listen_pcbs next_pcb tags_of actives waiting listening fresh]. rewrite fmap_delete. reflexivity.
Qed.

Lemma pcb_tag id n p n' : pcb id n = Ret (p, n') -> n' = n /\ tags_of (view_of n) !! id = Some (tag p).
Proof.
  unfold pcb. destruct (pcbs n !! id) as [q|] eqn:E; [|discriminate]. intros H1. injection H1 as <- <-.
  split; [reflexivity|]. cbn [view_of tags_of]. rewrite lookup_fmap, E. reflexivity.
Qed.

Lemma set_list_view w l n : view_of (set_list w l n) = with_list w l (view_of n).
Proof. destruct w; reflexivity. Qed.

Lemma on_view n w : on_list (view_of n) w = pcblist w n.
Proof. destruct w; reflexivity. Qed.

Lemma reg_view w id n a n' : TCP_REG w id n = Ret (a, n') ->
  view_of n' = with_list w (id :: on_list (view_of n) w) (view_of n).
Proof. intros E. injection E as _ <-. rewrite set_list_view, on_view. reflexivity. Qed.

Lemma rmv_view w id n a n' :
  (forall w', id ∈ on_list (view_of n) w' -> w' = w) -> TCP_RMV w id n = Ret (a, n') ->
  view_of n' = unlisted id (view_of n).
Proof.
  intros Hw E. injection E as _ <-.
  assert (Hu : forall w', w' <> w -> unlink id (on_list (view_of n) w') = on_list (view_of n) w')
    by (intros w' Hne; apply unlink_absent; intros Hi; exact (Hne (Hw w' Hi))).
  destruct (decide (id ∈ pcblist w n)) as [Hi|Hi].
  - rewrite set_list_view. rewrite <- on_view. destruct w; cbn in Hu |- *; unfold unlisted; cbn;
      f_equal; symmetry; first [exact (Hu Active ltac:(discriminate)) | exact (Hu TimeWait ltac:(discriminate))
        | exact (Hu Listening ltac:(discriminate))].
  - assert (Hn : forall w', id ∉ pcblist w' n)
      by (intros w' Hi'; rewrite <- on_view in Hi'; apply Hi; rewrite <- (Hw w' Hi'), <- on_view; exact Hi').
    cbn [fold_right pcblist set_list tcp_active_pcbs tcp_tw_pcbs tcp_listen_pcbs pcbs next_pcb].
    unfold view_of, unlisted. cbn [pcbs tcp_active_pcbs tcp_tw_pcbs tcp_listen_pcbs next_pcb actives waiting
      listening tags_of fresh].
    pose proof (Hn Active) as N1. pose proof (Hn TimeWait) as N2. pose proof (Hn Listening) as N3.
    cbn [pcblist] in N1, N2, N3. rewrite !cut_absent, !unlink_absent by assumption. reflexivity.
Qed.

Lemma purge_tag p : tag (tcp_pcb_purge p) = tag p.
Proof. unfold tcp_pcb_purge. destruct (state p) eqn:E; reflexivity. Qed.

Section Programs.
Context `{Network} `{Application}.

Lemma remove_view w id n a n' :
  (forall w', id ∈ on_list (view_of n) w' -> w' = w) -> tcp_pcb_remove w id n = Ret (a, n') ->
  exists b, view_of n' = with_tag id (CLOSED, b) (unlisted id (view_of n)).
Proof.
  intros Hw E. unfold tcp_pcb_remove in E. mstep E. apply rmv_view in E0; [|exact Hw]. rewrite <- E0.
  mstep E. pose proof (calm_update _ _ purge_tag _ _ _ E1) as C1. rewrite <- C1.
  mstep E. apply pcb_tag in E2 as [-> _].
  mstep E. assert (C2 : view_of n2 = view_of n1).
  { revert E2. match goal with |- ?m n1 = _ -> _ => assert (Cm : calm m); [|apply Cm] end.
    destruct (decide _); [|apply calm_ret]. destruct (has _ _); [|apply calm_ret].
    apply calm_bind; [apply calm_update; intros q; tags|]. intros _.
    apply calm_bind; [apply calm_on_pcb, tcp_output_tag|]. intros _. apply calm_ret. }
  rewrite <- C2. apply update_view in E as (q & _ & ->). eexists. reflexivity.
Qed.

Lemma without_with_tag id t v : without id (with_tag id t v) = without id v.
Proof. unfold without, with_tag. cbn. rewrite delete_insert_eq. reflexivity. Qed.

(** Removing a block and freeing it. *)
Lemma remove_free_view w id n a n1 b n' :
  (forall w', id ∈ on_list (view_of n) w' -> w' = w) -> tcp_pcb_remove w id n = Ret (a, n1) ->
  free_pcb id n1 = Ret (b, n') -> view_of n' = dropped id (view_of n).
Proof.
  intros Hw E1 E2. apply remove_view in E1 as (c & E1); [|exact Hw]. apply free_view in E2.
  rewrite E2, E1, without_with_tag. reflexivity.
Qed.

(** The callbacks may do what the functions of the interface do (see
    [calls_keep]), also from inside the removal of a block. *)
Record polite : Prop := {
  polite_accept : forall x f arg id, keeps x (call_accept f arg id);
  polite_connected : forall x f arg id, keeps x (call_connected f arg id);
  polite_sent : forall x f arg id len, keeps x (call_sent f arg id len);
  polite_recv : forall x f arg id d, keeps x (call_recv f arg id d);
  polite_poll : forall x f arg id, keeps x (call_poll f arg id);
  polite_errf : forall x f arg err, keeps x (call_errf f arg err)
}.

Context (Happ : polite).

Lemma keeps_ret {A} x (a : A) : keeps x (mret a).
Proof. apply calm_keeps, calm_ret. Qed.

(** Where a block can be, from its state. *)
Lemma only_list x v id t w : list_inv x v -> tags_of v !! id = Some t ->
  match w with Active => t.1 <> LISTEN /\ t.1 <> TIME_WAIT
             | TimeWait => t.1 = TIME_WAIT | Listening => t.1 = LISTEN end ->
  forall w', id ∈ on_list v w' -> w' = w.
Proof.
  intros Hv Et Hw w' Hi. destruct (lists_fit x v Hv w' id Hi) as (u & Eu & F).
  rewrite Et in Eu. injection Eu as <-. destruct w, w'; cbn in F; first [reflexivity|intuition congruence].
Qed.

Lemma keeps_remove_free x w id n a n1 b n' :
  list_inv x (view_of n) -> (forall w', id ∈ on_list (view_of n) w' -> w' = w) ->
  tcp_pcb_remove w id n = Ret (a, n1) -> free_pcb id n1 = Ret (b, n') ->
  list_inv x (view_of n') /\ later (view_of n) (view_of n').
Proof.
  intros Hi Hw E1 E2. rewrite (remove_free_view w id n a n1 b n' Hw E1 E2).
  split; [apply inv_dropped; exact Hi|eapply later_dropped; exact Hi].
Qed.

Lemma keeps_abort_with x rst id :
  (forall a b c d e f, keeps x (rst a b c d e f)) -> keeps x (abort_with rst id).
Proof.
  intros Hr n a n' Hi E. unfold abort_with in E. mstep E. rename a0 into p. apply pcb_tag in E0 as [-> Et].
  assert (Hgo : forall w, match w with Active => state p <> LISTEN /\ state p <> TIME_WAIT
             | TimeWait => state p = TIME_WAIT | Listening => state p = LISTEN end ->
      forall rest, (forall b, keeps x (rest b)) -> (tcp_pcb_remove w id;; b ← free_pcb id; rest b) n = Ret (a, n') ->
      list_inv x (view_of n') /\ later (view_of n) (view_of n')).
  { intros w Hw rest Hrest E2. mstep E2. mstep E2.
    destruct (keeps_remove_free x w id n a0 n0 a1 n1 Hi) as [H2 L2]; auto.
    { apply (only_list x _ id (tag p)); auto. }
    destruct (Hrest a1 _ _ _ H2 E2) as [H3 L3]. split; [exact H3|]. eapply later_trans; eauto. }
  assert (Hact : state p <> LISTEN -> state p <> TIME_WAIT ->
    (tcp_pcb_remove Active id;; free_pcb id;;
      (match errf p with Some f => call_errf f (callback_arg p) ERR_ABRT | None => mret tt end);;
      rst (snd_nxt p) (rcv_nxt p) (local_ip p) (remote_ip p) (local_port p) (remote_port p)) n = Ret (a, n') ->
    list_inv x (view_of n') /\ later (view_of n) (view_of n')).
  { intros H1 H2. apply (Hgo Active (conj H1 H2)
      (fun _ => (match errf p with Some f => call_errf f (callback_arg p) ERR_ABRT | None => mret tt end);;
        rst (snd_nxt p) (rcv_nxt p) (local_ip p) (remote_ip p) (local_port p) (remote_port p))).
    intros _. apply keeps_bind; [|intros _; apply Hr].
    destruct (errf p); [apply Happ|apply keeps_ret]. }
  destruct (state p) eqn:Es; try (apply Hact; [discriminate|discriminate|exact E]).
  - mstep E. eapply (keeps_remove_free x Listening id n a0 n0); eauto.
    apply (only_list x _ id (tag p)); auto.
  - mstep E. eapply (keeps_remove_free x TimeWait id n a0 n0); eauto.
    apply (only_list x _ id (tag p)); auto.
Qed.

Lemma keeps_mem_reclaim_with x ab : (forall id, keeps x (ab id)) -> keeps x (mem_reclaim_with ab).
Proof.
  intros Ha. unfold mem_reclaim_with. apply keeps_bind; [apply calm_keeps; auto with calm|].
  intros [id|]; [apply Ha|apply keeps_ret].
Qed.

Lemma keeps_rst_fuel x k : forall a b c d e f, keeps x (tcp_rst_fuel k a b c d e f).
Proof.
  induction k as [|k IH]; intros; cbn [tcp_rst_fuel];
    (apply keeps_bind; [apply calm_keeps, calm_allocate|]; intros ok; apply keeps_bind;
      [destruct ok; [apply keeps_ret|]|intros [] ; apply calm_keeps; [apply calm_modify; reflexivity|apply calm_ret]]).
  - apply calm_keeps, calm_undef.
  - apply keeps_bind; [apply keeps_mem_reclaim_with; intros id; apply keeps_abort_with; exact IH|].
    intros _. apply calm_keeps, calm_allocate.
Qed.

Lemma keeps_rst x a b c d e f : keeps x (tcp_rst a b c d e f).
Proof. apply keeps_bind; [apply calm_keeps, calm_get|]. intros n. apply keeps_rst_fuel. Qed.

Lemma keeps_abort x id : keeps x (tcp_abort id).
Proof. apply keeps_abort_with. intros. apply keeps_rst. Qed.

Lemma calm_reclaim_ooseq : calm reclaim_ooseq.
Proof.
  apply calm_bind; [apply calm_get|]. intros n. apply calm_bind; [apply calm_search|].
  intros [id|]; [|apply calm_ret]. apply calm_bind; [apply calm_update; reflexivity|].
  intros _. apply calm_ret.
Qed.

Lemma get_inv {A} (f : net -> M A) n a n' : (get ≫= f) n = Ret (a, n') -> f n n = Ret (a, n').
Proof. auto. Qed.

Lemma modify_inv f n (a : unit) n' : modify f n = Ret (a, n') -> n' = f n.
Proof. intros E. injection E as _ <-. reflexivity. Qed.

(** Without its first block the TIME-WAIT list is as if that block were removed. *)
Lemma tw_head_view x id r n : tcp_tw_pcbs n = id :: r -> list_inv x (view_of n) ->
  without id (with_list TimeWait r (view_of n)) = dropped id (view_of n).
Proof.
  intros El Hi. assert (Hw : forall w, id ∈ on_list (view_of n) w -> w = TimeWait).
  { intros w Hw. eapply one_list; [exact Hi|exact Hw|]. cbn. rewrite El. left. }
  unfold dropped, unlisted, without, view_of in *. cbn in *. rewrite El. cbn [unlink].
  rewrite Z.eqb_refl, !unlink_absent; [reflexivity| |];
    intros Hn; [discriminate (Hw Listening Hn)|discriminate (Hw Active Hn)].
Qed.

Lemma keeps_memp_reclaim x t : keeps x (tcp_memp_reclaim t).
Proof.
  destruct t; [apply calm_keeps, calm_reclaim_ooseq..|]. cbn [tcp_memp_reclaim].
  intros n a n' Hi E. apply get_inv in E. destruct (tcp_tw_pcbs n) as [|id r] eqn:El.
  - revert Hi E. apply (keeps_bind x find_inactive); [apply calm_keeps; auto with calm|].
    intros [id|]; [|apply keeps_ret]. apply keeps_bind; [apply keeps_abort|]. intros _. apply keeps_ret.
  - mstep E. mstep E. injection E as _ <-. apply free_view in E1. apply modify_inv in E0.
    rewrite E0, set_list_view, (tw_head_view x id r n El Hi) in E1. rewrite E1.
    split; [apply inv_dropped; exact Hi|eapply later_dropped; exact Hi].
Qed.

(** A new block. *)
Definition added (t : tcp_state * bool) (v : view) : view :=
  View (<[fresh v := t]> (tags_of v)) (actives v) (waiting v) (listening v) (fresh v + 1).

Lemma on_added t v w : on_list (added t v) w = on_list v w.
Proof. destruct w; reflexivity. Qed.

Lemma fresh_none x v : list_inv x v -> tags_of v !! fresh v = None.
Proof.
  intros Hv. destruct (tags_of v !! fresh v) as [t|] eqn:E; [|reflexivity].
  pose proof (old_ids x v Hv _ _ E). lia.
Qed.

Lemma fresh_unlisted x v w : list_inv x v -> fresh v ∉ on_list v w.
Proof.
  intros Hv Hi. destruct (lists_fit x v Hv w _ Hi) as (t & Et & _).
  rewrite (fresh_none x v Hv) in Et. discriminate.
Qed.

Lemma keeps_added x v s : list_inv x v -> s = CLOSED \/ s = LISTEN ->
  list_inv x (added (s, false) v) /\ later v (added (s, false) v).
Proof.
  intros Hv Hs. pose proof (fresh_none x v Hv) as Hf. split.
  - destruct Hv as [A B C D E]. split.
    + intros w. rewrite on_added. apply A.
    + intros w i. rewrite on_added. intros Hi. destruct (B w i Hi) as (t & Et & F). exists t.
      split; [|exact F]. cbn [tags_of added]. rewrite lookup_insert_ne; [exact Et|congruence].
    + intros i t. cbn [tags_of added fresh]. destruct (decide (i = fresh v)) as [->|Hne]; [lia|].
      rewrite lookup_insert_ne by congruence. intros Et. specialize (C i t Et). lia.
    + intros i t. cbn [tags_of added]. setoid_rewrite on_added.
      destruct (decide (i = fresh v)) as [->|Hne];
        [rewrite lookup_insert_eq; intros [= <-]; cbn; destruct Hs; intros; congruence|].
      rewrite lookup_insert_ne by congruence. apply D.
    + intros i t. cbn [tags_of added]. destruct (decide (i = fresh v)) as [->|Hne];
        [rewrite lookup_insert_eq; intros [= <-]; discriminate|].
      rewrite lookup_insert_ne by congruence. apply E.
  - split; [cbn; lia| |].
    + intros i Hi E. cbn [tags_of added]. rewrite lookup_insert_ne by lia. exact E.
    + intros i (Hi & t & Et & Hp). right. assert (Hne : fresh v <> i) by lia. split.
      * split; [cbn [added fresh]; lia|]. exists t. cbn [tags_of added]. rewrite lookup_insert_ne by exact Hne.
        split; [exact Et|]. setoid_rewrite on_added. exact Hp.
      * intros w. rewrite on_added. reflexivity.
Qed.

Lemma add_view p n id n' : add_pcb p n = Ret (id, n') -> id = fresh (view_of n) /\ view_of n' = added (tag p) (view_of n).
Proof.
  unfold add_pcb. intros E. injection E as <- <-. split; [reflexivity|].
  unfold view_of, added. cbn [set_next set_pcbs pcbs tcp_active_pcbs tcp_tw_pcbs tcp_listen_pcbs next_pcb
    tags_of actives waiting listening fresh]. rewrite fmap_insert. reflexivity.
Qed.

Lemma tcp_new_view x n o n' : list_inv x (view_of n) -> tcp_new n = Ret (o, n') ->
  exists v, list_inv x v /\ later (view_of n) v /\
    match o with
    | Some id => id = fresh v /\ view_of n' = added (CLOSED, false) v
    | None => view_of n' = v
    end.
Proof.
  intros Hi E. unfold tcp_new in E. mstep E. apply calm_allocate in E0. mstep E.
  assert (K : keeps x (if a then mret true else tcp_memp_reclaim R_TCP_PCB;; allocate)).
  { destruct a; [apply keeps_ret|]. apply keeps_bind; [apply keeps_memp_reclaim|].
    intros _. apply calm_keeps, calm_allocate. }
  rewrite <- E0 in Hi. destruct (K _ _ _ Hi E1) as [H1 L1]. rewrite E0 in L1.
  destruct a0.
  - mstep E. apply calm_next_iss in E2. mstep E. injection E3 as <- <-. mstep E. injection E as <- <-.
    apply add_view in E3 as [-> E3]. rewrite E2 in *. eauto.
  - injection E as <- <-. eauto.
Qed.

Lemma keeps_new x : keeps x tcp_new.
Proof.
  intros n o n' Hi E. destruct (tcp_new_view x n o n' Hi E) as (v & Hv & Lv & Ho). destruct o as [id|].
  - destruct Ho as [_ ->]. destruct (keeps_added x v CLOSED Hv (or_introl eq_refl)) as [H1 L1].
    split; [exact H1|]. eapply later_trans; eauto.
  - rewrite Ho. split; assumption.
Qed.

(** States of a connection. *)
Definition live (s : tcp_state) : Prop := s <> CLOSED /\ s <> LISTEN /\ s <> TIME_WAIT.

Lemma keeps_restate x v id t t' : list_inv x v -> tags_of v !! id = Some t -> live t.1 -> live t'.1 ->
  t'.2 = t.2 -> list_inv x (with_tag id t' v) /\ later v (with_tag id t' v).
Proof.
  intros Hv Et (L1 & L2 & L3) (M1 & M2 & M3) E2.
  assert (Hw : forall w, id ∈ on_list v w -> w = Active) by (apply (only_list x v id t); auto).
  assert (Hid : id < fresh v) by (eapply old_ids; eauto). split.
  - apply inv_with_tag; auto.
    + intros w Hi. rewrite (Hw w Hi). cbn. tauto.
    + intros _ _ Hx. apply (all_listed x v Hv id t Et L1 L2 Hx).
    + rewrite E2. apply (no_closed x v Hv id t Et).
  - split; [cbn; lia| |].
    + intros i _ E. cbn [tags_of with_tag]. rewrite lookup_insert_ne; [exact E|congruence].
    + intros i (Hi & u & Eu & Hp). right. setoid_rewrite on_with_tag. split; [|reflexivity].
      split; [exact Hi|]. setoid_rewrite on_with_tag. cbn [tags_of with_tag].
      destruct (decide (i = id)) as [->|Hne].
      * exists t'. split; [apply lookup_insert_eq|left; exact M1].
      * exists u. rewrite lookup_insert_ne by congruence. auto.
Qed.

(** A change of the state of one block by a program. *)
Lemma keeps_set_state x id f n a n' p :
  list_inv x (view_of n) -> pcbs n !! id = Some p -> live (state p) -> live (state (f p)) ->
  (tag (f p)).2 = (tag p).2 -> update id f n = Ret (a, n') ->
  list_inv x (view_of n') /\ later (view_of n) (view_of n').
Proof.
  intros Hi Ep L M E2 E. apply update_view in E as (q & Eq & ->). rewrite Ep in Eq. injection Eq as <-.
  apply (keeps_restate x _ id (tag p)); auto. cbn [view_of tags_of]. rewrite lookup_fmap, Ep. reflexivity.
Qed.

Lemma tags_pcb n id t : tags_of (view_of n) !! id = Some t -> exists p, pcbs n !! id = Some p /\ tag p = t.
Proof.
  cbn [view_of tags_of]. rewrite lookup_fmap. destruct (pcbs n !! id) as [p|]; [|discriminate].
  intros [= <-]. eauto.
Qed.

Lemma send_ctrl_tag f : keeps_tag (fun e p => tcp_send_ctrl e p f).
Proof. apply tcp_enqueue_tag. Qed.

Lemma keeps_close x id : keeps x (tcp_close id).
Proof.
  intros n err n' Hi E. unfold tcp_close in E. mstep E. rename a into p. apply pcb_tag in E0 as [-> Et].
  assert (Hfin : forall s, live (state p) -> live s ->
    (err ← on_pcb id (fun e p => tcp_send_ctrl e p TCP_FIN);
     if decide (err = ERR_OK) then update id (set_state s);; on_pcb id tcp_output
     else mret err) n = Ret (err, n') ->
    list_inv x (view_of n') /\ later (view_of n) (view_of n')).
  { intros s Hl Hs E1. mstep E1. apply (calm_on_pcb _ _ (send_ctrl_tag TCP_FIN)) in E0.
    rewrite <- E0 in *. destruct (decide (a = ERR_OK)).
    - mstep E1. apply (calm_on_pcb _ _ tcp_output_tag) in E1. rewrite E1.
      destruct (tags_pcb n0 id _ Et) as (q & Eq & Tq).
      eapply (keeps_set_state x id (set_state s)); eauto; injection Tq as Ts _; rewrite ?Ts; auto.
    - injection E1 as _ <-. split; [exact Hi|apply later_refl]. }
  assert (Hrm : forall w, match w with Active => state p <> LISTEN /\ state p <> TIME_WAIT
             | TimeWait => state p = TIME_WAIT | Listening => state p = LISTEN end ->
    (tcp_pcb_remove w id;; free_pcb id;; mret ERR_OK) n = Ret (err, n') ->
    list_inv x (view_of n') /\ later (view_of n) (view_of n')).
  { intros w Hw E1. mstep E1. mstep E1. injection E1 as _ <-.
    eapply (keeps_remove_free x w id); eauto. apply (only_list x _ id (tag p)); auto. }
  assert (Hret : (mret ERR_OK : M err_t) n = Ret (err, n') -> list_inv x (view_of n') /\ later (view_of n) (view_of n'))
    by (intros E1; injection E1 as _ <-; split; [exact Hi|apply later_refl]).
  destruct (state p) eqn:Es; auto.
  - apply (Hrm Listening); auto.
  - apply (Hrm Active); [split; discriminate|exact E].
  - apply (Hfin FIN_WAIT_1); auto; repeat split; discriminate.
  - apply (Hfin FIN_WAIT_1); auto; repeat split; discriminate.
  - apply (Hfin LAST_ACK); auto; repeat split; discriminate.
Qed.

(** *** Listening and connecting *)

(** A block that [tcp_new] returned and that was not used since. *)
Definition unused (id : Z) (v : view) : Prop :=
  tags_of v !! id = Some (CLOSED, false) /\ forall w, id ∉ on_list v w.

Lemma later_unused id v v' : unused id v -> fresh v <= fresh v' ->
  (forall i, i <> id -> i < fresh v -> tags_of v' !! i = tags_of v !! i /\
     forall w, i ∈ on_list v' w <-> i ∈ on_list v w) -> later v v'.
Proof.
  intros [Et Hn] Hf Hs. split; [exact Hf| |].
  - intros i Hi E. assert (Hne : i <> id) by congruence. rewrite (proj1 (Hs i Hne Hi)). exact E.
  - intros i (Hi & t & Eu & Hp). assert (Hne : i <> id).
    { intros ->. rewrite Et in Eu. injection Eu as <-. destruct Hp as [Hp|(w & Hw)]; [apply Hp; reflexivity|].
      exact (Hn w Hw). }
    destruct (Hs i Hne Hi) as [E1 E2]. right. split; [|exact E2]. split; [lia|]. exists t.
    rewrite E1. split; [exact Eu|]. destruct Hp as [Hp|(w & Hw)]; [left; exact Hp|right; exists w; apply E2, Hw].
Qed.

Definition placed (w : which) (id : Z) (t : tcp_state * bool) (v : view) : view :=
  with_list w (id :: on_list v w) (with_tag id t v).

Lemma on_placed w id t v w' : on_list (placed w id t v) w' =
  if decide (w' = w) then id :: on_list v w else on_list v w'.
Proof. unfold placed. rewrite on_with_list, on_with_tag. reflexivity. Qed.

Lemma tags_placed w id t v : tags_of (placed w id t v) = <[id := t]> (tags_of v).
Proof. unfold placed. rewrite tags_with_list. reflexivity. Qed.

Lemma inv_placed x w id t v : list_inv x v -> id < fresh v -> (forall w', id ∉ on_list v w') ->
  fits None id w t -> t.2 = false -> list_inv x (placed w id t v).
Proof.
  intros [A B C D E] Hid Hn Hf Hb. split.
  - intros w'. rewrite on_placed. destruct (decide (w' = w)); [constructor|]; auto.
  - intros w' i. rewrite on_placed, tags_placed. intros Hi.
    destruct (decide (i = id)) as [->|Hne].
    + exists t. split; [apply lookup_insert_eq|]. destruct (decide (w' = w)) as [->|]; [|destruct (Hn w' Hi)].
      destruct w; cbn in *; auto. destruct Hf as (F1 & F2 & F3). split; [exact F1|split; [exact F2|]].
      intros Ec. discriminate (F3 Ec).
    + rewrite lookup_insert_ne by congruence. apply B. destruct (decide (w' = w)) as [->|]; [|exact Hi].
      apply elem_of_cons in Hi as [|]; [contradiction|assumption].
  - intros i u. rewrite tags_placed. unfold placed. rewrite fresh_with_list. cbn [fresh with_tag].
    destruct (decide (i = id)) as [->|Hne]; [auto|]. rewrite lookup_insert_ne by congruence. apply C.
  - intros i u. rewrite tags_placed. destruct (decide (i = id)) as [->|Hne].
    + intros _ _ _ _. exists w. rewrite on_placed, decide_True by reflexivity. left.
    + rewrite lookup_insert_ne by congruence. intros Eu H1 H2 H3. destruct (D i u Eu H1 H2 H3) as (w' & Hw).
      exists w'. rewrite on_placed. destruct (decide (w' = w)) as [->|]; [right|]; exact Hw.
  - intros i u. rewrite tags_placed. destruct (decide (i = id)) as [->|Hne].
    + rewrite lookup_insert_eq. intros [= <-]. congruence.
    + rewrite lookup_insert_ne by congruence. apply E.
Qed.

Lemma later_placed w id t v : unused id v -> later v (placed w id t v).
Proof.
  intros Hu. apply (later_unused id); [exact Hu| |].
  - unfold placed. rewrite fresh_with_list. cbn. lia.
  - intros i Hne _. rewrite tags_placed, lookup_insert_ne by congruence. split; [reflexivity|].
    intros w'. rewrite on_placed. destruct (decide (w' = w)) as [->|]; [|reflexivity].
    rewrite elem_of_cons. split; [intros [|]; [contradiction|assumption]|auto].
Qed.

(** A call made on a block that was not used since [tcp_new]. *)
Definition keeps_on {A} (x : option Z) (id : Z) (m : M A) : Prop :=
  forall n a n', unused id (view_of n) -> list_inv x (view_of n) -> m n = Ret (a, n') ->
    list_inv x (view_of n') /\ later (view_of n) (view_of n').

Lemma set_listen_view id n a n' : unused id (view_of n) -> update id (set_state LISTEN) n = Ret (a, n') ->
  view_of n' = with_tag id (LISTEN, false) (view_of n).
Proof.
  intros [Et _] E. apply update_view in E as (p & Ep & ->). apply tags_pcb in Et as (q & Eq & Tq).
  rewrite Ep in Eq. injection Eq as <-. injection Tq as _ Tb. unfold tag. cbn [state flags set_state].
  rewrite Tb. reflexivity.
Qed.

Lemma keeps_listen x id : keeps_on x id (tcp_listen id).
Proof.
  intros n o n' Hu Hi E. unfold tcp_listen in E. mstep E. apply set_listen_view in E0; [|exact Hu].
  mstep E. apply calm_allocate in E1. rewrite E0 in E1.
  set (v := view_of n) in *. set (v1 := with_tag id (LISTEN, false) v) in *.
  assert (Hid : id < fresh v) by (eapply old_ids; [exact Hi|apply Hu]).
  assert (I1 : list_inv x v1).
  { apply inv_with_tag; auto; try discriminate; cbn; try congruence. intros w Hw. destruct (proj2 Hu w Hw). }
  destruct a0.
  - mstep E. apply pcb_tag in E2 as [-> Et]. rewrite E1 in Et. cbn [v1 tags_of with_tag] in Et.
    rewrite lookup_insert_eq in Et. injection Et as Es _.
    mstep E. apply add_view in E2 as [-> E2]. mstep E. apply free_view in E3. mstep E. apply reg_view in E4.
    injection E as _ <-. rewrite E1 in *.
    assert (Et : tag (listen_pcb a0) = (LISTEN, false)) by (unfold tag, listen_pcb; cbn; rewrite <- Es; reflexivity).
    rewrite Et in E2. rewrite E2 in E3. rewrite E3 in E4. rewrite E4.
    assert (F : fresh v1 = fresh v) by reflexivity. rewrite F.
    set (v2 := without id (added (LISTEN, false) v1)).
    assert (T2 : tags_of v2 !! fresh v = Some (LISTEN, false)).
    { cbn [v2 tags_of without added]. rewrite lookup_delete_ne by lia. rewrite F. apply lookup_insert_eq. }
    assert (O2 : forall w, on_list v2 w = on_list v w) by (intros []; reflexivity).
    assert (I2 : list_inv x v2).
    { apply inv_without; [apply keeps_added; auto|]. intros w. rewrite on_added. unfold v1. rewrite on_with_tag.
      apply Hu. }
    assert (Hfr : forall w, fresh v ∉ on_list v2 w) by (intros w; rewrite O2; apply (fresh_unlisted x); exact Hi).
    split.
    + apply inv_with_list; [exact I2| | |].
      * constructor; [apply Hfr|apply I2].
      * intros i Hx. apply elem_of_cons in Hx as [->|Hx]; [exists (LISTEN, false); split; [exact T2|reflexivity]|].
        apply (lists_fit x v2 I2). exact Hx.
      * intros i Hx. left. right. exact Hx.
    + apply (later_unused id); [exact Hu| |].
      * rewrite fresh_with_list. cbn. lia.
      * intros i Hne Hlt. rewrite tags_with_list. split.
        -- cbn [v2 tags_of without added]. rewrite lookup_delete_ne by congruence. rewrite F.
           rewrite lookup_insert_ne by lia. cbn. rewrite lookup_insert_ne by congruence. reflexivity.
        -- intros w. rewrite on_with_list, !O2. destruct (decide (w = Listening)) as [->|]; [|reflexivity].
           rewrite elem_of_cons. split; [intros [|]; [lia|assumption]|auto].
  - injection E as _ <-. rewrite E1. split; [exact I1|]. apply (later_unused id); [exact Hu|cbn; lia|].
    intros i Hne _. cbn [v1 tags_of with_tag]. rewrite lookup_insert_ne by congruence.
    split; [reflexivity|]. intros w. unfold v1. rewrite on_with_tag. reflexivity.
Qed.

(** Registering a block as a new connection. *)
Lemma keeps_placed x id n n' s : list_inv x (view_of n) -> unused id (view_of n) -> live s ->
  view_of n' = placed Active id (s, false) (view_of n) ->
  list_inv x (view_of n') /\ later (view_of n) (view_of n').
Proof.
  intros Hi Hu (L1 & L2 & L3) ->. split; [|apply later_placed; exact Hu].
  apply inv_placed; auto; try apply Hu; [eapply old_ids; [exact Hi|apply Hu]|cbn; repeat split; auto; congruence].
Qed.

Lemma keeps_connect x id ip port f : keeps_on x id (tcp_connect id ip port f).
Proof.
  intros n r n' Hu Hi E. unfold tcp_connect in E. destruct ip as [ip|];
    [|injection E as _ <-; split; [exact Hi|apply later_refl]].
  mstep E. apply calm_update in E0; [|reflexivity]. mstep E. apply pcb_tag in E1 as [-> _].
  mstep E. assert (E2 : view_of n1 = view_of n0).
  { revert E1. match goal with |- ?m n0 = _ -> _ => assert (Cm : calm m); [|apply Cm] end.
    destruct (_ =? 0); [|apply calm_ret]. unfold tcp_new_port.
    apply calm_bind; [|intros lp; apply calm_update; reflexivity].
    apply calm_bind; [apply calm_get|]. intros k. apply calm_bind; [apply calm_new_port|]. intros lp.
    apply calm_bind; [apply calm_modify; reflexivity|]. intros _. apply calm_ret. }
  mstep E. apply calm_next_iss in E3. mstep E. rewrite <- E0, <- E2, <- E3 in Hu.
  apply update_view in E4 as (p & Ep & E4). mstep E. apply reg_view in E5. mstep E.
  apply (calm_on_pcb _ _ (fun e p => tcp_enqueue_tag None 0 TCP_SYN false (Some (mss_option (mss p))) e p)) in E6.
  mstep E. assert (E8 : view_of n6 = view_of n5).
  { revert E7. match goal with |- ?m n5 = _ -> _ => assert (Cm : calm m); [|apply Cm] end.
    destruct (decide _); [|apply calm_ret]. apply calm_bind; [apply calm_on_pcb, tcp_output_tag|].
    intros _. apply calm_ret. }
  injection E as _ <-. rewrite E8, E6, <- E0, <- E2, <- E3.
  apply (keeps_placed x id _ _ SYN_SENT); [rewrite E3, E2, E0; exact Hi|exact Hu|repeat split; discriminate|].
  rewrite E5, E4. unfold placed. rewrite on_with_tag. f_equal. unfold with_tag.
  apply proj1, tags_pcb in Hu as (q & Eq & Tq). rewrite Ep in Eq. injection Eq as <-. injection Tq as _ Tb.
  unfold tag. cbn [state flags set_connected set_state set_ssthresh set_cwnd set_mss set_snd_wnd set_rcv_wnd
    set_snd_lbb set_lastack set_snd_nxt set_rcv_nxt]. rewrite Tb. reflexivity.
Qed.

(** *** Timers *)

Lemma calm_fasttmr : calm tcp_fasttmr.
Proof.
  apply calm_bind; [apply calm_get|]. intros n. generalize (tcp_active_pcbs n). intros l.
  induction l as [|id l IH]; cbn [fast_all]; [apply calm_ret|].
  apply calm_bind; [|intros _; exact IH]. apply calm_on_pcb, quiet_tag. intros e p p' e'. apply fast_pcb_tag.
Qed.

Lemma after_in id l o : after id l = Some o -> id ∈ l /\ (NoDup l -> forall i, o = Some i -> i ∈ l /\ i <> id).
Proof.
  induction l as [|y l IH]; cbn [after]; [discriminate|].
  destruct (Z.eqb_spec y id) as [->|Hne].
  - intros [= <-]. split; [left|]. intros Hd i Hi. apply NoDup_cons in Hd as [Hy _].
    destruct l as [|z l]; [discriminate|]. injection Hi as <-. split; [right; left|].
    intros ->. apply Hy. left.
  - intros E. destruct (IH E) as [H1 H2]. split; [right; exact H1|]. intros Hd i Hi.
    apply NoDup_cons in Hd as [_ Hd]. destruct (H2 Hd i Hi). split; [right|]; assumption.
Qed.

Lemma after_some id l : id ∈ l -> exists o, after id l = Some o.
Proof.
  induction l as [|y l IH]; [set_solver|]. cbn [after]. intros Hi.
  destruct (Z.eqb_spec y id) as [->|Hne]; [eauto|]. apply IH.
  apply elem_of_cons in Hi as [|]; [congruence|assumption].
Qed.

(** The next active block. *)
Lemma next_active x id n : list_inv x (view_of n) -> id ∈ tcp_active_pcbs n ->
  forall i, next_of id n = Some i -> i ∈ tcp_active_pcbs n /\ i <> id.
Proof.
  intros Hv Hi i. unfold next_of. destruct (after_some id _ Hi) as (o & Eo). rewrite Eo.
  assert (Ed : forall X : option (option Z), default None (Some o ∪ X) = o) by (intros [u|]; reflexivity).
  rewrite Ed. intros ->.
  destruct (after_in _ _ _ Eo) as [_ Ha]. apply Ha; [|reflexivity]. apply (lists_nodup x _ Hv Active).
Qed.

(** A block that the walk may look at. *)
Definition walkable (cur : option Z) (v : view) : Prop :=
  forall id, cur = Some id -> tags_of v !! id = None \/ id ∈ actives v.

Lemma walkable_later x cur v v' : list_inv x v -> (forall id, cur = Some id -> id ∈ actives v) ->
  later v v' -> walkable cur v'.
Proof.
  intros Hv Hc Hl id E. specialize (Hc id E).
  destruct (lists_fit x v Hv Active id Hc) as (t & Et & _).
  destruct (later_pinned v v' Hl id) as [|[_ Hs]]; [|left; assumption|right].
  - split; [eapply old_ids; eauto|]. exists t. split; [exact Et|]. right. exists Active. exact Hc.
  - apply (Hs Active). exact Hc.
Qed.

Lemma pinned_live x v id t : list_inv x v -> tags_of v !! id = Some t -> t.1 <> CLOSED -> pinned v id.
Proof. intros Hv Et Hc. split; [eapply old_ids; eauto|]. exists t. auto. Qed.

Lemma poll_inv id n a n' : list_inv None (view_of n) -> id ∈ tcp_active_pcbs n -> poll_pcb id n = Ret (a, n') ->
  list_inv None (view_of n') /\ id ∈ tcp_active_pcbs n'.
Proof.
  intros Hi Hin E. unfold poll_pcb in E. mstep E. apply calm_update in E0; [|reflexivity].
  mstep E. apply pcb_tag in E1 as [-> Et]. rewrite <- E0 in Hi.
  assert (Hin0 : id ∈ tcp_active_pcbs n0) by (change (tcp_active_pcbs n0) with (actives (view_of n0)); rewrite E0; exact Hin).
  assert (Hret : (mret tt : M unit) n0 = Ret (a, n') -> list_inv None (view_of n') /\ id ∈ tcp_active_pcbs n')
    by (intros E1; injection E1 as _ <-; auto).
  destruct (poll a1) as [f|]; [|auto]. destruct (_ <=? _); [|auto].
  mstep E. apply calm_update in E1; [|reflexivity]. rewrite <- E1 in Hi.
  mstep E. destruct (polite_poll Happ _ _ _ _ _ _ _ Hi E2) as [H2 L2].
  mstep E. injection E as _ <-. pose proof (calm_on_pcb _ _ tcp_output_tag _ _ _ E3) as C3. rewrite C3. split; [exact H2|].
  change (tcp_active_pcbs n3) with (actives (view_of n3)). rewrite C3.
  assert (Hc : forall i, Some id = Some i -> i ∈ actives (view_of n1))
    by (intros i [= <-]; rewrite E1; exact Hin0).
  destruct (walkable_later None (Some id) _ _ Hi Hc L2 id eq_refl) as [Hn|Hx]; [|exact Hx].
  exfalso. unfold on_pcb in E3. cbn [view_of tags_of] in Hn. rewrite lookup_fmap in Hn.
  destruct (pcbs n2 !! id); [discriminate Hn|discriminate E3].
Qed.

Lemma unlink_active_view x id n : list_inv x (view_of n) -> id ∈ tcp_active_pcbs n ->
  view_of (set_list Active (unlink id (tcp_active_pcbs n)) n) = unlisted id (view_of n).
Proof.
  intros Hi Hin. rewrite set_list_view.
  assert (Hw : forall w, id ∈ on_list (view_of n) w -> w = Active)
    by (intros w Hw; eapply one_list; [exact Hi|exact Hw|exact Hin]).
  unfold unlisted, view_of in *. cbn in *. rewrite (unlink_absent id (tcp_tw_pcbs n)), (unlink_absent id (tcp_listen_pcbs n));
    [reflexivity| |]; intros Hn; [discriminate (Hw Listening Hn)|discriminate (Hw TimeWait Hn)].
Qed.

Lemma slow_active_inv k : forall cur n a n', list_inv None (view_of n) -> walkable cur (view_of n) ->
  slow_active k cur n = Ret (a, n') -> list_inv None (view_of n').
Proof.
  induction k as [|k IH]; intros [id|] n a n' Hi Hc E; cbn [slow_active] in E;
    try (injection E as _ <-; exact Hi); [discriminate E|].
  mstep E. assert (Hin : id ∈ tcp_active_pcbs n).
  { destruct (Hc id eq_refl) as [Hn|]; [|assumption]. exfalso. unfold on_pcb in E0.
    cbn [view_of tags_of] in Hn. rewrite lookup_fmap in Hn.
    destruct (pcbs n !! id); [discriminate Hn|discriminate E0]. }
  apply (calm_on_pcb _ _ slow_pcb_tag) in E0. rewrite <- E0 in Hi. change (id ∈ actives (view_of n)) in Hin.
  rewrite <- E0 in Hin. destruct a0.
  - mstep E. apply (calm_update _ _ purge_tag) in E1. rewrite <- E1 in Hi, Hin. apply get_inv in E.
    pose proof (next_active None id _ Hi Hin) as Hnx. set (nxt := next_of id n1) in *. clearbody nxt.
    mstep E. apply modify_inv in E2.
    assert (V2 : view_of n2 = unlisted id (view_of n1)) by (rewrite E2; apply (unlink_active_view None); assumption).
    assert (H2 : list_inv (Some id) (view_of n2)) by (rewrite V2; apply (inv_unlisted None); auto).
    destruct (lists_fit None _ Hi Active id Hin) as (t & Et & F1 & F2 & F3).
    assert (Et2 : tags_of (view_of n2) !! id = Some t) by (rewrite V2; exact Et).
    assert (Hlive : t.1 <> CLOSED) by (intros Ec; discriminate (F3 Ec)).
    assert (Hoff : forall w, id ∉ on_list (view_of n2) w)
      by (intros w; rewrite V2, on_unlisted, elem_unlink by apply Hi; tauto).
    assert (Hnx2 : forall i, nxt = Some i -> i ∈ actives (view_of n2)).
    { intros i Ei. destruct (Hnx i Ei) as [G1 G2]. rewrite V2. cbn. apply elem_unlink; [apply (lists_nodup None _ Hi Active)|auto]. }
    mstep E. apply pcb_tag in E3 as [-> _]. mstep E.
    assert (K : list_inv (Some id) (view_of n3) /\ later (view_of n2) (view_of n3)).
    { revert H2 E3. match goal with |- _ -> ?m n2 = _ -> _ => assert (Km : keeps (Some id) m); [|apply Km] end.
      destruct (errf a2); [apply Happ|apply keeps_ret]. }
    destruct K as [H3 L3]. mstep E. pose proof E4 as E4'. apply free_view in E4. revert E. apply IH.
    + rewrite E4. apply (inv_gone id); [|apply lookup_delete_eq]. apply inv_without; [exact H3|].
      destruct (later_pinned _ _ L3 id (pinned_live _ _ _ _ H2 Et2 Hlive)) as [Hn|[_ Hs]].
      * exfalso. unfold free_pcb in E4'. cbn [view_of tags_of] in Hn. rewrite lookup_fmap in Hn.
        destruct (pcbs n3 !! id); [discriminate Hn|discriminate E4'].
      * intros w Hw. exact (Hoff w (proj1 (Hs w) Hw)).
    + pose proof (walkable_later _ nxt _ _ H2 Hnx2 L3) as Hw3. rewrite E4. intros i Ei.
      destruct (Hw3 i Ei) as [G|G]; [left|right; exact G]. cbn [tags_of without]. apply lookup_delete_None. auto.
  - mstep E. destruct (poll_inv _ _ _ _ Hi Hin E1) as [H1 G1]. apply get_inv in E. revert E. apply IH; [exact H1|].
    intros i Ei. right. apply (next_active None id _ H1 G1 i Ei).
Qed.

Lemma slow_tw_inv l : forall n a n', list_inv None (view_of n) -> NoDup l -> (forall id, id ∈ l -> id ∈ tcp_tw_pcbs n) ->
  slow_tw l n = Ret (a, n') -> list_inv None (view_of n').
Proof.
  induction l as [|id l IH]; intros n a n' Hi Hd Hl E; cbn [slow_tw] in E; [injection E as _ <-; exact Hi|].
  apply NoDup_cons in Hd as [Hid Hd]. mstep E. apply pcb_tag in E0 as [-> _]. apply get_inv in E. mstep E.
  revert E. destruct (_ <? _).
  - mstep E0. apply (calm_update _ _ purge_tag) in E. mstep E0. apply modify_inv in E1. apply free_view in E0.
    assert (V0 : view_of n0 = dropped id (view_of n)).
    { rewrite E0, E1, set_list_view. change (tcp_tw_pcbs n1) with (waiting (view_of n1)). rewrite E.
      assert (Hin : id ∈ on_list (view_of n) TimeWait) by (apply Hl; left).
      assert (Hw : forall w, id ∈ on_list (view_of n) w -> w = TimeWait)
        by (intros w Hw; eapply one_list; [exact Hi|exact Hw|exact Hin]).
      unfold dropped, unlisted, without. cbn. rewrite (unlink_absent id (tcp_active_pcbs n)), (unlink_absent id (tcp_listen_pcbs n));
        [reflexivity| |]; intros Hn; [discriminate (Hw Listening Hn)|discriminate (Hw Active Hn)]. }
    apply IH; [rewrite V0; apply inv_dropped; exact Hi|exact Hd|].
    intros i Hx. change (i ∈ waiting (view_of n0)). rewrite V0. cbn.
    apply elem_unlink; [apply (lists_nodup None _ Hi TimeWait)|]. split; [apply Hl; right; exact Hx|].
    intros ->. contradiction.
  - injection E0 as _ <-. apply IH; auto. intros i Hx. apply Hl. right. exact Hx.
Qed.

Lemma slowtmr_inv n a n' : list_inv None (view_of n) -> tcp_slowtmr n = Ret (a, n') -> list_inv None (view_of n').
Proof.
  intros Hi E. unfold tcp_slowtmr in E. mstep E. apply (calm_modify tick ltac:(reflexivity)) in E0. rewrite <- E0 in Hi.
  apply get_inv in E. mstep E. apply slow_active_inv in E1; [|exact Hi|].
  - apply get_inv in E. revert E. apply slow_tw_inv; auto. apply (lists_nodup None _ E1 TimeWait).
  - intros i Ei. right. cbn. destruct (tcp_active_pcbs n0) as [|y l]; [discriminate|]. injection Ei as <-. left.
Qed.

Lemma tmr_inv n a n' : list_inv None (view_of n) -> tcp_tmr n = Ret (a, n') -> list_inv None (view_of n').
Proof.
  intros Hi E. unfold tcp_tmr in E. mstep E. apply calm_modify in E0; [|intros m; destruct (_ =? _); reflexivity].
  rewrite <- E0 in Hi. apply get_inv in E. mstep E.
  assert (C : view_of n1 = view_of n0) by (revert E1; destruct (truthy _); [apply calm_fasttmr|apply calm_ret]).
  rewrite <- C in Hi. apply get_inv in E. destruct (_ || _); [eapply slowtmr_inv; eauto|].
  injection E as _ <-. exact Hi.
Qed.

(** *** The state machine *)

Lemma syn_pcb_tag h s d l p : tag (syn_pcb h s d l p) = (SYN_RCVD, (tag p).2).
Proof. reflexivity. Qed.

Lemma keeps_process_listen id h g o s d : keeps None (process_listen id h g o s d).
Proof.
  unfold process_listen. destruct (has (h_flags h) TCP_ACK).
  - apply keeps_bind; [apply calm_keeps, calm_lift|]. intros dest.
    apply keeps_bind; [apply calm_keeps, calm_lift|]. intros src.
    apply keeps_bind; [apply keeps_rst|]. intros _. apply keeps_ret.
  - destruct (has (h_flags h) TCP_SYN); [|apply keeps_ret].
    intros n r n' Hi E. mstep E. destruct (tcp_new_view None _ _ _ Hi E0) as (v & Hv & Lv & Ho).
    destruct a as [nid|]; [|injection E as _ <-; rewrite Ho; auto].
    destruct Ho as [-> V0]. destruct (keeps_added None v CLOSED Hv (or_introl eq_refl)) as [H1 L1].
    rewrite <- V0 in H1, L1.
    assert (Hu : unused (fresh v) (view_of n0)).
    { rewrite V0. split; [apply lookup_insert_eq|]. intros w. rewrite on_added. apply (fresh_unlisted None _ _ Hv). }
    mstep E. apply calm_lift in E1. mstep E. apply calm_lift in E2. mstep E. apply pcb_tag in E3 as [-> _].
    rewrite <- E1, <- E2 in Hu, H1, L1. mstep E. apply update_view in E3 as (p & Ep & E3).
    mstep E. apply reg_view in E4. mstep E. apply (calm_on_pcb _ _ (parseopt_tag h o)) in E5.
    mstep E. apply (calm_on_pcb _ _ (fun e p => tcp_enqueue_tag None 0 (Z.lor TCP_SYN TCP_ACK) false (Some (mss_option (mss p))) e p)) in E6.
    apply (calm_on_pcb _ _ tcp_output_tag) in E. rewrite E, E6, E5.
    destruct (keeps_placed None (fresh v) n2 n4 SYN_RCVD H1 Hu) as [H4 L4]; [repeat split; discriminate| |].
    + rewrite E4, E3. unfold placed. rewrite on_with_tag. f_equal. unfold with_tag.
      apply proj1, tags_pcb in Hu as (q & Eq & Tq). rewrite Ep in Eq. injection Eq as <-.
      rewrite syn_pcb_tag, Tq. reflexivity.
    + split; [exact H4|]. eapply later_trans; [exact Lv|]. eapply later_trans; eauto.
Qed.

Lemma set_live_state n id p s x : tags_of (view_of n) !! id = Some (tag p) -> live (state p) -> live s ->
  list_inv x (view_of n) -> forall f a n', (forall q, tag (f q) = (s, (tag q).2)) -> update id f n = Ret (a, n') ->
  list_inv x (view_of n') /\ later (view_of n) (view_of n').
Proof.
  intros Et L M Hi f a n' Hf E. apply tags_pcb in Et as (q & Eq & Tq).
  assert (Es : state (f q) = s) by (specialize (Hf q); injection Hf; auto).
  injection Tq as Ts Tb. eapply (keeps_set_state x id f n a n' q); eauto.
  - rewrite Ts. exact L.
  - rewrite Es. exact M.
  - rewrite Hf. reflexivity.
Qed.

(** Several programs one after the other. *)
Lemma chain_later {x : option Z} {v0 : view} v1 v2 : list_inv x v1 /\ later v0 v1 ->
  list_inv x v2 /\ later v1 v2 -> list_inv x v2 /\ later v0 v2.
Proof. intros [_ L1] [H2 L2]. split; [exact H2|]. eapply later_trans; eauto. Qed.

Lemma keeps_process_syn_sent id h o n r n' : list_inv None (view_of n) ->
  (forall t, tags_of (view_of n) !! id = Some t -> t.1 = SYN_SENT) ->
  process_syn_sent id h o n = Ret (r, n') ->
  list_inv None (view_of n') /\ later (view_of n) (view_of n').
Proof.
  intros Hi Ht E. unfold process_syn_sent in E. mstep E. apply pcb_tag in E0 as [-> Et].
  assert (Es : state a = SYN_SENT) by exact (Ht _ Et).
  assert (Hret : (mret ERR_OK : M err_t) n = Ret (r, n') -> list_inv None (view_of n') /\ later (view_of n) (view_of n'))
    by (intros E1; injection E1 as _ <-; split; [exact Hi|apply later_refl]).
  destruct (_ && _); [|auto]. destruct (unacked a) as [|g rest]; [discriminate E|].
  destruct (_ =? _); [|auto]. mstep E.
  eapply (set_live_state n id a ESTABLISHED None Et) in E0; [|rewrite Es; repeat split; discriminate
    |repeat split; discriminate|exact Hi|reflexivity].
  apply (chain_later _ _ E0). clear Hret. destruct E0 as [Hk _]. revert Hk E.
  apply keeps_bind; [apply calm_keeps, calm_on_pcb, parseopt_tag|]. intros _.
  apply keeps_bind; [apply calm_keeps, calm_pcb|]. intros q.
  apply keeps_bind; [destruct (connected q); [|apply keeps_ret]; apply keeps_bind; [apply Happ|intros _; apply keeps_ret]|].
  intros _. apply keeps_bind; [|intros _; apply keeps_ret].
  apply calm_keeps, calm_on_pcb, quiet_tag. intros e p p' e'. apply tcp_ack_tag.
Qed.

Lemma calm_receive id g : calm (receive id g).
Proof. apply calm_on_pcb. intros e p a p' e'. apply tcp_receive_tag. Qed.

Lemma calm_ack_now id : calm (ack_now id).
Proof. apply calm_on_pcb, quiet_tag. intros e p p' e'. apply tcp_ack_now_tag. Qed.

Lemma keeps_process_syn_rcvd id h g n r n' : list_inv None (view_of n) ->
  (forall t, tags_of (view_of n) !! id = Some t -> t.1 = SYN_RCVD) ->
  process_syn_rcvd id h g n = Ret (r, n') ->
  list_inv None (view_of n') /\ later (view_of n) (view_of n').
Proof.
  intros Hi Ht E. unfold process_syn_rcvd in E. mstep E. apply pcb_tag in E0 as [-> Et].
  assert (Es : state a = SYN_RCVD) by exact (Ht _ Et).
  assert (Hret : (mret g : M tcp_seg) n = Ret (r, n') -> list_inv None (view_of n') /\ later (view_of n) (view_of n'))
    by (intros E1; injection E1 as _ <-; split; [exact Hi|apply later_refl]).
  destruct (_ && _); [|auto]. destruct (_ && _); [|auto]. mstep E.
  eapply (set_live_state n id a ESTABLISHED None Et) in E0; [|rewrite Es; repeat split; discriminate
    |repeat split; discriminate|exact Hi|reflexivity].
  apply (chain_later _ _ E0). clear Hret. destruct E0 as [Hk _]. revert Hk E.
  apply keeps_bind.
  - destruct (accept a); [|apply keeps_ret]. apply keeps_bind; [apply Happ|]. intros err. apply keeps_ret.
  - intros [].
    + apply keeps_bind; [apply calm_keeps, calm_receive|]. intros g'.
      apply keeps_bind; [apply calm_keeps, calm_update; reflexivity|]. intros _. apply keeps_ret.
    + apply keeps_bind; [apply keeps_abort|]. intros _. apply keeps_ret.
Qed.

(** After [tcp_process] the block is on a list, unless it was freed; it is
    CLOSED only when [TF_CLOSED] says that it is to be removed. *)
Definition processed (id : Z) (v : view) : Prop :=
  list_inv (Some id) v /\ forall t, tags_of v !! id = Some t ->
    (exists w, id ∈ on_list v w) /\ (t.1 = CLOSED <-> t.2 = true).

Lemma processed_inv id v : list_inv None v ->
  (forall t, tags_of v !! id = Some t -> exists w, id ∈ on_list v w) -> processed id v.
Proof.
  intros Hv Hl. split; [apply inv_weaken; exact Hv|]. intros t Et. destruct (Hl t Et) as (w & Hw).
  split; [eauto|]. destruct (lists_fit None v Hv w id Hw) as (u & Eu & F). rewrite Et in Eu. injection Eu as <-. split.
  - intros Ec. exfalso. destruct w; cbn in F; [destruct F as (_ & _ & F); discriminate (F Ec)|congruence|congruence].
  - intros Eb. discriminate (no_closed None v Hv id t Et Eb).
Qed.

Lemma listed_pinned x v id w : list_inv x v -> id ∈ on_list v w -> pinned v id.
Proof.
  intros Hv Hw. destruct (lists_fit x v Hv w id Hw) as (t & Et & _).
  split; [eapply old_ids; eauto|]. exists t. eauto.
Qed.

Lemma processed_later id v v' w : list_inv None v -> id ∈ on_list v w -> list_inv None v' /\ later v v' -> processed id v'.
Proof.
  intros Hv Hw [Hv' Hl]. apply processed_inv; [exact Hv'|]. intros t Et.
  destruct (later_pinned _ _ Hl id (listed_pinned None v id w Hv Hw)) as [En|[_ Hs]]; [congruence|].
  exists w. apply Hs, Hw.
Qed.

Lemma to_time_wait_processed id n r n' p : list_inv None (view_of n) -> tags_of (view_of n) !! id = Some (tag p) ->
  live (state p) -> to_time_wait id n = Ret (r, n') -> processed id (view_of n').
Proof.
  intros Hi Et (L1 & L2 & L3) E. unfold to_time_wait in E. mstep E. apply calm_ack_now in E0. mstep E.
  apply (calm_update _ _ purge_tag) in E1. rewrite <- E0, <- E1 in *.
  assert (Hw : forall w, id ∈ on_list (view_of n1) w -> w = Active)
    by (apply (only_list None _ id (tag p)); auto).
  mstep E. apply rmv_view in E2; [|exact Hw]. mstep E. apply update_view in E3 as (q & Eq & E3).
  apply reg_view in E. rewrite E3, E2, on_with_tag in E.
  assert (Tq : tag q = tag p).
  { assert (G : tags_of (view_of n2) !! id = Some (tag p)) by (rewrite E2; exact Et).
    apply tags_pcb in G as (q' & Eq' & <-). congruence. }
  change (view_of n' = placed TimeWait id (tag (set_state TIME_WAIT q)) (unlisted id (view_of n1))) in E.
  rewrite E. assert (Hb : (tag q).2 = false).
  { rewrite Tq. destruct ((tag p).2) eqn:Eb; [|reflexivity]. discriminate (no_closed None _ Hi id _ Et Eb). }
  split.
  - apply inv_placed; [apply (inv_unlisted None); auto| | |reflexivity|exact Hb].
    + change (id < fresh (view_of n1)). eapply old_ids; [exact Hi|exact Et].
    + intros w. rewrite on_unlisted, elem_unlink by apply Hi. tauto.
  - intros t. rewrite tags_placed, lookup_insert_eq. intros [= <-]. split.
    + exists TimeWait. rewrite on_placed, decide_True by reflexivity. left.
    + cbn in Hb |- *. rewrite Hb. split; discriminate.
Qed.

Lemma process_closing_processed id h n r n' p : list_inv None (view_of n) -> tags_of (view_of n) !! id = Some (tag p) ->
  (exists w, id ∈ on_list (view_of n) w) -> live (state p) -> process_closing id h (state p) n = Ret (r, n') ->
  processed id (view_of n').
Proof.
  intros Hi Et (w & Hw) L E. unfold process_closing in E. mstep E. apply pcb_tag in E0 as [-> _].
  assert (Hret : (mret tt : M unit) n = Ret (r, n') -> processed id (view_of n'))
    by (intros E1; injection E1 as _ <-; eapply processed_later; [exact Hi|exact Hw|split; [exact Hi|apply later_refl]]).
  assert (Hset : forall s, live s -> update id (set_state s) n = Ret (r, n') -> processed id (view_of n')).
  { intros s Hs E1. eapply processed_later; [exact Hi|exact Hw|].
    eapply (set_live_state n id p s None Et); eauto. reflexivity. }
  assert (Hack : forall s, live s -> (ack_now id;; update id (set_state s)) n = Ret (r, n') -> processed id (view_of n')).
  { intros s Hs E1. mstep E1. apply calm_ack_now in E0. rewrite <- E0 in *.
    eapply processed_later; [exact Hi|exact Hw|]. eapply (set_live_state n0 id p s None Et); eauto. reflexivity. }
  assert (Htw : to_time_wait id n = Ret (r, n') -> processed id (view_of n'))
    by (intros E1; eapply to_time_wait_processed; eauto).
  assert (Hlv : live CLOSE_WAIT /\ live CLOSING /\ live FIN_WAIT_2) by (repeat split; discriminate).
  destruct Hlv as (V1 & V2 & V3).
  destruct (state p) eqn:Es; auto;
    repeat match type of E with (if ?b then _ else _) _ = _ => destruct b end; auto.
  - exact (Hack _ V1 E).
  - exact (Hack _ V2 E).
  - exact (Hset _ V3 E).
  - exact (Hack _ V1 E).
  - apply update_view in E as (q & Eq & ->). assert (Tq : tag q = tag p).
    { apply tags_pcb in Et as (q' & Eq' & <-). congruence. }
    assert (Ha : w = Active) by (eapply (only_list None _ id (tag p)); eauto; cbn; rewrite Es; split; discriminate).
    subst w. split.
    + apply inv_with_tag; [apply inv_weaken; exact Hi|eapply old_ids; eauto| | |auto].
      * intros w' Hw'. rewrite (one_list None _ _ _ _ Hi Hw' Hw). cbn. repeat split; discriminate.
      * cbn. intros Hc. destruct (Hc eq_refl).
    + intros t. cbn [tags_of with_tag]. rewrite lookup_insert_eq. intros [= <-]. split.
      * exists Active. rewrite on_with_tag. exact Hw.
      * unfold tag. cbn [state flags set_flags set_state fst snd]. split; [|reflexivity]. intros _.
        unfold raise. rewrite has_lor. apply orb_true_r.
Qed.

Lemma tcp_process_processed id g o s d n r n' w : list_inv None (view_of n) -> id ∈ on_list (view_of n) w ->
  tcp_process id g o s d n = Ret (r, n') -> processed id (view_of n').
Proof.
  intros Hi Hw E. unfold tcp_process in E. mstep E. apply pcb_tag in E0 as [-> Et].
  assert (Hk : forall v, list_inv None v /\ later (view_of n) v -> processed id v)
    by (intros v; apply processed_later with w; assumption).
  destruct (has _ _).
  - mstep E. injection E as _ <-. apply Hk. revert Hi E0. destruct (rst_acceptable _ _); [|apply keeps_ret].
    apply calm_keeps, calm_update. intros p. apply tag_flags; [reflexivity|].
    rewrite has_clear, has_raise; reflexivity.
  - apply get_inv in E. mstep E.
    assert (C : view_of n0 = view_of n).
    { revert E0. destruct (decide _); [|apply calm_ret]. apply calm_update. reflexivity. }
    rewrite <- C in *. clear C E0.
    assert (Hid : forall t, tags_of (view_of n0) !! id = Some t -> t.1 = state a) by (intros t; rewrite Et; intros [= <-]; reflexivity).
    destruct (state a) eqn:Es.
    all: try (mstep E; apply calm_receive in E0; mstep E; injection E as _ <-; rewrite <- E0 in *;
      eapply (process_closing_processed id _ _ _ _ a); eauto; rewrite Es; [repeat split; discriminate|exact E1]).
    + injection E as _ <-. apply Hk. split; [exact Hi|apply later_refl].
    + mstep E. injection E as _ <-. apply Hk. eapply keeps_process_listen; eauto.
    + mstep E. injection E as _ <-. apply Hk. eapply keeps_process_syn_sent; eauto.
    + mstep E. injection E as _ <-. apply Hk. eapply keeps_process_syn_rcvd; eauto.
    + mstep E. injection E as _ <-. apply Hk. revert Hi E0. apply calm_keeps. unfold process_time_wait.
      apply calm_bind; [apply calm_update; intros p; destruct (TCP_SEQ_GT _ _); reflexivity|].
      intros _. destruct (_ <? _); [apply calm_ack_now|apply calm_ret].
Qed.
(** *** Input *)

Lemma keeps_deliver id : keeps None (deliver id).
Proof.
  assert (Kp : forall i, keeps None (pcb i)) by (intros i; apply calm_keeps, calm_pcb).
  assert (Ko : keeps None (on_pcb id tcp_output;; (mret tt : M unit))).
  { apply keeps_bind; [apply calm_keeps, calm_on_pcb, tcp_output_tag|]. intros _. apply keeps_ret. }
  unfold deliver. apply keeps_bind; [apply Kp|]. intros p. destruct (_ <? _).
  - apply keeps_bind.
    { destruct (sent p); [|apply keeps_ret]. destruct (_ <? _); [apply Happ|apply keeps_ret]. }
    intros err. apply keeps_bind; [apply Kp|]. intros q. apply keeps_bind.
    { destruct (recv q) as [f|].
      - apply keeps_bind; [destruct (recv_data q); [apply Happ|apply keeps_ret]|]. intros err'.
        apply keeps_bind; [apply Kp|]. intros q'. destruct (has _ _); [|apply keeps_ret].
        destruct (recv q'); [apply Happ|apply calm_keeps, calm_undef].
      - apply keeps_bind; [|intros _; apply keeps_ret]. destruct (has _ _); [|apply keeps_ret].
        apply keeps_bind; [apply keeps_close|]. intros _. apply keeps_ret. }
    intros err'. destruct (decide _); [exact Ko|apply keeps_ret].
  - destruct (decide _); [exact Ko|apply keeps_ret].
Qed.

Lemma settle id v t : processed id v -> tags_of v !! id = Some t -> t.2 = false -> list_inv None v.
Proof.
  intros [Hv Hp] Et Eb. apply (inv_settled id); [exact Hv|]. intros u Eu. rewrite Et in Eu. injection Eu as <-.
  destruct (Hp t Et) as [Hw Hc]. split; [exact Eb|]. rewrite Hc, Eb. split; [discriminate|auto].
Qed.

Lemma finish_inv id n a n' : processed id (view_of n) -> finish id n = Ret (a, n') -> list_inv None (view_of n').
Proof.
  intros Hp E. unfold finish in E. mstep E. rename a0 into p. apply pcb_tag in E0 as [-> Et].
  pose proof Hp as [Hv Hl]. destruct (Hl _ Et) as [(w & Hw) Hc].
  pose proof (fun w => only_list (Some id) _ id (tag p) w Hv Et) as Honly.
  destruct (decide (state p = LISTEN)) as [Es|Hn1].
  - injection E as _ <-. apply (settle id _ (tag p)); auto. destruct ((tag p).2) eqn:Eb; [|reflexivity].
    destruct Hc as [_ Hc]. specialize (Hc eq_refl). cbn in Hc. congruence.
  - destruct (has (flags p) TF_RESET).
    + mstep E. assert (K : list_inv (Some id) (view_of n0) /\ later (view_of n) (view_of n0)).
      { revert Hv E0. match goal with |- _ -> ?m n = _ -> _ => assert (Km : keeps (Some id) m); [|apply Km] end.
        destruct (errf p); [apply Happ|apply keeps_ret]. }
      destruct K as [H1 L1]. mstep E. rename a1 into q. apply pcb_tag in E1 as [-> Eq].
      destruct (later_pinned _ _ L1 id (listed_pinned _ _ _ _ Hv Hw)) as [En|[_ Hs]];
        [rewrite En in Eq; discriminate Eq|].
      assert (Hnl : id ∉ on_list (view_of n0) Listening).
      { rewrite Hs. intros Hin. assert (Ew : w = Listening) by exact (one_list _ _ _ _ _ Hv Hw Hin).
        destruct (lists_fit _ _ Hv _ _ Hin) as (t & Et' & F). rewrite Et in Et'. injection Et' as <-. apply Hn1, F. }
      mstep E. destruct (decide (state q = TIME_WAIT)) as [Eqs|Hqs].
      * rewrite (remove_free_view TimeWait id n0 a1 n1 a n'); [apply inv_dropped_none; exact H1| |exact E1|exact E].
        apply (only_list (Some id) _ id (tag q)); auto.
      * rewrite (remove_free_view Active id n0 a1 n1 a n'); [apply inv_dropped_none; exact H1| |exact E1|exact E].
        intros w' Hw'. destruct (lists_fit _ _ H1 _ _ Hw') as (t & Et' & F). rewrite Eq in Et'. injection Et' as <-.
        destruct w'; [reflexivity|contradiction|contradiction].
    + destruct (has (flags p) TF_CLOSED) eqn:Ec.
      * mstep E. rewrite (remove_free_view Active id n a0 n0 a n'); [apply inv_dropped_none; exact Hv| |exact E0|exact E].
        assert (Es : state p = CLOSED) by (apply Hc; exact Ec). apply Honly. cbn. rewrite Es. split; discriminate.
      * pose proof (settle id _ _ Hp Et Ec) as Hi. destruct (keeps_deliver id _ _ _ Hi E) as [H1 _]. exact H1.
Qed.

Lemma to_front_inv x w id n a n' : list_inv x (view_of n) -> id ∈ on_list (view_of n) w ->
  to_front w id n = Ret (a, n') -> list_inv x (view_of n') /\ id ∈ on_list (view_of n') w.
Proof.
  intros Hi Hin E. apply modify_inv in E. rewrite E, set_list_view, <- on_view. split.
  - apply inv_with_list; [exact Hi| | |].
    + constructor; [|apply nodup_unlink, Hi]. rewrite elem_unlink by apply Hi. tauto.
    + intros i. rewrite elem_of_cons, elem_unlink by apply Hi. intros [->|[Hx _]]; apply (lists_fit x _ Hi); auto.
    + intros i Hx. left. destruct (decide (i = id)) as [->|Hne]; [left|right].
      rewrite elem_unlink by apply Hi. auto.
  - rewrite on_with_list, decide_True by reflexivity. left.
Qed.

Lemma demux_inv h s d n o n' : list_inv None (view_of n) -> demux h s d n = Ret (o, n') ->
  list_inv None (view_of n') /\ forall id, o = Some id -> exists w, id ∈ on_list (view_of n') w.
Proof.
  intros Hi E. unfold demux in E. apply get_inv in E. mstep E. apply search_returns in E0 as [-> Hs].
  destruct a as [id|].
  - mstep E. injection E as <- <-. destruct (Hs id eq_refl) as [Hin _].
    destruct (to_front_inv None Active id _ _ _ Hi Hin E0) as [H1 H2].
    split; [exact H1|]. intros i [= <-]. eauto.
  - clear Hs. mstep E. apply search_returns in E0 as [-> Hs]. destruct a as [id|].
    + injection E as <- <-. split; [exact Hi|]. intros i [= <-]. exists TimeWait. apply (Hs id eq_refl).
    + clear Hs. mstep E. apply search_returns in E0 as [-> Hs]. destruct a as [id|].
      * mstep E. injection E as <- <-. destruct (Hs id eq_refl) as [Hin _].
        destruct (to_front_inv None Listening id _ _ _ Hi Hin E0) as [H1 H2].
        split; [exact H1|]. intros i [= <-]. eauto.
      * injection E as <- <-. split; [exact Hi|discriminate].
Qed.

(** [tcp_process] does not report that it freed the block. *)
Lemma process_listen_result id h g o s d n r n' :
  process_listen id h g o s d n = Ret (r, n') -> r <> ERR_ABRT.
Proof.
  intros E. unfold process_listen in E. destruct (has (h_flags h) TCP_ACK).
  - repeat (mstep E). injection E as <- _. discriminate.
  - destruct (has (h_flags h) TCP_SYN); [|injection E as <- _; discriminate].
    mstep E. destruct a as [nid|]; [|injection E as <- _; discriminate].
    repeat (mstep E). unfold on_pcb in E. destruct (pcbs _ !! nid); [|discriminate].
    destruct (tcp_output _ _) as [[[r' q] e]| |] eqn:Eo; [|discriminate..]. injection E as <- _.
    unfold tcp_output in Eo. destruct (has _ _).
    + destruct (alloc _) as [[] e1]; injection Eo as <- _ _; discriminate.
    + apply bind_inv in Eo as ([q1 e1] & _ & Eo). injection Eo as <- _ _. discriminate.
Qed.

Lemma tcp_process_result id g o s d n r n' : tcp_process id g o s d n = Ret (r, n') -> r.1 <> ERR_ABRT.
Proof.
  intros E. unfold tcp_process in E. mstep E. destruct (has _ _).
  - mstep E. injection E as <- _. discriminate.
  - apply get_inv in E. mstep E. destruct (state a).
    all: try (repeat (mstep E); injection E as <- _; discriminate).
    + mstep E. injection E as <- _. eapply process_listen_result; eauto.
    + mstep E. injection E as <- _. cbn. unfold process_syn_sent in E2. mstep E2.
      destruct (_ && _); [|injection E2 as <- _; discriminate].
      destruct (unacked a2); [discriminate|]. destruct (_ =? _); [|injection E2 as <- _; discriminate].
      repeat (mstep E2). injection E2 as <- _. discriminate.
Qed.

Lemma input_pcb_inv id g o s d n a n' w : list_inv None (view_of n) -> id ∈ on_list (view_of n) w ->
  input_pcb id g o s d n = Ret (a, n') -> list_inv None (view_of n').
Proof.
  intros Hi Hw E. unfold input_pcb in E. mstep E.
  apply calm_update in E0; [|intros p; destruct (decide _); reflexivity]. rewrite <- E0 in *.
  mstep E. pose proof (tcp_process_processed _ _ _ _ _ _ _ _ _ Hi Hw E1) as Hp.
  apply tcp_process_result in E1. destruct (decide _); [contradiction|]. eapply finish_inv; eauto.
Qed.

Lemma input_inv mask pkt n a n' : list_inv None (view_of n) -> tcp_input mask pkt n = Ret (a, n') ->
  list_inv None (view_of n').
Proof.
  intros Hi E. unfold tcp_input in E. mstep E. apply calm_lift in E0. mstep E. apply calm_lift in E1.
  mstep E. apply calm_lift in E2. rewrite <- E0, <- E1, <- E2 in Hi.
  destruct (_ || _); [injection E as _ <-; exact Hi|]. destruct (_ <? _); [discriminate|].
  unfold input_segment in E. mstep E. apply calm_lift in E3. rewrite <- E3 in Hi.
  destruct (truthy _); [injection E as _ <-; exact Hi|]. mstep E. apply calm_lift in E4. rewrite <- E4 in Hi.
  mstep E. destruct (demux_inv _ _ _ _ _ _ Hi E5) as [H1 Hd]. destruct a5 as [id|].
  - destruct (_ <? _); [discriminate|]. destruct (Hd id eq_refl) as (w & Hw). eapply input_pcb_inv; eauto.
  - destruct (has _ _); [injection E as _ <-; exact H1|]. eapply keeps_rst; eauto.
Qed.
(** *** All executions *)

(** The calls an application makes. *)
Inductive call :=
| Call_new
| Call_close (id : Z)
| Call_abort (id : Z)
| Call_bind (id ip port : Z)
| Call_listen (id : Z)
| Call_connect (id : Z) (ip : option Z) (port : Z) (connected : option Z)
| Call_write (id : Z) (data : list Z) (copy : bool)
| Call_output (id : Z)
| Call_recved (id len : Z)
| Call_arg (id arg : Z)
| Call_recv (id : Z) (f : option Z)
| Call_sent (id : Z) (f : option Z)
| Call_err (id : Z) (f : option Z)
| Call_poll (id : Z) (f : option Z) (interval : Z)
| Call_accept (id : Z) (f : option Z).

Definition run_call (c : call) : M unit :=
  match c with
  | Call_new => tcp_new;; mret tt
  | Call_close id => tcp_close id;; mret tt
  | Call_abort id => tcp_abort id
  | Call_bind id ip port => tcp_bind id ip port;; mret tt
  | Call_listen id => tcp_listen id;; mret tt
  | Call_connect id ip port f => tcp_connect id ip port f;; mret tt
  | Call_write id data copy => on_pcb id (fun e p => tcp_write e p data copy);; mret tt
  | Call_output id => on_pcb id tcp_output;; mret tt
  | Call_recved id len => tcp_recved id len
  | Call_arg id arg => tcp_arg id arg
  | Call_recv id f => tcp_recv id f
  | Call_sent id f => tcp_sent id f
  | Call_err id f => tcp_err id f
  | Call_poll id f interval => tcp_poll id f interval
  | Call_accept id f => tcp_accept id f
  end.

(** Only a block fresh from [tcp_new] may listen or connect. *)
Definition allowed (c : call) (n : net) : Prop :=
  match c with
  | Call_listen id | Call_connect id _ _ _ => unused id (view_of n)
  | _ => True
  end.

Lemma tcp_write_tag d c : keeps_tag (fun e p => tcp_write e p d c).
Proof.
  intros e p a p' e'. unfold tcp_write. destruct (state p) eqn:Es;
    first [intros E; injection E as _ <- _; reflexivity | destruct (0 <? _);
      [apply tcp_enqueue_tag|intros E; injection E as _ <- _; reflexivity]].
Qed.

Lemma calm_bind_call id ip port : calm (tcp_bind id ip port).
Proof.
  apply calm_bind; [apply calm_get|]. intros n. apply calm_bind; [apply calm_search|].
  intros [i|]; [apply calm_ret|]. apply calm_bind; [apply calm_search|]. intros [i|]; [apply calm_ret|].
  apply calm_bind; [|intros _; apply calm_ret]. apply calm_update. intros p. destruct (ip =? 0); reflexivity.
Qed.

Lemma calm_recved id len : calm (tcp_recved id len).
Proof.
  apply calm_on_pcb, quiet_tag. intros e p p' e' E.
  set (q := set_rcv_wnd (u16 (rcv_wnd p + len)) p) in E. cbv zeta in E.
  assert (Eq : tag (if TCP_WND <? rcv_wnd q then set_rcv_wnd TCP_WND q else q) = tag p)
    by (destruct (_ <? _); reflexivity).
  set (q' := if TCP_WND <? rcv_wnd q then set_rcv_wnd TCP_WND q else q) in *. clearbody q'.
  rewrite <- Eq. destruct (_ || _); [eapply tcp_ack_tag; exact E|injection E as <- _; reflexivity].
Qed.

(** Every call keeps the invariant. *)
Lemma calls_keep x c n a n' : allowed c n -> list_inv x (view_of n) -> run_call c n = Ret (a, n') ->
  list_inv x (view_of n') /\ later (view_of n) (view_of n').
Proof.
  intros Ha Hi E.
  destruct c; cbn [run_call] in E;
    try (revert Hi E; apply calm_keeps; apply calm_update; reflexivity);
    try (mstep E; injection E as _ <-).
  - eapply keeps_new; eauto.
  - eapply keeps_close; eauto.
  - eapply keeps_abort; eauto.
  - revert Hi E0. apply calm_keeps, calm_bind_call.
  - eapply keeps_listen; eauto.
  - eapply keeps_connect; eauto.
  - revert Hi E0. apply calm_keeps, calm_on_pcb, tcp_write_tag.
  - revert Hi E0. apply calm_keeps, calm_on_pcb, tcp_output_tag.
  - revert Hi E. apply calm_keeps, calm_recved.
Qed.

(** What happens to a running stack: a call, the timer, a packet. *)
Inductive tcp_step : net -> net -> Prop :=
| step_call c a n n' : allowed c n -> run_call c n = Ret (a, n') -> tcp_step n n'
| step_timer a n n' : tcp_tmr n = Ret (a, n') -> tcp_step n n'
| step_input mask pkt a n n' : tcp_input mask pkt n = Ret (a, n') -> tcp_step n n'.

Lemma boot_inv al : list_inv None (view_of (tcp_init (boot al))).
Proof.
  split; cbn.
  - intros []; constructor.
  - intros [] id Hi; apply elem_of_nil in Hi; destruct Hi.
  - intros id t. rewrite fmap_empty, lookup_empty. discriminate.
  - intros id t. rewrite fmap_empty, lookup_empty. discriminate.
  - intros id t. rewrite fmap_empty, lookup_empty. discriminate.
Qed.

Lemma reachable_inv al n : rtc tcp_step (tcp_init (boot al)) n -> list_inv None (view_of n).
Proof.
  intros Hr. apply (rtc_invariant tcp_step (fun n => list_inv None (view_of n))) in Hr;
    [exact Hr| |apply boot_inv].
  intros n1 n2 [c a m m' Ha E|a m m' E|mask pkt a m m' E] Hi.
  - eapply calls_keep; eauto.
  - eapply tmr_inv; eauto.
  - eapply input_inv; eauto.
Qed.

End Programs.

(** The axioms about the lists that [lwip/tcp.h] states. *)
Record lists_ok (n : net) : Prop := {
  (** a block is on one list, once *)
  ok_nodup : NoDup (tcp_active_pcbs n ++ tcp_tw_pcbs n ++ tcp_listen_pcbs n);
  (** the blocks on the lists are allocated and in a state of their list *)
  ok_active : forall id, id ∈ tcp_active_pcbs n -> exists p, pcbs n !! id = Some p /\ live (state p);
  ok_waiting : forall id, id ∈ tcp_tw_pcbs n -> exists p, pcbs n !! id = Some p /\ state p = TIME_WAIT;
  ok_listening : forall id, id ∈ tcp_listen_pcbs n -> exists p, pcbs n !! id = Some p /\ state p = LISTEN;
  (** a block that is not CLOSED is on a list; a block that could not be made a
      listener is in LISTEN without being on one *)
  ok_listed : forall id p, pcbs n !! id = Some p -> state p <> CLOSED -> state p <> LISTEN ->
    id ∈ tcp_active_pcbs n ++ tcp_tw_pcbs n
}.

Lemma inv_ok n : list_inv None (view_of n) -> lists_ok n.
Proof.
  intros Hi. assert (Hf : forall w id, id ∈ on_list (view_of n) w ->
    exists p, pcbs n !! id = Some p /\ fits None id w (tag p)).
  { intros w id Hw. destruct (lists_fit _ _ Hi w id Hw) as (t & Et & F).
    apply tags_pcb in Et as (p & Ep & <-). eauto. }
  split.
  - apply NoDup_app. split; [apply (lists_nodup _ _ Hi Active)|]. split.
    + intros id H1 H2. apply elem_of_app in H2 as [H2|H2].
      * discriminate (one_list _ _ id Active TimeWait Hi H1 H2).
      * discriminate (one_list _ _ id Active Listening Hi H1 H2).
    + apply NoDup_app. split; [apply (lists_nodup _ _ Hi TimeWait)|]. split; [|apply (lists_nodup _ _ Hi Listening)].
      intros id H1 H2. discriminate (one_list _ _ id TimeWait Listening Hi H1 H2).
  - intros id Hw. destruct (Hf Active id Hw) as (p & Ep & F1 & F2 & F3). exists p. split; [exact Ep|].
    split; [|split; assumption]. intros Ec. discriminate (F3 Ec).
  - intros id Hw. destruct (Hf TimeWait id Hw) as (p & Ep & F). exists p. split; [exact Ep|exact F].
  - intros id Hw. destruct (Hf Listening id Hw) as (p & Ep & F). exists p. split; [exact Ep|exact F].
  - intros id p Ep H1 H2. assert (Et : tags_of (view_of n) !! id = Some (tag p))
      by (cbn [view_of tags_of]; rewrite lookup_fmap, Ep; reflexivity).
    destruct (all_listed _ _ Hi id (tag p) Et H1 H2) as (w & Hw); [discriminate|].
    apply elem_of_app. destruct w; [left|right|]; try exact Hw.
    destruct (Hf Listening id Hw) as (q & Eq & F). rewrite Ep in Eq. injection Eq as <-. contradiction.
Qed.


(** ** An application *)

#[local] Existing Instance TcpRun.no_routes.
#[local] Existing Instance TcpRun.echo_less.

Lemma echo_less_polite : polite.
Proof.
  split; intros; cbn [call_accept call_connected call_sent call_recv call_poll call_errf echo_less];
    try apply keeps_ret.
  - apply keeps_bind; [apply calm_keeps, calm_update; reflexivity|]. intros _. apply keeps_ret.
  - destruct d as [d|]; [|apply keeps_ret]. apply keeps_bind; [apply calm_keeps, calm_recved|].
    intros _. apply keeps_ret.
Qed.

(** A client opens a connection and gets the answer. *)
Definition result (c : call) (n : net) : net :=
  match run_call c n with Ret (_, n') => n' | _ => n end.
Definition opened : net := result Call_new (tcp_init (boot [])).
Definition connecting : net := result (Call_connect 1 (Some server_ip) 80 None) (result (Call_bind 1 client_ip 5000) opened).

Lemma connecting_reachable : rtc tcp_step (tcp_init (boot [])) connecting.
Proof.
  apply (rtc_l _ _ opened); [apply (step_call Call_new tt); [exact Logic.I|vm_compute; reflexivity]|].
  apply (rtc_l _ _ (result (Call_bind 1 client_ip 5000) opened)).
  - apply (step_call (Call_bind 1 client_ip 5000) tt); [exact Logic.I|vm_compute; reflexivity].
  - apply rtc_once. apply (step_call (Call_connect 1 (Some server_ip) 80 None) tt); [|vm_compute; reflexivity].
    split; [vm_compute; reflexivity|]. intros []; vm_compute; intros Hi; apply elem_of_nil in Hi; exact Hi.
Qed.

Lemma connecting_ok : lists_ok connecting.
Proof. apply inv_ok, (reachable_inv echo_less_polite []), connecting_reachable. Qed.

