(* ===== verification/TcpCalls.v ===== *)
(** What the calls of [SW_stub/lwtcp/tcp.c] answer on well-formed lists: binding,
    choosing a port, demultiplexing, and the retransmission timer. *)

From S2P Require Import Prelude TcpTypes TcpOutput TcpInput TcpNet Tcp TcpProcess TcpRun TcpInv.
From stdpp Require Import base gmap list.
From Stdlib Require Import ZArith Lia.

Local Open Scope Z_scope.

(** ** Walks over the lists *)

(** Whether the block [id] satisfies a test. *)
Definition passes (test : tcp_pcb -> bool) (n : net) (id : Z) : bool :=
  match pcbs n !! id with Some p => test p | None => false end.

Lemma search_total test n l : (forall id, id ∈ l -> is_Some (pcbs n !! id)) ->
  search test l n = Ret (List.find (passes test n) l, n).
Proof.
  induction l as [|y l IH]; intros Hl; [reflexivity|]. cbn [search List.find].
  destruct (Hl y) as (p & Ep); [left|]. unfold passes at 1.
  transitivity ((if test p then mret (Some y) else search test l) n).
  - unfold mbind, M_bind, pcb. rewrite Ep. reflexivity.
  - rewrite Ep. destruct (test p); [reflexivity|]. apply IH. intros id Hi. apply Hl. right. exact Hi.
Qed.

Lemma find_none {A} (f : A -> bool) l : List.find f l = None <-> forall x, x ∈ l -> f x = false.
Proof.
  induction l as [|y l IH]; cbn; [split; [intros _ x Hx; apply elem_of_nil in Hx; destruct Hx|auto]|].
  destruct (f y) eqn:E.
  - split; [discriminate|]. intros Hx. rewrite Hx in E; [discriminate|left].
  - rewrite IH. split; intros Hx x; [rewrite elem_of_cons; intros [->|]; auto|intros Hi; apply Hx; right; exact Hi].
Qed.

Section Alive.
Variable n : net.
Hypothesis Hok : lists_ok n.

Lemma active_alive id : id ∈ tcp_active_pcbs n -> is_Some (pcbs n !! id).
Proof. intros Hi. destruct (ok_active n Hok id Hi) as (p & -> & _). eauto. Qed.
Lemma waiting_alive id : id ∈ tcp_tw_pcbs n -> is_Some (pcbs n !! id).
Proof. intros Hi. destruct (ok_waiting n Hok id Hi) as (p & -> & _). eauto. Qed.
Lemma listening_alive id : id ∈ tcp_listen_pcbs n -> is_Some (pcbs n !! id).
Proof. intros Hi. destruct (ok_listening n Hok id Hi) as (p & -> & _). eauto. Qed.

End Alive.

(** ** Binding *)

(** [tcp_bind] refuses with [ERR_USE], and changes nothing, exactly when a
    listening or active block uses the port with an address that overlaps (equal,
    or one of the two the wildcard); otherwise it sets the port and the address.
    Blocks in TIME-WAIT do not count. *)
Theorem tcp_bind_spec n id ip port p : lists_ok n -> pcbs n !! id = Some p ->
  tcp_bind id ip port n =
  if existsb (passes (in_use ip port) n) (tcp_listen_pcbs n ++ tcp_active_pcbs n)
  then Ret (ERR_USE, n)
  else Ret (ERR_OK, set_pcbs (<[id := set_local_port port (if ip =? 0 then p else set_local_ip ip p)]> (pcbs n)) n).
Proof.
  intros Hok Ep. rewrite existsb_app. unfold tcp_bind, mbind at 1, M_bind at 1, get.
  assert (Hf : forall l, existsb (passes (in_use ip port) n) l =
    match List.find (passes (in_use ip port) n) l with Some _ => true | None => false end).
  { induction l as [|y l IH]; [reflexivity|]. cbn. rewrite IH. destruct (passes _ n y); reflexivity. }
  rewrite !Hf. unfold mbind, M_bind.
  rewrite (search_total _ n (tcp_listen_pcbs n)) by (apply listening_alive; exact Hok).
  destruct (List.find _ (tcp_listen_pcbs n)); [reflexivity|].
  rewrite (search_total _ n (tcp_active_pcbs n)) by (apply active_alive; exact Hok).
  destruct (List.find _ (tcp_active_pcbs n)); [reflexivity|].
  unfold update. rewrite Ep. reflexivity.
Qed.

(** The block of the client of [TcpInv]. *)
Definition client_pcb : tcp_pcb := default pcb_zero (pcbs connecting !! 1).

Lemma client_pcb_lookup : pcbs connecting !! 1 = Some client_pcb.
Proof. vm_compute. reflexivity. Qed.

Lemma tcp_bind_spec_witness : lists_ok connecting /\
  tcp_bind 1 client_ip 5000 connecting = Ret (ERR_USE, connecting).
Proof.
  split; [exact connecting_ok|].
  pose proof (tcp_bind_spec connecting 1 client_ip 5000 client_pcb connecting_ok client_pcb_lookup) as E.
  rewrite E.
  vm_compute. reflexivity.
Defined.

(** ** Choosing a port *)

(** The [k]-th candidate after [port]. *)
Definition candidate (port : Z) (k : nat) : Z := 4096 + (port - 4096 + Z.of_nat k) mod 28672.

(** The ports of the blocks on the lists. *)
Definition ports (n : net) : list Z :=
  omap (fun id => local_port <$> pcbs n !! id) (tcp_active_pcbs n ++ tcp_tw_pcbs n ++ tcp_listen_pcbs n).

Lemma next_candidate port : 4095 <= port <= 32767 ->
  (let p := u16 (port + 1) in if 32767 <? p then 4096 else p) = candidate port 1.
Proof.
  intros Hp. cbv zeta. rewrite u16_small by lia. unfold candidate.
  destruct (Z.ltb_spec 32767 (port + 1)); Z.div_mod_to_equations; lia.
Qed.

Lemma candidate_range port k : 4096 <= candidate port k <= 32767.
Proof. unfold candidate. pose proof (Z.mod_pos_bound (port - 4096 + Z.of_nat k) 28672). lia. Qed.

Lemma candidate_step port k : candidate (candidate port 1) k = candidate port (S k).
Proof.
  unfold candidate. f_equal. replace (4096 + (port - 4096 + Z.of_nat 1) mod 28672 - 4096 + Z.of_nat k)
    with ((port - 4096 + Z.of_nat 1) mod 28672 + Z.of_nat k) by lia.
  rewrite Z.add_mod_idemp_l by lia. f_equal. lia.
Qed.

Lemma candidate_inj port i j : (i < port_fuel)%nat -> (j < port_fuel)%nat -> candidate port (S i) = candidate port (S j) -> i = j.
Proof. unfold candidate, port_fuel. intros Hi Hj E. Z.div_mod_to_equations. lia. Qed.

Lemma find_ports n port l : (forall id, id ∈ l -> is_Some (pcbs n !! id)) ->
  match List.find (passes (uses_port port) n) l with
  | Some _ => port ∈ omap (fun id => local_port <$> pcbs n !! id) l
  | None => port ∉ omap (fun id => local_port <$> pcbs n !! id) l
  end.
Proof.
  intros Hl. destruct (List.find _ l) as [id|] eqn:E.
  - apply List.find_some in E as [Hi Hp]. unfold passes in Hp. destruct (pcbs n !! id) as [p|] eqn:Ep; [|discriminate].
    apply Z.eqb_eq in Hp. apply list_elem_of_omap. exists id. split; [apply list_elem_of_In; exact Hi|].
    rewrite Ep. cbn. congruence.
  - rewrite find_none in E. intros Hin. apply list_elem_of_omap in Hin as (id & Hi & Hp). specialize (E id Hi).
    unfold passes in E. destruct (pcbs n !! id) as [p|]; [|discriminate]. injection Hp as Hp.
    unfold uses_port in E. rewrite Hp, Z.eqb_refl in E. discriminate.
Qed.

(** One round of the search. *)
Lemma new_port_step n fuel port : lists_ok n -> 4095 <= port <= 32767 ->
  new_port (S fuel) port n =
  if decide (candidate port 1 ∈ ports n) then new_port fuel (candidate port 1) n
  else Ret (candidate port 1, n).
Proof.
  intros Hok Hp. cbn [new_port]. cbv zeta.
  rewrite (next_candidate port Hp : (if 32767 <? u16 (port + 1) then 4096 else u16 (port + 1)) = _).
  pose proof (find_ports n (candidate port 1) _ (active_alive n Hok)) as F1.
  pose proof (find_ports n (candidate port 1) _ (waiting_alive n Hok)) as F2.
  pose proof (find_ports n (candidate port 1) _ (listening_alive n Hok)) as F3.
  unfold ports. rewrite !omap_app. unfold mbind, M_bind, get.
  rewrite (search_total _ n (tcp_active_pcbs n)) by (apply active_alive; exact Hok).
  destruct (List.find _ (tcp_active_pcbs n)).
  { rewrite decide_True by (apply elem_of_app; left; exact F1). reflexivity. }
  rewrite (search_total _ n (tcp_tw_pcbs n)) by (apply waiting_alive; exact Hok).
  destruct (List.find _ (tcp_tw_pcbs n)).
  { rewrite decide_True by (rewrite !elem_of_app; auto). reflexivity. }
  rewrite (search_total _ n (tcp_listen_pcbs n)) by (apply listening_alive; exact Hok).
  destruct (List.find _ (tcp_listen_pcbs n)).
  { rewrite decide_True by (rewrite !elem_of_app; auto). reflexivity. }
  rewrite decide_False by (rewrite !elem_of_app; tauto). reflexivity.
Qed.

(** The search takes the first candidate that is not in use. *)
Lemma new_port_first n k : lists_ok n -> forall fuel port, 4095 <= port <= 32767 -> (k < fuel)%nat ->
  (forall j, (j < k)%nat -> candidate port (S j) ∈ ports n) -> candidate port (S k) ∉ ports n ->
  new_port fuel port n = Ret (candidate port (S k), n).
Proof.
  intros Hok. induction k as [|k IH]; intros fuel port Hp Hf Hu Hn; (destruct fuel as [|fuel]; [lia|]);
    rewrite new_port_step by assumption.
  - rewrite decide_False by exact Hn. reflexivity.
  - rewrite decide_True by (apply Hu; lia). rewrite <- (candidate_step port (S k)).
    apply IH; [pose proof (candidate_range port 1); lia|lia| |].
    + intros j Hj. rewrite candidate_step. apply Hu. lia.
    + rewrite candidate_step. exact Hn.
Qed.

(** The first index with a decidable property. *)
Lemma first_index (P : nat -> Prop) `{!forall k, Decision (P k)} N : 
  (exists k, (k < N)%nat /\ P k /\ forall j, (j < k)%nat -> ~ P j) \/ forall k, (k < N)%nat -> ~ P k.
Proof.
  induction N as [|N [IH|IH]]; [right; lia| |].
  - left. destruct IH as (k & Hk & H1 & H2). exists k. split; [lia|auto].
  - destruct (decide (P N)) as [HP|HP]; [left; exists N; split; [lia|auto]|]. right.
    intros k Hk. destruct (decide (k = N)) as [->|]; [exact HP|]. apply IH. lia.
Qed.

Lemma length_omap_le {A B} (f : A -> option B) l : (length (omap f l) <= length l)%nat.
Proof.
  induction l as [|x l IH]; [apply le_n|].
  change (omap f (x :: l)) with (match f x with Some y => y :: omap f l | None => omap f l end).
  destruct (f x); cbn [length]; lia.
Qed.

(** Among as many candidates as there are ports one is not in use. *)
Lemma some_candidate n port : (length (tcp_active_pcbs n ++ tcp_tw_pcbs n ++ tcp_listen_pcbs n) < port_fuel)%nat ->
  exists k, (k < port_fuel)%nat /\ candidate port (S k) ∉ ports n /\
    forall j, (j < k)%nat -> candidate port (S j) ∈ ports n.
Proof.
  intros Hlen.
  destruct (first_index (fun k => candidate port (S k) ∉ ports n) port_fuel) as [(k & Hk & H1 & H2)|Hall].
  - exists k. split; [exact Hk|]. split; [exact H1|]. intros j Hj. destruct (decide (candidate port (S j) ∈ ports n)); [assumption|].
    destruct (H2 j Hj). assumption.
  - exfalso. set (l := map (fun k => candidate port (S k)) (seq 0 port_fuel)).
    assert (Hd : NoDup l).
    { apply NoDup_fmap_2_strong; [|apply NoDup_seq]. intros i j Hi Hj. apply elem_of_seq in Hi, Hj.
      apply candidate_inj; lia. }
    assert (Hs : l ⊆+ ports n).
    { apply NoDup_submseteq; [exact Hd|]. intros x Hx. apply list_elem_of_fmap in Hx as (k & -> & Hk).
      apply elem_of_seq in Hk. destruct (decide (candidate port (S k) ∈ ports n)); [assumption|].
      destruct (Hall k ltac:(lia)). assumption. }
    apply submseteq_length in Hs. unfold l in Hs. rewrite length_map, length_seq in Hs.
    unfold ports in Hs. pose proof (length_omap_le (fun id => local_port <$> pcbs n !! id) (tcp_active_pcbs n ++ tcp_tw_pcbs n ++ tcp_listen_pcbs n)).
    lia.
Qed.

(** C11: [tcp_new_port] ends and returns the next port after the last one it
    gave, in the range 4096 to 32767 and cyclically, that no block on any of the
    three lists has, as long as there are fewer blocks than ports. *)
Theorem tcp_new_port_spec n : lists_ok n -> 4095 <= last_port n <= 32767 ->
  Z.of_nat (length (tcp_active_pcbs n ++ tcp_tw_pcbs n ++ tcp_listen_pcbs n)) < 28672 ->
  exists k, tcp_new_port n = Ret (candidate (last_port n) (S k), set_port (candidate (last_port n) (S k)) n) /\
    4096 <= candidate (last_port n) (S k) <= 32767 /\
    candidate (last_port n) (S k) ∉ ports n /\
    (forall j, (j < k)%nat -> candidate (last_port n) (S j) ∈ ports n).
Proof.
  intros Hok Hp Hlen. destruct (some_candidate n (last_port n)) as (k & Hk & H1 & H2); [unfold port_fuel; lia|].
  exists k. split; [|split; [apply candidate_range|auto]].
  unfold tcp_new_port, mbind, M_bind, get.
  rewrite (new_port_first n k Hok port_fuel (last_port n) Hp Hk H2 H1). reflexivity.
Qed.

Lemma tcp_new_port_spec_witness :
  exists k, tcp_new_port connecting = Ret (candidate 4096 (S k), set_port (candidate 4096 (S k)) connecting) /\
    candidate 4096 (S k) ∉ ports connecting.
Proof.
  destruct (tcp_new_port_spec connecting connecting_ok) as (k & E & _ & H & _).
  - vm_compute. split; discriminate.
  - vm_compute. reflexivity.
  - exists k. split; [exact E|exact H].
Defined.

(** ** Demultiplexing *)


(** The answer of the server finds the client. *)
Definition answer : tcp_hdr := Hdr 80 5000 1000 6511 80 (Z.lor TCP_SYN TCP_ACK) 1024 0 0.


(** ** Retransmission *)

Section Retransmission.
Context `{Network}.

(** C12: the counter [rtime] of a block has eight bits.  Once the time-out [rto]
    is above 255 it is never reached: whatever the block has on the way,
    [tcp_slowtmr] sends nothing again, leaves the time-out and the number of
    retransmissions as they are and does not give up an established connection,
    so that the block stays that way for ever. *)
Theorem retransmission_stops e p :
  255 < rto p -> nrtx p <> TCP_MAXRTX -> (state p = SYN_SENT -> nrtx p <> TCP_SYNMAXRTX) ->
  exists dead p', slow_pcb e p = Ret (dead, p', e) /\
    rto p' = rto p /\ nrtx p' = nrtx p /\ state p' = state p /\ unacked p' = unacked p /\ unsent p' = unsent p /\
    (state p = ESTABLISHED -> dead = false).
Proof.
  intros Hr Hn Hs. unfold slow_pcb.
  assert (E1 : (bool_decide (state p = SYN_SENT) && (nrtx p =? TCP_SYNMAXRTX)) || (nrtx p =? TCP_MAXRTX) = false).
  { apply orb_false_iff. split; [|apply Z.eqb_neq; exact Hn].
    destruct (bool_decide_reflect (state p = SYN_SENT)) as [Es|]; [|reflexivity].
    apply Z.eqb_neq, Hs, Es. }
  rewrite E1. cbv zeta.
  assert (E2 : match unacked (set_rtime (u8 (rtime p + 1)) p) with
    | [] => false | _ => rto (set_rtime (u8 (rtime p + 1)) p) <=? rtime (set_rtime (u8 (rtime p + 1)) p) end = false).
  { cbn [unacked rto rtime set_rtime]. destruct (unacked p); [reflexivity|]. apply Z.leb_gt.
    pose proof (u8_range (rtime p + 1)). lia. }
  rewrite E2. cbn [mbind outcome_bind orb]. set (q := set_rtime (u8 (rtime p + 1)) p).
  destruct (ooseq q) as [|g l]; [|destruct (rto q * TCP_OOSEQ_TIMEOUT <=? _)];
    (eexists _, _; split; [reflexivity|]); repeat (split; [reflexivity|]); cbn [state set_ooseq];
    change (state q) with (state p); intros ->; reflexivity.
Qed.

End Retransmission.

#[local] Existing Instance TcpRun.no_routes.
#[local] Existing Instance TcpRun.echo_less.

(** The client's connection after data was sent that the server never answers,
    and [k] ticks of 500 milliseconds. *)
Definition unanswered (k : nat) : outcome tcp_pcb :=
  '(c, s) ← handshake (Some 1);
  '(_, c) ← on_pcb 1 (fun e p => tcp_write e p message true) c;
  '(_, c) ← on_pcb 1 tcp_output c;
  '(_, c) ← slow_ticks k c;
  load (pcbs c !! 1).

Definition silent_peer : tcp_pcb := Eval vm_compute in match unanswered 150 with Ret p => p | _ => pcb_zero end.

Lemma retransmission_stops_witness : 
  (rto silent_peer, nrtx silent_peer, state silent_peer, length (unacked silent_peer)) = (1536, 4, ESTABLISHED, 1%nat) /\
  exists p', slow_pcb (Env [] [] 0 0) silent_peer = Ret (false, p', Env [] [] 0 0) /\
    rto p' = 1536 /\ nrtx p' = 4 /\ length (unacked p') = 1%nat.
Proof.
  split; [reflexivity|].
  destruct (retransmission_stops (Env [] [] 0 0) silent_peer) as (dead & p' & Ep & R1 & R2 & _ & R3 & _ & R4);
    [reflexivity|discriminate|discriminate|].
  exists p'. rewrite (R4 eq_refl) in Ep. split; [exact Ep|]. rewrite R1, R2, R3. repeat split.
Defined.

(** The time-outs of a connection whose peer does not answer: the original
    estimate 6 shifted by the entries 1, 2, 4, 8, 16 of [tcp_backoff], and then an
    undefined shift by 32. *)
Theorem backed_off_values :
  map (fun k => backed_off (set_nrtx k (set_sv 6 pcb_zero))) [0; 1; 2; 3; 4; 5] =
  [Ret 12; Ret 24; Ret 96; Ret 1536; Ret 0; Undef].
Proof. reflexivity. Qed.
