(* ===== verification/Udp.v ===== *)
(** * UDP of the stack ([lwtcp/udp.c])

    The list of control blocks and the functions on it, sending with the
    checksum, and the demultiplexing of a packet to the receive function of a
    block.  Blocks come from the pool [MEMP_UDP_PCB]. *)

From stdpp Require Import base gmap list.
From Stdlib Require Import ZArith Lia.
From S2P Require Import Prelude Inet Memp TcpTypes TcpNet TcpProcess.

Local Open Scope Z_scope.

(** ** Data *)

Definition UDP_HLEN : Z := 8.
Definition UDP_FLAGS_NOCHKSUM : Z := 1.
Definition UDP_FLAGS_UDPLITE : Z := 2.
Definition IP_PROTO_UDP : Z := 17.
Definition IP_PROTO_UDPLITE : Z := 170.

(** A control block; [recv] is a function pointer, null when it is 0, and the
    ports are in host order. *)
Record udp_pcb := UdpPcb {
  local_ip : Z; remote_ip : Z;
  local_port : Z; remote_port : Z;
  flags : Z; chksum_len : Z;
  recv : Z; recv_arg : Z
}.

Record udp_hdr := UdpHdr { src : Z; dest : Z; len : Z; chksum : Z }.

(** The blocks by address, the list of those that are bound or connected, and
    the memory pools. *)
Record udp_state := UdpState { blocks : gmap Z udp_pcb; udp_pcbs : list Z; pools : memp_state }.

Definition update_pcb (s : udp_state) (id : Z) (f : udp_pcb -> udp_pcb) : outcome udp_state :=
  p ← load (blocks s !! id);
  Ret (UdpState (<[id := f p]> (blocks s)) (udp_pcbs s) (pools s)).

(** ** Control blocks *)

Definition udp_new (s : udp_state) : outcome (option Z * udp_state) :=
  r ← memp_malloc (pools s) MEMP_UDP_PCB;
  match r.1 with
  | None => Ret (None, UdpState (blocks s) (udp_pcbs s) r.2)
  | Some id => Ret (Some id, UdpState (<[id := UdpPcb 0 0 0 0 0 0 0 0]> (blocks s)) (udp_pcbs s) r.2)
  end.

(** A block goes in front of the list unless it is on it. *)
Definition enlist (s : udp_state) (id : Z) : udp_state :=
  if decide (id ∈ udp_pcbs s) then s else UdpState (blocks s) (id :: udp_pcbs s) (pools s).

Definition udp_bind (s : udp_state) (id ipaddr port : Z) : outcome (err_t * udp_state) :=
  s ← update_pcb s id (fun p => UdpPcb ipaddr (remote_ip p) (u16 port) (remote_port p) (flags p) (chksum_len p) (recv p) (recv_arg p));
  Ret (ERR_OK, enlist s id).

Definition udp_connect (s : udp_state) (id ipaddr port : Z) : outcome (err_t * udp_state) :=
  s ← update_pcb s id (fun p => UdpPcb (local_ip p) ipaddr (local_port p) (u16 port) (flags p) (chksum_len p) (recv p) (recv_arg p));
  Ret (ERR_OK, enlist s id).

Definition udp_recv (s : udp_state) (id recv recv_arg : Z) : outcome udp_state :=
  update_pcb s id (fun p => UdpPcb (local_ip p) (remote_ip p) (local_port p) (remote_port p) (flags p) (chksum_len p) recv recv_arg).

Definition udp_remove (s : udp_state) (id : Z) : outcome udp_state :=
  _ ← load (blocks s !! id);
  Ret (UdpState (delete id (blocks s)) (unlink id (udp_pcbs s)) (memp_free (pools s) MEMP_UDP_PCB (Some id))).

(** ** Sending *)

Definition udp_hdr_bytes (h : udp_hdr) : list Z :=
  be16 (src h) ++ be16 (dest h) ++ be16 (len h) ++ [chksum h mod 256; chksum h / 256].

(** The chain behind the call of [pbuf_header]: the header is in the first buffer
    if there was room for it, else in a buffer of its own. *)
Definition udp_chain (room : bool) (h : udp_hdr) (data : list (list Z)) : list (list Z) :=
  match data with
  | d :: r => if room then (udp_hdr_bytes h ++ d) :: r else udp_hdr_bytes h :: data
  | [] => [udp_hdr_bytes h]
  end.

(** What [sr_lwip_output] gets: the bytes behind the IP header that the router
    adds. *)
Record datagram := Datagram { d_src : Z; d_dest : Z; d_proto : Z; d_bytes : list Z }.

(** [alloc] tells whether the buffer for the header can be had. *)
Definition udp_send (s : udp_state) (id : Z) (data : list (list Z)) (room alloc : bool)
  : outcome (err_t * option datagram) :=
  if negb room && negb alloc then Ret (ERR_MEM, None)
  else
    pcb ← load (blocks s !! id);
    let tot_len := u16 (UDP_HLEN + Z.of_nat (length (concat data))) in
    let lite := has (flags pcb) UDP_FLAGS_UDPLITE in
    let covered := if lite then chksum_len pcb else tot_len in
    let hdr c := UdpHdr (local_port pcb) (remote_port pcb) covered c in
    c ← (if lite || negb (has (flags pcb) UDP_FLAGS_NOCHKSUM) then
           c ← load (inet_chksum_pseudo (udp_chain room (hdr 0) data) (local_ip pcb) (remote_ip pcb) IP_PROTO_UDP covered);
           Ret (if c =? 0 then 65535 else c)
         else Ret 0);
    Ret (ERR_OK, Some (Datagram (local_ip pcb) (remote_ip pcb) (if lite then IP_PROTO_UDPLITE else IP_PROTO_UDP)
                         (concat (udp_chain room (hdr c) data)))).

(** ** Receiving *)

Definition get_udp_hdr (b : list Z) : outcome udp_hdr :=
  sp ← get16 b 0; dp ← get16 b 2; l ← get16 b 4; c ← get16 b 6;
  Ret (UdpHdr sp dp l (htons c)).

Definition addr_match (a b : Z) : bool := (a =? 0) || (a =? b).

Definition matches (sa da dp : Z) (p : udp_pcb) : bool :=
  (local_port p =? dp) && addr_match (remote_ip p) sa && addr_match (local_ip p) da.

(** The first block of the list that passes a test. *)
Fixpoint lookup_pcb (test : udp_pcb -> bool) (bs : gmap Z udp_pcb) (l : list Z) : outcome (option Z) :=
  match l with
  | [] => Ret None
  | id :: l => p ← load (bs !! id); if test p then Ret (Some id) else lookup_pcb test bs l
  end.

(** A block with the sender's port goes before one without. *)
Definition udp_demux (s : udp_state) (sa da sp dp : Z) : outcome (option Z) :=
  r ← lookup_pcb (fun p => (remote_port p =? sp) && matches sa da dp p) (blocks s) (udp_pcbs s);
  match r with
  | Some id => Ret (Some id)
  | None => lookup_pcb (matches sa da dp) (blocks s) (udp_pcbs s)
  end.

(** The call of the receive function of a block. *)
Record upcall := Upcall { u_recv : Z; u_arg : Z; u_pcb : Z; u_data : list Z; u_addr : Z; u_port : Z }.

(** [udp_input] on the bytes of an IP packet in one buffer; the result is the call
    it makes, or nothing when the packet is freed.  A packet that is shorter than
    its headers is read behind its end.  The length in the header is looked at
    for UDP Lite only. *)
Definition udp_input (s : udp_state) (pkt : list Z) : outcome (option upcall) :=
  v ← get8 pkt 0;
  let hl := 4 * Z.land v 15 in
  proto ← get8 pkt 9;
  sa ← get_addr pkt 12;
  da ← get_addr pkt 16;
  let b := drop (Z.to_nat hl) pkt in
  h ← get_udp_hdr b;
  r ← udp_demux s sa da (src h) (dest h);
  match r with
  | None => Ret None
  | Some id =>
      let tot_len := u16 (Z.of_nat (length b)) in
      bad ← (if proto =? IP_PROTO_UDPLITE then
               c ← load (inet_chksum_pseudo [b] sa da IP_PROTO_UDPLITE (len h)); Ret (truthy c)
             else if truthy (chksum h) then
               c ← load (inet_chksum_pseudo [b] sa da IP_PROTO_UDP tot_len); Ret (truthy c)
             else Ret false);
      if (bad : bool) then Ret None
      else
        pcb ← load (blocks s !! id);
        if recv pcb =? 0 then Undef
        else Ret (Some (Upcall (recv pcb) (recv_arg pcb) id (drop (Z.to_nat UDP_HLEN) b) sa (src h)))
  end.

(** ** Checksums that are never zero *)

(** A checksum of zero is sent as all ones, which verifies as well. *)
Lemma nonzero_checksum_verifies pre post s d proto proto_len :
  bytes (pre ++ [0; 0] ++ post) -> Z.of_nat (length (pre ++ [0; 0] ++ post)) < 65536 ->
  Nat.odd (length pre) = false -> addr_ok s -> addr_ok d -> 0 <= proto < 256 -> 0 <= proto_len < 65536 ->
  exists c, inet_chksum_pseudo [pre ++ [0; 0] ++ post] s d proto proto_len = Some c /\ 0 <= c < 65536 /\
    let c' := if c =? 0 then 65535 else c in
    inet_chksum_pseudo [pre ++ [c' mod 256; c' / 256] ++ post] s d proto proto_len = Some 0.
Proof.
  intros Hb Hl Ho Hs Hd Hp Hpl.
  assert (Hc : chain_ok ([pre ++ [0; 0] ++ post])) by (repeat constructor; auto).
  destruct (stored_checksum_verifies pre post [] s d proto proto_len Hc Ho Hs Hd Hp Hpl) as (c & E & V).
  exists c. split; [exact E|].
  rewrite inet_chksum_pseudo_sum in E by auto. apply (inj Some) in E.
  pose proof (canon_range (le (concat [pre ++ [0; 0] ++ post]) + zsum (pseudo_words s d proto proto_len))) as Hr.
  unfold pseudo_sum in E. split; [lia|]. cbv zeta. destruct (Z.eqb_spec c 0) as [->|]; [|exact V].
  rewrite !bytes_app in Hb. destruct Hb as (B1 & _ & B2).
  assert (Hc2 : chain_ok ([pre ++ [65535 mod 256; 65535 / 256] ++ post])).
  { constructor; [|constructor]. split; [|rewrite !length_app in *; exact Hl].
    rewrite !bytes_app. split; [exact B1|]. split; [repeat constructor; vm_compute; intuition discriminate|exact B2]. }
  rewrite inet_chksum_pseudo_sum by auto. f_equal. unfold pseudo_sum. cbn [concat] in *. rewrite app_nil_r in *.
  rewrite le_field. set (x := le (pre ++ [0; 0] ++ post)) in *. set (z := zsum _) in *.
  set (P := 256 ^ Z.of_nat (length pre)). assert (HP : 0 < P) by (apply Z.pow_pos_nonneg; lia).
  assert (Hx : 0 <= x) by (apply le_nonneg; rewrite !bytes_app; repeat split; auto; repeat constructor; lia).
  assert (Hz : 0 <= z).
  { pose proof (pseudo_words_range s d proto proto_len Hs Hd Hp Hpl) as Hw. destruct (oc_sum_canon _ Hw) as [Hz _]. exact Hz. }
  rewrite (canon_ext (x + P * 65535 + z) (x + z)); [lia|nia|lia| |exists P; lia].
  split; [nia|]. intros E0. rewrite E0 in E. vm_compute in E. discriminate.
Qed.

(** ** From one host to another *)

(** A datagram behind an IP header of 20 bytes. *)
Definition udp_wire (k : datagram) : list Z :=
  [69; 0; 0; 0; 0; 0; 0; 0; 64; d_proto k; 0; 0] ++ addr_bytes (d_src k) ++ addr_bytes (d_dest k) ++ d_bytes k.

Definition pcb_ok (p : udp_pcb) : Prop :=
  addr_ok (local_ip p) /\ addr_ok (remote_ip p) /\ 0 <= local_port p < 65536 /\ 0 <= remote_port p < 65536.

Lemma udp_chain_flat room h data : concat (udp_chain room h data) = udp_hdr_bytes h ++ concat data.
Proof. destruct data, room; cbn; rewrite ?app_nil_r, <- ?app_assoc; reflexivity. Qed.

Lemma udp_hdr_bytes_ok h : 0 <= chksum h < 65536 -> bytes (udp_hdr_bytes h).
Proof. intros Hc. unfold udp_hdr_bytes, be16. repeat (apply Forall_cons; split; [divmod|]). constructor. Qed.

Lemma udp_chain_ok room h data : 0 <= chksum h < 65536 -> Forall bytes data ->
  Z.of_nat (length (concat data)) + 8 < 65536 -> chain_ok (udp_chain room h data).
Proof.
  intros Hc Hd Hl. pose proof (udp_hdr_bytes_ok h Hc) as Hh.
  assert (Hr : forall l, Forall bytes l -> Z.of_nat (length (concat l)) < 65536 -> chain_ok l).
  { induction l as [|d l IH]; intros Hf Hn; constructor; apply Forall_cons in Hf as [Hb Hf]; cbn [concat] in Hn; rewrite length_app in Hn.
    - split; [exact Hb|lia].
    - apply IH; [exact Hf|lia]. }
  destruct data as [|d r]; cbn [udp_chain]; [|destruct room].
  - constructor; [split; [exact Hh|reflexivity]|constructor].
  - apply Forall_cons in Hd as [Hb Hd]. cbn [concat] in Hl. rewrite length_app in Hl. constructor; [|apply Hr; [exact Hd|lia]].
    split; [apply bytes_app; auto|]. rewrite length_app. change (length (udp_hdr_bytes h)) with 8%nat. lia.
  - constructor; [split; [exact Hh|reflexivity]|]. apply Hr; [exact Hd|lia].
Qed.

Lemma get_udp_hdr_bytes h d : 0 <= src h < 65536 -> 0 <= dest h < 65536 -> 0 <= len h < 65536 -> 0 <= chksum h < 65536 ->
  get_udp_hdr (udp_hdr_bytes h ++ d) = Ret h.
Proof.
  intros H1 H2 H3 H4. unfold get_udp_hdr, udp_hdr_bytes, get16, get8, be16. cbn [app lookup list_lookup load mbind outcome_bind].
  destruct h as [a b c e]. cbn [src dest len chksum] in *. do 2 f_equal; [divmod..|].
  rewrite htons_digits by divmod. divmod.
Qed.

(** The checksum of a chain is that of its bytes. *)
Lemma udp_chksum_flat room h data s d n : chksum h = 0 -> Forall bytes data -> Z.of_nat (length (concat data)) + 8 < 65536 ->
  addr_ok s -> addr_ok d -> 0 <= n < 65536 ->
  inet_chksum_pseudo (udp_chain room h data) s d IP_PROTO_UDP n =
  inet_chksum_pseudo [(be16 (src h) ++ be16 (dest h) ++ be16 (len h)) ++ [0; 0] ++ concat data] s d IP_PROTO_UDP n.
Proof.
  intros Hc Hd Hl Hs Hda Hn.
  assert (Hok : chain_ok (udp_chain room h data)) by (apply udp_chain_ok; auto; lia).
  pose proof (chain_bytes _ Hok) as Hb.
  assert (E : concat (udp_chain room h data) = (be16 (src h) ++ be16 (dest h) ++ be16 (len h)) ++ [0; 0] ++ concat data).
  { rewrite udp_chain_flat. unfold udp_hdr_bytes. rewrite Hc, <- !app_assoc. reflexivity. }
  rewrite E in Hb. unfold IP_PROTO_UDP. rewrite !inet_chksum_pseudo_sum; auto; try lia.
  - rewrite E. cbn [concat]. rewrite app_nil_r. reflexivity.
  - constructor; [split; [exact Hb|]|constructor]. rewrite !length_app. cbn [be16 length]. lia.
Qed.

(** The receiver's side: a datagram with a checksum of zero or one that verifies. *)
Lemma udp_input_wire sb sa da h d : addr_ok sa -> addr_ok da ->
  0 <= src h < 65536 -> 0 <= dest h < 65536 -> 0 <= len h < 65536 -> 0 <= chksum h < 65536 ->
  Z.of_nat (length d) + 8 < 65536 ->
  chksum h = 0 \/ inet_chksum_pseudo [udp_hdr_bytes h ++ d] sa da IP_PROTO_UDP (8 + Z.of_nat (length d)) = Some 0 ->
  udp_input sb (udp_wire (Datagram sa da IP_PROTO_UDP (udp_hdr_bytes h ++ d))) =
  (r ← udp_demux sb sa da (src h) (dest h);
   match r with
   | None => Ret None
   | Some id =>
       q ← load (blocks sb !! id);
       if recv q =? 0 then Undef else Ret (Some (Upcall (recv q) (recv_arg q) id d sa (src h)))
   end).
Proof.
  intros Hsa Hda H1 H2 H3 H4 Hl V. unfold udp_wire. cbn [d_src d_dest d_proto d_bytes].
  set (b := udp_hdr_bytes h ++ d) in *. set (ip := [69; 0; 0; 0; 0; 0; 0; 0; 64; IP_PROTO_UDP; 0; 0]). set (pkt := ip ++ _).
  assert (Esrc : get_addr pkt 12 = Ret sa) by exact (get_addr_bytes ip _ _ Hsa).
  assert (Edst : get_addr pkt 16 = Ret da)
    by (unfold pkt; rewrite app_assoc; exact (get_addr_bytes (ip ++ addr_bytes sa) _ _ Hda)).
  assert (Edrop : drop 20 pkt = b) by reflexivity.
  assert (E0 : get8 pkt 0 = Ret 69) by reflexivity. assert (E9 : get8 pkt 9 = Ret IP_PROTO_UDP) by reflexivity.
  assert (Lb : Z.of_nat (length b) = 8 + Z.of_nat (length d))
    by (unfold b; rewrite length_app; change (length (udp_hdr_bytes h)) with 8%nat; lia).
  assert (Eh : get_udp_hdr b = Ret h) by (apply get_udp_hdr_bytes; auto).
  unfold udp_input. rewrite E0, E9, Esrc, Edst. cbn [mbind outcome_bind]. change (Z.to_nat (4 * Z.land 69 15)) with 20%nat.
  rewrite Edrop, Eh. cbn [mbind outcome_bind].
  destruct (udp_demux _ _ _ _ _) as [[id|]| |]; cbn [mbind outcome_bind]; try reflexivity.
  cbn [Z.eqb IP_PROTO_UDP IP_PROTO_UDPLITE Pos.eqb]. rewrite Lb, u16_small by lia. unfold truthy at 1.
  destruct (Z.eqb_spec (chksum h) 0) as [|Hne]; [reflexivity|]. destruct V as [V|V]; [contradiction|].
  fold IP_PROTO_UDP. rewrite V. reflexivity.
Qed.


(** Two hosts with the addresses 10.0.0.1 and 10.0.0.2. *)
Definition ex_sender : udp_pcb := UdpPcb 16777226 33554442 5000 53 0 0 0 0.
Definition ex_state (p : udp_pcb) : udp_state := UdpState {[100 := p]} [100] (MempState (fun _ => None) ∅ (fun _ => Stats 0 0 0 0)).


(** The receive function is called without a look at the pointer: a block that is
    bound but has none yet crashes on the first packet. *)
Theorem udp_no_recv : exists s id pkt, udp_new (UdpState ∅ [] (MempState (fun _ => Some 100) {[100 := None]} (fun _ => Stats 0 0 0 0))) = Ret (Some id, s) /\
  (r ← udp_bind s id 0 53; udp_input r.2 pkt) = Undef /\
  (r ← udp_bind s id 0 53; s ← udp_recv r.2 id 7 8; udp_input s pkt) <> Undef.
Proof.
  eexists _, _, (udp_wire (Datagram 16777226 33554442 17 [19; 136; 0; 53; 0; 9; 0; 0; 1])).
  split; [vm_compute; reflexivity|]. split; vm_compute; [reflexivity|discriminate].
Qed.

(** A UDP Lite datagram is sent with a checksum over the protocol number of UDP
    and checked with that of UDP Lite: no receiver of this stack accepts it. *)
Theorem udp_lite_rejected : exists k, 
  udp_send (ex_state (UdpPcb 16777226 33554442 5000 53 UDP_FLAGS_UDPLITE 12 0 0)) 100 [[1; 2; 3; 4]] true true = Ret (ERR_OK, Some k) /\
  let sb := ex_state (UdpPcb 0 0 53 0 0 0 7 8) in
  udp_demux sb 16777226 33554442 5000 53 = Ret (Some 100) /\ udp_input sb (udp_wire k) = Ret None.
Proof. eexists. split; [vm_compute; reflexivity|]. split; vm_compute; reflexivity. Qed.
