(* ===== verification/Icmp.v ===== *)
(** * ICMP of the stack ([lwtcp/icmp.c])

    Echo requests and the error messages, on the bytes of IP packets in one
    buffer. *)

From stdpp Require Import base gmap list.
From Stdlib Require Import ZArith Lia.
From S2P Require Import Prelude Inet TcpTypes TcpProcess Udp.

Local Open Scope Z_scope.

Definition ICMP_ER : Z := 0.
Definition ICMP_DUR : Z := 3.
Definition ICMP_ECHO : Z := 8.
Definition ICMP_TE : Z := 11.
Definition IP_HLEN : Z := 20.
Definition IP_PROTO_ICMP : Z := 1.
Definition SIZEOF_ICMP_ECHO_HDR : Z := 8.

Definition ICMP_DUR_PORT : Z := 3.
Definition ICMP_TE_TTL : Z := 0.

(** ** Echo requests *)

(** The reply in place of the request: the type is cleared, and the difference
    goes into the checksum, as it lies in memory. *)
Definition echo_reply (b : list Z) : outcome (list Z) :=
  code ← get8 b 1;
  w ← get16 b 2;
  let c := htons w in
  let c := if htons (65535 - ICMP_ECHO * 256) <=? c then u16 (c + (htons (ICMP_ECHO * 256) + 1))
           else u16 (c + htons (ICMP_ECHO * 256)) in
  Ret ([ICMP_ER; code; c mod 256; c / 256] ++ drop 4 b).

(** The addresses of an IP header, exchanged. *)
Definition swap_addrs (pkt : list Z) : list Z :=
  take 12 pkt ++ take 4 (drop 16 pkt) ++ take 4 (drop 12 pkt) ++ drop 20 pkt.

(** The packet that [icmp_input] makes of an echo request, or nothing when it
    frees it. *)
Definition icmp_echo (netmask : Z) (pkt : list Z) (hlen : Z) : outcome (option (list Z)) :=
  dest ← get_addr pkt 16;
  if ip_addr_isbroadcast dest netmask || ip_addr_ismulticast dest then Ret None
  else
    let b := drop (Z.to_nat hlen) pkt in
    if Z.of_nat (length b) <? SIZEOF_ICMP_ECHO_HDR then Ret None
    else
      c ← load (inet_chksum_pbuf [b]);
      if truthy c then Ret None
      else
        r ← echo_reply b;
        Ret (Some (take (Z.to_nat hlen) (swap_addrs pkt) ++ r)).

(** [icmp_input]: where the reply should be sent stands [assert(0)]. *)
Definition icmp_input (netmask : Z) (pkt : list Z) : outcome unit :=
  v ← get8 pkt 0;
  let hlen := 4 * Z.land v 15 in
  type ← get8 pkt (Z.to_nat hlen);
  if type =? ICMP_ECHO then
    r ← icmp_echo netmask pkt hlen;
    match r with Some _ => Undef | None => Ret () end
  else Ret ().

(** ** Error messages

    [q] is the buffer that [pbuf_alloc] gave, of which four bytes keep what is in
    memory; the code does not look whether there is one. *)

Definition icmp_error (type code : Z) (q : option (list Z)) (p : list Z) : outcome datagram :=
  unused ← load q;
  src ← get_addr p 12;
  dest ← get_addr p 16;
  if Z.of_nat (length p) <? IP_HLEN + 8 then Undef
  else
    let msg c := [type; code; c mod 256; c / 256] ++ unused ++ take (Z.to_nat (IP_HLEN + 8)) p in
    c ← load (inet_chksum (msg 0));
    Ret (Datagram dest src IP_PROTO_ICMP (msg c)).

Definition icmp_dest_unreach (q : option (list Z)) (p : list Z) (t : Z) : outcome datagram := icmp_error ICMP_DUR t q p.
Definition icmp_time_exceeded (q : option (list Z)) (p : list Z) (t : Z) : outcome datagram := icmp_error ICMP_TE t q p.

(** ** Checksums *)

(** A stored checksum verifies: the analogue for [inet_chksum] of
    [stored_checksum_verifies]. *)
Lemma inet_chksum_stored pre post : bytes (pre ++ [0; 0] ++ post) ->
  Z.of_nat (length (pre ++ [0; 0] ++ post)) < 65536 -> Nat.odd (length pre) = false ->
  exists c, inet_chksum (pre ++ [0; 0] ++ post) = Some c /\ 0 <= c < 65536 /\
    inet_chksum (pre ++ [c mod 256; c / 256] ++ post) = Some 0.
Proof.
  intros Hb Hl Ho. rewrite inet_chksum_sum by auto. eexists. split; [reflexivity|].
  set (S := canon _). assert (HS : 0 <= S <= 65535) by apply canon_range. split; [lia|].
  pose proof (le_nonneg _ Hb) as Hn. rewrite !bytes_app in Hb. destruct Hb as (B1 & _ & B2).
  rewrite inet_chksum_sum.
  - rewrite le_field, complement_sum by (auto; lia). reflexivity.
  - rewrite !bytes_app. split; [exact B1|]. split; [|exact B2]. repeat (apply Forall_cons; split; [divmod|]). constructor.
  - rewrite !length_app in *. exact Hl.
Qed.

(** The broken swap of [inet_chksum_pbuf] does not matter for the comparison with
    zero, as long as the packet is in one buffer. *)
Lemma pbuf_verifies b : bytes b -> Z.of_nat (length b) < 65536 -> inet_chksum_pbuf [b] = Some 0 -> canon (le b) = 65535.
Proof.
  intros Hb Hl. unfold inet_chksum_pbuf. cbn [pbuf_loop]. rewrite pbuf_round_sum by (auto; lia).
  cbn [mbind option_bind]. rewrite Z.add_0_l. pose proof (canon_range (le b)) as Hr.
  destruct (xorb _ _).
  - rewrite swap_acc_canon by exact Hr. rewrite complement by apply canon_range. intros E. apply (inj Some) in E.
    assert (E1 : canon (256 * canon (le b)) = 65535) by lia. revert E1 Hr. generalize (canon (le b)). intros x E1 Hr.
    unfold canon in E1. destruct (Z.eqb_spec (256 * x) 0); [discriminate|]. divmod.
  - rewrite complement by exact Hr. intros E. apply (inj Some) in E. lia.
Qed.

Lemma le_zero b : bytes b -> le b = 0 -> Forall (fun x => x = 0) b.
Proof.
  induction b as [|x b IH]; intros Hb H0; constructor; apply Forall_cons in Hb as [Hx Hb]; cbn [le] in H0;
    pose proof (le_nonneg _ Hb); [lia|apply IH; [exact Hb|lia]].
Qed.

(** C14: the answer that [icmp_input] prepares for an echo request is an echo
    reply: of a request that passes the check only the type and the checksum
    change, and the new checksum, computed from the old one, verifies.  The
    one exception is a reply that is zero in every byte. *)
Theorem icmp_echo_reply code c d : bytes d -> 0 <= code < 256 -> 0 <= c < 65536 -> 4 <= Z.of_nat (length d) < 65532 ->
  inet_chksum_pbuf [[ICMP_ECHO; code; c mod 256; c / 256] ++ d] = Some 0 ->
  exists c', echo_reply ([ICMP_ECHO; code; c mod 256; c / 256] ++ d) = Ret ([ICMP_ER; code; c' mod 256; c' / 256] ++ d) /\
    0 <= c' < 65536 /\
    (inet_chksum ([ICMP_ER; code; c' mod 256; c' / 256] ++ d) = Some 0 \/ Forall (fun x => x = 0) ([ICMP_ER; code; c' mod 256; c' / 256] ++ d)).
Proof.
  intros Hd Hcode Hc Hl V.
  assert (Hb : forall t x, 0 <= t < 256 -> 0 <= x < 65536 -> bytes ([t; code; x mod 256; x / 256] ++ d)).
  { intros t x Ht Hx. apply bytes_app. split; [|exact Hd]. repeat (apply Forall_cons; split; [divmod|]). constructor. }
  assert (Hlen : forall t x, Z.of_nat (length ([t; code; x mod 256; x / 256] ++ d)) < 65536)
    by (intros; rewrite length_app; cbn [length]; lia).
  assert (Hle : forall t x, le ([t; code; x mod 256; x / 256] ++ d) = t + 256 * code + 65536 * x + 4294967296 * le d).
  { intros t x. rewrite le_app. cbn [le length]. change (256 ^ Z.of_nat 4) with 4294967296. divmod. }
  apply pbuf_verifies in V; [|apply Hb; unfold ICMP_ECHO; lia|apply Hlen]. rewrite Hle in V. unfold ICMP_ECHO in V.
  set (c' := if 65527 <=? c then u16 (c + 9) else u16 (c + 8)).
  exists c'. assert (Hc' : 0 <= c' < 65536) by (unfold c'; case_bool; apply u16_range).
  split; [|split; [exact Hc'|]].
  - unfold echo_reply, get16, get8. cbn [app lookup list_lookup load mbind outcome_bind].
    assert (Ew : htons (c mod 256 * 256 + c / 256) = c) by (rewrite htons_digits by divmod; divmod).
    rewrite Ew. change (htons (65535 - ICMP_ECHO * 256)) with 65527. change (htons (ICMP_ECHO * 256)) with 8.
    change (8 + 1) with 9. fold c'. reflexivity.
  - pose proof (le_nonneg _ Hd) as Hn.
    destruct (Z.eqb_spec (le ([ICMP_ER; code; c' mod 256; c' / 256] ++ d)) 0) as [H0|H0].
    + right. apply le_zero; [apply Hb; unfold ICMP_ER; lia|exact H0].
    + left. rewrite inet_chksum_sum by (try apply Hlen; apply Hb; unfold ICMP_ER; lia). do 2 f_equal.
      rewrite Hle in *. unfold ICMP_ER in *. rewrite <- V. assert (E : canon (0 + 256 * code + 65536 * c' + 4294967296 * le d) =
        canon (8 + 256 * code + 65536 * c + 4294967296 * le d)); [|rewrite E; lia].
      apply canon_ext; [lia|lia|lia|]. unfold c'. destruct (Z.leb_spec 65527 c).
      * exists (- 65528). replace (u16 (c + 9)) with (c - 65527); [lia|].
        replace (c + 9) with (c - 65527 + 1 * 65536) by lia. unfold wrapu. change (2 ^ 16) with 65536.
        rewrite Z.mod_add, Z.mod_small by lia. reflexivity.
      * exists 8. rewrite u16_small by lia. lia.
Qed.

Lemma icmp_echo_reply_witness : exists c',
  echo_reply ([ICMP_ECHO; 0; 64758 mod 256; 64758 / 256] ++ [1; 2; 0; 1]) = Ret ([ICMP_ER; 0; c' mod 256; c' / 256] ++ [1; 2; 0; 1]) /\
  0 <= c' < 65536.
Proof.
  destruct (icmp_echo_reply 0 64758 [1; 2; 0; 1]) as (c' & E & Hc & _).
  - repeat constructor; lia.
  - lia.
  - lia.
  - cbn. lia.
  - vm_compute. reflexivity.
  - exists c'. split; [exact E|exact Hc].
Defined.

(** The exception: the reply to a request whose other bytes are all zero. *)
Theorem icmp_zero_reply : inet_chksum_pbuf [[8; 0; 247; 255; 0; 0; 0; 0]] = Some 0 /\
  exists r, echo_reply [8; 0; 247; 255; 0; 0; 0; 0] = Ret r /\ inet_chksum r = Some 65535.
Proof. split; [vm_compute; reflexivity|]. exists [0; 0; 0; 0; 0; 0; 0; 0]. split; vm_compute; reflexivity. Qed.

(** A request that passes every check ends the process. *)
Theorem icmp_echo_aborts netmask pkt hlen r : icmp_echo netmask pkt hlen = Ret (Some r) ->
  get8 pkt 0 = Ret (64 + hlen / 4) -> get8 pkt (Z.to_nat hlen) = Ret ICMP_ECHO -> 0 <= hlen < 64 -> hlen mod 4 = 0 ->
  icmp_input netmask pkt = Undef.
Proof.
  intros He H0 Ht Hh Hm. unfold icmp_input. rewrite H0. cbn [mbind outcome_bind].
  replace (4 * Z.land (64 + hlen / 4) 15) with hlen.
  - rewrite Ht. cbn [mbind outcome_bind]. rewrite Z.eqb_refl, He. reflexivity.
  - change 15 with (2 ^ 4 - 1). rewrite land_ones_mod by lia. change (2 ^ 4) with 16. divmod.
Qed.

Lemma get_addr_in p i : (i + 4 <= length p)%nat -> exists a, get_addr p i = Ret a.
Proof.
  intros Hl. assert (H : forall j, (j < length p)%nat -> exists x, p !! j = Some x) by (intros j Hj; apply lookup_lt_is_Some_2, Hj).
  unfold get_addr, get32, get16, get8.
  destruct (H i ltac:(lia)) as (x0 & ->), (H (S i) ltac:(lia)) as (x1 & ->), (H (S (S i)) ltac:(lia)) as (x2 & ->),
    (H (S (S (S i))) ltac:(lia)) as (x3 & ->). cbn. eauto.
Qed.

(** The error messages verify at the receiver, whatever the unused bytes hold, and
    carry the IP header of the packet and eight bytes more. *)
Theorem icmp_error_verifies type code unused p : 0 <= type < 256 -> 0 <= code < 256 -> bytes unused -> length unused = 4%nat ->
  bytes p -> (28 <= length p)%nat -> exists k, icmp_error type code (Some unused) p = Ret k /\
    inet_chksum (d_bytes k) = Some 0 /\ d_proto k = IP_PROTO_ICMP /\ drop 8 (d_bytes k) = take 28 p.
Proof.
  intros Ht Hc Hu Lu Hp Lp. unfold icmp_error. cbn [load mbind outcome_bind].
  destruct (get_addr_in p 12) as (sa & ->); [lia|]. destruct (get_addr_in p 16) as (da & ->); [lia|]. cbn [mbind outcome_bind].
  unfold IP_HLEN. replace (Z.of_nat (length p) <? 20 + 8) with false by lia. change (Z.to_nat (20 + 8)) with 28%nat.
  assert (Lt : length (take 28 p) = 28%nat) by (rewrite length_take; lia).
  destruct (inet_chksum_stored [type; code] (unused ++ take 28 p)) as (c & E & _ & V).
  - rewrite !bytes_app. split; [repeat constructor; lia|]. split; [repeat constructor; lia|]. split; [exact Hu|].
    apply Forall_take, Hp.
  - rewrite !length_app, Lt, Lu. cbn. lia.
  - reflexivity.
  - cbn [app] in E |- *. change (0 mod 256) with 0. change (0 / 256) with 0. rewrite E. cbn [load mbind outcome_bind].
    eexists. split; [reflexivity|]. cbn [d_bytes d_proto]. split; [exact V|]. split; [reflexivity|].
    destruct unused as [|u0 [|u1 [|u2 [|u3 [|]]]]]; try discriminate. cbn [app drop]. rewrite drop_0. reflexivity.
Qed.
