(* ===== verification/SysArch.v ===== *)
(** * The host threads of the stack ([lwtcp/sys_arch.c])

    Semaphores built from a POSIX mutex and condition variable, waiting with a
    bound, mailboxes (bounded queues of pointers between threads) and the list
    of threads.  [Mbox] has the theorems on mailboxes. *)

From S2P Require Import Prelude SrCommon.
From stdpp Require Import base gmap list relations.
From Stdlib Require Import ZArith Lia.

Local Open Scope Z_scope.

(** ** Semaphores

    A semaphore is its count [c].  [sys_sem_wait] is [sys_arch_sem_wait] with
    the timeout 0: it waits while the count is zero.  [sys_sem_signal] never
    raises the count above one, whatever the initial count. *)

Definition sys_sem_new (count : Z) : Z := count.

Definition sys_sem_wait (c : Z) : outcome Z := if c <=? 0 then Blocked else Ret (u32 (c - 1)).

Definition sys_sem_signal (c : Z) : Z := let c := u32 (c + 1) in if 1 <? c then 1 else c.

(** *** Inside a semaphore

    The critical sections under the POSIX mutex are single steps; a waiting
    thread releases the mutex in [pthread_cond_wait] and takes it again when it
    is woken.  A condition variable may wake a thread that nobody signalled. *)

Record sem := Sem { count : Z; asleep : list nat; woken : list nat }.

(** One round of the loop of [sys_arch_sem_wait]. *)
Definition sem_round (s : sem) (t : nat) : sem * bool :=
  match sys_sem_wait (count s) with
  | Ret c => (Sem c (asleep s) (woken s), true)
  | _ => (Sem (count s) (t :: asleep s) (woken s), false)
  end.

Inductive sem_event := Acquired (t : nat) | Signalled | TimedOut (t : nat) | Silent.

Definition round_event (t : nat) (b : bool) : sem_event := if b then Acquired t else Silent.

Inductive sem_step : sem -> sem_event -> sem -> Prop :=
| sem_enter s t : sem_step s (round_event t (sem_round s t).2) (sem_round s t).1
| sem_resume c l w1 t w2 : let s := Sem c l (w1 ++ w2) in
    sem_step (Sem c l (w1 ++ t :: w2)) (round_event t (sem_round s t).2) (sem_round s t).1
| sem_signal_none c w : sem_step (Sem c [] w) Signalled (Sem (sys_sem_signal c) [] w)
| sem_signal_one c l1 t l2 w :
    sem_step (Sem c (l1 ++ t :: l2) w) Signalled (Sem (sys_sem_signal c) (l1 ++ l2) (t :: w))
| sem_spurious c l1 t l2 w : sem_step (Sem c (l1 ++ t :: l2) w) Silent (Sem c (l1 ++ l2) (t :: w))
| sem_timeout c l1 t l2 w : sem_step (Sem c (l1 ++ t :: l2) w) (TimedOut t) (Sem c (l1 ++ l2) w).

(** ** Waiting with a bound

    [cond_wait] with a timeout in milliseconds: the absolute time that
    [pthread_cond_timedwait] gets, and the value returned, from its result and
    the times before and after it. *)

Record timespec := Timespec { ts_sec : Z; ts_nsec : Z }.

Definition wait_until (rtime1 : timeval) (timeout : Z) : timespec :=
  let usec := tv_usec rtime1 + timeout mod 1000 * 1000 in
  let sec := tv_sec rtime1 + (timeout / 1000 + usec / 1000000) in
  Timespec sec (usec mod 1000000 * 1000).

Definition cond_wait (timeout : Z) (timedout : bool) (rtime1 rtime2 : timeval) : Z :=
  if 0 <? timeout then
    if timedout then 0
    else
      let tdiff := u32 ((tv_sec rtime2 - tv_sec rtime1) * 1000 +
                        Z.quot (tv_usec rtime2 - tv_usec rtime1) 1000) in
      if tdiff =? 0 then 1 else u16 tdiff
  else 0.

(** ** Mailboxes *)

Definition SYS_MBOX_SIZE : Z := 100.

(** The slots that have been written are in [msgs]. *)
Record sys_mbox := SysMbox {
  first : Z;
  last : Z;
  msgs : gmap Z Z;
  mail : Z;
  mutex : Z
}.

Definition sys_mbox_new : sys_mbox := SysMbox 0 0 ∅ (sys_sem_new 0) (sys_sem_new 1).

Definition set_mail (b : sys_mbox) (c : Z) : sys_mbox := SysMbox (first b) (last b) (msgs b) c (mutex b).
Definition set_mutex (b : sys_mbox) (c : Z) : sys_mbox := SysMbox (first b) (last b) (msgs b) (mail b) c.

(** The next index of the ring. *)
Definition bump (i : Z) : Z := let i := u16 (i + 1) in if i =? SYS_MBOX_SIZE then 0 else i.

(** Where a thread is in [sys_mbox_post] or [sys_arch_mbox_fetch]; [time] is
    the local variable of the latter. *)
Inductive pc :=
| Idle
| PostLock (msg : Z)
| PostStore (msg : Z)
| PostMail (first : bool)
| PostUnlock
| FetchLock (timeout time : Z)
| FetchTest (timeout time : Z)
| FetchMail (timeout time : Z)
| FetchUnlock (time msg : Z).

(** The step of a thread from each of its positions, up to and including the
    next operation on a semaphore or access to the ring.  [time] is what a
    successful [sys_arch_sem_wait] on [mail] reports. *)
Definition exec (time : Z) (b : sys_mbox) (p : pc) : outcome (sys_mbox * pc) :=
  match p with
  | Idle => Ret (b, Idle)
  | PostLock msg =>
      c ← sys_sem_wait (mutex b);
      Ret (set_mutex b c, PostStore msg)
  | PostStore msg =>
      Ret (SysMbox (first b) (bump (last b)) (<[last b := msg]> (msgs b)) (mail b) (mutex b),
           PostMail (last b =? first b))
  | PostMail true => Ret (set_mail b (sys_sem_signal (mail b)), PostUnlock)
  | PostMail false => Ret (b, PostUnlock)
  | PostUnlock => Ret (set_mutex b (sys_sem_signal (mutex b)), Idle)
  | FetchLock timeout time =>
      c ← sys_sem_wait (mutex b);
      Ret (set_mutex b c, FetchTest timeout time)
  | FetchTest timeout time =>
      if first b =? last b then Ret (set_mutex b (sys_sem_signal (mutex b)), FetchMail timeout time)
      else
        msg ← load (msgs b !! first b);
        Ret (SysMbox (bump (first b)) (last b) (msgs b) (mail b) (mutex b), FetchUnlock time msg)
  | FetchMail timeout time0 =>
      c ← sys_sem_wait (mail b);
      Ret (set_mail b c, FetchLock timeout (if timeout =? 0 then time0 else time))
  | FetchUnlock time msg => Ret (set_mutex b (sys_sem_signal (mutex b)), Idle)
  end.

(** [sys_mbox_free] waits for the mutex first; then the box is gone. *)
Definition sys_mbox_free (b : sys_mbox) : outcome unit := _ ← sys_sem_wait (mutex b); Ret ().

(** Mailboxes shared by threads.  [posted] and [fetched] record the messages in
    the order in which they went into and came out of the ring. *)
Record system := System {
  box : sys_mbox;
  threads : gmap nat pc;
  posted : list Z;
  fetched : list Z
}.

Definition stores (p : pc) : list Z := match p with PostStore msg => [msg] | _ => [] end.
Definition takes (p : pc) : list Z := match p with FetchUnlock _ msg => [msg] | _ => [] end.

Definition goto (s : system) (t : nat) (p : pc) : system :=
  System (box s) (<[t := p]> (threads s)) (posted s) (fetched s).

(** A step of a call that is under way. *)
Inductive running : system -> nat -> system -> Prop :=
| run s t p time b' p' : threads s !! t = Some p -> p <> Idle -> 0 < time < 65536 ->
    exec time (box s) p = Ret (b', p') ->
    running s t (System b' (<[t := p']> (threads s)) (posted s ++ stores p) (fetched s ++ takes p')).

Inductive step : system -> system -> Prop :=
| step_run s t s' : running s t s' -> step s s'
| step_post s t msg : threads s !! t = Some Idle -> step s (goto s t (PostLock msg))
| step_fetch s t timeout : threads s !! t = Some Idle -> 0 <= timeout < 65536 ->
    step s (goto s t (FetchLock timeout 1))
| step_timeout s t timeout time : threads s !! t = Some (FetchMail timeout time) -> timeout <> 0 ->
    step s (goto s t Idle).

(** ** The list of threads

    [timeouts] of a thread is the list that [Sys] keeps; here it is any type. *)

Section Threads.
Context {T : Type} (no_timeouts : T).

Record sys_thread := SysThread { timeouts : T; pthread : Z }.

(** [sys_thread_init] and the first part of [sys_thread_new]: a thread in front
    of the list, with the identifier of the calling thread or with 0. *)
Definition sys_thread_init (threads : list sys_thread) (self : Z) : list sys_thread :=
  SysThread no_timeouts self :: threads.

Definition sys_thread_new (threads : list sys_thread) : list sys_thread :=
  SysThread no_timeouts 0 :: threads.

(** [pthread_create] stores the identifier, and so does [thread_start] in the new
    thread. *)
Definition thread_start (threads : list sys_thread) (i : nat) (self : Z) : list sys_thread :=
  alter (fun th => SysThread (timeouts th) self) i threads.

(** The position of the thread that calls; the code aborts if it is not there. *)
Fixpoint current_thread (threads : list sys_thread) (self : Z) : outcome nat :=
  match threads with
  | [] => Undef
  | st :: threads =>
      if pthread st =? self then Ret 0%nat
      else i ← current_thread threads self; Ret (S i)
  end.

Definition sys_arch_timeouts (threads : list sys_thread) (self : Z) : outcome (nat * T) :=
  i ← current_thread threads self;
  th ← load (threads !! i);
  Ret (i, timeouts th).
End Threads.

(** [sys_unix_now], in milliseconds since [sys_init]. *)
Definition sys_unix_now (starttime tv : timeval) : Z :=
  u32 ((tv_sec tv - tv_sec starttime) * 1000 + Z.quot (tv_usec tv - tv_usec starttime) 1000).
