(* ===== verification/Mbox.v ===== *)
(** * Mailboxes between threads

    The mailboxes of [SysArch] shared by any number of posting threads and one
    fetching thread: messages come out in the order in which they went in, and
    no wake-up is lost, as long as fewer than [SYS_MBOX_SIZE] messages wait. *)

From stdpp Require Import base gmap list relations.
From Stdlib Require Import ZArith Lia.
From S2P Require Import Prelude SysArch.

Local Open Scope Z_scope.

(** ** Semaphores lose no wake-up

    While a thread sleeps the count is zero, or it is one and a woken thread is
    on its way to take it. *)

Definition sem_ok (s : sem) : Prop :=
  0 <= count s < 2 ^ 32 /\ (asleep s <> [] -> count s = 0 \/ count s = 1 /\ woken s <> []).

Lemma sem_round_ok s t : 0 <= count s < 2 ^ 32 -> (asleep s <> [] -> count s <= 1) -> sem_ok (sem_round s t).1.
Proof.
  intros Hc Ha. unfold sem_ok, sem_round, sys_sem_wait. change (2 ^ 32) with 4294967296 in *.
  destruct (Z.leb_spec (count s) 0); cbn [fst count asleep woken].
  - split; [lia|]. left. lia.
  - rewrite u32_small by lia. split; [lia|]. intros H'. specialize (Ha H'). left. lia.
Qed.

Lemma sys_sem_signal_range c : 0 <= sys_sem_signal c <= 1.
Proof. unfold sys_sem_signal. pose proof (u32_range (c + 1)). case_bool; lia. Qed.

Lemma sem_step_ok s e s' : sem_step s e s' -> sem_ok s -> sem_ok s'.
Proof.
  intros Hst. destruct Hst; intros [Hc Ha]; cbn [count asleep woken] in *.
  - apply sem_round_ok; [exact Hc|]. intros H'. destruct (Ha H') as [|[? _]]; lia.
  - apply sem_round_ok; [exact Hc|]. intros H'. subst s. cbn [count] in *. destruct (Ha H') as [|[? _]]; lia.
  - pose proof (sys_sem_signal_range c). split; [cbn; lia|]. intros []. reflexivity.
  - pose proof (sys_sem_signal_range c). split; [cbn; lia|]. intros _. cbn.
    assert (Hd : sys_sem_signal c = 0 \/ sys_sem_signal c = 1) by lia. destruct Hd; auto.
  - split; [exact Hc|]. intros _. cbn. destruct Ha as [H|[H _]]; auto. destruct l1; discriminate.
  - split; [exact Hc|]. intros _. cbn. apply Ha. destruct l1; discriminate.
Qed.

(** A semaphore is its count: a thread gets through exactly when the count
    allows it, whatever sleeps and wakes inside. *)
Lemma sem_step_count s e s' : sem_step s e s' ->
  match e with
  | Acquired _ => sys_sem_wait (count s) = Ret (count s')
  | Signalled => count s' = sys_sem_signal (count s)
  | _ => count s' = count s
  end.
Proof.
  intros Hst. destruct Hst; try reflexivity; try subst s; unfold sem_round, sys_sem_wait; cbn [count].
  - destruct (count s <=? 0) eqn:E; cbn [fst snd round_event count]; rewrite ?E; reflexivity.
  - destruct (c <=? 0) eqn:E; cbn [fst snd round_event count]; rewrite ?E; reflexivity.
Qed.

(** ** Mailboxes: the threads that hold the mutex *)

Definition critical (p : pc) : bool :=
  match p with PostStore _ | PostMail _ | PostUnlock | FetchTest _ _ | FetchUnlock _ _ => true | _ => false end.

Definition fetching (p : pc) : bool :=
  match p with FetchLock _ _ | FetchTest _ _ | FetchMail _ _ | FetchUnlock _ _ => true | _ => false end.

Definition in_critical (s : system) (t : nat) : bool := from_option critical false (threads s !! t).

(** Nobody but [f] fetches, and the ring has room for what waits in it. *)
Definition orderly (f : nat) (s : system) : Prop :=
  (length (posted s) < length (fetched s) + 100)%nat /\
  forall t p, threads s !! t = Some p -> fetching p = true -> t = f.

Definition orderly_step (f : nat) (s s' : system) : Prop := step s s' /\ orderly f s'.

Definition fresh (ths : gmap nat pc) : system := System sys_mbox_new ths [] [].

(** The calls under way take a step. *)
Definition proceeds (s s' : system) : Prop := exists t, running s t s'.

(** ** The invariant

    [h] is the thread that holds the mutex and [q] what is in the ring. *)

Record ring_inv (b : sys_mbox) (q : list Z) : Prop := {
  ri_first : 0 <= first b < 100;
  ri_last : last b = (first b + Z.of_nat (length q)) mod 100;
  ri_slots : forall i x, q !! i = Some x -> msgs b !! ((first b + Z.of_nat i) mod 100) = Some x
}.

Record mbox_inv (f : nat) (s : system) (h : option nat) (q : list Z) : Prop := {
  mi_log : posted s = fetched s ++ q;
  mi_ring : ring_inv (box s) q;
  mi_mail : mail (box s) = 0 \/ mail (box s) = 1;
  mi_mutex : mutex (box s) = if h then 0 else 1;
  mi_holder : forall t, in_critical s t = true <-> h = Some t;
  mi_wake : q <> [] -> forall timeout time, threads s !! f = Some (FetchMail timeout time) ->
    mail (box s) = 1 \/ exists t, threads s !! t = Some (PostMail true)
}.

Lemma orderly_room f s h q : mbox_inv f s h q -> orderly f s -> (length q < 100)%nat.
Proof. intros I [Hr _]. rewrite (mi_log _ _ _ _ I), length_app in Hr. lia. Qed.

Lemma bump_mod i : 0 <= i < 100 -> bump i = (i + 1) mod 100.
Proof. intros Hi. unfold bump, SYS_MBOX_SIZE. rewrite u16_small by lia. case_bool; divmod. Qed.

(** The ring is empty exactly when the indices agree. *)
Lemma ring_empty b q : ring_inv b q -> (length q < 100)%nat -> (first b =? last b) = true <-> q = [].
Proof.
  intros [F L _] Hq. rewrite Z.eqb_eq, L. split; [|intros ->; cbn; divmod].
  intros E. apply length_zero_iff_nil. divmod.
Qed.

Lemma ring_put b q msg mail mutex : ring_inv b q -> (length q < 100)%nat ->
  ring_inv (SysMbox (first b) (bump (last b)) (<[last b := msg]> (msgs b)) mail mutex) (q ++ [msg]).
Proof.
  intros [F L S] Hq. constructor; cbn [first last msgs]; [exact F| |].
  - rewrite bump_mod by (rewrite L; apply Z.mod_pos_bound; lia). rewrite L, length_app. cbn. divmod.
  - intros i x Hi. apply lookup_app_Some in Hi as [Hi|[Hge Hi]].
    + rewrite lookup_insert_ne; [apply S, Hi|]. rewrite L. apply lookup_lt_Some in Hi. divmod.
    + apply list_lookup_singleton_Some in Hi as [H0 <-]. replace i with (length q) by lia.
      rewrite L. apply lookup_insert_eq.
Qed.

Lemma ring_get b msg q : ring_inv b (msg :: q) ->
  msgs b !! first b = Some msg /\
  ring_inv (SysMbox (bump (first b)) (last b) (msgs b) (mail b) (mutex b)) q.
Proof.
  intros [F L S]. split.
  - rewrite <- (S 0%nat msg eq_refl). f_equal. divmod.
  - constructor; cbn [first last msgs]; rewrite ?bump_mod by exact F.
    + apply Z.mod_pos_bound. lia.
    + rewrite L. cbn [length]. divmod.
    + intros i x Hi. rewrite <- (S (Datatypes.S i) x Hi). f_equal. divmod.
Qed.

(** Two boxes with the same ring. *)
Lemma ring_ext b b' q : ring_inv b q -> first b' = first b -> last b' = last b -> msgs b' = msgs b -> ring_inv b' q.
Proof. intros [F L S] E1 E2 E3. constructor; rewrite ?E1, ?E2, ?E3; assumption. Qed.

Lemma in_critical_goto s b t p ps fs t' :
  in_critical (System b (<[t := p]> (threads s)) ps fs) t' = if decide (t' = t) then critical p else in_critical s t'.
Proof.
  unfold in_critical. cbn. destruct (decide (t' = t)) as [->|Hne]; [rewrite lookup_insert_eq|rewrite lookup_insert_ne by auto]; reflexivity.
Qed.

(** Who holds the mutex after a thread has moved. *)
Definition moved (h : option nat) (t : nat) (p : pc) : option nat :=
  if critical p then Some t else if decide (h = Some t) then None else h.

Lemma holder_moved s h t p b ps fs :
  (forall t', in_critical s t' = true <-> h = Some t') -> (critical p = true -> h = None \/ h = Some t) ->
  forall t', in_critical (System b (<[t := p]> (threads s)) ps fs) t' = true <-> moved h t p = Some t'.
Proof.
  intros Hh Hc t'. rewrite in_critical_goto. unfold moved. specialize (Hh t').
  destruct (decide (t' = t)) as [->|Hne], (critical p) eqn:E; rewrite ?Hh.
  - naive_solver.
  - destruct (decide (h = Some t)); naive_solver.
  - destruct (Hc eq_refl) as [->| ->]; naive_solver.
  - destruct (decide (h = Some t)); naive_solver.
Qed.

Lemma load_run s t p : threads s !! t = Some p -> in_critical s t = critical p.
Proof. unfold in_critical. intros ->. reflexivity. Qed.

(** What waits in the ring after a step. *)
Definition queue_after (q : list Z) (p p' : pc) : list Z :=
  drop (length (takes p')) q ++ stores p.

(** A position that a thread leaves can be dropped from the threads about to
    signal [mail] unless it was one of them. *)
Lemma pending_kept s t p p' b ps fs : threads s !! t = Some p -> p <> PostMail true ->
  (exists t', threads s !! t' = Some (PostMail true)) ->
  exists t', threads (System b (<[t := p']> (threads s)) ps fs) !! t' = Some (PostMail true).
Proof.
  intros Ht Hp (t' & Ht'). exists t'. cbn. rewrite lookup_insert_ne; [exact Ht'|]. intros ->. congruence.
Qed.

Lemma holds_mutex f s h q t p : mbox_inv f s h q -> threads s !! t = Some p -> critical p = true -> h = Some t.
Proof. intros I Ht Hp. apply (mi_holder _ _ _ _ I). rewrite (load_run _ _ _ Ht). exact Hp. Qed.

Lemma holds_no_mutex f s h q t p : mbox_inv f s h q -> threads s !! t = Some p -> critical p = false -> h <> Some t.
Proof.
  intros I Ht Hp Hh. apply (mi_holder _ _ _ _ I) in Hh. rewrite (load_run _ _ _ Ht) in Hh. congruence.
Qed.

Lemma sys_sem_wait_ret c c' : 0 <= c <= 1 -> sys_sem_wait c = Ret c' -> c = 1 /\ c' = 0.
Proof.
  intros Hc. unfold sys_sem_wait. case_bool; [discriminate|]. intros E. injection E as <-. rewrite u32_small by lia. lia.
Qed.

Lemma sys_sem_signal_01 c : 0 <= c <= 1 -> sys_sem_signal c = 1.
Proof. intros Hc. unfold sys_sem_signal. rewrite u32_small by lia. case_bool; lia. Qed.

(** What a step of one thread does to a good state. *)
Section Run.
Context (f : nat) (s : system) (h : option nat) (q : list Z) (I : mbox_inv f s h q).
Context (t : nat) (p : pc) (Ht : threads s !! t = Some p).

Lemma inv_moved b' p' :
  ring_inv b' (queue_after q p p') -> (mail b' = 0 \/ mail b' = 1) ->
  mutex b' = (if moved h t p' then 0 else 1) -> (critical p' = true -> h = None \/ h = Some t) ->
  (takes p' <> [] -> exists q', q = takes p' ++ q') ->
  (forall timeout time, queue_after q p p' <> [] ->
     <[t := p']> (threads s) !! f = Some (FetchMail timeout time) ->
     mail b' = 1 \/ exists t', <[t := p']> (threads s) !! t' = Some (PostMail true)) ->
  mbox_inv f (System b' (<[t := p']> (threads s)) (posted s ++ stores p) (fetched s ++ takes p'))
    (moved h t p') (queue_after q p p').
Proof.
  intros R M X C T W. constructor; cbn [box threads posted fetched]; auto.
  - rewrite (mi_log _ _ _ _ I). unfold queue_after. destruct (decide (takes p' = [])) as [E|E].
    + rewrite E. cbn. rewrite app_nil_r, app_assoc. reflexivity.
    + destruct (T E) as (q' & ->). rewrite drop_app_length, !app_assoc. reflexivity.
  - apply holder_moved; [apply I|exact C].
  - intros Hq timeout time. apply W, Hq.
Qed.

(** The wake-up of [f] survives a step that leaves [mail] and does not take the
    signal that is due. *)
Lemma wake_kept mail' p' (q' : list Z) : (q' <> [] -> q <> []) -> mail' = mail (box s) -> p <> PostMail true ->
  (forall timeout time, p' <> FetchMail timeout time) ->
  forall timeout time, q' <> [] -> <[t := p']> (threads s) !! f = Some (FetchMail timeout time) ->
    mail' = 1 \/ exists t', <[t := p']> (threads s) !! t' = Some (PostMail true).
Proof.
  intros Hq -> Hp Hp' timeout time Hq' Hf. destruct (decide (t = f)) as [->|Hne].
  - rewrite lookup_insert_eq in Hf. apply (inj Some) in Hf. destruct (Hp' timeout time Hf).
  - rewrite lookup_insert_ne in Hf by auto. destruct (mi_wake _ _ _ _ I (Hq Hq') _ _ Hf) as [W|W]; [left; exact W|right].
    apply (pending_kept s t p p' (box s) [] [] Ht Hp W).
Qed.

Lemma mutex_bit : 0 <= mutex (box s) <= 1.
Proof using I. rewrite (mi_mutex _ _ _ _ I). destruct h; lia. Qed.

Lemma mail_bit : 0 <= mail (box s) <= 1.
Proof using I. destruct (mi_mail _ _ _ _ I); lia. Qed.

(** A thread that gets the mutex. *)
Lemma lock_taken c : sys_sem_wait (mutex (box s)) = Ret c -> h = None /\ c = 0.
Proof using I.
  intros E. apply sys_sem_wait_ret in E as [E ->]; [|exact mutex_bit]. rewrite (mi_mutex _ _ _ _ I) in E.
  destruct h; [discriminate|auto].
Qed.

(** A thread that gives it back. *)
Lemma lock_given p' : critical p = true -> critical p' = false -> moved h t p' = None.
Proof.
  intros Hp Hp'. unfold moved. rewrite Hp', (holds_mutex _ _ _ _ _ _ I Ht Hp). destruct (decide _); congruence.
Qed.

Lemma lock_kept p' : critical p = true -> critical p' = true -> moved h t p' = h.
Proof. intros Hp Hp'. unfold moved. rewrite Hp', (holds_mutex _ _ _ _ _ _ I Ht Hp). reflexivity. Qed.

Lemma lock_unheld p' : critical p = false -> critical p' = false -> moved h t p' = h.
Proof.
  intros Hp Hp'. unfold moved. rewrite Hp'. destruct (decide _) as [E|]; [|reflexivity].
  destruct (holds_no_mutex _ _ _ _ _ _ I Ht Hp E).
Qed.

Lemma same_queue p' : stores p = [] -> takes p' = [] -> queue_after q p p' = q.
Proof. intros E1 E2. unfold queue_after. rewrite E1, E2, app_nil_r. reflexivity. Qed.

End Run.

(** The obligations of [inv_moved] that do not depend on the step: the position
    [p] is left for [p'], and [I] is the invariant. *)
Ltac moving I Ht :=
  match type of Ht with threads _ !! ?t = _ => apply (inv_moved _ _ _ _ I t) end;
  rewrite ?same_queue, ?(lock_unheld _ _ _ _ I _ _ Ht), ?(lock_kept _ _ _ _ I _ _ Ht), ?(lock_given _ _ _ _ I _ _ Ht) by reflexivity;
  cbn [mail mutex set_mail set_mutex critical takes moved];
  try first [exact (mi_mail _ _ _ _ I) | exact (mi_mutex _ _ _ _ I) | discriminate | reflexivity
            | (intros []; reflexivity) | (intros; left; reflexivity) | (intros; right; reflexivity)
            | (left; reflexivity) | (right; reflexivity) | (intros; right; assumption)
            | (eapply ring_ext; [exact (mi_ring _ _ _ _ I)|reflexivity|reflexivity|reflexivity])
            | (apply sys_sem_signal_01, (mutex_bit _ _ _ _ I))
            | (intros; eapply (wake_kept _ _ _ _ I _ _ Ht); eauto; discriminate)].

Lemma exec_inv f s h q t p time b' p' : mbox_inv f s h q -> (length q < 100)%nat -> threads s !! t = Some p ->
  (fetching p = true -> t = f) -> exec time (box s) p = Ret (b', p') ->
  mbox_inv f (System b' (<[t := p']> (threads s)) (posted s ++ stores p) (fetched s ++ takes p'))
    (moved h t p') (queue_after q p p').
Proof.
  intros I room Ht lone E. pose proof (mi_ring _ _ _ _ I) as R. pose proof (mi_mail _ _ _ _ I) as M.
  pose proof (mail_bit _ _ _ _ I) as MB. pose proof (mutex_bit _ _ _ _ I) as XB.
  assert (Hold : critical p = true -> h = Some t) by (intros Hp; apply (holds_mutex _ _ _ _ _ _ I Ht Hp)).
  destruct p as [|msg|msg|[]| |to tm|to tm|to tm|tm msg]; cbn [exec] in E.
  - (* Idle *) injection E as <- <-. moving I Ht.
  - (* PostLock *)
    destruct (sys_sem_wait _) as [c| |] eqn:Ew; try discriminate. injection E as <- <-.
    destruct (lock_taken _ _ _ _ I c Ew) as [-> ->]. moving I Ht.
  - (* PostStore *) injection E as <- <-. specialize (Hold eq_refl). moving I Ht; auto.
    + apply ring_put; auto.
    + intros timeout time' Hq Hf. destruct (decide (q = [])) as [Hn|Hn].
      * right. exists t. rewrite lookup_insert_eq, Z.eqb_sym, (proj2 (ring_empty _ _ R room) Hn). reflexivity.
      * eapply (wake_kept _ _ _ _ I _ _ Ht); eauto; discriminate.
  - (* PostMail true *) injection E as <- <-. cbn [mail set_mail]. rewrite sys_sem_signal_01 by exact MB. moving I Ht; auto.
  - (* PostMail false *) injection E as <- <-. moving I Ht; auto.
  - (* PostUnlock *) injection E as <- <-. moving I Ht.
  - (* FetchLock *)
    destruct (sys_sem_wait _) as [c| |] eqn:Ew; try discriminate. injection E as <- <-.
    destruct (lock_taken _ _ _ _ I c Ew) as [-> ->]. moving I Ht.
  - (* FetchTest *)
    destruct (first (box s) =? last (box s)) eqn:Ee.
    + injection E as <- <-. apply (ring_empty _ _ R room) in Ee. moving I Ht.
    + destruct q as [|m q'] eqn:Eq.
      { rewrite (proj2 (ring_empty _ _ R room) eq_refl) in Ee. discriminate. }
      destruct (ring_get _ _ _ R) as [Hm R']. rewrite Hm in E. cbn in E. injection E as <- <-.
      moving I Ht; auto.
      * unfold queue_after. cbn. rewrite app_nil_r. exact R'.
      * intros _. exists q'. reflexivity.
  - (* FetchMail *)
    destruct (sys_sem_wait _) as [c| |] eqn:Ew; try discriminate. injection E as <- <-.
    apply sys_sem_wait_ret in Ew as [_ ->]; [|exact MB]. moving I Ht.
    intros timeout time' Hq Hf. rewrite (lone eq_refl), lookup_insert_eq in Hf. discriminate.
  - (* FetchUnlock *) injection E as <- <-. moving I Ht.
Qed.

Lemma goto_inv f s h q t p p' : mbox_inv f s h q -> threads s !! t = Some p -> critical p = false ->
  critical p' = false -> (forall timeout time, p' <> FetchMail timeout time) -> mbox_inv f (goto s t p') h q.
Proof.
  intros I Ht Hp Hp' Hm. constructor; try apply I.
  - rewrite <- (lock_unheld _ _ _ _ I _ _ Ht p' Hp Hp'). apply holder_moved; [apply I|congruence].
  - intros Hq timeout time Hf. apply (wake_kept _ _ _ _ I _ _ Ht _ p' q) with (5 := Hq) (6 := Hf); auto. intros ->. discriminate.
Qed.

Definition good (f : nat) (s : system) : Prop := orderly f s /\ exists h q, mbox_inv f s h q.

Lemma step_good f s s' : orderly_step f s s' -> good f s -> good f s'.
Proof.
  intros [Hs O'] [O (h & q & I)]. split; [exact O'|]. destruct Hs as [s t s' Hr|s t msg Ht|s t timeout Ht _|s t timeout time Ht _].
  - destruct Hr as [s t p time b' p' Ht _ _ E].
    exists (moved h t p'), (queue_after q p p'). eapply exec_inv; eauto; [eapply orderly_room; eauto|]. apply O, Ht.
  - exists h, q. eapply goto_inv; eauto.
  - exists h, q. eapply goto_inv; eauto.
  - exists h, q. eapply goto_inv; eauto.
Qed.

Lemma fresh_good f ths : map_Forall (fun _ p => p = Idle) ths -> good f (fresh ths).
Proof.
  intros Hi. split.
  - split; [cbn; lia|]. intros t p Ht Hp. rewrite (Hi t p Ht) in Hp. discriminate.
  - exists None, []. constructor; cbn; auto.
    + constructor; cbn; [lia|reflexivity|]. intros i x Hx. rewrite lookup_nil in Hx. discriminate.
    + intros t. unfold in_critical. cbn. destruct (ths !! t) as [p|] eqn:E; [|split; discriminate].
      rewrite (Hi t p E). split; discriminate.
    + intros []. reflexivity.
Qed.

Lemma reached_good f ths s : map_Forall (fun _ p => p = Idle) ths -> rtc (orderly_step f) (fresh ths) s -> good f s.
Proof. intros Hi Hs. eapply rtc_invariant; [apply step_good|exact Hs|apply fresh_good, Hi]. Qed.

(** ** The calls under way come to an end

    The weight of a position bounds the steps a call still takes; a signal on
    [mail] pays for one more round of [sys_arch_mbox_fetch]. *)

Definition weight (p : pc) : nat :=
  match p with
  | Idle => 0 | PostLock _ => 7 | PostStore _ => 6 | PostMail _ => 5 | PostUnlock => 1
  | FetchLock _ _ => 4 | FetchTest _ _ => 3 | FetchMail _ _ => 2 | FetchUnlock _ _ => 1
  end.

Definition total_weight (ths : gmap nat pc) : nat := sum_list_with (fun x => weight x.2) (map_to_list ths).

Definition work_left (s : system) : nat := (3 * Z.to_nat (mail (box s)) + total_weight (threads s))%nat.

Lemma total_weight_insert ths t p p' : ths !! t = Some p ->
  (total_weight (<[t := p']> ths) + weight p = total_weight ths + weight p')%nat.
Proof.
  intros Ht.
  assert (Hi : forall x, total_weight (<[t := x]> (delete t ths)) = (weight x + total_weight (delete t ths))%nat).
  { intros x. unfold total_weight. rewrite (map_to_list_insert (delete t ths) t x) by apply lookup_delete_eq. reflexivity. }
  rewrite <- (insert_delete_id ths t p Ht) at 2. rewrite <- (insert_delete_eq ths t p'), !Hi. lia.
Qed.

Lemma sys_sem_wait_less c c' : sys_sem_wait c = Ret c' -> 0 < c /\ c' <= c - 1.
Proof.
  unfold sys_sem_wait. case_bool; [discriminate|]. intros E. injection E as <-. split; [lia|].
  unfold wrapu. apply Z.mod_le; lia.
Qed.

Lemma exec_weight time b p b' p' : p <> Idle -> exec time b p = Ret (b', p') ->
  (3 * Z.to_nat (mail b') + weight p' < 3 * Z.to_nat (mail b) + weight p)%nat.
Proof.
  intros Hp E. destruct p as [|msg|msg|[]| |to tm|to tm|to tm|tm msg]; cbn [exec] in E; [contradiction|..].
  - destruct (sys_sem_wait _); try discriminate. injection E as <- <-. cbn. lia.
  - injection E as <- <-. cbn. lia.
  - injection E as <- <-. cbn [mail set_mail weight]. pose proof (sys_sem_signal_range (mail b)). lia.
  - injection E as <- <-. cbn [weight]. lia.
  - injection E as <- <-. cbn. lia.
  - destruct (sys_sem_wait _); try discriminate. injection E as <- <-. cbn. lia.
  - destruct (first b =? last b); [injection E as <- <-; cbn; lia|].
    destruct (msgs b !! first b); [|discriminate]. injection E as <- <-. cbn. lia.
  - destruct (sys_sem_wait _) as [c| |] eqn:Ew; try discriminate. injection E as <- <-.
    apply sys_sem_wait_less in Ew. cbn. lia.
  - injection E as <- <-. cbn. lia.
Qed.

Lemma proceeds_less s s' : proceeds s s' -> (work_left s' < work_left s)%nat.
Proof.
  intros (t & Hr). destruct Hr as [s t p time b' p' Ht Hp _ E]. apply exec_weight in E; [|exact Hp].
  pose proof (total_weight_insert _ _ _ p' Ht). unfold work_left. cbn [box threads]. lia.
Qed.

Lemma proceeds_wf : well_founded (flip proceeds).
Proof.
  apply (Wf_nat.well_founded_lt_compat _ work_left). intros s' s Hs. apply proceeds_less, Hs.
Qed.

(** A thread inside the mutex can always go on. *)
Lemma critical_runs f s h q t p : mbox_inv f s h q -> (length q < 100)%nat -> threads s !! t = Some p ->
  critical p = true -> exists b' p', exec 1 (box s) p = Ret (b', p').
Proof.
  intros I Hq Ht Hp. destruct p as [|msg|msg|[]| |to tm|to tm|to tm|tm msg]; try discriminate; cbn [exec]; eauto.
  destruct (first (box s) =? last (box s)) eqn:E; [eauto|]. pose proof (mi_ring _ _ _ _ I) as R.
  destruct q as [|m q']; [rewrite (proj2 (ring_empty _ _ R Hq) eq_refl) in E; discriminate|].
  destruct (ring_get _ _ _ R) as [-> _]. cbn. eauto.
Qed.

Lemma stuck_waits f s t p : good f s -> (forall s', ~ proceeds s s') -> threads s !! t = Some p -> p <> Idle ->
  t = f /\ (exists timeout time, p = FetchMail timeout time) /\ fetched s = posted s.
Proof.
  intros [O (h & q & I)] Hstuck Ht Hp. pose proof (orderly_room _ _ _ _ I O) as Hq.
  assert (Hno : forall t p b' p', threads s !! t = Some p -> p <> Idle -> exec 1 (box s) p <> Ret (b', p')).
  { intros t1 p1 b' p' H1 H2 E. eapply Hstuck. exists t1. eapply run; eauto. lia. }
  assert (Hh : h = None).
  { destruct h as [t1|]; [|reflexivity]. pose proof (proj2 (mi_holder _ _ _ _ I t1) eq_refl) as Hc. unfold in_critical in Hc.
    destruct (threads s !! t1) as [p1|] eqn:E1; [|discriminate]. cbn in Hc.
    destruct (critical_runs _ _ _ _ _ _ I Hq E1 Hc) as (b' & p' & E). destruct (Hno t1 p1 b' p' E1); auto. intros ->. discriminate. }
  subst h. pose proof (mi_mutex _ _ _ _ I) as X. cbn in X.
  assert (Hnc : critical p = false).
  { destruct (critical p) eqn:E; [|reflexivity]. discriminate (holds_mutex _ _ _ _ _ _ I Ht E). }
  destruct p as [|msg|msg|[]| |to tm|to tm|to tm|tm msg]; try discriminate; try contradiction.
  - destruct (Hno t _ (set_mutex (box s) 0) (PostStore msg) Ht Hp). cbn [exec]. rewrite X. reflexivity.
  - destruct (Hno t _ (set_mutex (box s) 0) (FetchTest to tm) Ht Hp). cbn [exec]. rewrite X. reflexivity.
  - assert (t = f) as -> by (eapply (proj2 O); eauto). split; [reflexivity|]. split; [eauto|].
    destruct (decide (q = [])) as [->|Hne]; [rewrite (mi_log _ _ _ _ I), app_nil_r; reflexivity|].
    destruct (mi_wake _ _ _ _ I Hne _ _ Ht) as [M|(t1 & H1)].
    + destruct (Hno f _ (set_mail (box s) 0) (FetchLock to (if to =? 0 then tm else 1)) Ht Hp). cbn [exec]. rewrite M. reflexivity.
    + discriminate (holds_mutex _ _ _ _ _ _ I H1 eq_refl).
Qed.

(** ** What mailboxes guarantee *)



(** Two threads; the second fetches while the first posts. *)
Definition ex_threads : gmap nat pc := {[0%nat := Idle; 1%nat := Idle]}.

Definition ex_posting : system :=
  System (SysMbox 0 1 {[0 := 7]} 0 0) {[0%nat := PostMail true; 1%nat := FetchMail 0 1]} [7] [].

Lemma ex_orderly b p1 p2 ps fs : (length ps < length fs + 100)%nat -> fetching p1 = false ->
  orderly 1 (System b {[0%nat := p1; 1%nat := p2]} ps fs).
Proof.
  intros Hr Hp. split; [exact Hr|]. intros t p Ht Hf. cbn in Ht.
  apply lookup_insert_Some in Ht as [[<- <-]|[_ Ht]]; [congruence|].
  apply lookup_singleton_Some in Ht as [<- _]. reflexivity.
Qed.

Lemma ex_idle : map_Forall (fun _ p => p = Idle) ex_threads.
Proof. intros t p Ht. unfold ex_threads in Ht. apply lookup_insert_Some in Ht as [[_ <-]|[_ Ht]]; [reflexivity|]. apply lookup_singleton_Some in Ht as [_ <-]. reflexivity. Qed.

(** One more step of the schedule. *)
Lemma ex_run b p1 p2 ps fs t p p' b' p1' p2' ps' fs' s :
  rtc (orderly_step 1) s (System b {[0%nat := p1; 1%nat := p2]} ps fs) ->
  ({[0%nat := p1; 1%nat := p2]} : gmap nat pc) !! t = Some p -> p <> Idle -> exec 1 b p = Ret (b', p') ->
  <[t := p']> ({[0%nat := p1; 1%nat := p2]} : gmap nat pc) = {[0%nat := p1'; 1%nat := p2']} ->
  ps' = ps ++ stores p -> fs' = fs ++ takes p' -> (length ps' < length fs' + 100)%nat -> fetching p1' = false ->
  rtc (orderly_step 1) s (System b' {[0%nat := p1'; 1%nat := p2']} ps' fs').
Proof.
  intros Hs Ht Hp E Hm -> -> Hr Hf. eapply rtc_r; [exact Hs|]. split; [|apply ex_orderly; assumption].
  apply (step_run _ t).
  pose proof (run (System b {[0%nat := p1; 1%nat := p2]} ps fs) t p 1 b' p' Ht Hp ltac:(lia) E) as R.
  cbn [threads posted fetched] in R. rewrite Hm in R. exact R.
Qed.

Lemma ex_reached : rtc (orderly_step 1) (fresh ex_threads) ex_posting.
Proof.
  assert (H1 : rtc (orderly_step 1) (fresh ex_threads) (System sys_mbox_new {[0%nat := Idle; 1%nat := FetchLock 0 1]} [] [])).
  { apply rtc_once. split; [|apply ex_orderly; [cbn; lia|reflexivity]].
    apply (step_fetch (fresh ex_threads) 1 0); [reflexivity|lia]. }
  assert (H2 : rtc (orderly_step 1) (fresh ex_threads) (System (SysMbox 0 0 ∅ 0 1) {[0%nat := Idle; 1%nat := FetchMail 0 1]} [] [])).
  { eapply (ex_run _ _ _ _ _ 1); [eapply (ex_run _ _ _ _ _ 1); [exact H1|..]|..]; try reflexivity; cbn; try discriminate; lia. }
  assert (H3 : rtc (orderly_step 1) (fresh ex_threads) (System (SysMbox 0 0 ∅ 0 1) {[0%nat := PostLock 7; 1%nat := FetchMail 0 1]} [] [])).
  { eapply rtc_r; [exact H2|]. split; [|apply ex_orderly; [cbn; lia|reflexivity]].
    pose proof (step_post (System (SysMbox 0 0 ∅ 0 1) {[0%nat := Idle; 1%nat := FetchMail 0 1]} [] []) 0 7 eq_refl) as P.
    unfold goto in P. cbn [threads box posted fetched] in P. rewrite insert_insert_eq in P. exact P. }
  eapply (ex_run _ _ _ _ _ 0); [eapply (ex_run _ _ _ _ _ 0); [exact H3|..]|..]; try reflexivity; cbn; try discriminate; lia.
Qed.



(** ** What they do not guarantee *)

(** A call run to its end or to a wait that nobody else can end. *)
Fixpoint run_call (fuel : nat) (b : sys_mbox) (p : pc) : outcome (sys_mbox * pc) :=
  match fuel, p with
  | O, _ | _, Idle => Ret (b, p)
  | Datatypes.S fuel, _ => r ← exec 1 b p; run_call fuel r.1 r.2
  end.

Fixpoint post_all (b : sys_mbox) (l : list Z) : outcome sys_mbox :=
  match l with
  | [] => Ret b
  | msg :: l => r ← run_call 4 b (PostLock msg); post_all r.1 l
  end.

Definition quiet (b : sys_mbox) : Prop := mutex b = 1 /\ 0 <= mail b <= 1 /\ 0 <= last b < 100.

Lemma post_one b msg : quiet b -> exists b', run_call 4 b (PostLock msg) = Ret (b', Idle) /\ quiet b' /\
  first b' = first b /\ last b' = (last b + 1) mod 100 /\ msgs b' = <[last b := msg]> (msgs b).
Proof.
  intros (X & M & R). assert (Hb : 0 <= bump (last b) < 100) by (rewrite bump_mod by exact R; apply Z.mod_pos_bound; lia).
  rewrite <- (bump_mod (last b)) by exact R. destruct b as [fi la ms ma mu]. cbn [first last msgs mail mutex] in *. subst mu.
  unfold run_call. cbn [exec mutex sys_sem_wait Z.leb Z.compare mbind outcome_bind fst snd set_mutex first last msgs mail].
  destruct (la =? fi); cbn [exec mbind outcome_bind fst snd set_mail set_mutex first last msgs mail mutex];
    rewrite ?(sys_sem_signal_01 ma) by exact M; eexists; (split; [reflexivity|]); repeat split; cbn [mail last set_mutex set_mail]; first [reflexivity | apply Hb | apply M | lia].
Qed.

Lemma post_all_ring l : forall b, quiet b -> exists b', post_all b l = Ret b' /\ quiet b' /\ first b' = first b /\
  last b' = (last b + Z.of_nat (length l)) mod 100.
Proof.
  induction l as [|msg l IH]; intros b Q; cbn [post_all].
  - exists b. repeat split; try apply Q. cbn. rewrite Z.add_0_r, Z.mod_small by apply Q. reflexivity.
  - destruct (post_one b msg Q) as (b1 & -> & Q1 & F1 & L1 & _). cbn [mbind outcome_bind fst].
    destruct (IH b1 Q1) as (b' & E & Q' & F' & L'). exists b'. split; [exact E|]. split; [exact Q'|].
    split; [congruence|]. rewrite L', L1. cbn [length]. rewrite Z.add_mod_idemp_l by lia. f_equal. lia.
Qed.

(** After 100 posts the indices agree again: the box counts as empty, and a
    fetch takes the signal of [mail] if there is one and waits, although 100
    messages are there. *)
Theorem mailbox_overflow l : length l = 100%nat -> exists b b', post_all sys_mbox_new l = Ret b /\
  first b = last b /\
  exec 1 (set_mutex b 0) (FetchTest 0 1) = Ret (b', FetchMail 0 1) /\
  exec 1 (set_mail b' 0) (FetchMail 0 1) = Blocked.
Proof.
  intros Hl. destruct (post_all_ring l sys_mbox_new) as (b & E & Q & F & L); [vm_compute; intuition discriminate|].
  rewrite Hl in L. cbn in F, L. exists b. cbn [exec set_mutex first last]. rewrite F, L, Z.eqb_refl.
  eexists. repeat split. exact E.
Qed.

(** The threads of [l] move in turn. *)
Fixpoint schedule (l : list nat) (b : sys_mbox) (ps : list pc) : outcome (sys_mbox * list pc) :=
  match l with
  | [] => Ret (b, ps)
  | t :: l => p ← load (ps !! t); r ← exec 1 b p; schedule l r.1 (<[t := r.2]> ps)
  end.

(** Two fetching threads wait; the first post wakes one of them, and the second
    comes before it has fetched: it signals nobody, and the other thread waits
    on with a message in the box. *)
Theorem mailbox_two_consumers : exists b, schedule [0; 0; 1; 1; 2; 2; 2; 2; 0; 3; 3; 3; 3; 0; 0; 0]%nat
    sys_mbox_new [FetchLock 0 1; FetchLock 0 1; PostLock 7; PostLock 8] = Ret (b, [Idle; FetchMail 0 1; Idle; Idle]) /\
  exec 1 b (FetchMail 0 1) = Blocked /\ first b <> last b /\ msgs b !! first b = Some 8.
Proof. eexists. split; [vm_compute; reflexivity|]. repeat split; vm_compute; (reflexivity || discriminate). Qed.
