(* ===== verification/Sys.v ===== *)
(** * Timeouts of a thread ([lwtcp/sys.c])

    A thread keeps its timeouts in a list sorted by time, where every entry has
    the milliseconds after the entry before it.  [sys_mbox_fetch] and
    [sys_sem_wait] wait with the time of the first entry as a bound and call its
    handler when the bound is reached.  The list is shown to implement an agenda
    of absolute times. *)

From stdpp Require Import base gmap list.
From Stdlib Require Import ZArith Lia.
From S2P Require Import Prelude Memp.

Local Open Scope Z_scope.

(** ** Data

    [at_] is the address of the structure; [h] and [arg] are the handler and its
    argument. *)

Record timeout_t := Timeout { at_ : Z; time : Z; h : Z; arg : Z }.

Definition with_time (t : timeout_t) (ms : Z) : timeout_t := Timeout (at_ t) (u16 ms) (h t) (arg t).

(** A thread: its list of timeouts, the memory pools, and what the handlers and
    the waiting functions act on. *)
Record thread (W : Type) := Thread { timeouts : list timeout_t; pools : memp_state; world : W }.
Arguments Thread {W}.
Arguments timeouts {W}.
Arguments pools {W}.
Arguments world {W}.

(** ** [sys_timeout] *)

(** The loop of [sys_timeout]: the new entry goes after [t] or further on. *)
Fixpoint insert_after (t : timeout_t) (rest : list timeout_t) (timeout : timeout_t) : list timeout_t :=
  let timeout := with_time timeout (time timeout - time t) in
  match rest with
  | [] => [t; timeout]
  | n :: rest' =>
      if time timeout <? time n then t :: timeout :: with_time n (time n - time timeout) :: rest'
      else t :: insert_after n rest' timeout
  end.

Definition insert_timeout (l : list timeout_t) (timeout : timeout_t) : list timeout_t :=
  match l with
  | [] => [timeout]
  | t :: rest =>
      if time timeout <? time t then timeout :: with_time t (time t - time timeout) :: rest
      else insert_after t rest timeout
  end.

(** Without memory the call does nothing, and does not say so. *)
Definition sys_timeout {W} (s : thread W) (msecs h arg : Z) : outcome (thread W) :=
  r ← memp_malloc (pools s) MEMP_SYS_TIMEOUT;
  match r.1 with
  | None => Ret (Thread (timeouts s) r.2 (world s))
  | Some p => Ret (Thread (insert_timeout (timeouts s) (Timeout p msecs h arg)) r.2 (world s))
  end.

(** ** [sys_mbox_fetch] and [sys_sem_wait]

    The two functions differ in the function they wait with: [arch_wait] is
    [sys_arch_mbox_fetch] on the mailbox or [sys_arch_sem_wait] on the semaphore.
    It gets the bound, or 0 for none, and reports the time it waited, or 0. *)

Section Wait.
Context {W : Type} (arch_wait : Z -> W -> outcome (Z * W)).
Context (handler : Z -> Z -> thread W -> outcome (thread W)).

Fixpoint sys_wait (fuel : nat) (s : thread W) : outcome (thread W) :=
  match fuel with
  | O => Undef
  | S fuel =>
      match timeouts s with
      | [] => r ← arch_wait 0 (world s); Ret (Thread [] (pools s) r.2)
      | t :: rest =>
          r ← (if 0 <? time t then arch_wait (time t) (world s) else Ret (0, world s));
          if r.1 =? 0 then
            s ← handler (h t) (arg t) (Thread rest (memp_free (pools s) MEMP_SYS_TIMEOUT (Some (at_ t))) r.2);
            sys_wait fuel s
          else
            Ret (Thread (with_time t (if r.1 <=? time t then time t - r.1 else 0) :: rest) (pools s) r.2)
      end
  end.
End Wait.

(** ** The agenda

    The entries with the absolute times at which they are due. *)

Definition entry : Type := Z * timeout_t.

Fixpoint agenda (now : Z) (l : list timeout_t) : list entry :=
  match l with
  | [] => []
  | t :: l => (now + time t, with_time t 0) :: agenda (now + time t) l
  end.

(** A new entry goes behind those that are due at the same time or before. *)
Fixpoint put (e : entry) (a : list entry) : list entry :=
  match a with
  | [] => [e]
  | x :: a => if e.1 <? x.1 then e :: x :: a else x :: put e a
  end.

Definition times_ok (l : list timeout_t) : Prop := Forall (fun t => 0 <= time t < 65536) l.

Lemma with_time_twice t a b : with_time (with_time t a) b = with_time t b.
Proof. reflexivity. Qed.

Lemma time_with t ms : 0 <= ms < 65536 -> time (with_time t ms) = ms.
Proof. intros Hm. cbn. apply u16_small, Hm. Qed.

(** Entries behind a change are not affected. *)
Lemma agenda_cons now t l : agenda now (t :: l) = (now + time t, with_time t 0) :: agenda (now + time t) l.
Proof. reflexivity. Qed.

Lemma agenda_split now t n l a : 0 <= a -> a < time n -> time n < 65536 -> time t = a ->
  agenda now (t :: with_time n (time n - a) :: l) = (now + a, with_time t 0) :: agenda now (n :: l).
Proof.
  intros Ha Hlt Hn Ht. rewrite !agenda_cons, Ht, time_with by lia.
  replace (now + a + (time n - a)) with (now + time n) by lia. reflexivity.
Qed.

Lemma insert_after_spec l : forall now t new, 0 <= time t <= time new -> time new < 65536 -> times_ok l ->
  agenda now (insert_after t l new) = put (now + time new, with_time new 0) (agenda now (t :: l)) /\
  (times_ok (insert_after t l new)).
Proof.
  induction l as [|n l IH]; intros now t new Ht Hnew Hl; cbn [insert_after].
  - rewrite !agenda_cons, !time_with by lia. cbn [agenda put fst].
    destruct (Z.ltb_spec (now + time new) (now + time t)); [lia|].
    replace (now + time t + (time new - time t)) with (now + time new) by lia.
    split; [reflexivity|]. repeat constructor; rewrite ?time_with by lia; lia.
  - apply Forall_cons in Hl as [Hn Hl]. rewrite (time_with new) by lia. rewrite (agenda_cons now t). cbn [put fst].
    destruct (Z.ltb_spec (now + time new) (now + time t)); [lia|].
    destruct (Z.ltb_spec (time new - time t) (time n)) as [Hlt|Hge].
    + rewrite agenda_cons, (agenda_split _ _ _ _ (time new - time t)) by (rewrite ?time_with by lia; lia).
      rewrite (agenda_cons (now + time t) n). cbn [put fst]. rewrite with_time_twice.
      destruct (Z.ltb_spec (now + time new) (now + time t + time n)); [|lia].
      replace (now + time t + (time new - time t)) with (now + time new) by lia.
      split; [reflexivity|]. repeat constructor; rewrite ?time_with by lia; (lia || exact Hl).
    + destruct (IH (now + time t) n (with_time new (time new - time t))) as [E O];
        [rewrite time_with by lia; lia|rewrite time_with by lia; lia|exact Hl|].
      rewrite agenda_cons, E, time_with, with_time_twice by lia.
      replace (now + time t + (time new - time t)) with (now + time new) by lia.
      split; [reflexivity|]. constructor; [lia|exact O].
Qed.

Lemma insert_timeout_spec now l new : 0 <= time new < 65536 -> times_ok l ->
  agenda now (insert_timeout l new) = put (now + time new, with_time new 0) (agenda now l) /\
  times_ok (insert_timeout l new).
Proof.
  intros Hnew Hl. destruct l as [|t l]; cbn [insert_timeout].
  - split; [reflexivity|]. repeat constructor; lia.
  - apply Forall_cons in Hl as [Ht Hl]. destruct (Z.ltb_spec (time new) (time t)) as [Hlt|Hge].
    + rewrite (agenda_split _ _ _ _ (time new)) by lia. rewrite (agenda_cons now t). cbn [put fst].
      destruct (Z.ltb_spec (now + time new) (now + time t)); [|lia].
      split; [reflexivity|]. repeat constructor; rewrite ?time_with by lia; (lia || exact Hl).
    + apply insert_after_spec; [lia|lia|exact Hl].
Qed.

(** ** A host with an exact clock

    [now] adds up the times that waits report.  What the thread waits for comes
    at [arrival]; it is reported at once if it is there already, as a wait of one
    millisecond.  A handler acts on [inner] and sets timeouts. *)

Record host (V : Type) := Host { now : Z; arrival : Z; inner : V }.
Arguments Host {V}.
Arguments now {V}.
Arguments arrival {V}.
Arguments inner {V}.

Definition waited {V} (w : host V) : Z := Z.max 1 (arrival w - now w).
Definition later {V} (w : host V) (ms : Z) : host V := Host (now w + ms) (arrival w) (inner w).

Definition exact_wait {V} (timeout : Z) (w : host V) : outcome (Z * host V) :=
  if (timeout =? 0) || (arrival w <? now w + timeout) then Ret (waited w, later w (waited w))
  else Ret (0, later w timeout).

(** The abstract thread, with an agenda in place of the list. *)
Record planned (V : Type) := Planned { plan : list entry; plan_pools : memp_state; plan_world : host V }.
Arguments Planned {V}.
Arguments plan {V}.
Arguments plan_pools {V}.
Arguments plan_world {V}.

Definition abs {V} (s : thread (host V)) : planned V :=
  Planned (agenda (now (world s)) (timeouts s)) (pools s) (world s).

Definition plan_timeout {V} (g : planned V) (msecs h arg : Z) : outcome (planned V) :=
  r ← memp_malloc (plan_pools g) MEMP_SYS_TIMEOUT;
  match r.1 with
  | None => Ret (Planned (plan g) r.2 (plan_world g))
  | Some p => Ret (Planned (put (now (plan_world g) + msecs, Timeout p 0 h arg) (plan g)) r.2 (plan_world g))
  end.

Definition alarm : Type := Z * Z * Z.

Fixpoint set_timeouts {W} (l : list alarm) (s : thread W) : outcome (thread W) :=
  match l with
  | [] => Ret s
  | (msecs, h, arg) :: l => s ← sys_timeout s msecs h arg; set_timeouts l s
  end.

Fixpoint plan_timeouts {V} (l : list alarm) (g : planned V) : outcome (planned V) :=
  match l with
  | [] => Ret g
  | (msecs, h, arg) :: l => g ← plan_timeout g msecs h arg; plan_timeouts l g
  end.

Section Agenda.
Context {V : Type} (acts : Z -> Z -> Z -> V -> list alarm * V).

Definition act (h arg : Z) (w : host V) : list alarm * host V :=
  let r := acts h arg (now w) (inner w) in (r.1, Host (now w) (arrival w) r.2).

Definition handler (h arg : Z) (s : thread (host V)) : outcome (thread (host V)) :=
  let r := act h arg (world s) in set_timeouts r.1 (Thread (timeouts s) (pools s) r.2).

(** The wait on the agenda: as long as the first entry is due before the
    arrival, its handler is called, at the time at which it is due. *)
Fixpoint plan_wait (fuel : nat) (g : planned V) : outcome (planned V) :=
  match fuel with
  | O => Undef
  | S fuel =>
      let w := plan_world g in
      match plan g with
      | [] => Ret (Planned [] (plan_pools g) (later w (waited w)))
      | (due, t) :: rest =>
          if (due <=? now w) || (due <=? arrival w) then
            let r := act (h t) (arg t) (Host due (arrival w) (inner w)) in
            g ← plan_timeouts r.1 (Planned rest (memp_free (plan_pools g) MEMP_SYS_TIMEOUT (Some (at_ t))) r.2);
            plan_wait fuel g
          else Ret (Planned (plan g) (plan_pools g) (later w (waited w)))
      end
  end.

Definition alarm_ok (a : alarm) : Prop := 0 <= a.1.1 < 65536.
Definition acts_ok : Prop := forall h arg t v, Forall alarm_ok (acts h arg t v).1.

(** The same outcome on the list and on the agenda. *)
Definition sim (x : outcome (thread (host V))) (y : outcome (planned V)) : Prop :=
  match x, y with
  | Ret s, Ret g => g = abs s /\ times_ok (timeouts s)
  | Blocked, Blocked | Undef, Undef => True
  | _, _ => False
  end.

Lemma sim_bind x y f k : sim x y -> (forall s, times_ok (timeouts s) -> sim (f s) (k (abs s))) ->
  sim (x ≫= f) (y ≫= k).
Proof. destruct x, y; cbn; try tauto. intros [-> Ht] H. apply H, Ht. Qed.

Lemma sys_timeout_plan (s : thread (host V)) msecs h arg : 0 <= msecs < 65536 -> times_ok (timeouts s) ->
  sim (sys_timeout s msecs h arg) (plan_timeout (abs s) msecs h arg).
Proof.
  intros Hm Ht. unfold sys_timeout, plan_timeout. cbn [plan_pools abs].
  destruct (memp_malloc (pools s) MEMP_SYS_TIMEOUT) as [[[p|] m]| |]; cbn; auto.
  destruct (insert_timeout_spec (now (world s)) (timeouts s) (Timeout p msecs h arg) Hm Ht) as [E O].
  split; [|exact O]. unfold abs. cbn. rewrite E. reflexivity.
Qed.

Lemma set_timeouts_plan l : forall s : thread (host V), Forall alarm_ok l -> times_ok (timeouts s) ->
  sim (set_timeouts l s) (plan_timeouts l (abs s)).
Proof.
  induction l as [|[[ms h] arg] l IH]; intros s Hl Ht; [split; auto|].
  apply Forall_cons in Hl as [H1 Hl]. apply sim_bind; [apply sys_timeout_plan; assumption|].
  intros s' Ht'. apply IH; assumption.
Qed.

(** [sys_wait] does what the agenda says. *)
Lemma sys_wait_plan fuel : acts_ok -> forall s : thread (host V), times_ok (timeouts s) ->
  sim (sys_wait exact_wait handler fuel s) (plan_wait fuel (abs s)).
Proof.
  intros Ha. induction fuel as [|fuel IH]; intros [l m w] Ht; [exact I|].
  destruct l as [|t l]; [cbn; auto|]. cbn [timeouts] in Ht. apply Forall_cons in Ht as [Ht Hl].
  assert (Fire : forall w', w' = Host (now w + time t) (arrival w) (inner w) ->
    let m' := memp_free m MEMP_SYS_TIMEOUT (Some (at_ t)) in
    sim (s ← handler (h t) (arg t) (Thread l m' w'); sys_wait exact_wait handler fuel s)
        (g ← plan_timeouts (act (h t) (arg t) w').1 (Planned (agenda (now w + time t) l) m' (act (h t) (arg t) w').2);
         plan_wait fuel g)).
  { intros w' -> m'. apply sim_bind; [|exact IH].
    exact (set_timeouts_plan _ (Thread l m' (act (h t) (arg t) (Host (now w + time t) (arrival w) (inner w))).2) (Ha _ _ _ _) Hl). }
  cbn [sys_wait plan_wait timeouts pools world abs plan plan_pools plan_world agenda].
  destruct (Z.ltb_spec 0 (time t)) as [Hpos|Hzero].
  - assert (Ew : exact_wait (time t) w = if arrival w <? now w + time t then Ret (waited w, later w (waited w)) else Ret (0, later w (time t))).
    { unfold exact_wait. replace (time t =? 0) with false by lia. reflexivity. }
    rewrite Ew. replace (now w + time t <=? now w) with false by lia. cbn [orb].
    destruct (Z.ltb_spec (arrival w) (now w + time t)) as [Harr|Harr].
    + replace (now w + time t <=? arrival w) with false by lia. cbn [mbind outcome_bind fst snd].
      assert (Hw : 1 <= waited w <= time t) by (unfold waited; lia).
      replace (waited w =? 0) with false by lia. replace (waited w <=? time t) with true by lia. cbn [sim].
      unfold abs. cbn [timeouts pools world agenda with_time time now later]. rewrite u16_small by lia. replace (now w + waited w + (time t - waited w)) with (now w + time t) by lia.
      split; [reflexivity|]. constructor; [cbn; rewrite u16_small by lia; lia|exact Hl].
    + replace (now w + time t <=? arrival w) with true by lia. cbn [mbind outcome_bind fst snd Z.eqb]. apply Fire. reflexivity.
  - replace (now w + time t <=? now w) with true by lia. cbn [orb mbind outcome_bind fst snd Z.eqb].
    assert (Hw : Host (now w + time t) (arrival w) (inner w) = w) by (destruct w; cbn; f_equal; lia).
    rewrite Hw. apply (Fire w). symmetry. exact Hw.
Qed.

(** ** The wait ends

    Handlers that set at most one timeout, not for the same millisecond, keep
    the number of calls before the arrival bounded by [calls]. *)

Definition calls (a : list entry) (arr : Z) : Z := foldr (fun e n => Z.max 0 (arr - e.1 + 1) + n) 0 a.

Definition periodic : Prop := forall h arg t v,
  match (acts h arg t v).1 with [] => True | [(ms, _, _)] => 0 < ms < 65536 | _ => False end.

Lemma periodic_ok : periodic -> acts_ok.
Proof.
  intros P h arg t v. specialize (P h arg t v). destruct ((acts h arg t v).1) as [|[[ms ?] ?] [|]]; [constructor| |contradiction].
  cbn in P. constructor; [unfold alarm_ok; cbn; lia|constructor].
Qed.

Lemma calls_put e a arr : calls (put e a) arr = Z.max 0 (arr - e.1 + 1) + calls a arr.
Proof. induction a as [|x a IH]; [reflexivity|]. cbn [put]. destruct (_ <? _); [reflexivity|]. unfold calls in *. cbn [foldr] in *. lia. Qed.

Lemma calls_nonneg a arr : 0 <= calls a arr.
Proof. induction a as [|x a IH]; unfold calls in *; cbn [foldr]; lia. Qed.

(** The structures of the list are among those the pool gave out. *)
Context (memp_sizes : memp_t -> Z) (memory : Z).
Context (memory_aligned : memory mod 4 = 0) (sizes_pos : forall t, 0 < memp_sizes t).

Definition addresses (a : list entry) : list Z := (fun e => at_ e.2 - SIZEOF_MEMP) <$> a.

Definition plan_ok (g : planned V) : Prop := exists free live others,
  memp_inv memp_sizes memory (plan_pools g) free live /\ live MEMP_SYS_TIMEOUT ≡ₚ addresses (plan g) ++ others.

Lemma put_perm e a : put e a ≡ₚ e :: a.
Proof.
  induction a as [|x a IH]; [reflexivity|]. cbn [put]. destruct (_ <? _); [reflexivity|]. rewrite IH. apply Permutation_swap.
Qed.

Lemma plan_timeout_ok g msecs h arg : plan_ok g -> exists g', plan_timeout g msecs h arg = Ret g' /\ plan_ok g' /\
  plan_world g' = plan_world g /\
  (plan g' = plan g \/ exists t, plan g' = put (now (plan_world g) + msecs, t) (plan g)).
Proof.
  intros (free & live & others & I & P). unfold plan_timeout.
  destruct (memp_malloc_inv memp_sizes memory memory_aligned sizes_pos _ _ _ MEMP_SYS_TIMEOUT I)
    as (r & s' & free' & live' & -> & I' & C). cbn [mbind outcome_bind fst snd].
  destruct r as [p|].
  - eexists. split; [reflexivity|]. split; [|cbn; eauto]. destruct C as [-> _].
    exists free', (upd live MEMP_SYS_TIMEOUT ((p - SIZEOF_MEMP) :: live MEMP_SYS_TIMEOUT)), others.
    split; [exact I'|]. cbn [plan]. rewrite upd_eq, P. unfold addresses. rewrite put_perm. reflexivity.
  - destruct C as [_ ->]. eexists. split; [reflexivity|]. split; [|auto]. exists free', live, others. auto.
Qed.

Lemma plan_fire_ok due t rest m w w' : plan_ok (Planned ((due, t) :: rest) m w) ->
  plan_ok (Planned rest (memp_free m MEMP_SYS_TIMEOUT (Some (at_ t))) w').
Proof.
  intros (free & live & others & I & P). cbn [plan_pools plan addresses fmap list_fmap snd app] in *.
  eexists _, _, others. split; [exact (memp_free_inv memp_sizes memory memory_aligned sizes_pos _ _ _ _ _ _ I P)|].
  cbn [plan]. rewrite upd_eq. reflexivity.
Qed.

(** One call of a handler uses up one of the [calls]. *)
Lemma plan_fire g h arg w : periodic -> plan_ok (Planned g.1 g.2 (act h arg w).2) ->
  exists g', plan_timeouts (act h arg w).1 (Planned g.1 g.2 (act h arg w).2) = Ret g' /\ plan_ok g' /\
    now (plan_world g') = now w /\ arrival (plan_world g') = arrival w /\
    calls (plan g') (arrival w) <= calls g.1 (arrival w) + Z.max 0 (arrival w - now w).
Proof.
  intros P Ok. specialize (P h arg (now w) (inner w)). unfold act in *. cbn [fst snd] in *. set (w' := Host _ _ _) in *.
  destruct ((acts h arg (now w) (inner w)).1) as [|[[ms h'] arg'] [|]]; cbn [plan_timeouts]; [|..|contradiction].
  - eexists. split; [reflexivity|]. split; [exact Ok|]. split; [reflexivity|]. split; [reflexivity|]. cbn [plan]. lia.
  - destruct (plan_timeout_ok _ ms h' arg' Ok) as (g' & -> & Ok' & Hw & Hp). cbn [mbind outcome_bind].
    exists g'. split; [reflexivity|]. split; [exact Ok'|]. rewrite Hw. split; [reflexivity|]. split; [reflexivity|].
    cbn [plan plan_world now w'] in Hp. destruct Hp as [-> |[t ->]]; [lia|]. rewrite calls_put. subst w'. cbn [fst now] in *. lia.
Qed.

Lemma plan_wait_ends fuel : periodic -> forall g, plan_ok g -> now (plan_world g) <= arrival (plan_world g) ->
  calls (plan g) (arrival (plan_world g)) < Z.of_nat fuel ->
  exists g', plan_wait fuel g = Ret g' /\ plan_ok g' /\ arrival (plan_world g') = arrival (plan_world g) /\
    now (plan_world g') <= arrival (plan_world g) + 1 /\
    (forall e a, plan g' = e :: a -> arrival (plan_world g) < e.1).
Proof.
  intros P. induction fuel as [|fuel IH]; intros [a m w] Ok Hnow Hf; cbn [plan plan_world] in *.
  { pose proof (calls_nonneg a (arrival w)). lia. }
  cbn [plan_wait plan plan_pools plan_world]. destruct a as [|[due t] rest].
  - eexists. split; [reflexivity|]. split; [exact Ok|]. cbn. unfold waited. split; [reflexivity|]. split; [lia|discriminate].
  - destruct (Z.leb_spec due (now w)) as [Hd|Hd]; [|destruct (Z.leb_spec due (arrival w)) as [Ha|Ha]]; cbn [orb].
    3: { eexists. split; [reflexivity|]. split; [exact Ok|]. cbn. unfold waited. split; [reflexivity|]. split; [lia|].
         intros e a' E. injection E as <- <-. exact Ha. }
    all: set (w1 := Host due (arrival w) (inner w)); cbn [calls foldr fst] in Hf;
      destruct (plan_fire (rest, memp_free m MEMP_SYS_TIMEOUT (Some (at_ t))) (h t) (arg t) w1 P) as (g' & E & Ok' & Hn & Har & Hc);
        [eapply plan_fire_ok, Ok|]; cbn [fst snd] in E; rewrite E; cbn [mbind outcome_bind];
      replace (arrival w) with (arrival (plan_world g')) by exact Har;
      cbn [now arrival w1 fst] in *; apply IH; [exact Ok'|lia|]; rewrite Har; fold (calls rest (arrival w)) in Hf; lia.
Qed.

Lemma agenda_later l : forall n, times_ok l -> Forall (fun e => n <= e.1) (agenda n l).
Proof.
  induction l as [|t l IH]; intros n Hl; [constructor|]. apply Forall_cons in Hl as [Ht Hl]. rewrite agenda_cons.
  constructor; [cbn; lia|]. eapply Forall_impl; [apply IH, Hl|]. cbn. lia.
Qed.

End Agenda.

(** ** Examples

    A handler that logs the time and sets itself again, 250 ms later. *)

Definition ex_acts (h arg t : Z) (log : list (Z * Z)) : list alarm * list (Z * Z) := ([(250, h, arg)], log ++ [(arg, t)]).

Definition ex_thread : thread (host (list (Z * Z))) := Thread [] (memp_init ex_sizes 4096) (Host 0 600 []).

Lemma ex_periodic : periodic ex_acts.
Proof. intros h arg t v. cbn. lia. Qed.

Lemma ex_plan_ok : plan_ok ex_sizes 4096 (abs ex_thread).
Proof.
  eexists _, _, []. split; [apply memp_init_inv; [reflexivity|intros []; reflexivity]|reflexivity].
Qed.

(** Two timeouts of 250 and 100 ms and a message after 600 ms: fewer than
    1300 calls of handlers, by the bound. *)
Lemma ex_armed : exists s, set_timeouts [(250, 1, 11); (100, 1, 12)] ex_thread = Ret s /\
  plan_ok ex_sizes 4096 (abs s) /\ times_ok (timeouts s) /\ world s = Host 0 600 [] /\ calls (plan (abs s)) 600 < 1300.
Proof.
  destruct (plan_timeout_ok ex_sizes 4096 eq_refl ltac:(intros []; reflexivity) _ 250 1 11 ex_plan_ok) as (g1 & E1 & Ok1 & W1 & P1).
  pose proof (sys_timeout_plan ex_thread 250 1 11 ltac:(lia) ltac:(constructor)) as S1. rewrite E1 in S1.
  destruct (sys_timeout ex_thread 250 1 11) as [s1| |] eqn:F1; try contradiction. destruct S1 as [-> T1].
  destruct (plan_timeout_ok ex_sizes 4096 eq_refl ltac:(intros []; reflexivity) _ 100 1 12 Ok1) as (g2 & E2 & Ok2 & W2 & P2).
  pose proof (sys_timeout_plan s1 100 1 12 ltac:(lia) T1) as S2. rewrite E2 in S2.
  destruct (sys_timeout s1 100 1 12) as [s2| |] eqn:F2; try contradiction. destruct S2 as [-> T2].
  exists s2. cbn [set_timeouts]. rewrite F1. cbn [mbind outcome_bind]. rewrite F2. split; [reflexivity|].
  split; [exact Ok2|]. split; [exact T2|]. rewrite W1 in W2. split; [exact W2|].
  assert (C : forall (g g' : planned (list (Z * Z))) d, plan g' = plan g \/ (exists t, plan g' = put (0 + d, t) (plan g)) -> 0 <= d ->
    calls (plan g') 600 <= calls (plan g) 600 + 601).
  { intros g g' d [-> |[t ->]] Hd; [lia|]. rewrite calls_put. cbn [fst]. lia. }
  rewrite W1 in P2. pose proof (C _ _ 100 P2 ltac:(lia)). pose proof (C _ _ 250 P1 ltac:(lia)) as C1.
  change (calls (plan (abs ex_thread)) 600) with 0 in C1. lia.
Qed.


(** Three free structures. *)
Definition ex_pool : memp_state :=
  MempState (fun t => if decide (t = MEMP_SYS_TIMEOUT) then Some 100 else None)
    {[100 := Some 120; 120 := Some 140; 140 := None]} (fun _ => Stats 0 0 0 0).

(** The run itself: who is called when, and the differences that remain. *)
Example sys_wait_log : exists s s', set_timeouts [(250, 1, 11); (100, 1, 12)] (Thread [] ex_pool (Host 0 600 [])) = Ret s /\
  sys_wait exact_wait (handler ex_acts) 20 s = Ret s' /\
  inner (world s') = [(12, 100); (11, 250); (12, 350); (11, 500); (12, 600)] /\ now (world s') = 601 /\
  time <$> timeouts s' = [149; 100].
Proof.
  eexists _, _. split; [vm_compute; reflexivity|]. split; [vm_compute; reflexivity|]. vm_compute. auto.
Qed.

(** A fetch of a message that is already there is charged one millisecond: a
    handler set for 3 ms is called although no time has passed, once three
    messages have been fetched. *)
Definition no_wait (timeout : Z) (w : list Z) : outcome (Z * list Z) := Ret (1, w).

Fixpoint fetch_times (n : nat) (s : thread (list Z)) : outcome (thread (list Z)) :=
  match n with
  | O => Ret s
  | S n => s ← sys_wait no_wait (fun _ arg s => Ret (Thread (timeouts s) (pools s) (arg :: world s))) 3 s; fetch_times n s
  end.

Theorem timeout_without_time : exists s s3 s4, sys_timeout (Thread [] ex_pool []) 3 1 11 = Ret s /\
  fetch_times 3 s = Ret s3 /\ world s3 = [] /\ fetch_times 4 s = Ret s4 /\ world s4 = [11].
Proof.
  eexists _, _, _. repeat (split; [vm_compute; reflexivity|]). reflexivity.
Qed.

(** With [MEMP_NUM_SYS_TIMEOUT] timeouts set, a further call is lost. *)
Theorem timeout_dropped : exists s, set_timeouts [(10, 1, 1); (20, 1, 2); (30, 1, 3); (5, 1, 4)]
  (Thread [] ex_pool tt) = Ret s /\ arg <$> timeouts s = [1; 2; 3].
Proof. eexists. split; [vm_compute; reflexivity|reflexivity]. Qed.
