(* ===== verification/Alloc.v ===== *)
(** * What the packet buffers require of the two allocators

    The packet buffers of [pbuf.c] live in memory from the heap of [mem.c] and
    from the pool [MEMP_PBUF] of [memp.c].  The class [Allocator] states what
    they rely on: the regions a client holds stay apart from each other and
    inside the array of the allocator, a request is met by a region that is
    large enough or refused, and the calls on held regions return.  Both
    allocators are shown to be instances; the heap can also shrink a region.

    Addresses are absolute: the heap adds the address of its array to the
    offsets of [Mem]. *)

From S2P Require Import Prelude Mem Memp SysArch.
From stdpp Require Import base gmap list.
From Stdlib Require Import ZArith Lia.

Local Open Scope Z_scope.

(** ** The interface *)

Class Allocator (S : Type) := {
  a_malloc : S -> Z -> outcome (option Z * S);
  a_free : S -> Z -> outcome S;
  (** the regions that clients hold, from the first byte to the one after the last *)
  a_live : S -> list (Z * Z) -> Prop;
  (** the array, and the largest request *)
  a_lo : Z; a_hi : Z; a_max : Z;

  a_perm : forall s, Proper (Permutation ==> iff) (a_live s);
  a_range : forall s rs r e, a_live s rs -> (r, e) ∈ rs -> a_lo <= r /\ r <= e /\ e < a_hi;
  a_apart : forall s r e r' e' rs, a_live s ((r, e) :: (r', e') :: rs) -> e < r' \/ e' < r;
  a_malloc_ok : forall s rs size, a_live s rs -> 0 < size <= a_max ->
    exists x s', a_malloc s size = Ret (x, s') /\
      match x with
      | None => a_live s' rs
      | Some p => exists e, p + size <= e /\ p mod 4 = 0 /\ a_live s' ((p, e) :: rs)
      end;
  a_free_ok : forall s rs p e, a_live s ((p, e) :: rs) ->
    exists s', a_free s p = Ret s' /\ a_live s' rs
}.
#[global] Existing Instance a_perm.
#[global] Hint Mode Allocator ! : typeclass_instances.
Arguments a_lo S {_}.
Arguments a_hi S {_}.
Arguments a_max S {_}.

(** An allocator that can cut the end off a region. *)
Class Shrinking (S : Type) `{Allocator S} := {
  a_realloc : S -> Z -> Z -> outcome (Z * S);
  a_realloc_ok : forall s rs p e n, a_live s ((p, e) :: rs) -> p + n <= e -> 0 <= n ->
    n mod 4 = 0 ->
    exists s' e', a_realloc s p n = Ret (p, s') /\ p + n <= e' /\ a_live s' ((p, e') :: rs)
}.

Section Laws.
Context {S : Type} `{Allocator S}.
Implicit Types s : S.

Lemma a_live_apart s rs i j r e r' e' : a_live s rs -> i <> j ->
  rs !! i = Some (r, e) -> rs !! j = Some (r', e') -> e < r' \/ e' < r.
Proof.
  intros L Hij Hi Hj.
  assert (Hp : exists rest, rs ≡ₚ (r, e) :: (r', e') :: rest).
  { apply delete_Permutation in Hi as Hd.
    assert (Hx : (r', e') ∈ base.delete i rs).
    { apply list_elem_of_lookup. destruct (decide (j < i)%nat).
      - exists j. rewrite list_lookup_delete_lt; [exact Hj|lia].
      - exists (Nat.pred j). rewrite list_lookup_delete_ge; [|lia]. rewrite Nat.succ_pred; [exact Hj|lia]. }
    apply list_elem_of_split in Hx as (l1 & l2 & E). exists (l1 ++ l2).
    rewrite Hd, E, <- Permutation_middle. reflexivity. }
  destruct Hp as [rest Hp]. rewrite Hp in L. eapply a_apart, L.
Qed.

(** No two held regions start at the same address. *)
Lemma a_live_nodup s rs : a_live s rs -> NoDup rs.*1.
Proof.
  intros L. apply NoDup_alt. intros i j x Hi Hj. destruct (decide (i = j)) as [|Hij]; [assumption|].
  rewrite list_lookup_fmap in Hi, Hj.
  destruct (rs !! i) as [[r e]|] eqn:Ei; [|discriminate]. destruct (rs !! j) as [[r' e']|] eqn:Ej; [|discriminate].
  cbn in Hi, Hj. injection Hi as ->. injection Hj as ->.
  pose proof (a_live_apart s rs i j x e x e' L Hij Ei Ej) as Ha.
  pose proof (a_range s rs x e L (list_elem_of_lookup_2 _ _ _ Ei)).
  pose proof (a_range s rs x e' L (list_elem_of_lookup_2 _ _ _ Ej)). lia.
Qed.
End Laws.

(** ** The heap is an allocator that can shrink regions *)

Section Heap.
Context (base : Z) (base_aligned : base mod 4 = 0).

Definition shift (r : Z * Z) : Z * Z := (base + r.1, base + r.2).

(** The held regions are those of the blocks in use, and every block is aligned. *)
Definition heap_live (s : mem_state) (rs : list (Z * Z)) : Prop :=
  exists bs, mem_inv s bs /\ aligned bs /\ shift <$> regions bs ≡ₚ rs.

Lemma separated_lookup rs i j r q : separated rs -> (i < j)%nat -> rs !! i = Some r -> rs !! j = Some q ->
  r.2 + SIZEOF_STRUCT_MEM <= q.1.
Proof.
  revert i j. induction rs as [|x rs IH]; intros i j Hs Hij Hi Hj; [discriminate|]. destruct Hs as [Hx Hs].
  destruct i as [|i], j as [|j]; try lia; cbn in Hi, Hj.
  - injection Hi as ->. rewrite Forall_forall in Hx. apply Hx. eapply list_elem_of_lookup_2, Hj.
  - apply (IH i j); auto; lia.
Qed.

Lemma heap_apart s r e r' e' rs : heap_live s ((r, e) :: (r', e') :: rs) -> e < r' \/ e' < r.
Proof.
  intros (bs & I & _ & P). destruct (mem_inv_regions _ _ I) as [Hs _].
  symmetry in P. apply Permutation_inj in P as [Hl (f & Hf & Hp)].
  pose proof (Hp 0%nat) as H0. pose proof (Hp 1%nat) as H1. cbn in H0, H1.
  rewrite list_lookup_fmap in H0, H1.
  destruct (regions bs !! f 0%nat) as [[a b]|] eqn:E0; [|discriminate].
  destruct (regions bs !! f 1%nat) as [[a' b']|] eqn:E1; [|discriminate].
  cbn in H0, H1. unfold shift in H0, H1. cbn in H0, H1. injection H0 as -> ->. injection H1 as -> ->.
  destruct (Nat.lt_trichotomy (f 0%nat) (f 1%nat)) as [Hlt|[Heq|Hlt]].
  - left. pose proof (separated_lookup _ _ _ _ _ Hs Hlt E0 E1) as Hx. cbn in Hx. unfold SIZEOF_STRUCT_MEM in Hx. lia.
  - apply Hf in Heq. discriminate.
  - right. pose proof (separated_lookup _ _ _ _ _ Hs Hlt E1 E0) as Hx. cbn in Hx. unfold SIZEOF_STRUCT_MEM in Hx. lia.
Qed.

Lemma heap_malloc s rs size : heap_live s rs -> 0 < size < 2 ^ 32 - 32 ->
  exists x s', mem_malloc s size = Ret (x, s') /\
    match x with
    | None => heap_live s' rs
    | Some p => exists e, base + p + size <= e /\ (base + p) mod 4 = 0 /\ heap_live s' ((base + p, e) :: rs)
    end.
Proof.
  intros (bs & I & Hal & P) Hz.
  destruct (mem_malloc_run s bs size I Hz) as [(s' & Em & I' & _)|(l1 & p & n & l2 & s' & E & _ & _ & Em & I' & _)].
  - exists None, s'. split; [exact Em|]. exists bs. auto.
  - exists (Some (p + SIZEOF_STRUCT_MEM)), s'. split; [exact Em|].
    destruct (align_request_spec size) as [Ha Hm]; [lia|]. unfold aligned in Hal. subst bs.
    rewrite Forall_app, Forall_cons in Hal. destruct Hal as (A1 & [Ap An] & A2). cbn in Ap, An.
    unfold MEM_ALIGNMENT, SIZEOF_STRUCT_MEM in *.
    exists (base + (p + 12 + align_request size)). split; [lia|]. split; [divmod|].
    eexists. split; [exact I'|]. split.
    + unfold aligned. rewrite Forall_app, !Forall_cons. unfold MEM_ALIGNMENT. cbn.
      split; [exact A1|]. repeat split; auto; divmod.
    + rewrite regions_split, fmap_cons. unfold shift at 1. cbn [fst snd]. unfold SIZEOF_STRUCT_MEM.
      apply perm_skip. rewrite <- P, !regions_app, !regions_cons. reflexivity.
Qed.

Lemma heap_block s r e rs : heap_live s ((r, e) :: rs) -> exists l1 p n l2,
  mem_inv s (l1 ++ Block p n true :: l2) /\ aligned (l1 ++ Block p n true :: l2) /\
  r = base + (p + SIZEOF_STRUCT_MEM) /\ e = base + n /\ shift <$> regions (l1 ++ l2) ≡ₚ rs.
Proof.
  intros (bs & I & Hal & P).
  assert (Hin : (r, e) ∈ shift <$> regions bs) by (rewrite P; set_solver).
  apply list_elem_of_fmap in Hin as ([a b] & E & Hin). unfold shift in E. cbn in E. injection E as -> ->.
  apply in_regions in Hin as (l1 & l2 & ->). exists l1, (a - SIZEOF_STRUCT_MEM), b, l2.
  rewrite regions_split, fmap_cons in P. rewrite Z.sub_add in *. apply Permutation_cons_inv in P. auto 6.
Qed.

Lemma heap_free s r e rs : heap_live s ((r, e) :: rs) ->
  exists s', mem_free s (Some (r - base)) = Ret s' /\ heap_live s' rs.
Proof.
  intros L. apply heap_block in L as (l1 & p & n & l2 & I & Hal & -> & -> & P).
  destruct (mem_free_run s l1 p n l2 I) as (s' & Ef & I' & _). exists s'.
  replace (base + (p + SIZEOF_STRUCT_MEM) - base) with (p + SIZEOF_STRUCT_MEM) by lia.
  split; [exact Ef|]. exists (merged l1 p n l2). split; [exact I'|]. split.
  - apply merged_aligned. unfold aligned in *. rewrite Forall_app, Forall_cons in *. exact Hal.
  - rewrite merged_regions. exact P.
Qed.

Lemma heap_shrink s r e rs n : heap_live s ((r, e) :: rs) -> r + n <= e -> 0 <= n < 2 ^ 32 - 32 ->
  n mod 4 = 0 ->
  exists s' e', mem_realloc s (r - base) n = Ret (r - base, s') /\ r + n <= e' /\ heap_live s' ((r, e') :: rs).
Proof.
  intros L Hle Hn Hm. apply heap_block in L as (l1 & p & b & l2 & I & Hal & -> & -> & P).
  destruct (mem_realloc_run s l1 p b l2 n I Hn) as (s' & bs' & Er & I' & E). exists s'.
  replace (base + (p + SIZEOF_STRUCT_MEM) - base) with (p + SIZEOF_STRUCT_MEM) by lia.
  unfold aligned in Hal. rewrite Forall_app, Forall_cons in Hal. destruct Hal as (A1 & [Ap An] & A2). cbn in Ap, An.
  destruct (n + SIZEOF_STRUCT_MEM + MIN_SIZE <? b - p - SIZEOF_STRUCT_MEM).
  - exists (base + (p + SIZEOF_STRUCT_MEM + n)). split; [exact Er|]. split; [lia|]. exists bs'.
    split; [exact I'|]. subst bs'. unfold MEM_ALIGNMENT, SIZEOF_STRUCT_MEM in *. split.
    + apply merged_aligned. unfold aligned. rewrite !Forall_app, !Forall_cons, Forall_nil. cbn. unfold MEM_ALIGNMENT.
      repeat split; auto; divmod.
    + rewrite merged_regions, <- app_assoc. cbn [app]. rewrite regions_split, fmap_cons, P. reflexivity.
  - exists (base + b). split; [exact Er|]. split; [lia|]. exists bs'. split; [exact I'|]. subst bs'. split.
    + unfold aligned. rewrite Forall_app, Forall_cons. auto.
    + rewrite regions_split, fmap_cons, P. reflexivity.
Qed.

Lemma heap_range s rs r e : heap_live s rs -> (r, e) ∈ rs ->
  base + 12 <= r /\ r <= e /\ e < base + MEM_SIZE.
Proof.
  intros (bs & I & _ & P) Hin. rewrite <- P in Hin. apply list_elem_of_fmap in Hin as ([a b] & E & Hin).
  unfold shift in E. cbn in E. injection E as -> ->.
  destruct (mem_inv_regions _ _ I) as [_ Hr]. rewrite Forall_forall in Hr. apply Hr in Hin. cbn in Hin.
  unfold SIZEOF_STRUCT_MEM in Hin. lia.
Qed.

Lemma heap_perm s : Proper (Permutation ==> iff) (heap_live s).
Proof.
  intros rs rs' P. split; intros (bs & I & A & Q); exists bs; split; auto; split; auto; rewrite Q;
    [exact P|symmetry; exact P].
Qed.

#[refine, local] Instance heap_allocator : Allocator mem_state := {
  a_malloc := fun s n => r ← mem_malloc s n; Ret (option_map (Z.add base) r.1, r.2);
  a_free := fun s p => mem_free s (Some (p - base));
  a_live := heap_live; a_lo := base + 12; a_hi := base + MEM_SIZE; a_max := 2 ^ 32 - 33;
  a_perm := heap_perm; a_range := heap_range; a_apart := heap_apart
}.
Proof.
  - intros s rs n L Hn. destruct (heap_malloc s rs n L) as (x & s' & E & H); [lia|].
    exists (option_map (Z.add base) x), s'. rewrite E. split; [reflexivity|]. destruct x; exact H.
  - intros s rs p e L. exact (heap_free s p e rs L).
Defined.

#[refine, local] Instance heap_shrinking : Shrinking mem_state := {
  a_realloc := fun s p n => r ← mem_realloc s (p - base) n; Ret (base + r.1, r.2)
}.
Proof.
  intros s rs p e n L Hle Hn Hm. destruct (heap_range s _ p e L ltac:(constructor)) as (R1 & _ & R2).
  unfold MEM_SIZE in R2.
  destruct (heap_shrink s p e rs n L Hle) as (s' & e' & E & H); [lia|exact Hm|].
  exists s', e'. rewrite E. cbn [mbind outcome_bind fst snd]. split; [|exact H]. do 2 f_equal. lia.
Defined.

(** The heap that [mem_init] makes holds no region. *)
Lemma heap_init : a_live mem_init [].
Proof.
  exists [Block 0 MEM_SIZE false]. split; [apply mem_init_inv|]. split; [|reflexivity].
  constructor; [split; reflexivity|constructor].
Qed.
End Heap.

(** ** The pool of pbuf structures is an allocator

    The pools with the semaphore [mutex] that guards them.  The other threads
    of the stack may hold elements of the other types. *)

Record shared_pools := SharedPools { mutex : Z; pools : memp_state }.

Section PbufPool.
Context (memp_sizes : memp_t -> Z) (memory : Z).

Definition memp_mallocp (s : shared_pools) (t : memp_t) : outcome (option Z * shared_pools) :=
  c ← sys_sem_wait (mutex s);
  r ← memp_malloc (pools s) t;
  Ret (r.1, SharedPools (sys_sem_signal c) r.2).

Definition memp_freep (s : shared_pools) (t : memp_t) (mem : option Z) : outcome shared_pools :=
  c ← sys_sem_wait (mutex s);
  Ret (SharedPools (sys_sem_signal c) (memp_free (pools s) t mem)).

Context (memory_aligned : memory mod 4 = 0) (sizes_pos : forall t, 0 < memp_sizes t).

Notation inv := (memp_inv memp_sizes memory).

(** The region of an element begins after its link. *)
Definition elem_region (m : Z) : Z * Z := (m + SIZEOF_MEMP, m + elem_size memp_sizes MEMP_PBUF).

Definition pbuf_live (s : shared_pools) (rs : list (Z * Z)) : Prop :=
  mutex s = 1 /\ exists free live, inv (pools s) free live /\ elem_region <$> live MEMP_PBUF ≡ₚ rs.

Lemma elems_apart k a size x y : 0 < size -> x ∈ elems k a size -> y ∈ elems k a size -> x <> y ->
  x + size <= y \/ y + size <= x.
Proof.
  intros Hs. revert a. induction k as [|k IH]; intros a Hx Hy Hne; cbn in Hx, Hy; [set_solver|].
  apply elem_of_cons in Hx as [->|Hx]; apply elem_of_cons in Hy as [->|Hy]; [lia| | |apply (IH (a + size)); auto].
  - apply (elems_range memp_sizes memory memory_aligned sizes_pos) in Hy; lia.
  - apply (elems_range memp_sizes memory memory_aligned sizes_pos) in Hx; lia.
Qed.

Lemma pbuf_region s rs r e : pbuf_live s rs -> (r, e) ∈ rs -> exists m, (r, e) = elem_region m /\
  m ∈ pool memp_sizes memory MEMP_PBUF.
Proof.
  intros (_ & free & live & I & P) Hin. rewrite <- P in Hin. apply list_elem_of_fmap in Hin as (m & E & Hm).
  exists m. split; [exact E|]. destruct (I MEMP_PBUF) as (_ & Q & _). rewrite <- Q. apply elem_of_app. auto.
Qed.

Lemma pbuf_apart s r e r' e' rs : pbuf_live s ((r, e) :: (r', e') :: rs) -> e < r' \/ e' < r.
Proof.
  intros L. destruct (pbuf_region _ _ r e L) as (m & E & Hm); [constructor|].
  destruct (pbuf_region _ _ r' e' L) as (m' & E' & Hm'); [do 2 constructor|].
  destruct L as (_ & free & live & I & P). pose proof (memp_inv_nodup memp_sizes memory memory_aligned sizes_pos _ _ _ MEMP_PBUF I) as Hnd.
  apply NoDup_app in Hnd as (_ & _ & Hnd).
  assert (Hne : m <> m').
  { intros ->. rewrite E, E' in P. symmetry in P.
    assert (Hd : NoDup (elem_region <$> live MEMP_PBUF)).
    { apply NoDup_fmap_2; [|exact Hnd]. intros u v Huv. unfold elem_region in Huv. injection Huv. lia. }
    rewrite <- P in Hd. apply NoDup_cons in Hd as [Hn _]. apply Hn. constructor. }
  destruct (elem_size_spec memp_sizes memory sizes_pos MEMP_PBUF) as [_ Hp].
  unfold elem_region, SIZEOF_MEMP in *. injection E as -> ->. injection E' as -> ->.
  destruct (elems_apart _ _ (elem_size memp_sizes MEMP_PBUF) m m' ltac:(lia) Hm Hm' Hne); lia.
Qed.

Lemma pbuf_range s rs r e : pbuf_live s rs -> (r, e) ∈ rs ->
  memory <= r /\ r <= e /\ e < pools_end memp_sizes memory memp_types + 1.
Proof.
  intros L Hin. destruct (pbuf_region _ _ _ _ L Hin) as (m & E & Hm).
  unfold elem_region in E. injection E as -> ->.
  destruct (elem_size_spec memp_sizes memory sizes_pos MEMP_PBUF) as [_ Hp]. unfold SIZEOF_MEMP in *.
  unfold pool in Hm. apply (elems_range memp_sizes memory memory_aligned sizes_pos) in Hm; [|lia].
  pose proof (pool_start_range memp_sizes memory memory_aligned sizes_pos memory memp_types MEMP_PBUF ltac:(unfold memp_types; set_solver)). lia.
Qed.

Lemma pbuf_perm s : Proper (Permutation ==> iff) (pbuf_live s).
Proof.
  intros rs rs' P. split; intros (M & free & live & I & Q); (split; [exact M|]); exists free, live;
    (split; [exact I|]); rewrite Q; [exact P|symmetry; exact P].
Qed.

Lemma pbuf_malloc s rs : pbuf_live s rs -> exists x s', memp_mallocp s MEMP_PBUF = Ret (x, s') /\
  match x with
  | None => pbuf_live s' rs
  | Some p => exists e, p + memp_sizes MEMP_PBUF <= e /\ p mod 4 = 0 /\ pbuf_live s' ((p, e) :: rs)
  end.
Proof.
  intros (M & free & live & I & P). unfold memp_mallocp. rewrite M. cbn [sys_sem_wait Z.leb Z.compare mbind outcome_bind].
  destruct (memp_malloc_inv memp_sizes memory memory_aligned sizes_pos _ _ _ MEMP_PBUF I)
    as (r & s' & free' & live' & E & I' & C).
  rewrite E. cbn [mbind outcome_bind fst snd]. eexists r, _. split; [reflexivity|].
  destruct r as [p|].
  - destruct C as [-> C]. destruct (I MEMP_PBUF) as (_ & Q & _).
    assert (Hm : p - SIZEOF_MEMP ∈ pool memp_sizes memory MEMP_PBUF) by (rewrite <- Q, C; constructor).
    destruct (pool_facts memp_sizes memory memory_aligned sizes_pos MEMP_PBUF) as (_ & _ & Hal & _).
    destruct (Hal _ Hm) as [H4 _]. unfold SIZEOF_MEMP in *.
    exists (p - 4 + elem_size memp_sizes MEMP_PBUF). split; [|split; [divmod|]].
    + unfold elem_size, MEM_ALIGN_SIZE, SIZEOF_MEMP.
      pose proof (Z.mod_pos_bound (memp_sizes MEMP_PBUF + 4) 4 ltac:(lia)). destruct (_ =? 0); lia.
    + split; [reflexivity|]. eexists _, _. split; [exact I'|]. rewrite upd_eq, fmap_cons, P.
      unfold elem_region, SIZEOF_MEMP. rewrite Z.sub_add. reflexivity.
  - destruct C as [_ ->]. split; [reflexivity|]. exists free', live. auto.
Qed.

Lemma pbuf_release s rs p e : pbuf_live s ((p, e) :: rs) ->
  exists s', memp_freep s MEMP_PBUF (Some p) = Ret s' /\ pbuf_live s' rs.
Proof.
  intros L. destruct (pbuf_region _ _ p e L) as (m & E & _); [constructor|].
  destruct L as (M & free & live & I & P). unfold memp_freep. rewrite M.
  cbn [sys_sem_wait Z.leb Z.compare mbind outcome_bind]. eexists. split; [reflexivity|].
  assert (Hin : m ∈ live MEMP_PBUF).
  { assert (Hx : elem_region m ∈ elem_region <$> live MEMP_PBUF) by (rewrite P, E; constructor).
    apply list_elem_of_fmap in Hx as (m' & Em & Hm'). unfold elem_region in Em. injection Em as Em _.
    replace m with m' by lia. exact Hm'. }
  apply list_elem_of_split in Hin as (l1 & l2 & El).
  assert (Hl : live MEMP_PBUF ≡ₚ (p - SIZEOF_MEMP) :: (l1 ++ l2)).
  { unfold elem_region in E. injection E as -> _. rewrite El, <- Permutation_middle.
    replace (m + SIZEOF_MEMP - SIZEOF_MEMP) with m by lia. reflexivity. }
  split; [reflexivity|]. eexists _, _.
  split; [exact (memp_free_inv memp_sizes memory memory_aligned sizes_pos _ _ _ _ _ _ I Hl)|].
  rewrite upd_eq. rewrite El, E in P. rewrite <- Permutation_middle in P. cbn [fmap list_fmap] in P.
  apply Permutation_cons_inv in P. exact P.
Qed.

#[refine, local] Instance pbuf_allocator : Allocator shared_pools := {
  a_malloc := fun s _ => memp_mallocp s MEMP_PBUF;
  a_free := fun s p => memp_freep s MEMP_PBUF (Some p);
  a_live := pbuf_live; a_lo := memory; a_hi := pools_end memp_sizes memory memp_types + 1;
  a_max := memp_sizes MEMP_PBUF;
  a_perm := pbuf_perm; a_range := pbuf_range; a_apart := pbuf_apart; a_free_ok := pbuf_release
}.
Proof.
  intros s rs n L Hn. destruct (pbuf_malloc s rs L) as (x & s' & E & H). exists x, s'. split; [exact E|].
  destruct x as [p|]; [|exact H]. destruct H as (e & He & H). exists e. split; [lia|exact H].
Defined.

Lemma pbuf_pool_init : a_live (SharedPools 1 (memp_init memp_sizes memory)) [].
Proof.
  split; [reflexivity|]. exists (pool memp_sizes memory), (fun _ => []).
  split; [apply memp_init_inv; assumption|reflexivity].
Qed.
End PbufPool.
