(* ===== verification/Pbuf.v ===== *)
(** * Packet buffers ([lwtcp/pbuf.c])

    The structures as a store from addresses to records, linked through their
    [next] fields, and every function of the file.  A structure whose memory
    was given back to an allocator is no longer in the store, so an access to
    it is [Undef]; the six buffers of the pool always are.  The contents of the
    buffers are not kept: [payload] and [len] say which bytes a pbuf holds.
    [PbufInv] has the invariant and the properties. *)

From S2P Require Import Prelude Memp SysArch Alloc.
From stdpp Require Import base gmap list.
From Stdlib Require Import ZArith Lia.

Local Open Scope Z_scope.

(** ** Data *)

Definition PBUF_TRANSPORT_HLEN : Z := 20.
Definition PBUF_IP_HLEN : Z := 20.
Definition PBUF_LINK_HLEN : Z := 16.
Definition PBUF_POOL_SIZE : nat := 6.
Definition PBUF_POOL_BUFSIZE : Z := 128.

Inductive pbuf_layer := PBUF_TRANSPORT | PBUF_IP | PBUF_LINK | PBUF_RAW.
Inductive pbuf_flag := PBUF_RAM | PBUF_ROM | PBUF_POOL.

Definition PBUF_FLAG_RAM : Z := 0.
Definition PBUF_FLAG_ROM : Z := 1.
Definition PBUF_FLAG_POOL : Z := 2.

(** [struct pbuf]: two pointers, two bytes padded to a word and two 16-bit
    lengths.  The null pointer is [None] in [next] and 0 in [payload]. *)
Record pbuf := Pbuf {
  next : option Z; flags : Z; ref : Z; payload : Z; tot_len : Z; len : Z
}.
Definition SIZEOF_PBUF : Z := 16.

Definition with_next (n : option Z) (q : pbuf) : pbuf :=
  Pbuf n (flags q) (ref q) (payload q) (tot_len q) (len q).
Definition with_ref (r : Z) (q : pbuf) : pbuf :=
  Pbuf (next q) (flags q) r (payload q) (tot_len q) (len q).
Definition with_payload (p : Z) (q : pbuf) : pbuf :=
  Pbuf (next q) (flags q) (ref q) p (tot_len q) (len q).
Definition with_tot_len (t : Z) (q : pbuf) : pbuf :=
  Pbuf (next q) (flags q) (ref q) (payload q) t (len q).
Definition with_len (l : Z) (q : pbuf) : pbuf :=
  Pbuf (next q) (flags q) (ref q) (payload q) (tot_len q) l.

(** [stats.pbuf]. *)
Record stats_pbuf := Stats {
  avail : Z; st_used : Z; max : Z; err : Z; alloc_locked : Z; refresh_locked : Z
}.

Record pbuf_state (H M : Type) := PbufState {
  mem : gmap Z pbuf;
  pbuf_pool : option Z;
  pbuf_pool_alloc_cache : option Z;
  pbuf_pool_free_cache : option Z;
  pbuf_pool_alloc_lock : Z;
  pbuf_pool_free_lock : Z;
  pbuf_pool_free_sem : Z;
  stats : stats_pbuf;
  heap : H;      (** of [mem.c] *)
  pbufs : M      (** the pool [MEMP_PBUF] of [memp.c] *)
}.
Arguments PbufState {H M}.
Arguments mem {H M} _.
Arguments pbuf_pool {H M} _.
Arguments pbuf_pool_alloc_cache {H M} _.
Arguments pbuf_pool_free_cache {H M} _.
Arguments pbuf_pool_alloc_lock {H M} _.
Arguments pbuf_pool_free_lock {H M} _.
Arguments pbuf_pool_free_sem {H M} _.
Arguments stats {H M} _.
Arguments heap {H M} _.
Arguments pbufs {H M} _.

(** A store into the structure at [p]. *)
Definition upd (m : gmap Z pbuf) (p : Z) (f : pbuf -> pbuf) : outcome (gmap Z pbuf) :=
  q ← load (m !! p); Ret (<[p := f q]> m).

(** Counting in the statistics. *)
Definition count_used (st : stats_pbuf) : stats_pbuf :=
  let used := u16 (st_used st + 1) in
  Stats (avail st) used (if max st <? used then used else max st) (err st) (alloc_locked st) (refresh_locked st).
Definition uncount_used (st : stats_pbuf) : stats_pbuf :=
  Stats (avail st) (u16 (st_used st - 1)) (max st) (err st) (alloc_locked st) (refresh_locked st).
Definition count_err (st : stats_pbuf) : stats_pbuf :=
  Stats (avail st) (st_used st) (max st) (u16 (err st + 1)) (alloc_locked st) (refresh_locked st).
Definition count_alloc_locked (st : stats_pbuf) : stats_pbuf :=
  Stats (avail st) (st_used st) (max st) (err st) (u16 (alloc_locked st + 1)) (refresh_locked st).
Definition count_refresh_locked (st : stats_pbuf) : stats_pbuf :=
  Stats (avail st) (st_used st) (max st) (err st) (alloc_locked st) (u16 (refresh_locked st + 1)).

Section Pbufs.
Context {H M : Type} `{Shrinking H, Allocator M}.
(** The address of the array [pbuf_pool_memory]. *)
Context (pool_memory : Z).

Notation state := (pbuf_state H M).
Implicit Types (s : state) (m : gmap Z pbuf) (p q r : Z).

(** Stores into the fields of the state. *)
Definition set_mem s m : state :=
  PbufState m (pbuf_pool s) (pbuf_pool_alloc_cache s) (pbuf_pool_free_cache s)
    (pbuf_pool_alloc_lock s) (pbuf_pool_free_lock s) (pbuf_pool_free_sem s) (stats s) (heap s) (pbufs s).
Definition set_pool s (x : option Z) : state :=
  PbufState (mem s) x (pbuf_pool_alloc_cache s) (pbuf_pool_free_cache s)
    (pbuf_pool_alloc_lock s) (pbuf_pool_free_lock s) (pbuf_pool_free_sem s) (stats s) (heap s) (pbufs s).
Definition set_alloc_cache s (x : option Z) : state :=
  PbufState (mem s) (pbuf_pool s) x (pbuf_pool_free_cache s)
    (pbuf_pool_alloc_lock s) (pbuf_pool_free_lock s) (pbuf_pool_free_sem s) (stats s) (heap s) (pbufs s).
Definition set_free_cache s (x : option Z) : state :=
  PbufState (mem s) (pbuf_pool s) (pbuf_pool_alloc_cache s) x
    (pbuf_pool_alloc_lock s) (pbuf_pool_free_lock s) (pbuf_pool_free_sem s) (stats s) (heap s) (pbufs s).
Definition set_locks s (a f : Z) : state :=
  PbufState (mem s) (pbuf_pool s) (pbuf_pool_alloc_cache s) (pbuf_pool_free_cache s)
    a f (pbuf_pool_free_sem s) (stats s) (heap s) (pbufs s).
Definition set_sem s (c : Z) : state :=
  PbufState (mem s) (pbuf_pool s) (pbuf_pool_alloc_cache s) (pbuf_pool_free_cache s)
    (pbuf_pool_alloc_lock s) (pbuf_pool_free_lock s) c (stats s) (heap s) (pbufs s).
Definition on_stats (f : stats_pbuf -> stats_pbuf) s : state :=
  PbufState (mem s) (pbuf_pool s) (pbuf_pool_alloc_cache s) (pbuf_pool_free_cache s)
    (pbuf_pool_alloc_lock s) (pbuf_pool_free_lock s) (pbuf_pool_free_sem s) (f (stats s)) (heap s) (pbufs s).
Definition set_heap s (h : H) : state :=
  PbufState (mem s) (pbuf_pool s) (pbuf_pool_alloc_cache s) (pbuf_pool_free_cache s)
    (pbuf_pool_alloc_lock s) (pbuf_pool_free_lock s) (pbuf_pool_free_sem s) (stats s) h (pbufs s).
Definition set_pbufs s (x : M) : state :=
  PbufState (mem s) (pbuf_pool s) (pbuf_pool_alloc_cache s) (pbuf_pool_free_cache s)
    (pbuf_pool_alloc_lock s) (pbuf_pool_free_lock s) (pbuf_pool_free_sem s) (stats s) (heap s) x.

(** ** The pool *)

(** The loop of [pbuf_init] over [n] buffers from [p] on; the last one is
    returned.  The memory of the array is zero before. *)
Fixpoint init_loop (n : nat) m (q p : Z) : gmap Z pbuf * Z :=
  match n with
  | O => (m, q)
  | S k =>
      let nx := p + PBUF_POOL_BUFSIZE + SIZEOF_PBUF in
      init_loop k (<[p := Pbuf (Some nx) 0 0 (MEM_ALIGN_SIZE (p + SIZEOF_PBUF)) PBUF_POOL_BUFSIZE PBUF_POOL_BUFSIZE]> m)
        p nx
  end.

Definition pbuf_init (h : H) (x : M) : outcome state :=
  let '(m, q) := init_loop PBUF_POOL_SIZE ∅ 0 pool_memory in
  m ← upd m q (with_next None);
  Ret (PbufState m (Some pool_memory) None None 0 0 (sys_sem_new 1)
         (Stats (Z.of_nat PBUF_POOL_SIZE) 0 0 0 0 0) h x).

(** The taking of the first buffer of the pool, when [pbuf_pool_free_lock] is
    not set. *)
Definition pool_take s : outcome (option Z * state) :=
  match pbuf_pool s with
  | Some p => b ← load (mem s !! p); Ret (Some p, set_pool s (next b))
  | None => Ret (None, s)
  end.

Definition pbuf_pool_alloc s : outcome (option Z * state) :=
  r ← match pbuf_pool_alloc_cache s with
      | Some p => b ← load (mem s !! p); Ret (Some p, set_alloc_cache s (next b))
      | None =>
          if truthy (pbuf_pool_free_lock s) then Ret (None, on_stats count_alloc_locked s)
          else
            let s := set_locks s (u8 (pbuf_pool_alloc_lock s + 1)) (pbuf_pool_free_lock s) in
            r ← (if negb (truthy (pbuf_pool_free_lock s)) then pool_take s
                 else Ret (None, on_stats count_alloc_locked s));
            let '(x, s) := r in
            Ret (x, set_locks s (u8 (pbuf_pool_alloc_lock s - 1)) (pbuf_pool_free_lock s))
      end;
  let '(x, s) := r in
  Ret (x, if decide (x = None) then s else on_stats count_used s).

(** The number of loop rounds over a list of structures: a list that does not
    close into a ring has at most as many elements as the store. *)
Definition chain_fuel m : nat := S (size m).

(** [for(q = p; q->next != NULL; q = q->next)] *)
Fixpoint last_of (fuel : nat) m p : outcome Z :=
  b ← load (m !! p);
  match next b with
  | None => Ret p
  | Some n => match fuel with O => Undef | S k => last_of k m n end
  end.

(** [for(q = p; q != NULL; q = q->next) --stats.pbuf.used] *)
Fixpoint uncount_chain (fuel : nat) m (q : option Z) (st : stats_pbuf) : outcome stats_pbuf :=
  match q with
  | None => Ret st
  | Some q => match fuel with
              | O => Undef
              | S k => b ← load (m !! q); uncount_chain k m (next b) (uncount_used st)
              end
  end.

Definition pbuf_pool_free s p : outcome state :=
  st ← uncount_chain (chain_fuel (mem s)) (mem s) (Some p) (stats s);
  let s := on_stats (fun _ => st) s in
  match pbuf_pool_alloc_cache s with
  | None => Ret (set_alloc_cache s (Some p))
  | Some c =>
      q ← last_of (chain_fuel (mem s)) (mem s) c;
      m ← upd (mem s) q (with_next (Some p));
      Ret (set_mem s m)
  end.

Definition pbuf_refresh s : outcome state :=
  c ← sys_sem_wait (pbuf_pool_free_sem s);
  let s := set_sem s c in
  s ← match pbuf_pool_free_cache s with
      | None => Ret s
      | Some f =>
          let s := set_locks s (pbuf_pool_alloc_lock s) (u8 (pbuf_pool_free_lock s + 1)) in
          s ← (if negb (truthy (pbuf_pool_alloc_lock s)) then
                 s ← match pbuf_pool s with
                     | None => Ret (set_pool s (Some f))
                     | Some p =>
                         q ← last_of (chain_fuel (mem s)) (mem s) p;
                         m ← upd (mem s) q (with_next (Some f));
                         Ret (set_mem s m)
                     end;
                 Ret (set_free_cache s None)
               else Ret (on_stats count_refresh_locked s));
          Ret (set_locks s (pbuf_pool_alloc_lock s) (u8 (pbuf_pool_free_lock s - 1)))
      end;
  Ret (set_sem s (sys_sem_signal (pbuf_pool_free_sem s))).

(** The macro [PBUF_POOL_FREE]. *)
Definition PBUF_POOL_FREE s p : outcome state :=
  c ← sys_sem_wait (pbuf_pool_free_sem s);
  m ← upd (mem s) p (with_next (pbuf_pool_free_cache s));
  Ret (set_sem (set_free_cache (set_mem s m) (Some p)) (sys_sem_signal c)).

(** ** Allocation *)

Definition layer_offset (l : pbuf_layer) : Z :=
  match l with
  | PBUF_TRANSPORT => u16 (PBUF_TRANSPORT_HLEN + PBUF_IP_HLEN + PBUF_LINK_HLEN)
  | PBUF_IP => u16 (PBUF_IP_HLEN + PBUF_LINK_HLEN)
  | PBUF_LINK | PBUF_RAW => 0
  end.

(** The loop that allocates the tail of a pool chain: [p] is the head, [r] the
    last structure so far.  A false result is the return after an allocation
    that failed; each round but the failing one takes a buffer of the pool. *)
Fixpoint pool_tail (fuel : nat) s p r (rsize : Z) : outcome (bool * Z * state) :=
  if 0 <? rsize then
    match fuel with
    | O => Undef
    | S k =>
        a ← pbuf_pool_alloc s;
        match a with
        | (None, s) => s ← pbuf_pool_free (on_stats count_err s) p; Ret (false, r, s)
        | (Some q, s) =>
            m ← upd (mem s) q (with_next None);
            m ← upd m r (with_next (Some q));
            m ← upd m q (fun b => Pbuf (next b) PBUF_FLAG_POOL 1 (q + SIZEOF_PBUF) (tot_len b)
                                    (u16 (if PBUF_POOL_BUFSIZE <? rsize then PBUF_POOL_BUFSIZE else rsize)));
            pool_tail k (set_mem s m) p q (rsize - PBUF_POOL_BUFSIZE)
        end
    end
  else Ret (true, r, s).

(** The case [PBUF_POOL] of [pbuf_alloc] up to the [break]. *)
Definition alloc_pool s (size offset : Z) : outcome (option Z * state) :=
  a ← pbuf_pool_alloc s;
  match a with
  | (None, s) => Ret (None, on_stats count_err s)
  | (Some p, s) =>
      let l := u16 (if PBUF_POOL_BUFSIZE - offset <? size then PBUF_POOL_BUFSIZE - offset else size) in
      m ← upd (mem s) p (fun b => Pbuf None PBUF_FLAG_POOL (ref b)
                                    (MEM_ALIGN_SIZE (p + (SIZEOF_PBUF + offset))) size l);
      t ← pool_tail (S PBUF_POOL_SIZE) (set_mem s m) p p (size - l);
      match t with
      | (false, _, s) => Ret (None, s)
      | (true, r, s) => m ← upd (mem s) r (with_next None); Ret (Some p, set_mem s m)
      end
  end.

Definition alloc_ram s (size offset : Z) : outcome (option Z * state) :=
  a ← a_malloc (heap s) (MEM_ALIGN_SIZE (SIZEOF_PBUF + size + offset));
  match a with
  | (None, h) => Ret (None, set_heap s h)
  | (Some p, h) =>
      Ret (Some p, set_mem (set_heap s h)
        (<[p := Pbuf None PBUF_FLAG_RAM 0 (MEM_ALIGN_SIZE (p + SIZEOF_PBUF + offset)) size size]> (mem s)))
  end.

Definition alloc_rom s (size : Z) : outcome (option Z * state) :=
  a ← a_malloc (pbufs s) SIZEOF_PBUF;
  match a with
  | (None, x) => Ret (None, set_pbufs s x)
  | (Some p, x) =>
      Ret (Some p, set_mem (set_pbufs s x) (<[p := Pbuf None PBUF_FLAG_ROM 0 0 size size]> (mem s)))
  end.

Definition pbuf_alloc s (l : pbuf_layer) (size : Z) (flag : pbuf_flag) : outcome (option Z * state) :=
  let offset := layer_offset l in
  a ← match flag with
      | PBUF_POOL => alloc_pool s size offset
      | PBUF_RAM => alloc_ram s size offset
      | PBUF_ROM => alloc_rom s size
      end;
  match a with
  | (None, s) => Ret (None, s)
  | (Some p, s) => m ← upd (mem s) p (with_ref 1); Ret (Some p, set_mem s m)
  end.

(** ** Freeing *)

(** The loop of [pbuf_free] over the chain from [p]. *)
Fixpoint free_loop (fuel : nat) s (p : option Z) (count : Z) : outcome (Z * state) :=
  match p with
  | None => Ret (count, s)
  | Some p =>
      match fuel with
      | O => Undef
      | S k =>
          b ← load (mem s !! p);
          s ← (if flags b =? PBUF_FLAG_POOL then
                 let b := Pbuf (next b) (flags b) (ref b) (p + SIZEOF_PBUF) PBUF_POOL_BUFSIZE PBUF_POOL_BUFSIZE in
                 s ← PBUF_POOL_FREE (set_mem s (<[p := b]> (mem s))) p;
                 Ret (on_stats uncount_used s)
               else if flags b =? PBUF_FLAG_ROM then
                 x ← a_free (pbufs s) p; Ret (set_mem (set_pbufs s x) (delete p (mem s)))
               else
                 h ← a_free (heap s) p; Ret (set_mem (set_heap s h) (delete p (mem s))));
          free_loop k s (next b) (u8 (count + 1))
      end
  end.

Definition pbuf_free s (p : option Z) : outcome (Z * state) :=
  match p with
  | None => Ret (0, s)
  | Some p =>
      b ← load (mem s !! p);
      let r := u8 (ref b - 1) in
      let s := set_mem s (<[p := with_ref r b]> (mem s)) in
      if r =? 0 then
        c ← free_loop (chain_fuel (mem s)) s (Some p) 0;
        let '(count, s) := c in
        s ← pbuf_refresh s;
        Ret (count, s)
      else Ret (0, s)
  end.

(** ** Shrinking and growing *)

(** [while(rsize > q->len) { rsize -= q->len; q = q->next; }] *)
Fixpoint step_over (fuel : nat) m q (rsize : Z) : outcome (Z * Z) :=
  b ← load (m !! q);
  if len b <? rsize then
    match fuel, next b with
    | S k, Some n => step_over k m n (u16 (rsize - len b))
    | _, _ => Undef
    end
  else Ret (q, rsize).

(** The rest of a pool chain goes back to the pool. *)
Fixpoint drop_pool (fuel : nat) s (q : option Z) : outcome state :=
  match q with
  | None => Ret s
  | Some q =>
      match fuel with
      | O => Undef
      | S k =>
          b ← load (mem s !! q);
          s ← PBUF_POOL_FREE s q;
          drop_pool k (on_stats uncount_used s) (next b)
      end
  end.

(** The rest of a chain in RAM is freed. *)
Fixpoint drop_ram (fuel : nat) s (q : option Z) : outcome state :=
  match q with
  | None => Ret s
  | Some q =>
      match fuel with
      | O => Undef
      | S k =>
          b ← load (mem s !! q);
          c ← pbuf_free s (Some q);
          drop_ram k c.2 (next b)
      end
  end.

Definition pbuf_realloc s p (size : Z) : outcome state :=
  b ← load (mem s !! p);
  if tot_len b <=? size then Ret s
  else
    let fuel := chain_fuel (mem s) in
    s ← (if flags b =? PBUF_FLAG_POOL then
           e ← step_over fuel (mem s) p size;
           let '(q, rsize) := e in
           c ← load (mem s !! q);
           drop_pool fuel (set_mem s (<[q := with_next None (with_len rsize c)]> (mem s))) (next c)
         else if flags b =? PBUF_FLAG_ROM then
           Ret (set_mem s (<[p := with_len size b]> (mem s)))
         else if flags b =? PBUF_FLAG_RAM then
           e ← step_over fuel (mem s) p size;
           let '(q, rsize) := e in
           c ← load (mem s !! q);
           s ← (if flags c =? PBUF_FLAG_RAM then
                  r ← a_realloc (heap s) q (u32 (payload c - q + rsize)); Ret (set_heap s r.2)
                else Ret s);
           drop_ram fuel (set_mem s (<[q := with_next None (with_len rsize c)]> (mem s))) (next c)
         else Ret s);
    m ← upd (mem s) p (with_tot_len size);
    pbuf_refresh (set_mem s m).

(** The result is 0 or (uint8_t)-1. *)
Definition pbuf_header s p (header_size : Z) : outcome (Z * state) :=
  b ← load (mem s !! p);
  let pl := u32 (payload b - header_size) in
  if pl <? p + SIZEOF_PBUF then Ret (255, s)
  else
    Ret (0, set_mem s (<[p := Pbuf (next b) (flags b) (ref b) pl
                                (u16 (tot_len b + header_size)) (u16 (len b + header_size))]> (mem s))).

(** ** References and chains *)

Fixpoint clen_loop (fuel : nat) m (p : option Z) (l : Z) : outcome Z :=
  match p with
  | None => Ret l
  | Some p => match fuel with
              | O => Undef
              | S k => b ← load (m !! p); clen_loop k m (next b) (u8 (l + 1))
              end
  end.

Definition pbuf_clen s (p : option Z) : outcome Z :=
  match p with None => Ret 0 | Some _ => clen_loop (chain_fuel (mem s)) (mem s) p 0 end.

Definition pbuf_ref s (p : option Z) : outcome state :=
  match p with
  | None => Ret s
  | Some p => m ← upd (mem s) p (fun b => with_ref (u8 (ref b + 1)) b); Ret (set_mem s m)
  end.

Definition pbuf_chain s h t : outcome state :=
  q ← last_of (chain_fuel (mem s)) (mem s) h;
  m ← upd (mem s) q (with_next (Some t));
  c ← load (m !! t);
  m ← upd m h (fun b => with_tot_len (u16 (tot_len b + tot_len c)) b);
  Ret (set_mem s m).

Definition pbuf_dechain s p : outcome (option Z * state) :=
  b ← load (mem s !! p);
  m ← match next b with
      | None => Ret (mem s)
      | Some q => upd (mem s) q (with_tot_len (u16 (tot_len b - len b)))
      end;
  m ← upd m p (fun b => with_next None (with_tot_len (len b) b));
  Ret (next b, set_mem s m).
End Pbufs.
