(* ===== verification/PbufInv.v ===== *)
(** * The invariant of the packet buffers

    Who owns which structure: the six buffers of the pool are divided between
    the pool, the two caches and the chains that clients hold, and the other
    structures the clients hold are the regions that the heap and the pool
    [MEMP_PBUF] have given out.  Every operation of [Pbuf] keeps it; the
    properties of the file follow.  The allocators are used through the
    interface of [Alloc] only. *)

From S2P Require Import Prelude Memp SysArch Alloc Pbuf.
From stdpp Require Import base gmap list relations.
From Stdlib Require Import ZArith Lia.

Local Open Scope Z_scope.

(** Computing the fields of a state after stores. *)
Ltac fields := cbn [set_mem set_pool set_alloc_cache set_free_cache set_locks set_sem on_stats set_heap set_pbufs
  mem pbuf_pool pbuf_pool_alloc_cache pbuf_pool_free_cache pbuf_pool_alloc_lock pbuf_pool_free_lock
  pbuf_pool_free_sem stats heap pbufs].

(** One more call of the outcome monad. *)
Ltac ret := cbn [load mbind outcome_bind mret outcome_ret].

(** ** Lists of structures *)

(** The structures linked from a pointer. *)
Fixpoint linked (m : gmap Z pbuf) (p : option Z) (l : list Z) : Prop :=
  match l with
  | [] => p = None
  | a :: r => p = Some a /\ exists b, m !! a = Some b /\ linked m (next b) r
  end.

(** The sum of the lengths of a chain. *)
Definition len_at (m : gmap Z pbuf) (p : Z) : Z := from_option len 0 (m !! p).
Definition total (m : gmap Z pbuf) (l : list Z) : Z := foldr (fun p n => len_at m p + n) 0 l.

(** The addresses of the bytes that a chain holds. *)
Definition bytes_at (m : gmap Z pbuf) (p : Z) : list Z :=
  match m !! p with Some b => seqZ (payload b) (len b) | None => [] end.
Definition bytes (m : gmap Z pbuf) (l : list Z) : list Z := concat (bytes_at m <$> l).

Definition agree (m m' : gmap Z pbuf) (l : list Z) : Prop := forall p, p ∈ l -> m' !! p = m !! p.

Lemma linked_agree m m' x l : agree m m' l -> linked m x l -> linked m' x l.
Proof.
  revert x. induction l as [|a r IH]; intros x Ha; cbn; [auto|]. intros (-> & b & Hb & Hr).
  split; [reflexivity|]. exists b. rewrite Ha by constructor. split; [exact Hb|].
  apply IH; [|exact Hr]. intros p Hp. apply Ha. constructor. exact Hp.
Qed.

Lemma agree_insert m p b l : p ∉ l -> agree m (<[p:=b]> m) l.
Proof. intros Hp q Hq. apply lookup_insert_ne. intros ->. contradiction. Qed.

Lemma agree_delete m p l : p ∉ l -> agree m (delete p m) l.
Proof. intros Hp q Hq. apply lookup_delete_ne. intros ->. contradiction. Qed.

Lemma agree_trans m1 m2 m3 l : agree m1 m2 l -> agree m2 m3 l -> agree m1 m3 l.
Proof. intros H1 H2 p Hp. rewrite H2, H1; auto. Qed.

Lemma total_cons m p l : total m (p :: l) = len_at m p + total m l.
Proof. reflexivity. Qed.

(** What a structure says of its bytes and its references. *)
Definition slot (m : gmap Z pbuf) (p : Z) : option (Z * Z * Z) :=
  (fun b => (payload b, len b, ref b)) <$> m !! p.
Definition same_slots (m m' : gmap Z pbuf) (l : list Z) : Prop := forall p, p ∈ l -> slot m' p = slot m p.

Lemma agree_slots m m' l : agree m m' l -> same_slots m m' l.
Proof. intros Ha p Hp. unfold slot. rewrite Ha by exact Hp. reflexivity. Qed.

Lemma same_slots_trans m1 m2 m3 l : same_slots m1 m2 l -> same_slots m2 m3 l -> same_slots m1 m3 l.
Proof. intros H1 H2 p Hp. rewrite H2, H1; auto. Qed.

Lemma slots_update m p b b' l : m !! p = Some b -> (payload b', len b', ref b') = (payload b, len b, ref b) ->
  same_slots m (<[p:=b']> m) l.
Proof.
  intros Hb E q _. unfold slot. destruct (decide (q = p)) as [->|Hne].
  - rewrite lookup_insert_eq, Hb. cbn. rewrite E. reflexivity.
  - rewrite lookup_insert_ne by auto. reflexivity.
Qed.

Lemma len_slot m m' p : slot m' p = slot m p -> len_at m' p = len_at m p.
Proof. unfold slot, len_at. destruct (m' !! p), (m !! p); cbn; congruence. Qed.

Lemma bytes_slot m m' p : slot m' p = slot m p -> bytes_at m' p = bytes_at m p.
Proof. unfold slot, bytes_at. destruct (m' !! p), (m !! p); cbn; congruence. Qed.

Lemma total_slots m m' l : same_slots m m' l -> total m' l = total m l.
Proof.
  induction l as [|a r IH]; intros Ha; [reflexivity|]. rewrite !total_cons.
  rewrite (len_slot m m') by (apply Ha; constructor). rewrite IH; [reflexivity|].
  intros p Hp. apply Ha. constructor. exact Hp.
Qed.

Lemma bytes_slots m m' l : same_slots m m' l -> bytes m' l = bytes m l.
Proof.
  unfold bytes. intros Ha. f_equal. apply list_fmap_ext. intros i p Hp. apply bytes_slot, Ha.
  eapply list_elem_of_lookup_2, Hp.
Qed.

Lemma total_app m l1 l2 : total m (l1 ++ l2) = total m l1 + total m l2.
Proof. induction l1 as [|a r IH]; [reflexivity|]. cbn [app]. rewrite !total_cons, IH. lia. Qed.

Lemma chain_bytes_app m l1 l2 : bytes m (l1 ++ l2) = bytes m l1 ++ bytes m l2.
Proof. unfold bytes. rewrite fmap_app, concat_app. reflexivity. Qed.

Lemma linked_inv m x l : linked m x l -> x = head l.
Proof. destruct l; cbn; [auto|]. intros [-> _]. reflexivity. Qed.

Lemma linked_app m x l1 l2 : linked m x (l1 ++ l2) ->
  exists y, linked m y l2 /\
    (l1 = [] /\ y = x \/ exists l r b, l1 = l ++ [r] /\ m !! r = Some b /\ next b = y).
Proof.
  revert x. induction l1 as [|a l1 IH]; intros x H; [exists x; auto|].
  destruct H as (-> & b & Hb & H). destruct (IH _ H) as (y & Hy & [[-> ->]|(l & r & b' & -> & Hr & E)]).
  - exists (next b). split; [exact Hy|]. right. exists [], a, b. auto.
  - exists y. split; [exact Hy|]. right. exists (a :: l), r, b'. auto.
Qed.

(** The walk to the last element. *)
Lemma last_of_spec m l r p fuel : linked m (Some p) (l ++ [r]) -> (length l <= fuel)%nat ->
  last_of fuel m p = Ret r.
Proof.
  revert p fuel. induction l as [|a l IH]; intros p fuel H Hf.
  - destruct H as (E & b & Hb & Hn). injection E as ->. cbn in Hn.
    destruct fuel; cbn; rewrite Hb; cbn; rewrite Hn; reflexivity.
  - destruct H as (E & b & Hb & H). injection E as ->. cbn in Hf. destruct fuel as [|k]; [lia|].
    cbn. rewrite Hb. cbn. rewrite (linked_inv _ _ _ H).
    destruct l as [|c l]; cbn [head app hd_error].
    + apply IH; [|cbn; lia]. rewrite (linked_inv _ _ _ H) in H. exact H.
    + apply IH; [|lia]. rewrite (linked_inv _ _ _ H) in H. exact H.
Qed.

(** A list of the store has no more elements than the store. *)
Lemma linked_length m x l : linked m x l -> NoDup l -> (length l <= size m)%nat.
Proof.
  intros H Hd.
  assert (Hs : list_to_set l ⊆ dom m).
  { intros p Hp. apply elem_of_list_to_set in Hp. apply elem_of_dom. revert x H Hp. clear Hd.
    induction l as [|a r IH]; intros x H Hp; [set_solver|]. destruct H as (_ & b & Hb & H).
    apply elem_of_cons in Hp as [->|Hp]; [eauto|]. eapply IH; eauto. }
  rewrite <- size_dom, <- (size_list_to_set (C := gset Z) l Hd). apply subseteq_size, Hs.
Qed.

(** A store that keeps the link. *)
Lemma linked_update m p b b' x l : m !! p = Some b -> next b' = next b ->
  linked m x l -> linked (<[p:=b']> m) x l.
Proof.
  intros Hb Hn. revert x. induction l as [|a r IH]; intros x; [auto|]. intros (-> & c & Hc & Hl).
  split; [reflexivity|]. destruct (decide (a = p)) as [->|Hne].
  - rewrite Hb in Hc. injection Hc as <-. exists b'. rewrite lookup_insert_eq, Hn. auto.
  - exists c. rewrite lookup_insert_ne by auto. auto.
Qed.

(** Joining and cutting lists. *)
Lemma linked_join m x l1 r l2 b : linked m x (l1 ++ [r]) -> NoDup (l1 ++ [r] ++ l2) ->
  m !! r = Some b -> linked m (head l2) l2 ->
  linked (<[r := with_next (head l2) b]> m) x (l1 ++ [r] ++ l2).
Proof.
  revert x. induction l1 as [|a l1 IH]; intros x H Hd Hb H2.
  - destruct H as (-> & _). cbn in Hd. apply NoDup_cons in Hd as [Hn _]. cbn [app linked].
    split; [reflexivity|]. exists (with_next (head l2) b). rewrite lookup_insert_eq. split; [reflexivity|].
    eapply linked_agree; [apply agree_insert, Hn|]. exact H2.
  - destruct H as (-> & c & Hc & H). cbn [app] in Hd. apply NoDup_cons in Hd as [Hn Hd].
    cbn [app linked]. split; [reflexivity|]. exists c.
    rewrite lookup_insert_ne by set_solver. split; [exact Hc|]. apply IH; auto.
Qed.

Lemma linked_cut m x l1 r l2 b : linked m x (l1 ++ [r] ++ l2) -> NoDup (l1 ++ [r] ++ l2) -> m !! r = Some b ->
  linked (<[r := with_next None b]> m) x (l1 ++ [r]) /\ next b = head l2 /\
  linked (<[r := with_next None b]> m) (head l2) l2.
Proof.
  revert x. induction l1 as [|a l1 IH]; intros x H Hd Hb.
  - destruct H as (-> & c & Hc & H). rewrite Hb in Hc. injection Hc as <-.
    cbn in Hd. apply NoDup_cons in Hd as [Hn _]. pose proof (linked_inv _ _ _ H) as E.
    split; [|split; [exact E|]].
    + cbn. split; [reflexivity|]. exists (with_next None b). rewrite lookup_insert_eq. auto.
    + rewrite E in H. eapply linked_agree; [apply agree_insert, Hn|exact H].
  - destruct H as (-> & c & Hc & H). cbn [app] in Hd. apply NoDup_cons in Hd as [Hn Hd].
    destruct (IH _ H Hd Hb) as (I1 & I2 & I3). split; [|split; [exact I2|exact I3]].
    cbn [app linked]. split; [reflexivity|]. exists c. rewrite lookup_insert_ne by set_solver. auto.
Qed.

Section Invariant.
Context {H M : Type} `{AH : Allocator H} `{SH : !Shrinking H} `{AM : Allocator M} (pool_memory : Z).

Notation state := (pbuf_state H M).
Implicit Types (s : state) (m : gmap Z pbuf) (p q r : Z) (l lp la lf : list Z) (ends : Z -> Z)
  (oh om : list (Z * Z)).

(** ** The memory of the stack

    The three arrays do not overlap, the pool is aligned, no address wraps,
    and the allocators accept the requests of [pbuf_alloc]. *)

Definition pool_size : Z := Z.of_nat PBUF_POOL_SIZE * (PBUF_POOL_BUFSIZE + SIZEOF_PBUF).

Record layout : Prop := {
  lay_aligned : pool_memory mod 4 = 0;
  lay_pool_heap : pool_memory + pool_size <= a_lo H \/ a_hi H <= pool_memory;
  lay_pool_pbufs : pool_memory + pool_size <= a_lo M \/ a_hi M <= pool_memory;
  lay_heap_pbufs : a_hi H <= a_lo M \/ a_hi M <= a_lo H;
  lay_low : 2 ^ 15 <= pool_memory /\ 2 ^ 15 <= a_lo H /\ 2 ^ 15 <= a_lo M;
  lay_high : pool_memory + pool_size < 2 ^ 31 /\ a_hi H < 2 ^ 31 /\ a_hi M < 2 ^ 31;
  lay_max : 2 ^ 17 <= a_max H /\ SIZEOF_PBUF <= a_max M
}.
Context (L : layout).

(** The buffers of the pool, and the flag that an address determines. *)
Definition pool_bufs : list Z :=
  (fun i => pool_memory + Z.of_nat i * (PBUF_POOL_BUFSIZE + SIZEOF_PBUF)) <$> seq 0 PBUF_POOL_SIZE.

Definition kind p : Z :=
  if (pool_memory <=? p) && (p <? pool_memory + pool_size) then PBUF_FLAG_POOL
  else if (a_lo H <=? p) && (p <? a_hi H) then PBUF_FLAG_RAM
  else PBUF_FLAG_ROM.

Definition of_kind (k : Z) l : list Z := filter (fun p => kind p = k) l.

(** The end of the memory of a structure: [ends] gives that of the regions of
    the allocators. *)
Definition room ends p : Z :=
  if kind p =? PBUF_FLAG_POOL then p + SIZEOF_PBUF + PBUF_POOL_BUFSIZE else ends p.

(** A structure is well formed: its fields have their widths, its flag is the
    one of its address and its bytes lie behind it in its own memory.  The
    bytes of a ROM pbuf are anywhere. *)
Definition buf_ok ends p (b : pbuf) : Prop :=
  flags b = kind p /\ 0 <= ref b < 256 /\ 0 <= len b < 65536 /\ 0 <= tot_len b < 65536 /\
  (kind p <> PBUF_FLAG_ROM -> p + SIZEOF_PBUF <= payload b /\ payload b + len b <= room ends p).

(** The fields of the pool's buffers that are not written when one is taken. *)
Definition wide (b : pbuf) : Prop := 0 <= ref b < 256 /\ 0 <= tot_len b < 65536.
Definition pool_wide m : Prop := forall p, p ∈ pool_bufs -> exists b, m !! p = Some b /\ wide b.

Lemma buf_ok_wide ends p b : buf_ok ends p b -> wide b.
Proof. intros (_ & H1 & _ & H2 & _). split; assumption. Qed.

Lemma pool_wide_insert m p b : wide b -> pool_wide m -> pool_wide (<[p:=b]> m).
Proof.
  intros Hb Hm q Hq. destruct (decide (q = p)) as [->|Hne].
  - exists b. rewrite lookup_insert_eq. auto.
  - rewrite lookup_insert_ne by auto. auto.
Qed.

Lemma pool_wide_next m p b x : m !! p = Some b -> pool_wide m -> pool_wide (<[p:=with_next x b]> m).
Proof.
  intros Hb Hm q Hq. destruct (decide (q = p)) as [->|Hne].
  - destruct (Hm p Hq) as (b' & Hb' & Hw). rewrite Hb in Hb'. injection Hb' as <-.
    exists (with_next x b). rewrite lookup_insert_eq. auto.
  - rewrite lookup_insert_ne by auto. auto.
Qed.

Definition regions_of ends (k : Z) l : list (Z * Z) := (fun p => (p, ends p)) <$> of_kind k l.

(** ** The invariant

    [l] are the structures that clients hold; [lp], [la] and [lf] are the free
    buffers; [oh] and [om] are the regions of the allocators held by others. *)
Record flat oh om ends s lp la lf l : Prop := {
  fl_pool : linked (mem s) (pbuf_pool s) lp;
  fl_alloc : linked (mem s) (pbuf_pool_alloc_cache s) la;
  fl_free : linked (mem s) (pbuf_pool_free_cache s) lf;
  fl_bufs : forall p, p ∈ l -> exists b, mem s !! p = Some b /\ buf_ok ends p b;
  fl_part : lp ++ la ++ lf ++ of_kind PBUF_FLAG_POOL l ≡ₚ pool_bufs;
  fl_nodup : NoDup (lp ++ la ++ lf ++ l);
  fl_heap : a_live (heap s) (regions_of ends PBUF_FLAG_RAM l ++ oh);
  fl_pbufs : a_live (pbufs s) (regions_of ends PBUF_FLAG_ROM l ++ om);
  fl_used : st_used (stats s) = Z.of_nat (length (of_kind PBUF_FLAG_POOL l));
  fl_sem : pbuf_pool_free_sem s = 1;
  fl_locks : pbuf_pool_alloc_lock s = 0 /\ pbuf_pool_free_lock s = 0;
  fl_wide : pool_wide (mem s)
}.

(** The structures form the chains [cs]. *)
Definition chained m (cs : list (list Z)) : Prop := Forall (fun c => linked m (head c) c) cs.

Definition core oh om ends s lp la lf (cs : list (list Z)) : Prop :=
  flat oh om ends s lp la lf (concat cs) /\ chained (mem s) cs.

(** ** Addresses *)

Lemma pool_bufs_kind p : p ∈ pool_bufs -> kind p = PBUF_FLAG_POOL.
Proof.
  intros Hp. apply list_elem_of_fmap in Hp as (i & -> & Hi). apply elem_of_seq in Hi.
  unfold kind, pool_size, PBUF_POOL_SIZE, PBUF_POOL_BUFSIZE, SIZEOF_PBUF in *.
  destruct (Z.leb_spec pool_memory (pool_memory + Z.of_nat i * (128 + 16))); [|lia].
  destruct (Z.ltb_spec (pool_memory + Z.of_nat i * (128 + 16)) (pool_memory + Z.of_nat 6 * (128 + 16))); [reflexivity|lia].
Qed.

Lemma kind_cases p : kind p = PBUF_FLAG_POOL \/ kind p = PBUF_FLAG_RAM \/ kind p = PBUF_FLAG_ROM.
Proof. unfold kind. destruct (_ && _); [|destruct (_ && _)]; auto. Qed.

Lemma kind_ram p : kind p <> PBUF_FLAG_POOL -> kind p <> PBUF_FLAG_ROM -> kind p = PBUF_FLAG_RAM.
Proof. pose proof (kind_cases p). tauto. Qed.

Lemma pool_bufs_aligned p : p ∈ pool_bufs -> p mod 4 = 0.
Proof.
  intros Hp. apply list_elem_of_fmap in Hp as (i & -> & _). pose proof (lay_aligned L).
  unfold PBUF_POOL_BUFSIZE, SIZEOF_PBUF. divmod.
Qed.

Lemma pool_bufs_nodup : NoDup pool_bufs.
Proof.
  apply NoDup_fmap_2; [|apply NoDup_seq]. intros i j E. unfold PBUF_POOL_BUFSIZE, SIZEOF_PBUF in E. lia.
Qed.

Lemma pool_bufs_length : length pool_bufs = PBUF_POOL_SIZE.
Proof. reflexivity. Qed.

Lemma heap_kind (h : H) rs p e : a_live h rs -> (p, e) ∈ rs -> kind p = PBUF_FLAG_RAM.
Proof.
  intros Hl Hp. destruct (a_range _ _ _ _ Hl Hp) as (H1 & H2 & H3).
  pose proof (lay_pool_heap L). unfold kind. repeat case_bool; cbn; try reflexivity; lia.
Qed.

Lemma pbufs_kind (x : M) rs p e : a_live x rs -> (p, e) ∈ rs -> kind p = PBUF_FLAG_ROM.
Proof.
  intros Hl Hp. destruct (a_range _ _ _ _ Hl Hp) as (H1 & H2 & H3).
  pose proof (lay_pool_pbufs L). pose proof (lay_heap_pbufs L).
  unfold kind. repeat case_bool; cbn; try reflexivity; lia.
Qed.

Lemma of_kind_app k l1 l2 : of_kind k (l1 ++ l2) = of_kind k l1 ++ of_kind k l2.
Proof. apply filter_app. Qed.

Lemma of_kind_yes k p l : kind p = k -> of_kind k (p :: l) = p :: of_kind k l.
Proof. intros E. apply filter_cons_True, E. Qed.

Lemma of_kind_no k p l : kind p <> k -> of_kind k (p :: l) = of_kind k l.
Proof. intros E. apply filter_cons_False, E. Qed.

#[local] Instance of_kind_perm k : Proper (Permutation ==> Permutation) (of_kind k).
Proof. intros l l' P. unfold of_kind. rewrite P. reflexivity. Qed.

#[local] Instance regions_of_perm ends k : Proper (Permutation ==> Permutation) (regions_of ends k).
Proof. intros l l' P. unfold regions_of. rewrite P. reflexivity. Qed.

Lemma regions_of_ext ends ends' k l : (forall p, p ∈ l -> ends' p = ends p) ->
  regions_of ends' k l = regions_of ends k l.
Proof.
  intros E. apply list_fmap_ext. intros i p Hp. rewrite E; [reflexivity|].
  apply list_elem_of_lookup_2, list_elem_of_filter in Hp. tauto.
Qed.

(** ** Changes of one structure *)

Section Steps.
Context (oh om : list (Z * Z)).
Implicit Types (cs : list (list Z)).

Notation Flat := (flat oh om).
Notation Core := (core oh om).

Lemma flat_perm ends s lp la lf l l' : l ≡ₚ l' -> Flat ends s lp la lf l -> Flat ends s lp la lf l'.
Proof.
  intros P []. constructor; auto.
  - intros p Hp. apply fl_bufs0. rewrite P. exact Hp.
  - rewrite <- P. assumption.
  - rewrite <- P. assumption.
  - rewrite <- P. assumption.
  - rewrite <- P. assumption.
  - rewrite fl_used0. f_equal. apply Permutation_length. rewrite P. reflexivity.
Qed.

(** The free buffers are not held. *)
Lemma flat_apart ends s lp la lf l p : Flat ends s lp la lf l -> p ∈ l -> p ∉ lp /\ p ∉ la /\ p ∉ lf.
Proof.
  intros F Hp. pose proof (fl_nodup _ _ _ _ _ _ _ _ F) as Hd.
  rewrite !NoDup_app in Hd. set_solver.
Qed.

(** Any store into a held structure that leaves it well formed. *)
Lemma flat_update ends s lp la lf l p b :
  Flat ends s lp la lf l -> p ∈ l -> buf_ok ends p b ->
  Flat ends (set_mem s (<[p:=b]> (mem s))) lp la lf l.
Proof.
  intros F Hp Hb. destruct (flat_apart _ _ _ _ _ _ _ F Hp) as (N1 & N2 & N3).
  destruct F. constructor; auto; cbn [mem set_mem pbuf_pool pbuf_pool_alloc_cache pbuf_pool_free_cache].
  - eapply linked_agree; [apply agree_insert, N1|assumption].
  - eapply linked_agree; [apply agree_insert, N2|assumption].
  - eapply linked_agree; [apply agree_insert, N3|assumption].
  - intros q Hq. destruct (decide (q = p)) as [->|Hne].
    + exists b. rewrite lookup_insert_eq. auto.
    + rewrite lookup_insert_ne by auto. auto.
  - eapply pool_wide_insert; [eapply buf_ok_wide, Hb|assumption].
Qed.

Lemma flat_load ends s lp la lf l p : Flat ends s lp la lf l -> p ∈ l ->
  exists b, mem s !! p = Some b /\ buf_ok ends p b.
Proof. intros F. apply (fl_bufs _ _ _ _ _ _ _ _ F). Qed.

Lemma flat_nodup ends s lp la lf l : Flat ends s lp la lf l -> NoDup l.
Proof. intros F. pose proof (fl_nodup _ _ _ _ _ _ _ _ F) as Hd. rewrite !NoDup_app in Hd. tauto. Qed.

Lemma chained_agree m m' cs : agree m m' (concat cs) -> chained m cs -> chained m' cs.
Proof.
  unfold chained. induction cs as [|c cs IH]; intros Ha Hc; [constructor|].
  apply Forall_cons in Hc as [Hc1 Hc]. cbn in Ha. constructor.
  - eapply linked_agree; [|exact Hc1]. intros p Hp. apply Ha, elem_of_app. auto.
  - apply IH; [|exact Hc]. intros p Hp. apply Ha, elem_of_app. auto.
Qed.

Lemma nodup_cons_app l1 r l2 l3 : NoDup ((l1 ++ r :: l2) ++ l3) -> r ∉ l3.
Proof. rewrite !NoDup_app, NoDup_cons. set_solver. Qed.

(** Chaining two fragments through the last structure of the first. *)
Lemma core_join ends s lp la lf c1 r b q c2 cs :
  Core ends s lp la lf ((c1 ++ [r]) :: (q :: c2) :: cs) -> mem s !! r = Some b ->
  Core ends (set_mem s (<[r := with_next (Some q) b]> (mem s))) lp la lf ((c1 ++ [r] ++ q :: c2) :: cs).
Proof.
  intros [F C] Hr. unfold chained in C. rewrite !Forall_cons in C. destruct C as (C1 & C2 & C).
  assert (Ec : concat ((c1 ++ [r]) :: (q :: c2) :: cs) = concat ((c1 ++ [r] ++ q :: c2) :: cs)).
  { cbn [concat]. rewrite !app_assoc. reflexivity. }
  rewrite Ec in F. pose proof (flat_nodup _ _ _ _ _ _ F) as Hd. cbn [concat] in Hd.
  assert (Hin : r ∈ concat ((c1 ++ [r] ++ q :: c2) :: cs)) by (cbn [concat]; set_solver).
  split.
  - apply flat_update; [exact F|exact Hin|].
    destruct (flat_load _ _ _ _ _ _ _ F Hin) as (b' & Hb' & Hok). rewrite Hr in Hb'. injection Hb' as <-. exact Hok.
  - cbn [mem set_mem]. constructor.
    + replace (head (c1 ++ [r] ++ q :: c2)) with (head (c1 ++ [r])) by (destruct c1; reflexivity).
      apply (linked_join _ _ c1 r (q :: c2)); auto. apply NoDup_app in Hd. tauto.
    + eapply chained_agree; [|exact C]. apply agree_insert. eapply nodup_cons_app, Hd.
Qed.

(** Cutting a fragment behind one of its structures. *)
Lemma core_cut ends s lp la lf c1 r b c2 cs b' :
  Core ends s lp la lf ((c1 ++ [r] ++ c2) :: cs) -> mem s !! r = Some b ->
  next b' = None -> buf_ok ends r b' ->
  Core ends (set_mem s (<[r := b']> (mem s))) lp la lf ((c1 ++ [r]) :: c2 :: cs) /\ next b = head c2.
Proof.
  intros [F C] Hr Hn Hok. unfold chained in C. rewrite !Forall_cons in C. destruct C as (C1 & C).
  assert (Ec : concat ((c1 ++ [r] ++ c2) :: cs) = concat ((c1 ++ [r]) :: c2 :: cs)).
  { cbn [concat]. rewrite !app_assoc. reflexivity. }
  pose proof (flat_nodup _ _ _ _ _ _ F) as Hd. cbn [concat] in Hd.
  pose proof (nodup_cons_app _ _ _ _ Hd) as Hno. apply NoDup_app in Hd as (Hd & _ & _).
  destruct (linked_cut _ _ _ _ _ _ C1 Hd Hr) as (I1 & I2 & I3). split; [|exact I2].
  assert (Hsame : forall x l, linked (<[r := with_next None b]> (mem s)) x l -> linked (<[r := b']> (mem s)) x l).
  { intros x l Hl. rewrite <- (insert_insert_eq (mem s) r b' (with_next None b)).
    eapply linked_update; [apply lookup_insert_eq|exact Hn|exact Hl]. }
  split.
  - rewrite <- Ec. apply flat_update; [exact F| |exact Hok]. cbn [concat]. set_solver.
  - cbn [mem set_mem]. constructor; [|constructor].
    + replace (head (c1 ++ [r])) with (head (c1 ++ [r] ++ c2)) by (destruct c1; reflexivity). auto.
    + auto.
    + eapply chained_agree; [|exact C]. apply agree_insert, Hno.
Qed.

Lemma core_swap ends s lp la lf c1 c2 cs : Core ends s lp la lf (c1 :: c2 :: cs) -> Core ends s lp la lf (c2 :: c1 :: cs).
Proof.
  intros [F C]. split.
  - eapply flat_perm; [|exact F]. cbn [concat]. rewrite app_assoc, (app_assoc c2).
    apply Permutation_app_tail, Permutation_app_comm.
  - unfold chained in *. rewrite !Forall_cons in *. tauto.
Qed.

(** A store that keeps the links. *)
Lemma core_update ends s lp la lf cs p b b' :
  Core ends s lp la lf cs -> p ∈ concat cs -> mem s !! p = Some b -> next b' = next b -> buf_ok ends p b' ->
  Core ends (set_mem s (<[p := b']> (mem s))) lp la lf cs.
Proof.
  intros [F C] Hp Hb Hn Hok. split; [apply flat_update; auto|]. cbn [mem set_mem].
  eapply Forall_impl; [exact C|]. intros c Hc. eapply linked_update; eauto.
Qed.

(** ** Moving buffers in and out of the pool *)

(** Holding one more buffer of the pool. *)
Lemma core_gain ends s s' lp la lf lp' la' cs a b :
  Core ends s lp la lf cs -> lp ++ la ≡ₚ a :: lp' ++ la' ->
  mem s' = mem s -> linked (mem s) (pbuf_pool s') lp' -> linked (mem s) (pbuf_pool_alloc_cache s') la' ->
  pbuf_pool_free_cache s' = pbuf_pool_free_cache s -> heap s' = heap s -> pbufs s' = pbufs s ->
  pbuf_pool_free_sem s' = 1 -> pbuf_pool_alloc_lock s' = 0 -> pbuf_pool_free_lock s' = 0 ->
  st_used (stats s') = u16 (st_used (stats s) + 1) ->
  next b = None -> buf_ok ends a b ->
  Core ends (set_mem s' (<[a := b]> (mem s'))) lp' la' lf ([a] :: cs).
Proof.
  intros [F C] P Em Hp Ha Ef Eh Ex Es El1 El2 Eu Hn Hok.
  pose proof (fl_part _ _ _ _ _ _ _ _ F) as Q. pose proof (fl_nodup _ _ _ _ _ _ _ _ F) as Hd.
  assert (Hd' : NoDup (a :: lp' ++ la' ++ lf ++ concat cs)).
  { rewrite (app_assoc lp'), app_comm_cons, <- P, <- app_assoc. exact Hd. }
  rewrite (app_assoc lp), P in Q. cbn [app] in Q. rewrite <- !app_assoc in Q.
  apply NoDup_cons in Hd' as Hd2. destruct Hd2 as [Hna Hd2].
  assert (Hk : kind a = PBUF_FLAG_POOL) by (apply pool_bufs_kind; rewrite <- Q; constructor).
  rewrite !not_elem_of_app in Hna. destruct Hna as (N1 & N2 & N3 & N4).
  split; [|].
  - destruct F. constructor; auto; cbn [set_mem mem pbuf_pool pbuf_pool_alloc_cache pbuf_pool_free_cache heap pbufs stats].
    + rewrite Em. eapply linked_agree; [apply agree_insert, N1|exact Hp].
    + rewrite Em. eapply linked_agree; [apply agree_insert, N2|exact Ha].
    + rewrite Em, Ef. eapply linked_agree; [apply agree_insert, N3|assumption].
    + cbn [concat app]. intros p Hin. apply elem_of_cons in Hin as [->|Hin].
      * exists b. rewrite lookup_insert_eq. auto.
      * rewrite Em, lookup_insert_ne by (intros ->; contradiction). auto.
    + cbn [concat app]. rewrite of_kind_yes by exact Hk. rewrite <- Q.
      rewrite <- !Permutation_middle. reflexivity.
    + cbn [concat app]. rewrite <- !Permutation_middle. exact Hd'.
    + rewrite Eh. cbn [concat app]. unfold regions_of in *. rewrite of_kind_no by (rewrite Hk; discriminate). assumption.
    + rewrite Ex. cbn [concat app]. unfold regions_of in *. rewrite of_kind_no by (rewrite Hk; discriminate). assumption.
    + cbn [concat app]. rewrite of_kind_yes by exact Hk. rewrite Eu, fl_used0. cbn [length].
      assert (Hlen : (length (of_kind PBUF_FLAG_POOL (concat cs)) <= 6)%nat).
      { apply Permutation_length in Q. rewrite pool_bufs_length in Q. cbn in Q. rewrite !length_app in Q.
        unfold PBUF_POOL_SIZE in Q. lia. }
      rewrite u16_small by lia. lia.
    + rewrite Em. eapply pool_wide_insert; [eapply buf_ok_wide, Hok|assumption].
  - constructor.
    + cbn. split; [reflexivity|]. exists b. rewrite lookup_insert_eq. auto.
    + cbn [mem set_mem]. rewrite Em. eapply chained_agree; [apply agree_insert, N4|exact C].
Qed.

Lemma pool_alloc_spec ends s lp la lf cs : Core ends s lp la lf cs ->
  match la ++ lp with
  | [] => exists s', pbuf_pool_alloc s = Ret (None, s') /\ Core ends s' lp la lf cs /\ mem s' = mem s
  | a :: rest => exists s' lp' la', pbuf_pool_alloc s = Ret (Some a, s') /\ la' ++ lp' = rest /\
      mem s' = mem s /\ is_Some (mem s !! a) /\ a ∈ pool_bufs /\ a ∉ concat cs /\
      forall b, next b = None -> buf_ok ends a b ->
        Core ends (set_mem s' (<[a := b]> (mem s'))) lp' la' lf ([a] :: cs)
  end.
Proof.
  intros I. destruct I as [F C] eqn:EI. pose proof (fl_alloc _ _ _ _ _ _ _ _ F) as Ha.
  pose proof (fl_pool _ _ _ _ _ _ _ _ F) as Hp. destruct (fl_locks _ _ _ _ _ _ _ _ F) as [L1 L2].
  pose proof (fl_part _ _ _ _ _ _ _ _ F) as Q. pose proof (fl_nodup _ _ _ _ _ _ _ _ F) as Hd.
  pose proof (fl_sem _ _ _ _ _ _ _ _ F) as Hsem. clear EI.
  assert (Hno : forall x, x ∈ lp ++ la -> x ∈ pool_bufs /\ x ∉ concat cs).
  { intros x Hx. split; [rewrite <- Q; set_solver|]. rewrite !NoDup_app in Hd. set_solver. }
  unfold pbuf_pool_alloc. destruct la as [|a la]; [destruct lp as [|a lp]|]; cbn [app].
  - rewrite Ha, L2. unfold pool_take. cbn [truthy Z.eqb negb set_locks pbuf_pool_free_lock pbuf_pool].
    rewrite Hp. cbn [mbind outcome_bind]. rewrite decide_True by reflexivity.
    eexists. split; [reflexivity|]. cbn [set_locks pbuf_pool_alloc_lock pbuf_pool_free_lock mem]. rewrite L1.
    split; [|reflexivity]. split; [|exact C]. destruct F. constructor; auto.
  - destruct Hp as (Hp & b & Hb & Hl). rewrite Ha, L2. unfold pool_take.
    cbn [truthy Z.eqb negb set_locks pbuf_pool_free_lock pbuf_pool mem]. rewrite Hp, Hb.
    cbn [load mbind outcome_bind]. rewrite decide_False by discriminate.
    eexists _, lp, []. split; [reflexivity|]. split; [reflexivity|]. split; [reflexivity|].
    split; [eauto|]. destruct (Hno a) as [H1 H2]; [set_solver|]. split; [exact H1|]. split; [exact H2|].
    intros b' Hn Hok. eapply core_gain; eauto; try reflexivity. rewrite L1. reflexivity.
  - destruct Ha as (Ha & b & Hb & Hl). rewrite Ha, Hb. cbn [load mbind outcome_bind].
    rewrite decide_False by discriminate.
    eexists _, lp, la. split; [reflexivity|]. split; [reflexivity|]. split; [reflexivity|].
    split; [eauto|]. destruct (Hno a) as [H1 H2]; [set_solver|]. split; [exact H1|]. split; [exact H2|].
    intros b' Hn Hok. eapply core_gain; eauto; try reflexivity. symmetry. apply Permutation_middle.
Qed.

Lemma chained_cons m p c cs : chained m ((p :: c) :: cs) ->
  exists b, m !! p = Some b /\ next b = head c /\ chained m (c :: cs).
Proof.
  unfold chained. rewrite !Forall_cons. intros [(_ & b & Hb & Hc) Hr]. exists b.
  pose proof (linked_inv _ _ _ Hc) as E. rewrite E in Hc. auto.
Qed.

(** The first structure of a fragment goes back to the pool. *)
Lemma core_put ends s lp la lf p c cs : Core ends s lp la lf ((p :: c) :: cs) -> kind p = PBUF_FLAG_POOL ->
  exists s', PBUF_POOL_FREE s p = Ret s' /\ Core ends (on_stats uncount_used s') lp la (p :: lf) (c :: cs) /\
    agree (mem s) (mem s') (concat (c :: cs)).
Proof.
  intros [F C] Hk. destruct (chained_cons _ _ _ _ C) as (b & Hb & _ & C').
  pose proof (flat_apart _ _ _ _ _ _ p F ltac:(set_solver)) as (N1 & N2 & N3).
  pose proof (flat_nodup _ _ _ _ _ _ F) as Hd. cbn [concat app] in Hd. apply NoDup_cons in Hd as [N4 _].
  change (c ++ concat cs) with (concat (c :: cs)) in N4.
  unfold PBUF_POOL_FREE. rewrite (fl_sem _ _ _ _ _ _ _ _ F). cbn [sys_sem_wait Z.leb Z.compare mbind outcome_bind].
  unfold upd. rewrite Hb. cbn [load mbind outcome_bind mret outcome_ret]. eexists. split; [reflexivity|].
  cbn [mem set_sem set_free_cache set_mem on_stats]. split; [|apply agree_insert, N4].
  split; [|eapply chained_agree; [apply agree_insert, N4|exact C']].
  destruct F. cbn [concat app] in *. rewrite of_kind_yes in fl_part0, fl_used0 by exact Hk.
  unfold regions_of in fl_heap0, fl_pbufs0. rewrite of_kind_no in fl_heap0, fl_pbufs0 by (rewrite Hk; discriminate).
  constructor; auto; cbn [mem on_stats set_sem set_free_cache set_mem pbuf_pool pbuf_pool_alloc_cache
    pbuf_pool_free_cache stats].
  - eapply linked_agree; [apply agree_insert, N1|assumption].
  - eapply linked_agree; [apply agree_insert, N2|assumption].
  - cbn. split; [reflexivity|]. eexists. rewrite lookup_insert_eq. split; [reflexivity|].
    eapply linked_agree; [apply agree_insert, N3|assumption].
  - intros q Hq. rewrite lookup_insert_ne; [|intros ->; contradiction]. apply fl_bufs0. constructor. exact Hq.
  - rewrite <- fl_part0. cbn [app]. do 2 apply Permutation_app_head. apply Permutation_middle.
  - cbn [app]. rewrite Permutation_middle. exact fl_nodup0.
  - cbn [uncount_used st_used]. rewrite fl_used0. cbn [length]. rewrite u16_small; [lia|].
    apply Permutation_length in fl_part0. rewrite pool_bufs_length, !length_app in fl_part0. cbn [length] in fl_part0.
    unfold PBUF_POOL_SIZE in fl_part0. lia.
  - apply pool_wide_next; assumption.
Qed.

(** The first structure of a fragment goes back to its allocator. *)
Lemma core_drop ends s h x lp la lf p c cs : Core ends s lp la lf ((p :: c) :: cs) ->
  kind p <> PBUF_FLAG_POOL ->
  a_live h (regions_of ends PBUF_FLAG_RAM (concat (c :: cs)) ++ oh) ->
  a_live x (regions_of ends PBUF_FLAG_ROM (concat (c :: cs)) ++ om) ->
  Core ends (set_mem (set_heap (set_pbufs s x) h) (delete p (mem s))) lp la lf (c :: cs) /\
  agree (mem s) (delete p (mem s)) (concat (c :: cs)).
Proof.
  intros [F C] Hk Hh Hx. destruct (chained_cons _ _ _ _ C) as (b & Hb & _ & C').
  pose proof (flat_apart _ _ _ _ _ _ p F ltac:(set_solver)) as (N1 & N2 & N3).
  pose proof (flat_nodup _ _ _ _ _ _ F) as Hd. cbn [concat app] in Hd. apply NoDup_cons in Hd as [N4 _].
  change (c ++ concat cs) with (concat (c :: cs)) in N4.
  destruct F. cbn [concat app] in *. rewrite of_kind_no in fl_part0, fl_used0 by exact Hk.
  split; [|apply agree_delete, N4].
  split; [|eapply chained_agree; [apply agree_delete, N4|exact C']].
  constructor; auto; cbn [mem set_heap set_pbufs set_mem pbuf_pool pbuf_pool_alloc_cache pbuf_pool_free_cache].
  - eapply linked_agree; [apply agree_delete, N1|assumption].
  - eapply linked_agree; [apply agree_delete, N2|assumption].
  - eapply linked_agree; [apply agree_delete, N3|assumption].
  - intros q Hq. rewrite lookup_delete_ne; [|intros ->; contradiction]. apply fl_bufs0. constructor. exact Hq.
  - eapply sublist_NoDup; [exact fl_nodup0|]. do 3 (apply sublist_app; [reflexivity|]). constructor. reflexivity.
  - intros q Hq. rewrite lookup_delete_ne; [auto|]. intros <-. apply Hk, pool_bufs_kind, Hq.
Qed.

Lemma core_free_ram ends s lp la lf p c cs : Core ends s lp la lf ((p :: c) :: cs) -> kind p = PBUF_FLAG_RAM ->
  exists h, a_free (heap s) p = Ret h /\
    Core ends (set_mem (set_heap s h) (delete p (mem s))) lp la lf (c :: cs) /\
    agree (mem s) (delete p (mem s)) (concat (c :: cs)).
Proof.
  intros I Hk. pose proof (fl_heap _ _ _ _ _ _ _ _ (proj1 I)) as Hh. pose proof (fl_pbufs _ _ _ _ _ _ _ _ (proj1 I)) as Hx.
  cbn [concat app] in Hh, Hx. unfold regions_of in Hh, Hx. rewrite of_kind_yes in Hh by exact Hk.
  rewrite of_kind_no in Hx by (rewrite Hk; discriminate).
  destruct (a_free_ok _ _ _ _ Hh) as (h & Eh & Hl). exists h. split; [exact Eh|].
  destruct s. apply (core_drop _ _ h _ _ _ _ _ _ _ I); [rewrite Hk; discriminate|exact Hl|exact Hx].
Qed.

Lemma core_free_rom ends s lp la lf p c cs : Core ends s lp la lf ((p :: c) :: cs) -> kind p = PBUF_FLAG_ROM ->
  exists x, a_free (pbufs s) p = Ret x /\
    Core ends (set_mem (set_pbufs s x) (delete p (mem s))) lp la lf (c :: cs) /\
    agree (mem s) (delete p (mem s)) (concat (c :: cs)).
Proof.
  intros I Hk. pose proof (fl_heap _ _ _ _ _ _ _ _ (proj1 I)) as Hh. pose proof (fl_pbufs _ _ _ _ _ _ _ _ (proj1 I)) as Hx.
  cbn [concat app] in Hh, Hx. unfold regions_of in Hh, Hx. rewrite of_kind_yes in Hx by exact Hk.
  rewrite of_kind_no in Hh by (rewrite Hk; discriminate).
  destruct (a_free_ok _ _ _ _ Hx) as (x & Ex & Hl). exists x. split; [exact Ex|].
  destruct s. apply (core_drop _ _ _ x _ _ _ _ _ _ I); [rewrite Hk; discriminate|exact Hh|exact Hl].
Qed.

(** The loops run over at most all structures. *)
Lemma chain_fuel_enough m x c : linked m x c -> NoDup c -> (length c < chain_fuel m)%nat.
Proof. intros Hc Hd. unfold chain_fuel. pose proof (linked_length _ _ _ Hc Hd). lia. Qed.

Lemma core_nodup ends s lp la lf cs : Core ends s lp la lf cs -> NoDup (concat cs).
Proof. intros [F _]. eapply flat_nodup, F. Qed.

(** Appending the list [l2] behind the free list [l1 ++ [r]] that starts at [p]. *)
Lemma append_spec m p x l1 r l2 :
  linked m (Some p) (l1 ++ [r]) -> linked m x l2 -> NoDup (l1 ++ [r] ++ l2) ->
  exists b, last_of (chain_fuel m) m p = Ret r /\ m !! r = Some b /\
    linked (<[r := with_next x b]> m) (Some p) (l1 ++ [r] ++ l2).
Proof.
  intros H1 H2 Hd.
  assert (Hr : exists b, m !! r = Some b).
  { apply linked_app in H1 as (y & (_ & b & Hb & _) & _). eauto. }
  destruct Hr as [b Hb]. exists b. split; [|split; [exact Hb|]].
  - apply last_of_spec with (l := l1); [exact H1|]. assert (Hd1 : NoDup (l1 ++ [r])).
    { rewrite app_assoc in Hd. apply NoDup_app in Hd. tauto. }
    pose proof (chain_fuel_enough _ _ _ H1 Hd1) as Hf. rewrite length_app in Hf. cbn in Hf. lia.
  - pose proof (linked_inv _ _ _ H2) as E. subst x. apply linked_join; auto.
Qed.

Lemma split_last {A : Type} (a : A) (xs : list A) : exists (ys : list A) (z : A), a :: xs = ys ++ [z].
Proof. destruct (exists_last (l := a :: xs)) as (ys & z & E); [discriminate|]. eauto. Qed.

(** [pbuf_refresh] moves the free cache behind the pool. *)
Lemma refresh_spec ends s lp la lf cs : Core ends s lp la lf cs ->
  exists s', pbuf_refresh s = Ret s' /\ Core ends s' (lp ++ lf) la [] cs /\ agree (mem s) (mem s') (concat cs).
Proof.
  intros [F C]. unfold pbuf_refresh. rewrite (fl_sem _ _ _ _ _ _ _ _ F).
  cbn [sys_sem_wait Z.leb Z.compare]. ret. fields.
  pose proof (fl_free _ _ _ _ _ _ _ _ F) as Hf. pose proof (fl_pool _ _ _ _ _ _ _ _ F) as Hp.
  pose proof (fl_nodup _ _ _ _ _ _ _ _ F) as Hd. destruct (fl_locks _ _ _ _ _ _ _ _ F) as [L1 L2].
  destruct lf as [|f lf].
  { cbn in Hf. rewrite Hf. cbn [mbind outcome_bind]. eexists. split; [reflexivity|]. rewrite app_nil_r.
    split; [|intros ? ?; reflexivity]. split; [|exact C]. destruct F. constructor; auto. }
  pose proof (linked_inv _ _ _ Hf) as Ef. cbn in Ef. rewrite Ef. fields.
  rewrite L1. cbn [truthy Z.eqb negb].
  assert (Hnd : NoDup (lp ++ f :: lf)) by (rewrite !NoDup_app in *; set_solver).
  assert (Hpart : (lp ++ f :: lf) ++ la ++ of_kind PBUF_FLAG_POOL (concat cs) ≡ₚ pool_bufs).
  { rewrite <- (fl_part _ _ _ _ _ _ _ _ F). rewrite <- !app_assoc. apply Permutation_app_head.
    rewrite !app_assoc. apply Permutation_app_tail. apply Permutation_app_comm. }
  assert (Hnd2 : NoDup ((lp ++ f :: lf) ++ la ++ concat cs)).
  { rewrite <- app_assoc. rewrite (app_assoc (f :: lf)). rewrite (Permutation_app_comm (f :: lf) la), <- app_assoc.
    exact Hd. }
  destruct lp as [|p lp].
  - cbn in Hp. rewrite Hp. cbn [mbind outcome_bind]. eexists. split; [reflexivity|].
    split; [|intros ? ?; reflexivity]. split; [|exact C].
    destruct F. constructor; auto; fields.
    + rewrite <- Ef. exact Hf.
    + reflexivity.
    + rewrite L2. auto.
  - destruct (split_last p lp) as (l1 & r & El). rewrite El in *.
    pose proof (linked_inv _ _ _ Hp) as Ep. rewrite <- El in Ep. cbn in Ep. rewrite Ep in *.
    rewrite <- app_assoc in Hnd.
    destruct (append_spec (mem s) p _ l1 r (f :: lf) Hp Hf Hnd) as (b & E1 & Hb & Hl).
    rewrite E1. ret. unfold upd. fields.
    rewrite Hb. ret. eexists. split; [reflexivity|].
    fields.
    assert (Nr : r ∉ la /\ r ∉ concat cs).
    { rewrite !NoDup_app in Hd. set_solver. }
    split; [|rewrite <- Ef; apply agree_insert; tauto].
    split; [|rewrite <- Ef; eapply chained_agree; [apply agree_insert|exact C]; tauto].
    rewrite Ef in Hl. destruct F. constructor; auto; fields.
    + rewrite Ep, <- app_assoc. exact Hl.
    + eapply linked_agree; [apply agree_insert|exact fl_alloc0]. tauto.
    + reflexivity.
    + intros q Hq. rewrite lookup_insert_ne; [auto|]. intros ->. tauto.
    + rewrite L2. auto.
    + apply pool_wide_next; assumption.
Qed.

(** [pbuf_pool_free]: a chain whose allocation failed goes to the allocation cache. *)
Lemma uncount_chain_spec m c x st n : linked m x c -> (length c <= n)%nat ->
  Z.of_nat (length c) <= st_used st < 65536 ->
  exists st', uncount_chain n m x st = Ret st' /\ st_used st' = st_used st - Z.of_nat (length c).
Proof.
  revert x st n. induction c as [|p c IH]; intros x st n Hc Hn Hu.
  - cbn in Hc. subst x. exists st. split; [destruct n; reflexivity|cbn; lia].
  - destruct Hc as (-> & b & Hb & Hc). cbn [length] in *. destruct n as [|n]; [lia|].
    cbn [uncount_chain]. rewrite Hb. ret.
    destruct (IH (next b) (uncount_used st) n Hc) as (st' & E & Hst); [lia| |].
    + cbn [uncount_used st_used]. rewrite u16_small by lia. lia.
    + exists st'. split; [exact E|]. rewrite Hst. cbn [uncount_used st_used]. rewrite u16_small by lia. lia.
Qed.

Lemma of_kind_all k c : (forall q, q ∈ c -> kind q = k) -> of_kind k c = c.
Proof.
  induction c as [|a c IH]; intros Hk; [reflexivity|]. rewrite of_kind_yes by (apply Hk; constructor).
  rewrite IH; [reflexivity|]. intros q Hq. apply Hk. constructor. exact Hq.
Qed.

Lemma of_kind_none k c : (forall q, q ∈ c -> kind q <> k) -> of_kind k c = [].
Proof.
  induction c as [|a c IH]; intros Hk; [reflexivity|]. rewrite of_kind_no by (apply Hk; constructor).
  apply IH. intros q Hq. apply Hk. constructor. exact Hq.
Qed.

Lemma pool_free_spec ends s lp la lf p c cs : Core ends s lp la lf ((p :: c) :: cs) ->
  (forall q, q ∈ p :: c -> kind q = PBUF_FLAG_POOL) ->
  exists s', pbuf_pool_free s p = Ret s' /\ Core ends s' lp (la ++ p :: c) lf cs /\
    agree (mem s) (mem s') (concat cs).
Proof.
  intros [F C] Hk. apply Forall_cons in C as [Cp C]. pose proof (flat_nodup _ _ _ _ _ _ F) as Hd.
  cbn [concat] in Hd. apply NoDup_app in Hd as (Hd1 & Hd2 & _). cbn [head] in Cp.
  pose proof (fl_part _ _ _ _ _ _ _ _ F) as Q. cbn [concat] in Q. rewrite of_kind_app, of_kind_all in Q by exact Hk.
  pose proof (fl_used _ _ _ _ _ _ _ _ F) as U. cbn [concat] in U.
  rewrite of_kind_app, of_kind_all, length_app in U by exact Hk.
  assert (Hlen : (length (p :: c) + length (of_kind PBUF_FLAG_POOL (concat cs)) <= 6)%nat).
  { apply Permutation_length in Q. rewrite pool_bufs_length, !length_app in Q. unfold PBUF_POOL_SIZE in Q. lia. }
  pose proof (chain_fuel_enough _ _ _ Cp Hd1) as Hf.
  destruct (uncount_chain_spec _ _ _ (stats s) (chain_fuel (mem s)) Cp) as (st & E1 & Hst); [lia|lia|].
  unfold pbuf_pool_free. rewrite E1. ret. fields.
  pose proof (fl_alloc _ _ _ _ _ _ _ _ F) as Ha. pose proof (fl_nodup _ _ _ _ _ _ _ _ F) as Hd. cbn [concat] in Hd.
  assert (Hpart : lp ++ (la ++ p :: c) ++ lf ++ of_kind PBUF_FLAG_POOL (concat cs) ≡ₚ pool_bufs).
  { rewrite <- Q, <- app_assoc. do 2 apply Permutation_app_head. rewrite !app_assoc.
    apply Permutation_app_tail, Permutation_app_comm. }
  assert (Hnd : NoDup (lp ++ (la ++ p :: c) ++ lf ++ concat cs)).
  { rewrite <- app_assoc, (app_assoc (p :: c)), (Permutation_app_comm (p :: c) lf), <- app_assoc. exact Hd. }
  assert (Hreg : forall k, k <> PBUF_FLAG_POOL -> regions_of ends k (concat ((p :: c) :: cs)) = regions_of ends k (concat cs)).
  { intros k Hne. unfold regions_of. cbn [concat]. rewrite of_kind_app, of_kind_none; [reflexivity|].
    intros q Hq. rewrite (Hk q Hq). auto. }
  destruct la as [|a la].
  - cbn in Ha. rewrite Ha. eexists. split; [reflexivity|]. split; [|intros ? ?; reflexivity].
    split; [|exact C]. destruct F. constructor; auto; fields.
    + intros q Hq. apply fl_bufs0. cbn [concat]. apply elem_of_app. auto.
    + rewrite <- Hreg by discriminate. assumption.
    + rewrite <- Hreg by discriminate. assumption.
    + rewrite Hst, U. lia.
  - destruct (split_last a la) as (l1 & r & El). rewrite El in *.
    pose proof (linked_inv _ _ _ Ha) as Ep. rewrite <- El in Ep. cbn in Ep. rewrite Ep in *.
    assert (Hnd1 : NoDup (l1 ++ [r] ++ p :: c)).
    { eapply sublist_NoDup; [exact Hd|]. apply sublist_inserts_l. rewrite app_assoc.
      apply sublist_app; [reflexivity|]. apply sublist_inserts_l, sublist_inserts_r. reflexivity. }
    destruct (append_spec (mem s) a _ l1 r (p :: c) Ha Cp Hnd1) as (b & E2 & Hb & Hl).
    rewrite E2. ret. unfold upd. fields. rewrite Hb. ret. eexists. split; [reflexivity|]. fields.
    assert (Nr : r ∉ lp /\ r ∉ lf /\ r ∉ concat cs) by (clear - Hd; rewrite !NoDup_app in Hd; set_solver).
    split; [|apply agree_insert; tauto].
    split; [|eapply chained_agree; [apply agree_insert|exact C]; tauto].
    destruct F. constructor; auto; fields.
    + eapply linked_agree; [apply agree_insert|exact fl_pool0]. tauto.
    + rewrite Ep, <- app_assoc. exact Hl.
    + eapply linked_agree; [apply agree_insert|exact fl_free0]. tauto.
    + intros q Hq. rewrite lookup_insert_ne; [|intros ->; tauto]. apply fl_bufs0. cbn [concat]. apply elem_of_app. auto.
    + rewrite <- Hreg by discriminate. assumption.
    + rewrite <- Hreg by discriminate. assumption.
    + rewrite Hst, U. lia.
    + apply pool_wide_next; assumption.
Qed.

(** ** Freeing *)

Lemma core_load ends s lp la lf cs p : Core ends s lp la lf cs -> p ∈ concat cs ->
  exists b, mem s !! p = Some b /\ buf_ok ends p b.
Proof. intros [F _]. apply (flat_load _ _ _ _ _ _ _ F). Qed.

Lemma agree_tail m m' c cs : agree m m' (concat (c :: cs)) -> agree m m' (concat cs).
Proof. intros Ha p Hp. apply Ha. cbn [concat]. apply elem_of_app. auto. Qed.

(** One round of the loop of [pbuf_free]. *)
Lemma free_round ends s lp la lf p c cs k n : Core ends s lp la lf ((p :: c) :: cs) ->
  exists s' lf', free_loop (S k) s (Some p) n = free_loop k s' (head c) (u8 (n + 1)) /\
    Core ends s' lp la lf' (c :: cs) /\ agree (mem s) (mem s') (concat (c :: cs)).
Proof.
  intros I. destruct (core_load _ _ _ _ _ _ p I) as (b & Hb & Hok); [constructor|].
  pose proof (core_nodup _ _ _ _ _ _ I) as Hd. cbn [concat app] in Hd. apply NoDup_cons in Hd as [Hn _].
  pose proof (proj2 I) as C. destruct (chained_cons _ _ _ _ C) as (b1 & Hb1 & Hnx & _).
  rewrite Hb in Hb1. injection Hb1 as <-. cbn [free_loop]. rewrite Hb. ret. rewrite Hnx.
  destruct Hok as (Hfl & Href & _). rewrite Hfl.
  destruct (Z.eqb_spec (kind p) PBUF_FLAG_POOL) as [Hk|Hk]; [|destruct (Z.eqb_spec (kind p) PBUF_FLAG_ROM) as [Hk'|Hk']].
  - set (b2 := Pbuf _ _ _ _ _ _). assert (Hok2 : buf_ok ends p b2).
    { subst b2. split; [reflexivity|]. split; [exact Href|]. cbn. unfold room, PBUF_POOL_BUFSIZE, SIZEOF_PBUF.
      rewrite Hk. cbn. repeat split; lia. }
    pose proof (core_update _ _ _ _ _ _ p b b2 I ltac:(constructor) Hb (eq_sym Hnx) Hok2) as I2.
    destruct (core_put _ _ _ _ _ _ _ _ I2 Hk) as (s' & E & I3 & A). rewrite E. ret.
    eexists _, _. split; [reflexivity|]. split; [exact I3|]. fields.
    eapply agree_trans; [|exact A]. apply agree_insert, Hn.
  - destruct (core_free_rom _ _ _ _ _ _ _ _ I Hk') as (x & E & I2 & A). rewrite E. ret.
    eexists _, _. split; [reflexivity|]. split; [exact I2|exact A].
  - pose proof (kind_ram p Hk Hk') as Hk2.
    destruct (core_free_ram _ _ _ _ _ _ _ _ I Hk2) as (h & E & I2 & A). rewrite E. ret.
    eexists _, _. split; [reflexivity|]. split; [exact I2|exact A].
Qed.

Lemma free_loop_spec ends lp la c cs k s lf n : Core ends s lp la lf (c :: cs) -> (length c < k)%nat ->
  exists s' lf', free_loop k s (head c) (u8 n) = Ret (u8 (n + Z.of_nat (length c)), s') /\
    Core ends s' lp la lf' cs /\ agree (mem s) (mem s') (concat cs).
Proof.
  revert s lf n k. induction c as [|p c IH]; intros s lf n k I Hk.
  - exists s, lf. cbn [head length]. rewrite Z.add_0_r. split; [destruct k; reflexivity|].
    split; [|intros ? ?; reflexivity]. destruct I as [F C]. split; [exact F|].
    apply Forall_cons in C. tauto.
  - destruct k as [|k]; [cbn in Hk; lia|]. cbn [head].
    destruct (free_round _ _ _ _ _ _ _ _ k (u8 n) I) as (s1 & lf1 & E & I1 & A1). rewrite E.
    assert (E8 : u8 (u8 n + 1) = u8 (n + 1)) by (unfold u8, wrapu; rewrite Z.add_mod_idemp_l by lia; reflexivity).
    rewrite E8. cbn [length] in Hk.
    destruct (IH s1 lf1 (n + 1) k I1) as (s2 & lf2 & E2 & I2 & A2); [lia|].
    exists s2, lf2. rewrite E2. cbn [length]. split; [do 3 f_equal; lia|]. split; [exact I2|].
    eapply agree_trans; [apply (agree_tail _ _ _ _ A1)|exact A2].
Qed.

(** [pbuf_free] on the head [p] of a chain with its last reference. *)
Lemma free_last ends s lp la lf p c cs b : Core ends s lp la lf ((p :: c) :: cs) -> mem s !! p = Some b -> ref b = 1 ->
  exists s' lp', pbuf_free s (Some p) = Ret (u8 (Z.of_nat (length (p :: c))), s') /\
    Core ends s' lp' la [] cs /\ agree (mem s) (mem s') (concat cs).
Proof.
  intros I Hb Hr. unfold pbuf_free. rewrite Hb. ret. rewrite Hr. change (u8 (1 - 1)) with 0. fields.
  cbn [Z.eqb].
  destruct (core_load _ _ _ _ _ _ p I) as (b1 & Hb1 & Hok); [constructor|]. rewrite Hb in Hb1. injection Hb1 as <-.
  assert (Hok2 : buf_ok ends p (with_ref 0 b)) by (destruct Hok as (H1 & H2 & H3); split; [exact H1|split; [cbn; lia|exact H3]]).
  pose proof (core_update _ _ _ _ _ _ p b (with_ref 0 b) I ltac:(constructor) Hb eq_refl Hok2) as I2.
  pose proof (core_nodup _ _ _ _ _ _ I) as Hd. cbn [concat app] in Hd. apply NoDup_cons in Hd as [Hn Hd].
  pose proof (proj2 I2) as C. apply Forall_cons in C as [C _].
  assert (Hd2 : NoDup (p :: c)).
  { constructor; [intros Hx; apply Hn, elem_of_app; auto|]. apply NoDup_app in Hd. tauto. }
  pose proof (chain_fuel_enough _ _ _ C Hd2) as Hf. cbn [mem set_mem] in Hf. fields.
  destruct (free_loop_spec _ _ _ _ _ _ _ _ 0 I2 Hf) as (s1 & lf1 & E & I3 & A1).
  change (u8 0) with 0 in E. cbn [head] in E. rewrite E. ret.
  destruct (refresh_spec _ _ _ _ _ _ I3) as (s2 & E2 & I4 & A2). rewrite E2. ret.
  eexists _, _. split; [reflexivity|]. split; [exact I4|].
  eapply agree_trans; [|exact A2]. eapply agree_trans; [|exact A1]. fields. apply agree_insert.
  intros Hx. apply Hn, elem_of_app. auto.
Qed.

(** One reference of several is dropped. *)
Lemma free_shared ends s lp la lf cs p b : Core ends s lp la lf cs -> p ∈ concat cs -> mem s !! p = Some b ->
  1 < ref b -> pbuf_free s (Some p) = Ret (0, set_mem s (<[p := with_ref (ref b - 1) b]> (mem s))) /\
    Core ends (set_mem s (<[p := with_ref (ref b - 1) b]> (mem s))) lp la lf cs.
Proof.
  intros I Hp Hb Hr. destruct (core_load _ _ _ _ _ _ p I Hp) as (b1 & Hb1 & Hok). rewrite Hb in Hb1. injection Hb1 as <-.
  destruct Hok as (H1 & H2 & H3). unfold pbuf_free. rewrite Hb. ret. rewrite u8_small by lia.
  destruct (Z.eqb_spec (ref b - 1) 0); [lia|]. split; [reflexivity|].
  eapply core_update; eauto. split; [exact H1|]. split; [cbn; lia|exact H3].
Qed.

(** ** Shrinking *)

(** The lengths of the structures of a list are 16-bit values. *)
Definition sized m (c : list Z) : Prop := forall p, p ∈ c -> 0 <= len_at m p < 65536.

Lemma core_sized ends s lp la lf cs c : Core ends s lp la lf cs -> (forall p, p ∈ c -> p ∈ concat cs) -> sized (mem s) c.
Proof.
  intros I Hc p Hp. destruct (core_load _ _ _ _ _ _ p I (Hc p Hp)) as (b & Hb & _ & _ & Hl & _).
  unfold len_at. rewrite Hb. exact Hl.
Qed.

Lemma step_over_spec m c p fuel size : linked m (Some p) c -> sized m c -> (length c <= fuel)%nat ->
  0 <= size < 65536 -> size <= total m c ->
  exists l1 r l2 b, c = l1 ++ [r] ++ l2 /\ m !! r = Some b /\
    step_over fuel m p size = Ret (r, size - total m l1) /\ 0 <= size - total m l1 <= len b.
Proof.
  revert p fuel size. induction c as [|a c IH]; intros p fuel size Hc Hs Hf Hz Ht; [discriminate|].
  destruct Hc as (E & b & Hb & Hc). injection E as ->. rewrite total_cons in Ht.
  assert (Hl : len_at m a = len b) by (unfold len_at; rewrite Hb; reflexivity).
  pose proof (Hs a ltac:(constructor)) as Ha. rewrite Hl in *.
  destruct fuel as [|k]; [cbn in Hf; lia|]. cbn [step_over]. rewrite Hb. ret.
  destruct (Z.ltb_spec (len b) size) as [Hlt|Hge].
  - pose proof (linked_inv _ _ _ Hc) as En. destruct c as [|a2 c]; [cbn in Ht; lia|]. cbn in En. rewrite En in *.
    rewrite u16_small by lia.
    destruct (IH a2 k (size - len b) Hc) as (l1 & r & l2 & b' & E & Hr & Es & Hle);
      [intros q Hq; apply Hs; constructor; exact Hq|cbn in *; lia|lia|lia|].
    exists (a :: l1), r, l2, b'. rewrite total_cons, Hl.
    replace (size - (len b + total m l1)) with (size - len b - total m l1) by lia.
    split; [cbn [app]; rewrite E; reflexivity|auto].
  - exists [], a, c, b. cbn [total foldr]. rewrite Z.sub_0_r. repeat split; auto; lia.
Qed.

Lemma drop_pool_spec ends lp la c cs k s lf : Core ends s lp la lf (c :: cs) -> (length c <= k)%nat ->
  (forall q, q ∈ c -> kind q = PBUF_FLAG_POOL) ->
  exists s' lf', drop_pool k s (head c) = Ret s' /\ Core ends s' lp la lf' cs /\ agree (mem s) (mem s') (concat cs).
Proof.
  revert s lf k. induction c as [|p c IH]; intros s lf k I Hk Hq.
  - exists s, lf. split; [destruct k; reflexivity|]. split; [|intros ? ?; reflexivity].
    destruct I as [F C]. split; [exact F|]. apply Forall_cons in C. tauto.
  - destruct k as [|k]; [cbn in Hk; lia|]. cbn [head drop_pool].
    destruct (chained_cons _ _ _ _ (proj2 I)) as (b & Hb & Hnx & _). rewrite Hb. ret. rewrite Hnx.
    destruct (core_put _ _ _ _ _ _ _ _ I (Hq p ltac:(constructor))) as (s1 & E & I1 & A1). rewrite E. ret.
    destruct (IH _ _ k I1) as (s2 & lf2 & E2 & I2 & A2); [cbn in Hk; lia|intros q Hin; apply Hq; constructor; exact Hin|].
    rewrite E2. eexists _, _. split; [reflexivity|]. split; [exact I2|].
    eapply agree_trans; [apply (agree_tail _ _ _ _ A1)|exact A2].
Qed.

(** The heap shrinks the region of the structure [r]. *)
Lemma flat_resize ends s h lp la lf l r e' b : Flat ends s lp la lf l -> r ∈ l -> kind r = PBUF_FLAG_RAM ->
  let ends' := fun x => if decide (x = r) then e' else ends x in
  (forall rs, regions_of ends PBUF_FLAG_RAM l ++ oh ≡ₚ (r, ends r) :: rs -> a_live h ((r, e') :: rs)) ->
  mem s !! r = Some b -> buf_ok ends' r b ->
  Flat ends' (set_heap s h) lp la lf l.
Proof.
  intros F Hr Hk ends' Hh Hb Hok. pose proof (flat_nodup _ _ _ _ _ _ F) as Hd.
  apply list_elem_of_split in Hr as (l1 & l2 & ->).
  assert (P : l1 ++ r :: l2 ≡ₚ r :: (l1 ++ l2)) by (symmetry; apply Permutation_middle).
  rewrite P in Hd. apply NoDup_cons in Hd as [Hn _].
  assert (E' : ends' r = e') by (unfold ends'; apply decide_True; reflexivity).
  assert (Ereg : forall k, regions_of ends' k (l1 ++ l2) = regions_of ends k (l1 ++ l2)).
  { intros k. apply regions_of_ext. intros p Hp. unfold ends'. apply decide_False. intros ->. contradiction. }
  destruct F. constructor; auto; fields.
  - intros p Hp. destruct (decide (p = r)) as [->|Hne]; [eauto|]. destruct (fl_bufs0 p Hp) as (b' & Hb' & H1 & H2 & H3 & H4 & H5).
    exists b'. split; [exact Hb'|]. split; [exact H1|]. split; [exact H2|]. split; [exact H3|]. split; [exact H4|].
    unfold room, ends'. rewrite decide_False by exact Hne. exact H5.
  - rewrite P. unfold regions_of at 1. rewrite of_kind_yes by exact Hk. rewrite fmap_cons, E'. cbn [app].
    change (_ <$> of_kind PBUF_FLAG_RAM (l1 ++ l2)) with (regions_of ends' PBUF_FLAG_RAM (l1 ++ l2)). rewrite Ereg.
    apply Hh. rewrite P. unfold regions_of at 1. rewrite of_kind_yes by exact Hk. reflexivity.
  - rewrite P. unfold regions_of. rewrite of_kind_no by (rewrite Hk; discriminate).
    fold (regions_of ends' PBUF_FLAG_ROM (l1 ++ l2)). rewrite Ereg. rewrite P in fl_pbufs0. unfold regions_of in fl_pbufs0.
    rewrite of_kind_no in fl_pbufs0 by (rewrite Hk; discriminate). exact fl_pbufs0.
Qed.

Definition cut_slots m m' (l1 : list Z) r (b : pbuf) (n : Z) : Prop :=
  same_slots m m' l1 /\ slot m' r = Some (payload b, n, ref b).

(** When [pbuf_realloc] is safe: a pool chain holds only pool buffers, a ROM
    pbuf is alone, and of a chain that begins in RAM at most one structure is
    left over, with a single reference, and the heap is not asked to split a
    region at an unaligned offset. *)
Inductive may_cut m (size : Z) : list Z -> Prop :=
| cut_pool p c : (forall q, q ∈ p :: c -> kind q = PBUF_FLAG_POOL) -> may_cut m size (p :: c)
| cut_rom p : kind p = PBUF_FLAG_ROM -> may_cut m size [p]
| cut_ram p c : kind p = PBUF_FLAG_RAM ->
    (forall l1 r l2 b, p :: c = l1 ++ [r] ++ l2 -> m !! r = Some b ->
       step_over (chain_fuel m) m p size = Ret (r, size - total m l1) ->
       (kind r = PBUF_FLAG_RAM -> (payload b - r + (size - total m l1)) mod 4 = 0) /\
       match l2 with
       | [] => True
       | [q] => exists bq, m !! q = Some bq /\ ref bq = 1
       | _ => False
       end) ->
    may_cut m size (p :: c).

(** The branches of [pbuf_realloc]: the chain is cut behind [r]. *)
Definition branch ends s lp la p c cs (size : Z) (x : outcome state) : Prop :=
  exists s' lp' lf' ends' l1 r l2 b, x = Ret s' /\ p :: c = l1 ++ [r] ++ l2 /\ mem s !! r = Some b /\
    Core ends' s' lp' la lf' ((l1 ++ [r]) :: cs) /\ agree (mem s) (mem s') (concat cs) /\
    cut_slots (mem s) (mem s') l1 r b (size - total (mem s) l1) /\ 0 <= size - total (mem s) l1 <= len b.

Lemma cut_insert m l1 r b n : r ∉ l1 -> m !! r = Some b -> 
  cut_slots m (<[r := with_next None (with_len n b)]> m) l1 r b n.
Proof.
  intros Hr Hb. split.
  - apply agree_slots, agree_insert, Hr.
  - unfold slot. rewrite lookup_insert_eq. reflexivity.
Qed.

Lemma cut_slots_agree m m1 m2 l1 r b n : cut_slots m m1 l1 r b n -> agree m1 m2 (l1 ++ [r]) -> cut_slots m m2 l1 r b n.
Proof.
  intros [H1 H2] A. apply agree_slots in A. split.
  - eapply same_slots_trans; [exact H1|]. intros p Hp. apply A, elem_of_app. auto.
  - rewrite A by set_solver. exact H2.
Qed.

Lemma cut_ok ends r b n : buf_ok ends r b -> 0 <= n <= len b -> buf_ok ends r (with_next None (with_len n b)).
Proof.
  intros (H1 & H2 & H3 & H4 & H5) Hn. split; [exact H1|]. split; [exact H2|]. cbn. split; [lia|]. split; [exact H4|].
  intros Hk. specialize (H5 Hk). lia.
Qed.

Lemma realloc_pool ends s lp la lf p c cs size :
  Core ends s lp la lf ((p :: c) :: cs) -> (forall q, q ∈ p :: c -> kind q = PBUF_FLAG_POOL) ->
  0 <= size < 65536 -> size <= total (mem s) (p :: c) ->
  branch ends s lp la p c cs size
    (e ← step_over (chain_fuel (mem s)) (mem s) p size;
     let '(q, rsize) := e in
     b ← load (mem s !! q);
     drop_pool (chain_fuel (mem s)) (set_mem s (<[q := with_next None (with_len rsize b)]> (mem s))) (next b)).
Proof.
  intros I Hk Hz Ht. pose proof (proj2 I) as C. apply Forall_cons in C as [C _]. cbn [head] in C.
  pose proof (core_nodup _ _ _ _ _ _ I) as Hd. cbn [concat] in Hd. apply NoDup_app in Hd as (Hd & Hd2 & Hd3).
  pose proof (chain_fuel_enough _ _ _ C Hd) as Hf.
  assert (Hs : sized (mem s) (p :: c)).
  { apply (core_sized _ _ _ _ _ _ _ I). intros q Hq. cbn [concat]. apply elem_of_app. auto. }
  destruct (step_over_spec _ _ _ (chain_fuel (mem s)) size C Hs) as (l1 & r & l2 & b & E & Hb & Es & Hle); [lia|lia|lia|].
  rewrite Es. ret. rewrite Hb. ret. rewrite E in *.
  assert (Hin : r ∈ concat ((l1 ++ [r] ++ l2) :: cs)) by (cbn [concat]; set_solver).
  destruct (core_load _ _ _ _ _ _ r I Hin) as (b1 & Hb1 & Hok). rewrite Hb in Hb1. injection Hb1 as <-.
  set (b2 := with_next None (with_len (size - total (mem s) l1) b)).
  destruct (core_cut _ _ _ _ _ _ _ b _ _ b2 I Hb eq_refl) as [I1 Hnx]; [apply cut_ok; auto|].
  rewrite Hnx. assert (Hrl1 : r ∉ l1) by (apply NoDup_app in Hd as (_ & Hx & _); intros Hy; apply (Hx r Hy); set_solver).
  assert (I2 : Core ends (set_mem s (<[r:=b2]> (mem s))) lp la lf (l2 :: (l1 ++ [r]) :: cs)).
  { apply core_swap, I1. }
  destruct (drop_pool_spec _ _ _ _ _ (chain_fuel (mem s)) _ _ I2) as (s' & lf' & E3 & I3 & A3).
  { rewrite !length_app in Hf. lia. }
  { intros q Hq. apply Hk. set_solver. }
  rewrite E3. exists s', lp, lf', ends, l1, r, l2, b. split; [reflexivity|]. split; [exact E|]. split; [exact Hb|].
  split; [exact I3|]. cbn [mem set_mem] in A3. split; [|split; [|exact Hle]].
  - eapply agree_trans; [apply agree_insert|eapply agree_tail, A3]. intros Hx. apply (Hd2 r); [set_solver|exact Hx].
  - eapply cut_slots_agree; [apply (cut_insert _ l1 r b _ Hrl1 Hb)|]. intros q Hq. apply A3. cbn [concat]. set_solver.
Qed.

(** The heap's part of a cut. *)
Lemma core_shrink ends s lp la lf l1 r l2 cs b n :
  Core ends s lp la lf ((l1 ++ [r] ++ l2) :: cs) -> kind r = PBUF_FLAG_RAM -> mem s !! r = Some b ->
  0 <= n <= len b -> (payload b - r + n) mod 4 = 0 ->
  exists h ends', a_realloc (heap s) r (u32 (payload b - r + n)) = Ret (r, h) /\
    Core ends' (set_mem (set_heap s h) (<[r := with_next None (with_len n b)]> (mem s))) lp la lf
      ((l1 ++ [r]) :: l2 :: cs).
Proof.
  intros I Hk Hb Hn Hm.
  assert (Hin : r ∈ concat ((l1 ++ [r] ++ l2) :: cs)) by (cbn [concat]; set_solver).
  destruct (core_load _ _ _ _ _ _ r I Hin) as (b1 & Hb1 & Hok). rewrite Hb in Hb1. injection Hb1 as <-.
  destruct Hok as (H1 & H2 & H3 & H4 & H5). pose proof (H5 ltac:(rewrite Hk; discriminate)) as [H6 H7].
  unfold room in H7. rewrite Hk in H7. cbn [Z.eqb PBUF_FLAG_RAM PBUF_FLAG_POOL Pos.eqb] in H7. unfold SIZEOF_PBUF in H6.
  set (l := concat ((l1 ++ [r] ++ l2) :: cs)) in *.
  pose proof (fl_heap _ _ _ _ _ _ _ _ (proj1 I)) as Hh. fold l in Hh.
  assert (Hreg : exists rs, regions_of ends PBUF_FLAG_RAM l ++ oh ≡ₚ (r, ends r) :: rs).
  { apply list_elem_of_split in Hin as (k1 & k2 & E). exists (regions_of ends PBUF_FLAG_RAM (k1 ++ k2) ++ oh).
    rewrite E, <- Permutation_middle. unfold regions_of. rewrite of_kind_yes by exact Hk. reflexivity. }
  destruct Hreg as [rs P].
  assert (Hh2 : a_live (heap s) ((r, ends r) :: rs)) by (rewrite <- P; exact Hh).
  destruct (a_range _ _ r (ends r) Hh2 ltac:(constructor)) as (R1 & R2 & R3).
  pose proof (lay_high L) as (_ & R4 & _). pose proof (lay_low L) as (_ & R5 & _). change (2 ^ 31) with 2147483648 in R4.
  assert (Hu : u32 (payload b - r + n) = payload b - r + n) by (apply u32_small; lia).
  rewrite Hu.
  destruct (a_realloc_ok (heap s) rs r (ends r) (payload b - r + n) Hh2) as (h & e' & E & He & Hl); [lia|lia|exact Hm|].
  set (b2 := with_next None (with_len n b)). exists h, (fun x => if decide (x = r) then e' else ends x). split; [exact E|].
  destruct (core_cut _ _ _ _ _ _ _ b _ _ b2 I Hb eq_refl) as [[F1 C1] _]; [apply cut_ok; [repeat split; auto; lia|auto]|].
  split; [|exact C1].
  apply (flat_resize _ _ h _ _ _ _ r e' b2 F1); [cbn [concat]; set_solver|exact Hk| |apply lookup_insert_eq|].
  - intros rs' P'. assert (Ps : rs' ≡ₚ rs).
    { apply (Permutation_cons_inv (a := (r, ends r))). rewrite <- P, <- P'.
      unfold l. cbn [concat]. rewrite !app_assoc. reflexivity. }
    rewrite Ps. exact Hl.
  - split; [exact H1|]. split; [exact H2|]. cbn. split; [lia|]. split; [exact H4|]. intros _.
    unfold room. rewrite Hk. cbn [Z.eqb PBUF_FLAG_RAM PBUF_FLAG_POOL Pos.eqb]. rewrite decide_True by reflexivity.
    unfold SIZEOF_PBUF in *. lia.
Qed.

(** The end of the branch: at most one structure is left over. *)
Lemma drop_ram_spec ends s lp la lf l2 cs k : Core ends s lp la lf (l2 :: cs) ->
  match l2 with
  | [] => True
  | [q] => exists bq, mem s !! q = Some bq /\ ref bq = 1
  | _ => False
  end ->
  exists s' lp' lf', drop_ram (S k) s (head l2) = Ret s' /\ Core ends s' lp' la lf' cs /\
    agree (mem s) (mem s') (concat cs).
Proof.
  intros I Hl. destruct l2 as [|q [|]]; [| |contradiction].
  - exists s, lp, lf. split; [reflexivity|]. split; [|intros ? ?; reflexivity].
    destruct I as [F C]. split; [exact F|]. apply Forall_cons in C. tauto.
  - destruct Hl as (bq & Hq & Hr). destruct (chained_cons _ _ _ _ (proj2 I)) as (b & Hb & Hn & _).
    cbn [head drop_ram]. rewrite Hb. ret. rewrite Hn.
    destruct (free_last _ _ _ _ _ _ _ _ _ I Hq Hr) as (s' & lp' & E & I' & A). rewrite E. ret. cbn [head snd].
    exists s', lp', []. split; [destruct k; reflexivity|auto].
Qed.

Lemma realloc_ram ends s lp la lf p c cs size :
  Core ends s lp la lf ((p :: c) :: cs) -> kind p = PBUF_FLAG_RAM -> may_cut (mem s) size (p :: c) ->
  0 <= size < 65536 -> size <= total (mem s) (p :: c) ->
  branch ends s lp la p c cs size
    (e ← step_over (chain_fuel (mem s)) (mem s) p size;
     let '(q, rsize) := e in
     b ← load (mem s !! q);
     s2 ← (if flags b =? PBUF_FLAG_RAM then
             r ← a_realloc (heap s) q (u32 (payload b - q + rsize)); Ret (set_heap s r.2)
           else Ret s);
     drop_ram (chain_fuel (mem s)) (set_mem s2 (<[q := with_next None (with_len rsize b)]> (mem s2))) (next b)).
Proof.
  intros I Hkp Hcut Hz Ht. pose proof (proj2 I) as C. apply Forall_cons in C as [C _]. cbn [head] in C.
  pose proof (core_nodup _ _ _ _ _ _ I) as Hd. cbn [concat] in Hd. apply NoDup_app in Hd as (Hd & Hd2 & Hd3).
  pose proof (chain_fuel_enough _ _ _ C Hd) as Hf.
  assert (Hs : sized (mem s) (p :: c)).
  { apply (core_sized _ _ _ _ _ _ _ I). intros q Hq. cbn [concat]. apply elem_of_app. auto. }
  destruct (step_over_spec _ _ _ (chain_fuel (mem s)) size C Hs) as (l1 & r & l2 & b & E & Hb & Es & Hle); [lia|lia|lia|].
  assert (Hcond : (kind r = PBUF_FLAG_RAM -> (payload b - r + (size - total (mem s) l1)) mod 4 = 0) /\
    match l2 with [] => True | [q] => exists bq, mem s !! q = Some bq /\ ref bq = 1 | _ => False end).
  { inversion Hcut as [p' c' Hk|p' Hk|p' c' Hk Hc].
    - rewrite (Hk p) in Hkp by constructor. discriminate.
    - subst p'. rewrite Hk in Hkp. discriminate.
    - apply (Hc l1 r l2 b E Hb Es). }
  destruct Hcond as [Hal Hl2]. rewrite Es. ret. rewrite Hb. ret. rewrite E in *.
  assert (Hin : r ∈ concat ((l1 ++ [r] ++ l2) :: cs)) by (cbn [concat]; set_solver).
  destruct (core_load _ _ _ _ _ _ r I Hin) as (b1 & Hb1 & Hok). rewrite Hb in Hb1. injection Hb1 as <-.
  set (n := size - total (mem s) l1) in *. set (b2 := with_next None (with_len n b)).
  destruct (core_cut _ _ _ _ _ _ _ b _ _ b2 I Hb eq_refl) as [I1 Hnx]; [apply cut_ok; auto|].
  rewrite Hnx. rewrite (proj1 Hok).
  assert (Hrl1 : r ∉ l1) by (apply NoDup_app in Hd as (_ & Hx & _); intros Hy; apply (Hx r Hy); set_solver).
  assert (Hs2 : exists s2 ends2, (if kind r =? PBUF_FLAG_RAM then
            x ← a_realloc (heap s) r (u32 (payload b - r + n)); Ret (set_heap s x.2)
          else Ret s) = Ret s2 /\ mem s2 = mem s /\
          Core ends2 (set_mem s2 (<[r := b2]> (mem s2))) lp la lf ((l1 ++ [r]) :: l2 :: cs)).
  { destruct (Z.eqb_spec (kind r) PBUF_FLAG_RAM) as [Hk|Hk].
    - destruct (core_shrink _ _ _ _ _ _ _ _ _ b n I Hk Hb Hle (Hal Hk)) as (h & ends' & Er & I2).
      rewrite Er. ret. cbn [snd]. eexists _, ends'. split; [reflexivity|]. split; [reflexivity|]. exact I2.
    - exists s, ends. auto. }
  destruct Hs2 as (s2 & ends2 & -> & Em & I2). ret. rewrite Em in *. apply core_swap in I2.
  assert (Hl2' : match l2 with [] => True
    | [q] => exists bq, mem (set_mem s2 (<[r := b2]> (mem s))) !! q = Some bq /\ ref bq = 1 | _ => False end).
  { destruct l2 as [|q [|]]; auto. destruct Hl2 as (bq & Hq & Hr). exists bq. split; [|exact Hr]. cbn [mem set_mem].
    rewrite lookup_insert_ne; [exact Hq|]. intros <-. apply NoDup_app in Hd as (_ & _ & Hd).
    cbn in Hd. apply NoDup_cons in Hd as [Hd _]. set_solver. }
  destruct (drop_ram_spec _ _ _ _ _ _ _ (base.size (mem s)) I2 Hl2') as (s' & lp' & lf' & E3 & I3 & A3).
  unfold chain_fuel. rewrite E3. exists s', lp', lf', ends2, l1, r, l2, b.
  split; [reflexivity|]. split; [exact E|]. split; [exact Hb|]. split; [exact I3|]. cbn [mem set_mem] in A3.
  split; [|split; [|exact Hle]].
  - eapply agree_trans; [apply agree_insert|eapply agree_tail, A3]. intros Hx. apply (Hd2 r); [set_solver|exact Hx].
  - eapply cut_slots_agree; [apply (cut_insert _ l1 r b _ Hrl1 Hb)|]. intros q Hq. apply A3. cbn [concat]. set_solver.
Qed.

(** The bytes of a cut chain. *)
Lemma cut_bytes m m' l1 r l2 b n : cut_slots m m' l1 r b n -> m !! r = Some b -> 0 <= n <= len b ->
  total m' (l1 ++ [r]) = total m l1 + n /\
  bytes m' (l1 ++ [r]) = bytes m l1 ++ seqZ (payload b) n /\
  bytes m (l1 ++ [r] ++ l2) = bytes m l1 ++ seqZ (payload b) (len b) ++ bytes m l2.
Proof.
  intros [H1 H2] Hb Hn. assert (Hr : exists b', m' !! r = Some b' /\ payload b' = payload b /\ len b' = n).
  { unfold slot in H2. destruct (m' !! r) as [b'|]; [|discriminate]. injection H2 as E1 E2 _. eauto. }
  destruct Hr as (b' & Hb' & E1 & E2). split; [|split].
  - rewrite total_app, (total_slots _ _ _ H1), total_cons. unfold len_at. rewrite Hb'. cbn. lia.
  - rewrite chain_bytes_app, (bytes_slots _ _ _ H1). f_equal. unfold bytes, bytes_at. cbn. rewrite Hb', E1, E2.
    apply app_nil_r.
  - rewrite !chain_bytes_app. do 2 f_equal. unfold bytes, bytes_at. cbn. rewrite Hb. apply app_nil_r.
Qed.

Lemma bytes_length m l : sized m l -> Z.of_nat (length (bytes m l)) = total m l.
Proof.
  induction l as [|a l IH]; intros Hs; [reflexivity|]. change (a :: l) with ([a] ++ l). rewrite chain_bytes_app, length_app.
  rewrite total_app, Nat2Z.inj_add, IH by (intros p Hp; apply Hs; constructor; exact Hp). f_equal.
  pose proof (Hs a ltac:(constructor)) as Ha. rewrite total_cons. unfold bytes, bytes_at, len_at in *. cbn.
  destruct (m !! a); cbn in *; [rewrite app_nil_r, length_seqZ|]; lia.
Qed.

Lemma realloc_rom ends s lp la lf p cs b size :
  Core ends s lp la lf ([p] :: cs) -> mem s !! p = Some b -> 0 <= size <= len b ->
  branch ends s lp la p [] cs size (Ret (set_mem s (<[p := with_len size b]> (mem s)))).
Proof.
  intros I Hb Hz. pose proof (core_nodup _ _ _ _ _ _ I) as Hd. cbn [concat app] in Hd. apply NoDup_cons in Hd as [Hn _].
  destruct (core_load _ _ _ _ _ _ p I ltac:(constructor)) as (b1 & Hb1 & H1 & H2 & H3 & H4 & H5).
  rewrite Hb in Hb1. injection Hb1 as <-.
  assert (Hok : buf_ok ends p (with_len size b)).
  { split; [exact H1|]. split; [exact H2|]. cbn. split; [lia|]. split; [exact H4|]. intros Hk. specialize (H5 Hk). lia. }
  eexists _, lp, lf, ends, [], p, [], b. cbn [app total foldr]. rewrite Z.sub_0_r. split; [reflexivity|]. split; [reflexivity|].
  split; [exact Hb|]. split; [eapply core_update; eauto; constructor|]. cbn [mem set_mem].
  split; [apply agree_insert, Hn|]. split; [|lia]. split; [intros q Hq; apply elem_of_nil in Hq; contradiction|].
  unfold slot. rewrite lookup_insert_eq. reflexivity.
Qed.

Definition ref_at m p : option Z := ref <$> m !! p.

Lemma ref_slot m m' p : slot m' p = slot m p -> ref_at m' p = ref_at m p.
Proof. unfold slot, ref_at. destruct (m' !! p), (m !! p); cbn; congruence. Qed.

Lemma cut_refs m m' l1 r b n q : cut_slots m m' l1 r b n -> m !! r = Some b -> q ∈ l1 ++ [r] -> ref_at m' q = ref_at m q.
Proof.
  intros [H1 H2] Hb Hq. apply elem_of_app in Hq as [Hq|Hq]; [apply ref_slot, H1, Hq|].
  apply list_elem_of_singleton in Hq as ->. unfold slot, ref_at in *. destruct (m' !! r) as [b'|]; [|discriminate].
  injection H2 as _ _ E. rewrite Hb. cbn. congruence.
Qed.

(** What [pbuf_realloc] does to a chain: the first [size] bytes are left. *)
Definition realloc_result s s' p c c' cs size : Prop :=
  agree (mem s) (mem s') (concat cs) /\ (exists c2, p :: c = (p :: c') ++ c2) /\
  bytes (mem s') (p :: c') = take (Z.to_nat size) (bytes (mem s) (p :: c)) /\
  total (mem s') (p :: c') = size /\ (exists b, mem s' !! p = Some b /\ tot_len b = size) /\
  forall q, q ∈ p :: c' -> ref_at (mem s') q = ref_at (mem s) q.

Lemma realloc_finish ends s lp la lf p c cs size x : Core ends s lp la lf ((p :: c) :: cs) ->
  0 <= size < 65536 -> branch ends s lp la p c cs size x ->
  exists s' lp' ends' c',
    (s1 ← x; m ← upd (mem s1) p (with_tot_len size); pbuf_refresh (set_mem s1 m)) = Ret s' /\
    Core ends' s' lp' la [] ((p :: c') :: cs) /\ realloc_result s s' p c c' cs size.
Proof.
  intros I0 Hz (s1 & lp1 & lf1 & ends1 & l1 & r & l2 & b & -> & E & Hb & I & A & Hc & Hn).
  assert (Hs : sized (mem s) (p :: c)).
  { apply (core_sized _ _ _ _ _ _ _ I0). intros q Hq. cbn [concat]. apply elem_of_app. auto. }
  destruct (cut_bytes _ _ _ _ l2 _ _ Hc Hb Hn) as (T & B1 & B2). rewrite <- E in B2.
  assert (Hs1 : sized (mem s) l1) by (intros q Hq; apply Hs; rewrite E; set_solver).
  assert (Ep : exists c', l1 ++ [r] = p :: c').
  { destruct l1 as [|a l1]; cbn in E |- *; injection E as -> _; eauto. }
  destruct Ep as [c' Ec]. assert (Hrefs : forall q, q ∈ l1 ++ [r] -> ref_at (mem s1) q = ref_at (mem s) q)
    by (intros q Hq; exact (cut_refs _ _ _ _ _ _ q Hc Hb Hq)).
  rewrite Ec in *. ret.
  destruct (core_load _ _ _ _ _ _ p I ltac:(constructor)) as (bp & Hbp & Hok). unfold upd. rewrite Hbp. ret.
  assert (Hok2 : buf_ok ends1 p (with_tot_len size bp)).
  { destruct Hok as (H1 & H2 & H3 & H4 & H5). split; [exact H1|]. split; [exact H2|]. split; [exact H3|]. split; [exact Hz|exact H5]. }
  pose proof (core_update _ _ _ _ _ _ p bp (with_tot_len size bp) I ltac:(constructor) Hbp eq_refl Hok2) as I2.
  destruct (refresh_spec _ _ _ _ _ _ I2) as (s2 & E2 & I3 & A2). rewrite E2. exists s2, (lp1 ++ lf1), ends1, c'.
  split; [reflexivity|]. split; [exact I3|].
  assert (Hslots : same_slots (mem s1) (mem s2) (p :: c')).
  { eapply same_slots_trans; [apply (slots_update _ p bp (with_tot_len size bp)); [exact Hbp|reflexivity]|].
    apply agree_slots. intros q Hq. apply A2. cbn [concat]. apply elem_of_app. auto. }
  pose proof (core_nodup _ _ _ _ _ _ I) as Hd. cbn [concat app] in Hd. apply NoDup_cons in Hd as [Hnp _].
  split; [|split; [|split; [|split; [|split]]]].
  - eapply agree_trans; [exact A|]. eapply agree_trans; [apply agree_insert|eapply agree_tail, A2].
    intros Hx. apply Hnp, elem_of_app. auto.
  - exists l2. rewrite E, app_assoc, Ec. reflexivity.
  - rewrite (bytes_slots _ _ _ Hslots), B1, B2.
    pose proof (bytes_length (mem s) l1 Hs1) as Hl.
    replace (seqZ (payload b) (len b)) with (seqZ (payload b) (size - total (mem s) l1) ++
      seqZ (payload b + (size - total (mem s) l1)) (len b - (size - total (mem s) l1)))
      by (rewrite <- seqZ_app by lia; f_equal; lia).
    rewrite <- app_assoc, app_assoc. symmetry. apply take_app_length'.
    rewrite length_app, length_seqZ. lia.
  - rewrite (total_slots _ _ _ Hslots), T. lia.
  - exists (with_tot_len size bp). split; [|reflexivity].
    rewrite (A2 p) by constructor. cbn [mem set_mem]. apply lookup_insert_eq.
  - intros q Hq. rewrite <- (Hrefs q Hq). apply ref_slot, Hslots, Hq.
Qed.

Lemma realloc_core ends s lp la lf p c cs b size :
  Core ends s lp la lf ((p :: c) :: cs) -> mem s !! p = Some b -> tot_len b = total (mem s) (p :: c) ->
  0 <= size < tot_len b -> may_cut (mem s) size (p :: c) ->
  exists s' lp' ends' c', pbuf_realloc s p size = Ret s' /\
    Core ends' s' lp' la [] ((p :: c') :: cs) /\ realloc_result s s' p c c' cs size.
Proof.
  intros I Hb Ht Hz Hcut. destruct (core_load _ _ _ _ _ _ p I ltac:(constructor)) as (b1 & Hb1 & Hok).
  rewrite Hb in Hb1. injection Hb1 as <-. destruct Hok as (Hfl & _ & _ & Htl & _).
  unfold pbuf_realloc. rewrite Hb. ret. destruct (Z.leb_spec (tot_len b) size); [lia|]. rewrite Hfl.
  assert (Hz2 : 0 <= size < 65536) by lia. assert (Ht2 : size <= total (mem s) (p :: c)) by lia.
  inversion Hcut as [p' c' Hk|p' Hk|p' c' Hk Hc]; subst.
  - rewrite (Hk p) by constructor. cbn [Z.eqb Pos.eqb PBUF_FLAG_POOL]. change (2 =? 2) with true. cbn beta iota.
    eapply realloc_finish; [exact I|exact Hz2|]. eapply realloc_pool; eauto.
  - rewrite Hk. change (PBUF_FLAG_ROM =? PBUF_FLAG_POOL) with false. change (PBUF_FLAG_ROM =? PBUF_FLAG_ROM) with true. cbn beta iota.
    eapply realloc_finish; [exact I|exact Hz2|]. eapply realloc_rom; eauto.
    rewrite total_cons in Ht2. unfold len_at in Ht2. rewrite Hb in Ht2. cbn in Ht2. lia.
  - rewrite Hk. change (PBUF_FLAG_RAM =? PBUF_FLAG_POOL) with false. change (PBUF_FLAG_RAM =? PBUF_FLAG_ROM) with false.
    change (PBUF_FLAG_RAM =? PBUF_FLAG_RAM) with true. cbn beta iota.
    eapply realloc_finish; [exact I|exact Hz2|]. eapply realloc_ram; eauto.
Qed.

(** ** Allocation *)

(** The number of buffers of 128 bytes for [n] bytes. *)
Definition bufs_for (n : Z) : nat := Z.to_nat ((n + (PBUF_POOL_BUFSIZE - 1)) / PBUF_POOL_BUFSIZE).

Lemma bufs_for_pos n : 0 < n -> bufs_for n = S (bufs_for (n - PBUF_POOL_BUFSIZE)).
Proof.
  intros Hn. unfold bufs_for, PBUF_POOL_BUFSIZE.
  replace (n + (128 - 1)) with (n - 128 + (128 - 1) + 1 * 128) by lia. rewrite Z.div_add by lia.
  assert (0 <= (n - 128 + (128 - 1)) / 128) by (apply Z.div_pos; lia).
  rewrite Z2Nat.inj_add by lia. change (Z.to_nat 1) with 1%nat. lia.
Qed.

Lemma bufs_for_neg n : n <= 0 -> bufs_for n = 0%nat.
Proof.
  intros Hn. unfold bufs_for, PBUF_POOL_BUFSIZE.
  assert ((n + (128 - 1)) / 128 < 1) by (apply Z.div_lt_upper_bound; lia). lia.
Qed.

(** A new buffer is linked behind the chain [l0 ++ [r]]. *)
Definition fresh_buf a (b : pbuf) (n : Z) : pbuf :=
  Pbuf None PBUF_FLAG_POOL 1 (a + SIZEOF_PBUF) (tot_len b) n.

Lemma fresh_ok ends a b n : a ∈ pool_bufs -> wide b -> 0 <= n <= PBUF_POOL_BUFSIZE -> buf_ok ends a (fresh_buf a b n).
Proof.
  intros Ha [_ Hw] Hn. unfold PBUF_POOL_BUFSIZE in Hn. pose proof (pool_bufs_kind a Ha) as Hk.
  split; [symmetry; exact Hk|]. cbn. repeat split; try lia. unfold room. rewrite Hk. cbn.
  unfold PBUF_POOL_BUFSIZE. lia.
Qed.

Lemma extend_chain ends s s1 lf lp1 la1 l0 r cs a b br n :
  mem s1 = mem s -> mem s !! r = Some br -> r <> a -> a ∉ concat ((l0 ++ [r]) :: cs) -> r ∉ concat cs ->
  (forall b, next b = None -> buf_ok ends a b ->
     Core ends (set_mem s1 (<[a := b]> (mem s1))) lp1 la1 lf ([a] :: (l0 ++ [r]) :: cs)) ->
  buf_ok ends a (fresh_buf a b n) ->
  let m := <[a := fresh_buf a b n]> (<[r := with_next (Some a) br]> (mem s)) in
  Core ends (set_mem s1 m) lp1 la1 lf ((l0 ++ [r] ++ [a]) :: cs) /\ agree (mem s) m (concat cs) /\
  same_slots (mem s) m (l0 ++ [r]) /\ (forall q, q ∈ l0 ++ [r] -> tot_len <$> m !! q = tot_len <$> mem s !! q).
Proof.
  intros Em Hr Hne Ha Hrc Hadd Hok m.
  assert (Hm : m = <[r := with_next (Some a) br]> (<[a := fresh_buf a b n]> (mem s))).
  { unfold m. apply insert_insert_ne. auto. }
  assert (Hmr : forall q, q ∈ l0 ++ [r] -> exists x y, mem s !! q = Some x /\ m !! q = Some y /\
    slot m q = slot (mem s) q /\ tot_len y = tot_len x \/ m !! q = mem s !! q).
  { intros q Hq. destruct (decide (q = r)) as [->|Hqr].
    - exists br, (with_next (Some a) br). left. rewrite Hm, lookup_insert_eq. repeat split; auto.
      unfold slot. rewrite lookup_insert_eq, Hr. reflexivity.
    - exists br, br. right. rewrite Hm, !lookup_insert_ne; auto. intros <-. apply Ha. cbn [concat]. apply elem_of_app. auto. }
  split; [|split; [|split]].
  - pose proof (core_swap _ _ _ _ _ _ _ _ (Hadd (fresh_buf a b n) eq_refl Hok)) as I.
    rewrite Em in I. rewrite Hm. apply (core_join _ _ _ _ _ _ _ br) in I; [exact I|].
    cbn [mem set_mem]. rewrite lookup_insert_ne by auto. exact Hr.
  - unfold m. eapply agree_trans; apply agree_insert; [exact Hrc|]. intros Hx. apply Ha. cbn [concat]. apply elem_of_app. auto.
  - intros q Hq. destruct (Hmr q Hq) as (x & y & [(_ & _ & E & _)|E]); [exact E|]. unfold slot. rewrite E. reflexivity.
  - intros q Hq. destruct (Hmr q Hq) as (x & y & [(E1 & E2 & _ & E)|E]); [|rewrite E; reflexivity].
    rewrite E1, E2. cbn. congruence.
Qed.

(** What an allocation leaves of the other structures: [c] is new. *)
Definition alloc_tail ends s s' lp' la' lf c0 c2 cs (n : Z) : Prop :=
  Core ends s' lp' la' lf ((c0 ++ c2) :: cs) /\ agree (mem s) (mem s') (concat cs) /\
  same_slots (mem s) (mem s') c0 /\ (forall q, q ∈ c0 -> tot_len <$> mem s' !! q = tot_len <$> mem s !! q) /\
  total (mem s') c2 = n /\ (forall q, q ∈ c2 -> ref_at (mem s') q = Some 1) /\
  (forall q, q ∈ c2 -> q ∈ pool_bufs).

Lemma pool_tail_spec ends p cs lf fuel s lp la l0 r rsize :
  Core ends s lp la lf ((l0 ++ [r]) :: cs) -> head (l0 ++ [r]) = Some p ->
  (forall q, q ∈ l0 ++ [r] -> kind q = PBUF_FLAG_POOL) -> (length (la ++ lp) < fuel)%nat -> rsize < 65536 ->
  if decide (bufs_for rsize <= length (la ++ lp))%nat then
    exists r' s' lp' la' l2 l', pool_tail fuel s p r rsize = Ret (true, r', s') /\
      alloc_tail ends s s' lp' la' lf (l0 ++ [r]) l2 cs (Z.max 0 rsize) /\ (l0 ++ [r]) ++ l2 = l' ++ [r'] /\
      length l2 = bufs_for rsize /\ (length (la' ++ lp') + length l2 = length (la ++ lp))%nat
  else
    exists r' s' lp' la', pool_tail fuel s p r rsize = Ret (false, r', s') /\
      Core ends s' lp' la' lf cs /\ agree (mem s) (mem s') (concat cs).
Proof.
  revert s lp la l0 r rsize. induction fuel as [|k IH]; intros s lp la l0 r rsize I Hh Hk Hf Hr; [lia|].
  cbn [pool_tail]. destruct (Z.ltb_spec 0 rsize) as [Hpos|Hneg].
  2: { rewrite bufs_for_neg by lia. rewrite decide_True by lia. exists r, s, lp, la, [], l0. rewrite app_nil_r.
       split; [reflexivity|]. split; [|split; [reflexivity|split; [reflexivity|cbn; lia]]].
       unfold alloc_tail. rewrite app_nil_r. split; [exact I|]. split; [intros ? ?; reflexivity|].
       split; [intros ? ?; reflexivity|]. split; [reflexivity|]. cbn. split; [lia|]. split; intros q Hq; apply elem_of_nil in Hq; contradiction. }
  rewrite bufs_for_pos by lia. pose proof (pool_alloc_spec _ _ _ _ _ _ I) as Ha.
  destruct (la ++ lp) as [|a rest] eqn:Eal.
  - destruct Ha as (s1 & E1 & I1 & Em). rewrite E1. ret. rewrite decide_False by (cbn; lia).
    assert (I2 : Core ends (on_stats count_err s1) lp la lf ((l0 ++ [r]) :: cs)).
    { destruct I1 as [F1 C1]. split; [|exact C1]. destruct F1. constructor; auto. }
    destruct (l0 ++ [r]) as [|p' c] eqn:El; [discriminate|]. cbn in Hh. injection Hh as ->.
    destruct (pool_free_spec _ _ _ _ _ _ _ _ I2 Hk) as (s2 & E2 & I3 & A). rewrite E2. ret.
    exists r, s2, lp, (la ++ p :: c). split; [reflexivity|]. split; [exact I3|]. rewrite <- Em. exact A.
  - destruct Ha as (s1 & lp1 & la1 & E1 & Er & Em & [b0 Hb0] & Hpool & Hnew & Hadd). rewrite E1. ret.
    assert (Hin : r ∈ concat ((l0 ++ [r]) :: cs)) by (cbn [concat]; rewrite !elem_of_app; left; right; constructor).
    destruct (core_load _ _ _ _ _ _ r I Hin) as (br & Hbr & _).
    assert (Hne : r <> a) by (intros ->; contradiction).
    destruct (fl_wide _ _ _ _ _ _ _ _ (proj1 I) a Hpool) as (b0' & Hb0' & Hw). rewrite Hb0 in Hb0'. injection Hb0' as <-.
    set (n := if PBUF_POOL_BUFSIZE <? rsize then PBUF_POOL_BUFSIZE else rsize).
    assert (Hn : 0 < n <= PBUF_POOL_BUFSIZE) by (unfold n, PBUF_POOL_BUFSIZE; case_bool; lia).
    unfold PBUF_POOL_BUFSIZE in Hn.
    pose proof (core_nodup _ _ _ _ _ _ I) as Hd. cbn [concat] in Hd.
    assert (Hrc : r ∉ concat cs) by (eapply nodup_cons_app, Hd).
    destruct (extend_chain ends s s1 lf lp1 la1 l0 r cs a b0 br n Em Hbr Hne Hnew Hrc Hadd
      ltac:(apply fresh_ok; [exact Hpool|exact Hw|unfold PBUF_POOL_BUFSIZE; lia])) as (I2 & A2 & S2 & T2).
    set (m := <[a:=fresh_buf a b0 n]> (<[r:=with_next (Some a) br]> (mem s))) in *.
    unfold upd. rewrite Em, Hb0. ret. rewrite lookup_insert_ne, Hbr by auto. ret.
    rewrite lookup_insert_ne, lookup_insert_eq by auto. ret.
    rewrite (insert_insert_ne (mem s) r a) by auto. rewrite insert_insert_eq. rewrite (u16_small n) by lia.
    change (<[a:=_]> _) with m. rewrite app_assoc in I2.
    assert (Hh2 : head ((l0 ++ [r]) ++ [a]) = Some p) by (rewrite <- Hh; destruct l0; reflexivity).
    assert (Hk2 : forall q, q ∈ (l0 ++ [r]) ++ [a] -> kind q = PBUF_FLAG_POOL).
    { intros q Hq. apply elem_of_app in Hq as [Hq|Hq]; [apply Hk, Hq|]. apply list_elem_of_singleton in Hq as ->.
      apply pool_bufs_kind, Hpool. }
    assert (Hlen : length (la1 ++ lp1) = length rest) by (rewrite Er; reflexivity). cbn [length] in Hf.
    specialize (IH (set_mem s1 m) lp1 la1 (l0 ++ [r]) a (rsize - PBUF_POOL_BUFSIZE) I2 Hh2 Hk2).
    unfold PBUF_POOL_BUFSIZE at 1 in IH. specialize (IH ltac:(lia) ltac:(lia)). rewrite Hlen in IH.
    assert (Hla : len_at m a = n) by (unfold len_at, m; rewrite lookup_insert_eq; reflexivity).
    assert (Hra : ref_at m a = Some 1) by (unfold ref_at, m; rewrite lookup_insert_eq; reflexivity).
    cbn [mem set_mem] in IH. change 128 with PBUF_POOL_BUFSIZE in IH. cbn [length].
    destruct (decide (bufs_for (rsize - PBUF_POOL_BUFSIZE) <= length rest)%nat) as [Hle|Hgt].
    + rewrite decide_True by lia.
      destruct IH as (r' & s' & lp' & la' & l2 & l' & E & (I3 & A3 & S3 & T3 & N3 & R3 & P3) & El & E2 & E3).
      exists r', s', lp', la', (a :: l2), l'. split; [exact E|].
      split; [|split; [|split; [cbn [length]; lia|cbn [length]; lia]]].
      2: { rewrite <- El, <- (app_assoc _ [a]). reflexivity. }
      split; [rewrite <- (app_assoc _ [a]) in I3; exact I3|]. split; [eapply agree_trans; [exact A2|exact A3]|].
      split; [|split; [|split; [|split]]].
      * eapply same_slots_trans; [exact S2|]. intros q Hq. apply S3, elem_of_app. auto.
      * intros q Hq. rewrite T3 by (apply elem_of_app; auto). apply T2, Hq.
      * rewrite total_cons, N3. rewrite (len_slot m), Hla by (apply S3; rewrite elem_of_app; right; constructor).
        unfold n, PBUF_POOL_BUFSIZE. case_bool; lia.
      * intros q Hq. apply elem_of_cons in Hq as [->|Hq]; [|apply R3, Hq].
        rewrite (ref_slot m) by (apply S3; rewrite elem_of_app; right; constructor). exact Hra.
      * intros q Hq. apply elem_of_cons in Hq as [->|Hq]; [exact Hpool|apply P3, Hq].
    + rewrite decide_False by lia. destruct IH as (r' & s' & lp' & la' & E & I3 & A3).
      exists r', s', lp', la'. split; [exact E|]. split; [exact I3|]. eapply agree_trans; [exact A2|exact A3].
Qed.

(** A structure in memory fresh from an allocator. *)
Definition ends_with ends p e : Z -> Z := fun x => if decide (x = p) then e else ends x.

Lemma regions_of_with ends p e k l : p ∉ l -> regions_of (ends_with ends p e) k l = regions_of ends k l.
Proof. intros Hp. apply regions_of_ext. intros q Hq. unfold ends_with. apply decide_False. intros ->. contradiction. Qed.

Lemma regions_yes ends p e k l : kind p = k -> p ∉ l ->
  regions_of (ends_with ends p e) k (p :: l) = (p, e) :: regions_of ends k l.
Proof.
  intros Hk Hp. rewrite <- (regions_of_with ends p e k l Hp). unfold regions_of. rewrite of_kind_yes by exact Hk.
  rewrite fmap_cons. unfold ends_with at 1. rewrite decide_True by reflexivity. reflexivity.
Qed.

Lemma regions_no ends p e k l : kind p <> k -> p ∉ l ->
  regions_of (ends_with ends p e) k (p :: l) = regions_of ends k l.
Proof.
  intros Hk Hp. rewrite <- (regions_of_with ends p e k l Hp). unfold regions_of. rewrite of_kind_no by exact Hk. reflexivity.
Qed.

Lemma core_new ends s h x lp la lf cs p e b : Core ends s lp la lf cs ->
  kind p <> PBUF_FLAG_POOL -> p ∉ concat cs -> next b = None -> buf_ok (ends_with ends p e) p b ->
  a_live h (regions_of (ends_with ends p e) PBUF_FLAG_RAM (p :: concat cs) ++ oh) ->
  a_live x (regions_of (ends_with ends p e) PBUF_FLAG_ROM (p :: concat cs) ++ om) ->
  Core (ends_with ends p e) (set_mem (set_heap (set_pbufs s x) h) (<[p:=b]> (mem s))) lp la lf ([p] :: cs).
Proof.
  intros [F C] Hk Hp Hn Hok Hh Hx.
  assert (Hpool : forall l, (forall q, q ∈ l -> q ∈ pool_bufs) -> p ∉ l).
  { intros l Hl Hin. apply Hk, pool_bufs_kind, Hl, Hin. }
  pose proof (fl_part _ _ _ _ _ _ _ _ F) as Q.
  assert (N1 : p ∉ lp) by (apply Hpool; intros q Hq; rewrite <- Q; rewrite !elem_of_app; tauto).
  assert (N2 : p ∉ la) by (apply Hpool; intros q Hq; rewrite <- Q; rewrite !elem_of_app; tauto).
  assert (N3 : p ∉ lf) by (apply Hpool; intros q Hq; rewrite <- Q; rewrite !elem_of_app; tauto).
  split.
  - destruct F. constructor; auto; fields; cbn [concat app].
    + eapply linked_agree; [apply agree_insert, N1|assumption].
    + eapply linked_agree; [apply agree_insert, N2|assumption].
    + eapply linked_agree; [apply agree_insert, N3|assumption].
    + intros q Hq. destruct (decide (q = p)) as [->|Hne].
      * exists b. rewrite lookup_insert_eq. auto.
      * apply elem_of_cons in Hq as [|Hq]; [contradiction|]. destruct (fl_bufs0 q Hq) as (bq & Hbq & H1 & H2 & H3 & H4 & H5).
        exists bq. rewrite lookup_insert_ne by auto. split; [exact Hbq|]. repeat split; auto; try tauto.
        unfold room, ends_with in *. rewrite decide_False by exact Hne. tauto.
    + rewrite of_kind_no by exact Hk. assumption.
    + rewrite <- !Permutation_middle. apply NoDup_cons. split; [|exact fl_nodup0].
      rewrite !elem_of_app. tauto.
    + rewrite of_kind_no by exact Hk. assumption.
    + intros q Hq. rewrite lookup_insert_ne; [auto|]. intros <-. apply Hk, pool_bufs_kind, Hq.
  - constructor.
    + cbn. split; [reflexivity|]. exists b. rewrite lookup_insert_eq. auto.
    + fields. eapply chained_agree; [apply agree_insert, Hp|exact C].
Qed.

Lemma layer_offset_cases ly : 0 <= layer_offset ly < 65 /\ layer_offset ly mod 4 = 0.
Proof. destruct ly; vm_compute; repeat split; discriminate. Qed.

Lemma regions_starts ends k l : (regions_of ends k l).*1 = of_kind k l.
Proof.
  unfold regions_of. rewrite <- list_fmap_compose. rewrite <- (list_fmap_id (of_kind k l)) at 2. reflexivity.
Qed.

(** The start of a fresh region is not held. *)
Lemma fresh_start p e ends k l o (A : Type) `{Allocator A} (a : A) :
  a_live a ((p, e) :: regions_of ends k l ++ o) -> kind p = k -> p ∉ l.
Proof.
  intros Hl Hk Hp. apply a_live_nodup in Hl. rewrite fmap_cons, fmap_app, regions_starts in Hl.
  apply NoDup_cons in Hl as [Hn _]. apply Hn, elem_of_app. left. apply list_elem_of_filter. auto.
Qed.

(** The state after [pbuf_alloc] has returned [p]: a new chain [p :: c] of
    [size] bytes, each structure with one reference. *)
Definition alloc_result ends s s' lp' la' lf p c cs (size : Z) (r0 : Z) : Prop :=
  Core ends s' lp' la' lf ((p :: c) :: cs) /\ agree (mem s) (mem s') (concat cs) /\
  total (mem s') (p :: c) = size /\ tot_len <$> mem s' !! p = Some size /\
  ref_at (mem s') p = Some r0 /\ forall q, q ∈ c -> ref_at (mem s') q = Some 1.

Lemma alloc_ram_spec ends s lp la lf cs size offset : Core ends s lp la lf cs ->
  0 <= size < 65536 -> 0 <= offset < 65 -> offset mod 4 = 0 ->
  exists x s', alloc_ram s size offset = Ret (x, s') /\
    match x with
    | None => Core ends s' lp la lf cs /\ mem s' = mem s
    | Some p => exists ends', kind p = PBUF_FLAG_RAM /\ alloc_result ends' s s' lp la lf p [] cs size 0 /\
        payload <$> mem s' !! p = Some (p + SIZEOF_PBUF + offset)
    end.
Proof.
  intros I Hz Ho Hm. pose proof (fl_heap _ _ _ _ _ _ _ _ (proj1 I)) as Hh. pose proof (fl_pbufs _ _ _ _ _ _ _ _ (proj1 I)) as Hx.
  pose proof (lay_max L) as [R _]. change (2 ^ 17) with 131072 in R.
  set (sz := MEM_ALIGN_SIZE (SIZEOF_PBUF + size + offset)).
  assert (Hsz : SIZEOF_PBUF + size + offset <= sz <= SIZEOF_PBUF + size + offset + 3).
  { unfold sz, MEM_ALIGN_SIZE. pose proof (Z.mod_pos_bound (SIZEOF_PBUF + size + offset) 4). case_bool; lia. }
  unfold SIZEOF_PBUF in Hsz at 1 2.
  destruct (a_malloc_ok _ _ sz Hh) as (x & h & E & Hr); [lia|]. unfold alloc_ram. fold sz. rewrite E. ret.
  destruct x as [p|].
  - destruct Hr as (e & He & Hp4 & Hl). pose proof (heap_kind h _ p e Hl ltac:(constructor)) as Hk.
    pose proof (fresh_start p e _ _ _ _ H h Hl Hk) as Hp.
    assert (Hal : MEM_ALIGN_SIZE (p + SIZEOF_PBUF + offset) = p + SIZEOF_PBUF + offset).
    { unfold MEM_ALIGN_SIZE, SIZEOF_PBUF. replace ((p + 16 + offset) mod 4) with 0 by divmod. cbn. lia. }
    rewrite Hal. set (b := Pbuf None PBUF_FLAG_RAM 0 (p + SIZEOF_PBUF + offset) size size).
    exists (Some p). eexists. split; [reflexivity|]. exists (ends_with ends p e). split; [exact Hk|].
    assert (Hsl : len_at (<[p:=b]> (mem s)) p = size) by (unfold len_at; rewrite lookup_insert_eq; reflexivity).
    split; [|cbn [mem set_mem]; rewrite lookup_insert_eq; reflexivity].
    split; [|split; [|split; [|split; [|split]]]]; cbn [mem set_mem].
    + destruct s. apply (core_new _ _ h _ _ _ _ _ p e b I); [rewrite Hk; discriminate|exact Hp|reflexivity| | |].
      * split; [symmetry; exact Hk|]. cbn. repeat split; try lia. unfold room. rewrite Hk. cbn [Z.eqb PBUF_FLAG_RAM PBUF_FLAG_POOL Pos.eqb].
        unfold ends_with. rewrite decide_True by reflexivity. unfold SIZEOF_PBUF in *. lia.
      * rewrite regions_yes by assumption. exact Hl.
      * rewrite regions_no; [exact Hx|rewrite Hk; discriminate|exact Hp].
    + apply agree_insert, Hp.
    + rewrite total_cons, Hsl. cbn. lia.
    + rewrite lookup_insert_eq. reflexivity.
    + unfold ref_at. rewrite lookup_insert_eq. reflexivity.
    + intros q Hq. apply elem_of_nil in Hq. contradiction.
  - exists None. eexists. split; [reflexivity|]. split; [|reflexivity]. destruct I as [F C]. split; [|exact C].
    destruct F. constructor; auto.
Qed.

Lemma alloc_rom_spec ends s lp la lf cs size : Core ends s lp la lf cs -> 0 <= size < 65536 ->
  exists x s', alloc_rom s size = Ret (x, s') /\
    match x with
    | None => Core ends s' lp la lf cs /\ mem s' = mem s
    | Some p => exists ends', kind p = PBUF_FLAG_ROM /\ alloc_result ends' s s' lp la lf p [] cs size 0
    end.
Proof.
  intros I Hz. pose proof (fl_heap _ _ _ _ _ _ _ _ (proj1 I)) as Hh. pose proof (fl_pbufs _ _ _ _ _ _ _ _ (proj1 I)) as Hx.
  pose proof (lay_max L) as [_ R].
  destruct (a_malloc_ok _ _ SIZEOF_PBUF Hx) as (x & y & E & Hr); [unfold SIZEOF_PBUF in *; lia|].
  unfold alloc_rom. rewrite E. ret. destruct x as [p|].
  - destruct Hr as (e & He & Hp4 & Hl). pose proof (pbufs_kind y _ p e Hl ltac:(constructor)) as Hk.
    pose proof (fresh_start p e _ _ _ _ M y Hl Hk) as Hp.
    set (b := Pbuf None PBUF_FLAG_ROM 0 0 size size).
    exists (Some p). eexists. split; [reflexivity|]. exists (ends_with ends p e). split; [exact Hk|].
    assert (Hsl : len_at (<[p:=b]> (mem s)) p = size) by (unfold len_at; rewrite lookup_insert_eq; reflexivity).
    split; [|split; [|split; [|split; [|split]]]]; cbn [mem set_mem].
    + destruct s. apply (core_new _ _ _ y _ _ _ _ p e b I); [rewrite Hk; discriminate|exact Hp|reflexivity| | |].
      * split; [symmetry; exact Hk|]. cbn. repeat split; try lia; contradiction.
      * rewrite regions_no; [exact Hh|rewrite Hk; discriminate|exact Hp].
      * rewrite regions_yes by assumption. exact Hl.
    + apply agree_insert, Hp.
    + rewrite total_cons, Hsl. cbn. lia.
    + rewrite lookup_insert_eq. reflexivity.
    + unfold ref_at. rewrite lookup_insert_eq. reflexivity.
    + intros q Hq. apply elem_of_nil in Hq. contradiction.
  - exists None. eexists. split; [reflexivity|]. split; [|reflexivity]. destruct I as [F C]. split; [|exact C].
    destruct F. constructor; auto.
Qed.

(** The buffers that [pbuf_alloc] needs for [size] bytes. *)
Definition needed (size offset : Z) : nat := S (bufs_for (size - (PBUF_POOL_BUFSIZE - offset))).

Lemma linked_last m x l r b : linked m x (l ++ [r]) -> m !! r = Some b -> next b = None.
Proof.
  intros H1 Hb. apply linked_app in H1 as (y & (_ & b' & Hb' & Hn) & _). rewrite Hb in Hb'. injection Hb' as <-. exact Hn.
Qed.

Lemma core_err ends s lp la lf cs : Core ends s lp la lf cs -> Core ends (on_stats count_err s) lp la lf cs.
Proof. intros [F C]. split; [|exact C]. destruct F. constructor; auto. Qed.

Lemma alloc_pool_spec ends s lp la lf cs size offset : Core ends s lp la lf cs ->
  0 <= size < 65536 -> 0 <= offset < 65 -> offset mod 4 = 0 ->
  exists x s' lp' la', alloc_pool s size offset = Ret (x, s') /\
    match x with
    | None => (length (la ++ lp) < needed size offset)%nat /\ Core ends s' lp' la' lf cs /\ agree (mem s) (mem s') (concat cs)
    | Some p => exists c r0, length (p :: c) = needed size offset /\ 0 <= r0 < 256 /\
        (forall q, q ∈ p :: c -> q ∈ pool_bufs) /\
        (length (la' ++ lp') + needed size offset = length (la ++ lp))%nat /\
        alloc_result ends s s' lp' la' lf p c cs size r0 /\
        payload <$> mem s' !! p = Some (p + SIZEOF_PBUF + offset)
    end.
Proof.
  intros I Hz Ho Hm. unfold alloc_pool, needed. pose proof (pool_alloc_spec _ _ _ _ _ _ I) as Ha.
  destruct (la ++ lp) as [|p rest] eqn:Eal.
  { destruct Ha as (s1 & E1 & I1 & Em). rewrite E1. ret. exists None, (on_stats count_err s1), lp, la.
    split; [reflexivity|]. split; [cbn; lia|]. split; [apply core_err, I1|]. intros q _. cbn [mem on_stats]. rewrite Em. reflexivity. }
  destruct Ha as (s1 & lp1 & la1 & E1 & Er & Em & [b0 Hb0] & Hpool & Hnew & Hadd). rewrite E1. ret.
  destruct (fl_wide _ _ _ _ _ _ _ _ (proj1 I) p Hpool) as (b0' & Hb0' & Hw). rewrite Hb0 in Hb0'. injection Hb0' as <-.
  destruct Hw as [Hw _]. unfold PBUF_POOL_BUFSIZE.
  set (n := if 128 - offset <? size then 128 - offset else size).
  assert (Hn : 0 <= n <= 128 - offset /\ n <= size) by (unfold n; case_bool; lia). rewrite (u16_small n) by lia.
  unfold upd. rewrite Em, Hb0. ret.
  pose proof (pool_bufs_aligned p Hpool) as Hp4. pose proof (pool_bufs_kind p Hpool) as Hk.
  assert (Hal : MEM_ALIGN_SIZE (p + (SIZEOF_PBUF + offset)) = p + SIZEOF_PBUF + offset).
  { unfold MEM_ALIGN_SIZE, SIZEOF_PBUF. replace ((p + (16 + offset)) mod 4) with 0 by divmod. cbn. lia. }
  rewrite Hal. set (b := Pbuf None PBUF_FLAG_POOL (ref b0) (p + SIZEOF_PBUF + offset) size n).
  assert (Hok : buf_ok ends p b).
  { split; [symmetry; exact Hk|]. cbn. repeat split; try lia. unfold room. rewrite Hk. cbn.
    unfold PBUF_POOL_BUFSIZE, SIZEOF_PBUF. lia. }
  specialize (Hadd b eq_refl Hok). rewrite Em in Hadd.
  assert (Htail : bufs_for (size - (128 - offset)) = bufs_for (size - n)).
  { unfold n. case_bool; [reflexivity|]. rewrite !bufs_for_neg by lia. reflexivity. }
  rewrite Htail.
  assert (Hlen6 : (length (p :: rest) <= 6)%nat).
  { pose proof (fl_part _ _ _ _ _ _ _ _ (proj1 I)) as Q. apply Permutation_length in Q.
    rewrite pool_bufs_length, !length_app in Q. rewrite <- Eal, length_app. unfold PBUF_POOL_SIZE in Q. lia. }
  pose proof (pool_tail_spec ends p cs lf (S PBUF_POOL_SIZE) _ lp1 la1 [] p (size - n) Hadd eq_refl) as Ht.
  rewrite Er in Ht. cbn [app length] in *.
  specialize (Ht ltac:(intros q Hq; apply list_elem_of_singleton in Hq as ->; exact Hk) ltac:(unfold PBUF_POOL_SIZE; lia) ltac:(lia)).
  assert (Hag : agree (mem s) (<[p:=b]> (mem s)) (concat cs)) by (apply agree_insert, Hnew).
  destruct (decide (bufs_for (size - n) <= length rest)%nat) as [Hle|Hgt].
  - destruct Ht as (r' & s2 & lp2 & la2 & l2 & l' & E2 & (I2 & A2 & S2 & T2 & N2 & R2 & P2) & El & E3 & E4). rewrite E2. ret.
    cbn [app mem set_mem] in *. assert (Hin : r' ∈ concat ((p :: l2) :: cs)).
    { cbn [concat]. rewrite El. rewrite !elem_of_app. left. right. constructor. }
    destruct (core_load _ _ _ _ _ _ r' I2 Hin) as (br & Hbr & Hokr).
    assert (Hnr : next br = None).
    { pose proof (proj2 I2) as C2. apply Forall_cons in C2 as [C2 _]. cbn [head] in C2. rewrite El in C2. eapply linked_last; eauto. }
    rewrite Hbr. ret.
    assert (Esame : with_next None br = br) by (destruct br; cbn in *; rewrite Hnr; reflexivity). rewrite Esame, insert_id by exact Hbr.
    assert (Eset : set_mem s2 (mem s2) = s2) by (destruct s2; reflexivity). rewrite Eset.
    exists (Some p), s2, lp2, la2. split; [reflexivity|]. exists l2, (ref b0).
    assert (Hsp : slot (mem s2) p = Some (p + SIZEOF_PBUF + offset, n, ref b0)).
    { rewrite (S2 p ltac:(constructor)). unfold slot. rewrite lookup_insert_eq. reflexivity. }
    split; [cbn [length]; lia|]. split; [exact Hw|].
    split; [intros q Hq; apply elem_of_cons in Hq as [->|Hq]; [exact Hpool|apply P2, Hq]|]. split; [lia|]. split.
    + split; [exact I2|]. split; [eapply agree_trans; [exact Hag|exact A2]|]. split; [|split; [|split]].
      * rewrite total_cons, N2. unfold len_at. unfold slot in Hsp. destruct (mem s2 !! p); [|discriminate]. cbn in *. injection Hsp. lia.
      * rewrite (T2 p ltac:(constructor)), lookup_insert_eq. reflexivity.
      * unfold ref_at. unfold slot in Hsp. destruct (mem s2 !! p); [|discriminate]. cbn in *. injection Hsp. congruence.
      * exact R2.
    + unfold slot in Hsp. destruct (mem s2 !! p); [|discriminate]. cbn in *. injection Hsp. congruence.
  - destruct Ht as (r' & s2 & lp2 & la2 & E2 & I2 & A2). rewrite E2. ret. exists None, s2, lp2, la2.
    split; [reflexivity|]. split; [lia|]. split; [exact I2|]. eapply agree_trans; [exact Hag|exact A2].
Qed.

(** The last step of [pbuf_alloc]: the head gets its reference. *)
Lemma alloc_finish ends s s1 lp la lf p c cs size r0 :
  alloc_result ends s s1 lp la lf p c cs size r0 ->
  exists m, upd (mem s1) p (with_ref 1) = Ret m /\
    alloc_result ends s (set_mem s1 m) lp la lf p c cs size 1 /\
    payload <$> m !! p = payload <$> mem s1 !! p.
Proof.
  intros (I & A & T & Tl & R & Rc). destruct (core_load _ _ _ _ _ _ p I ltac:(constructor)) as (b & Hb & Hok).
  unfold upd. rewrite Hb. ret. eexists. split; [reflexivity|].
  assert (Hok2 : buf_ok ends p (with_ref 1 b)).
  { destruct Hok as (H1 & H2 & H3). split; [exact H1|]. split; [cbn; lia|exact H3]. }
  pose proof (core_update _ _ _ _ _ _ p b (with_ref 1 b) I ltac:(constructor) Hb eq_refl Hok2) as I2.
  pose proof (core_nodup _ _ _ _ _ _ I) as Hd. cbn [concat app] in Hd. apply NoDup_cons in Hd as [Hn _].
  assert (Hnc : p ∉ c) by (intros Hx; apply Hn, elem_of_app; auto).
  split; [|rewrite lookup_insert_eq, ?Hb; reflexivity].
  split; [exact I2|]. cbn [mem set_mem]. split; [|split; [|split; [|split]]].
  - eapply agree_trans; [exact A|]. apply agree_insert. intros Hx. apply Hn, elem_of_app. auto.
  - rewrite <- T, !total_cons. f_equal; [unfold len_at; rewrite lookup_insert_eq, Hb; reflexivity|].
    apply total_slots, agree_slots, agree_insert, Hnc.
  - rewrite lookup_insert_eq, <- Tl, Hb. reflexivity.
  - unfold ref_at. rewrite lookup_insert_eq. reflexivity.
  - intros q Hq. rewrite <- (Rc q Hq). unfold ref_at. rewrite lookup_insert_ne; [reflexivity|]. intros ->. contradiction.
Qed.

(** [pbuf_alloc] in every case. *)
Lemma alloc_core ends s lp la cs ly size flag : Core ends s lp la [] cs -> 0 <= size < 65536 ->
  exists x s' lp' la' ends', pbuf_alloc s ly size flag = Ret (x, s') /\
    match x with
    | None => Core ends' s' lp' la' [] cs /\ agree (mem s) (mem s') (concat cs) /\
        (flag = PBUF_POOL -> (length (la ++ lp) < needed size (layer_offset ly))%nat)
    | Some p => exists c, alloc_result ends' s s' lp' la' [] p c cs size 1 /\
        (flag = PBUF_POOL -> (length (p :: c) = needed size (layer_offset ly) /\
          length (la' ++ lp') + length (p :: c) = length (la ++ lp))%nat /\
          forall q, q ∈ p :: c -> q ∈ pool_bufs) /\
        (flag <> PBUF_POOL -> c = []) /\
        (flag <> PBUF_ROM -> payload <$> mem s' !! p = Some (p + SIZEOF_PBUF + layer_offset ly))
    end.
Proof.
  intros I Hz. destruct (layer_offset_cases ly) as [Ho Hm]. unfold pbuf_alloc. destruct flag.
  - destruct (alloc_ram_spec _ _ _ _ _ _ size _ I Hz Ho Hm) as (x & s1 & E & Hr). rewrite E. ret.
    destruct x as [p|].
    + destruct Hr as (ends' & _ & Hr & Hp). destruct (alloc_finish _ _ _ _ _ _ _ _ _ _ _ Hr) as (m & Em & Hr' & Epl).
      rewrite Em. ret. exists (Some p). eexists _, _, _, ends'. split; [reflexivity|]. exists []. split; [exact Hr'|].
      split; [discriminate|]. split; [auto|]. intros _. cbn [mem set_mem]. rewrite Epl. exact Hp.
    + exists None, s1, lp, la, ends. split; [reflexivity|]. destruct Hr as [Hr Em]. split; [exact Hr|].
      split; [intros q _; rewrite Em; reflexivity|discriminate].
  - destruct (alloc_rom_spec _ _ _ _ _ _ size I Hz) as (x & s1 & E & Hr). rewrite E. ret.
    destruct x as [p|].
    + destruct Hr as (ends' & _ & Hr). destruct (alloc_finish _ _ _ _ _ _ _ _ _ _ _ Hr) as (m & Em & Hr' & Epl).
      rewrite Em. ret. exists (Some p). eexists _, _, _, ends'. split; [reflexivity|]. exists []. split; [exact Hr'|].
      split; [discriminate|]. split; [auto|]. contradiction.
    + exists None, s1, lp, la, ends. split; [reflexivity|]. destruct Hr as [Hr Em]. split; [exact Hr|].
      split; [intros q _; rewrite Em; reflexivity|discriminate].
  - destruct (alloc_pool_spec _ _ _ _ _ _ size _ I Hz Ho Hm) as (x & s1 & lp1 & la1 & E & Hr). rewrite E. ret.
    destruct x as [p|].
    + destruct Hr as (c & r0 & Hlen & _ & Hpool & Hav & Hr & Hp).
      destruct (alloc_finish _ _ _ _ _ _ _ _ _ _ _ Hr) as (m & Em & Hr' & Epl).
      rewrite Em. ret. exists (Some p). eexists _, _, _, ends. split; [reflexivity|]. exists c. split; [exact Hr'|].
      split; [|split; [contradiction|intros _; cbn [mem set_mem]; rewrite Epl; exact Hp]].
      intros _. split; [|exact Hpool]. split; [exact Hlen|]. rewrite Hlen. exact Hav.
    + destruct Hr as (Hlt & Hr & A). exists None, s1, lp1, la1, ends. split; [reflexivity|]. auto.
Qed.

(** ** Headers, references and chains *)

Lemma core_perm ends s lp la lf cs cs' : cs ≡ₚ cs' -> Core ends s lp la lf cs -> Core ends s lp la lf cs'.
Proof.
  intros P [F C]. split.
  - eapply flat_perm; [|exact F]. rewrite P. reflexivity.
  - unfold chained in *. rewrite <- P. exact C.
Qed.

(** What holds of the chains of a client: the head has the length of the whole
    chain and every structure has a reference. *)
Definition chain_ok m (c : list Z) : Prop :=
  (exists p, head c = Some p /\ tot_len <$> m !! p = Some (total m c)) /\
  forall q, q ∈ c -> exists r, ref_at m q = Some r /\ 1 <= r.

Lemma chain_ok_agree m m' c : agree m m' c -> chain_ok m c -> chain_ok m' c.
Proof.
  intros A [(p & Hp & Ht) Hr]. assert (Hin : p ∈ c) by (destruct c; [discriminate|injection Hp as ->; constructor]).
  split.
  - exists p. split; [exact Hp|]. rewrite (A p Hin), Ht. f_equal. symmetry. apply total_slots, agree_slots, A.
  - intros q Hq. destruct (Hr q Hq) as (r & E & H1). exists r. split; [|exact H1]. unfold ref_at. rewrite (A q Hq). exact E.
Qed.

Lemma chains_ok_agree m m' cs : agree m m' (concat cs) -> Forall (chain_ok m) cs -> Forall (chain_ok m') cs.
Proof.
  induction cs as [|c cs IH]; intros A Hc; [constructor|]. apply Forall_cons in Hc as [H1 H2]. constructor.
  - eapply chain_ok_agree; [|exact H1]. intros q Hq. apply A. cbn [concat]. apply elem_of_app. auto.
  - apply IH; [|exact H2]. eapply agree_tail, A.
Qed.

(** A chain whose head has a new length. *)
Lemma head_fresh ends s lp la lf p c cs : Core ends s lp la lf ((p :: c) :: cs) -> p ∉ c /\ p ∉ concat cs.
Proof.
  intros I. pose proof (core_nodup _ _ _ _ _ _ I) as Hd. cbn [concat app] in Hd. apply NoDup_cons in Hd as [Hn _].
  rewrite elem_of_app in Hn. tauto.
Qed.

(** The bytes of a chain, head first. *)
Lemma bytes_cons m p c b : m !! p = Some b -> bytes m (p :: c) = seqZ (payload b) (len b) ++ bytes m c.
Proof. intros Hb. unfold bytes, bytes_at at 1. cbn. rewrite Hb. reflexivity. Qed.

(** No structure of the pool or the heap reaches the upper half of the memory. *)
Lemma room_high ends s lp la lf cs p : Core ends s lp la lf cs -> p ∈ concat cs -> kind p <> PBUF_FLAG_ROM ->
  room ends p < 2 ^ 31 + 144.
Proof.
  intros [F _] Hp Hk. pose proof (lay_high L) as (H1 & H2 & _). unfold room.
  destruct (Z.eqb_spec (kind p) PBUF_FLAG_POOL) as [Hpool|Hno].
  - unfold kind in Hpool. destruct (_ && _) eqn:E; [unfold SIZEOF_PBUF, PBUF_POOL_BUFSIZE; lia|].
    destruct (_ && _) in Hpool; discriminate.
  - pose proof (kind_ram p Hno Hk) as Hram.
    destruct (a_range _ _ p (ends p) (fl_heap _ _ _ _ _ _ _ _ F)) as (_ & _ & R); [|lia].
    apply elem_of_app. left. apply list_elem_of_fmap. exists p. split; [reflexivity|].
    apply list_elem_of_filter. auto.
Qed.

Lemma head_bounds ends s lp la lf cs p b : Core ends s lp la lf cs -> p ∈ concat cs -> mem s !! p = Some b ->
  flags b <> PBUF_FLAG_ROM -> 32768 <= p /\ p + SIZEOF_PBUF <= payload b /\ payload b + len b < 2 ^ 31 + 144.
Proof.
  intros I Hp Hb Hk. destruct (core_load _ _ _ _ _ _ p I Hp) as (b1 & Hb1 & H1 & _ & _ & _ & H5).
  rewrite Hb in Hb1. injection Hb1 as <-. rewrite H1 in Hk. specialize (H5 Hk).
  pose proof (room_high _ _ _ _ _ _ p I Hp Hk). pose proof (lay_low L) as (L1 & L2 & _). change (2 ^ 15) with 32768 in *.
  split; [|lia]. clear - Hk L1 L2. unfold kind in Hk. repeat case_bool; cbn in Hk; try lia; congruence.
Qed.

Definition header_ok (b : pbuf) (n : Z) : Prop :=
  - 32768 <= n < 32768 /\ - len b <= n /\ len b + n < 65536 /\ tot_len b + n < 65536.

Lemma header_core ends s lp la lf p c cs b n : Core ends s lp la lf ((p :: c) :: cs) -> chain_ok (mem s) (p :: c) ->
  mem s !! p = Some b -> header_ok b n ->
  let b' := Pbuf (next b) (flags b) (ref b) (u32 (payload b - n)) (tot_len b + n) (len b + n) in
  u32 (payload b - n) < p + SIZEOF_PBUF /\ pbuf_header s p n = Ret (255, s) \/
  p + SIZEOF_PBUF <= u32 (payload b - n) /\ pbuf_header s p n = Ret (0, set_mem s (<[p := b']> (mem s))) /\
    Core ends (set_mem s (<[p := b']> (mem s))) lp la lf ((p :: c) :: cs) /\
    chain_ok (<[p := b']> (mem s)) (p :: c) /\ agree (mem s) (<[p := b']> (mem s)) (concat cs) /\
    bytes (<[p := b']> (mem s)) (p :: c) = seqZ (u32 (payload b - n)) (len b + n) ++ bytes (mem s) c.
Proof.
  intros I [(p' & Hp' & Ht) Hr] Hb (Hn & Hl1 & Hl2 & Ht2) b'. injection Hp' as <-. rewrite Hb, total_cons in Ht.
  injection Ht as Ht.
  destruct (core_load _ _ _ _ _ _ p I ltac:(constructor)) as (b1 & Hb1 & Hok). rewrite Hb in Hb1. injection Hb1 as <-.
  destruct (head_fresh _ _ _ _ _ _ _ _ I) as [Hpc Hpcs].
  destruct Hok as (H1 & H2 & H3 & H4 & H5). unfold pbuf_header. rewrite Hb. ret.
  assert (Htot : 0 <= total (mem s) c).
  { assert (Hs : sized (mem s) c) by (apply (core_sized _ _ _ _ _ _ _ I); intros q Hq; cbn [concat]; apply elem_of_app; left; constructor; exact Hq).
    rewrite <- (bytes_length _ _ Hs). lia. }
  unfold len_at in Ht. rewrite Hb in Ht. cbn [from_option] in Ht.
  destruct (Z.ltb_spec (u32 (payload b - n)) (p + SIZEOF_PBUF)) as [Hlt|Hge]; [left; split; [exact Hlt|reflexivity]|right].
  rewrite !u16_small by lia. split; [exact Hge|]. split; [reflexivity|].
  assert (Hok2 : buf_ok ends p b').
  { split; [exact H1|]. split; [exact H2|]. split; [cbn; lia|]. split; [cbn; lia|]. intros Hk. specialize (H5 Hk).
    destruct (head_bounds _ _ _ _ _ _ p b I ltac:(constructor) Hb ltac:(rewrite H1; exact Hk)) as (B1 & B2 & B3).
    assert (Hu : u32 (payload b - n) = payload b - n).
    { unfold SIZEOF_PBUF in *. change (2 ^ 31) with 2147483648 in *. apply u32_small. lia. }
    cbn. rewrite Hu in *. lia. }
  assert (Hlen : len_at (<[p:=b']> (mem s)) p = len b + n) by (unfold len_at; rewrite lookup_insert_eq; reflexivity).
  assert (Htc : total (<[p:=b']> (mem s)) c = total (mem s) c) by (apply total_slots, agree_slots, agree_insert, Hpc).
  split; [eapply core_update; eauto; constructor|]. split; [|split; [apply agree_insert, Hpcs|]].
  - split.
    + exists p. split; [reflexivity|]. rewrite lookup_insert_eq, total_cons, Hlen, Htc. cbn. f_equal. lia.
    + intros q Hq. destruct (decide (q = p)) as [->|Hne].
      * destruct (Hr p ltac:(constructor)) as (r & E & Hr1). exists r. split; [|exact Hr1]. unfold ref_at in *.
        rewrite lookup_insert_eq. rewrite Hb in E. exact E.
      * unfold ref_at. rewrite lookup_insert_ne by auto. apply Hr, Hq.
  - rewrite (bytes_cons _ _ _ b') by apply lookup_insert_eq. f_equal. apply bytes_slots, agree_slots, agree_insert, Hpc.
Qed.

Lemma ref_core ends s lp la lf cs p b : Core ends s lp la lf cs -> p ∈ concat cs -> mem s !! p = Some b -> ref b < 255 ->
  pbuf_ref s (Some p) = Ret (set_mem s (<[p := with_ref (ref b + 1) b]> (mem s))) /\
  Core ends (set_mem s (<[p := with_ref (ref b + 1) b]> (mem s))) lp la lf cs.
Proof.
  intros I Hp Hb Hr. destruct (core_load _ _ _ _ _ _ p I Hp) as (b1 & Hb1 & Hok). rewrite Hb in Hb1. injection Hb1 as <-.
  destruct Hok as (H1 & H2 & H3). cbn [pbuf_ref]. unfold upd. rewrite Hb. ret. rewrite u8_small by lia. split; [reflexivity|].
  eapply core_update; eauto. split; [exact H1|]. split; [cbn; lia|exact H3].
Qed.

(** Changing the reference count keeps the chains. *)
Lemma chain_ok_ref m p b r c : m !! p = Some b -> 1 <= r -> chain_ok m c -> chain_ok (<[p := with_ref r b]> m) c.
Proof.
  intros Hb Hr [(h & Hh & Ht) Hrefs].
  assert (Hsl : forall q, tot_len <$> <[p := with_ref r b]> m !! q = tot_len <$> m !! q /\
    len_at (<[p := with_ref r b]> m) q = len_at m q).
  { intros q. unfold len_at. destruct (decide (q = p)) as [->|Hne].
    - rewrite lookup_insert_eq, Hb. auto.
    - rewrite lookup_insert_ne by auto. auto. }
  assert (Htot : total (<[p := with_ref r b]> m) c = total m c).
  { clear - Hsl. induction c as [|a c IH]; [reflexivity|]. rewrite !total_cons, IH. destruct (Hsl a) as [_ ->]. reflexivity. }
  split.
  - exists h. split; [exact Hh|]. destruct (Hsl h) as [-> _]. rewrite Htot. exact Ht.
  - intros q Hq. destruct (decide (q = p)) as [->|Hne].
    + exists r. unfold ref_at. rewrite lookup_insert_eq. auto.
    + unfold ref_at. rewrite lookup_insert_ne by auto. apply Hrefs, Hq.
Qed.

Lemma chain_core ends s lp la lf h c1 t c2 cs : Core ends s lp la lf ((h :: c1) :: (t :: c2) :: cs) ->
  chain_ok (mem s) (h :: c1) -> chain_ok (mem s) (t :: c2) ->
  total (mem s) (h :: c1) + total (mem s) (t :: c2) < 65536 ->
  exists s', pbuf_chain s h t = Ret s' /\ Core ends s' lp la lf ((h :: c1 ++ t :: c2) :: cs) /\
    chain_ok (mem s') (h :: c1 ++ t :: c2) /\ agree (mem s) (mem s') (concat cs) /\
    same_slots (mem s) (mem s') (h :: c1 ++ t :: c2).
Proof.
  intros I [(h' & Hh & Hth) Hrh] [(t' & Ht & Htt) Hrt] Hsum. injection Hh as <-. injection Ht as <-.
  pose proof (core_nodup _ _ _ _ _ _ I) as Hd. cbn [concat] in Hd.
  pose proof (proj2 I) as C. unfold chained in C. rewrite !Forall_cons in C. destruct C as (C1 & C2 & _). cbn [head] in C1, C2.
  assert (Hd1 : NoDup (h :: c1)) by (apply NoDup_app in Hd; tauto).
  pose proof (chain_fuel_enough _ _ _ C1 Hd1) as Hf.
  destruct (split_last h c1) as (l1 & r & El). rewrite El in I, C1, Hf, Hd1.
  assert (Hrc : r ∈ concat ((l1 ++ [r]) :: (t :: c2) :: cs)) by (cbn [concat]; rewrite !elem_of_app; left; right; constructor).
  destruct (core_load _ _ _ _ _ _ r I Hrc) as (br & Hbr & _).
  pose proof (core_join _ _ _ _ _ _ _ _ _ _ _ I Hbr) as I1.
  assert (Hrt' : r ∉ (t :: c2) ++ concat cs) by (eapply (nodup_cons_app l1 r []); rewrite El in Hd; exact Hd).
  unfold pbuf_chain. rewrite (last_of_spec _ l1 r h _ C1) by (rewrite length_app in Hf; cbn in Hf; lia). ret.
  unfold upd. rewrite Hbr. ret. set (m1 := <[r := with_next (Some t) br]> (mem s)) in *.
  destruct (mem s !! t) as [bt|] eqn:Ebt; [|discriminate]. cbn [fmap option_fmap option_map] in Htt. apply (inj Some) in Htt.
  assert (Hm1t : m1 !! t = Some bt) by (unfold m1; rewrite lookup_insert_ne; [exact Ebt|intros ->; apply Hrt'; constructor]).
  rewrite Hm1t. ret.
  assert (Hs1 : forall q, slot m1 q = slot (mem s) q /\ tot_len <$> m1 !! q = tot_len <$> mem s !! q).
  { intros q. unfold slot, m1. destruct (decide (q = r)) as [->|Hne].
    - rewrite lookup_insert_eq, Hbr. auto.
    - rewrite lookup_insert_ne by auto. auto. }
  destruct (Hs1 h) as [_ Hh1]. rewrite Hth in Hh1. destruct (m1 !! h) as [bh|] eqn:Ebh; [|discriminate]. cbn [fmap option_fmap option_map] in Hh1. apply (inj Some) in Hh1.
  ret. rewrite Htt, Hh1.
  assert (Hpos : 0 <= total (mem s) (h :: c1) /\ 0 <= total (mem s) (t :: c2)).
  { rewrite <- Hh1, <- Htt. split; [|].
    - destruct (core_load _ _ _ _ _ _ h I ltac:(rewrite <- El; constructor)) as (b & Hb & _ & _ & _ & Hw & _).
      rewrite Hb in Hth. cbn [fmap option_fmap option_map] in Hth. apply (inj Some) in Hth. lia.
    - destruct (core_load _ _ _ _ _ _ t I ltac:(cbn [concat]; rewrite !elem_of_app; right; left; constructor)) as (b & Hb & _ & _ & _ & Hw & _).
      rewrite Ebt in Hb. injection Hb as <-. lia. }
  rewrite u16_small by lia. eexists. split; [reflexivity|]. set (b2 := with_tot_len _ bh).
  rewrite app_assoc, <- El in I1. change ((h :: c1) ++ t :: c2) with (h :: c1 ++ t :: c2) in I1.
  assert (Hok2 : buf_ok ends h b2).
  { destruct (core_load _ _ _ _ _ _ h I1 ltac:(constructor)) as (b & Hb & H1 & H2 & H3 & H4 & H5). cbn [mem set_mem] in Hb.
    rewrite Ebh in Hb. injection Hb as <-. split; [exact H1|]. split; [exact H2|]. split; [exact H3|].
    split; [unfold b2; cbn [tot_len with_tot_len]; lia|exact H5]. }
  pose proof (core_update _ _ _ _ _ _ h bh b2 I1 ltac:(constructor) Ebh eq_refl Hok2) as I2.
  assert (Hs2 : same_slots (mem s) (<[h:=b2]> m1) (h :: c1 ++ t :: c2)).
  { intros q _. destruct (Hs1 q) as [<- _]. revert q. intros q. unfold slot. destruct (decide (q = h)) as [->|Hne].
    - rewrite lookup_insert_eq, Ebh. reflexivity.
    - rewrite lookup_insert_ne by auto. reflexivity. }
  split; [exact I2|]. cbn [mem set_mem]. split; [|split; [|exact Hs2]].
  - split.
    + exists h. split; [reflexivity|]. rewrite lookup_insert_eq, (total_slots _ _ _ Hs2).
      change (h :: c1 ++ t :: c2) with ((h :: c1) ++ t :: c2). rewrite total_app. reflexivity.
    + intros q Hq. rewrite (ref_slot (mem s)) by (apply Hs2, Hq). change (h :: c1 ++ t :: c2) with ((h :: c1) ++ t :: c2) in Hq.
      apply elem_of_app in Hq as [Hq|Hq]; [apply Hrh, Hq|apply Hrt, Hq].
  - unfold m1. eapply agree_trans; apply agree_insert; intros Hx; [apply Hrt', elem_of_app; auto|].
    cbn [app] in Hd. apply NoDup_cons in Hd as [Hd _]. apply Hd, elem_of_app. right. constructor. apply elem_of_app. auto.
Qed.

Lemma dechain_core ends s lp la lf p c cs : Core ends s lp la lf ((p :: c) :: cs) -> chain_ok (mem s) (p :: c) ->
  exists s', pbuf_dechain s p = Ret (head c, s') /\ Core ends s' lp la lf ([p] :: c :: cs) /\
    chain_ok (mem s') [p] /\ (c <> [] -> chain_ok (mem s') c) /\ agree (mem s) (mem s') (concat cs) /\
    same_slots (mem s) (mem s') (p :: c).
Proof.
  intros I [(p' & Hp & Ht) Hr]. apply (inj Some) in Hp as <-. destruct (head_fresh _ _ _ _ _ _ _ _ I) as [Hpc Hpcs].
  destruct (core_load _ _ _ _ _ _ p I ltac:(constructor)) as (b & Hb & Hok). rewrite Hb in Ht. apply (inj Some) in Ht.
  cbn [tot_len] in Ht. rewrite total_cons in Ht. assert (Hlp : len_at (mem s) p = len b) by (unfold len_at; rewrite Hb; reflexivity).
  rewrite Hlp in Ht. destruct (chained_cons _ _ _ _ (proj2 I)) as (b1 & Hb1 & Hnx & _). rewrite Hb in Hb1. apply (inj Some) in Hb1 as <-.
  destruct Hok as (H1 & H2 & H3 & H4 & H5).
  (* the length of the second structure *)
  assert (Hm1 : exists m1, (match next b with None => Ret (mem s) | Some q => upd (mem s) q (with_tot_len (u16 (tot_len b - len b))) end) = Ret m1 /\
    Core ends (set_mem s m1) lp la lf ((p :: c) :: cs) /\ m1 !! p = Some b /\ same_slots (mem s) m1 (p :: c) /\
    agree (mem s) m1 (concat cs) /\ (forall q, head c = Some q -> tot_len <$> m1 !! q = Some (total (mem s) c))).
  { rewrite Hnx. destruct c as [|q c]; cbn [head].
    - exists (mem s). split; [reflexivity|]. split; [destruct s; exact I|]. split; [exact Hb|]. split; [intros ? ?; reflexivity|].
      split; [intros ? ?; reflexivity|discriminate].
    - destruct (core_load _ _ _ _ _ _ q I ltac:(do 2 constructor)) as (bq & Hbq & Hokq). unfold upd. rewrite Hbq. ret.
      assert (Htot : 0 <= total (mem s) (q :: c)).
      { rewrite <- bytes_length; [lia|]. apply (core_sized _ _ _ _ _ _ _ I). intros x Hx. cbn [concat]. apply elem_of_app. left. constructor. exact Hx. }
      rewrite u16_small by lia. eexists. split; [reflexivity|].
      assert (Hne : q <> p) by (intros ->; apply Hpc; constructor).
      split; [eapply core_update; eauto; [do 2 constructor|]|].
      { destruct Hokq as (Q1 & Q2 & Q3 & Q4 & Q5). split; [exact Q1|]. split; [exact Q2|]. split; [exact Q3|].
        split; [cbn [tot_len with_tot_len]; lia|exact Q5]. }
      split; [rewrite lookup_insert_ne by auto; exact Hb|]. split; [apply (slots_update _ q bq); [exact Hbq|reflexivity]|].
      split.
      + apply agree_insert. pose proof (core_nodup _ _ _ _ _ _ I) as Hd. cbn [concat app] in Hd.
        apply NoDup_cons in Hd as [_ Hd]. apply NoDup_cons in Hd as [Hd _]. rewrite elem_of_app in Hd. tauto.
      + intros x Hx. apply (inj Some) in Hx as <-. rewrite lookup_insert_eq. cbn [fmap option_fmap option_map tot_len with_tot_len]. f_equal. lia. }
  destruct Hm1 as (m1 & E1 & I1 & Hb1 & S1 & A1 & T1).
  unfold pbuf_dechain. rewrite Hb. ret. rewrite E1. ret. unfold upd. rewrite Hb1. ret. rewrite Hnx.
  eexists. split; [reflexivity|]. set (b2 := with_next None (with_tot_len (len b) b)).
  assert (Hok2 : buf_ok ends p b2) by (split; [exact H1|]; split; [exact H2|]; split; [exact H3|]; split; [exact H3|exact H5]).
  destruct (core_cut ends (set_mem s m1) lp la lf [] p b c cs b2 I1 Hb1 eq_refl Hok2) as [I2 _].
  assert (S2 : same_slots m1 (<[p:=b2]> m1) (p :: c)) by (apply (slots_update _ p b); [exact Hb1|reflexivity]).
  assert (S : same_slots (mem s) (<[p:=b2]> m1) (p :: c)) by (eapply same_slots_trans; [exact S1|exact S2]).
  assert (Hrefs : forall q, q ∈ p :: c -> exists r, ref_at (<[p:=b2]> m1) q = Some r /\ 1 <= r).
  { intros q Hq. rewrite (ref_slot (mem s)) by (apply S, Hq). apply Hr, Hq. }
  assert (Sc : same_slots (mem s) (<[p:=b2]> m1) c) by (intros q Hq; apply S; constructor; exact Hq).
  split; [exact I2|]. cbn [mem set_mem]. split; [|split; [|split; [|exact S]]].
  - split.
    + exists p. split; [reflexivity|]. rewrite lookup_insert_eq, total_cons. unfold len_at. rewrite lookup_insert_eq.
      cbn [fmap option_fmap option_map from_option total foldr tot_len len with_next with_tot_len b2]. f_equal. lia.
    + intros q Hq. apply Hrefs. apply list_elem_of_singleton in Hq as ->. constructor.
  - intros Hc. destruct c as [|q c]; [contradiction|]. split.
    + exists q. split; [reflexivity|]. rewrite lookup_insert_ne by (intros ->; apply Hpc; constructor).
      rewrite (T1 q eq_refl), (total_slots _ _ _ Sc). reflexivity.
    + intros x Hx. apply Hrefs. constructor. exact Hx.
  - eapply agree_trans; [exact A1|apply agree_insert, Hpcs].
Qed.

(** The pool right after [pbuf_init]. *)
Lemma pool_bufs_eq : let d p := p + PBUF_POOL_BUFSIZE + SIZEOF_PBUF in
  pool_bufs = [pool_memory; d pool_memory; d (d pool_memory); d (d (d pool_memory));
               d (d (d (d pool_memory))); d (d (d (d (d pool_memory))))].
Proof. unfold pool_bufs, PBUF_POOL_SIZE, PBUF_POOL_BUFSIZE, SIZEOF_PBUF. cbn [seq fmap list_fmap]. cbv zeta.
  repeat (apply (f_equal2 cons); [lia|]). reflexivity.
Qed.

Lemma init_core h x : a_live h oh -> a_live x om ->
  exists s, pbuf_init pool_memory h x = Ret s /\ heap s = h /\ pbufs s = x /\ Core (fun _ => 0) s pool_bufs [] [] [].
Proof.
  intros Hh Hx. unfold pbuf_init. cbn [init_loop PBUF_POOL_SIZE]. unfold upd. rewrite lookup_insert_eq. ret.
  eexists. split; [reflexivity|]. split; [reflexivity|]. split; [reflexivity|]. split; [|constructor].
  assert (D : forall p, p < p + PBUF_POOL_BUFSIZE + SIZEOF_PBUF) by (intros p; unfold PBUF_POOL_BUFSIZE, SIZEOF_PBUF; lia).
  constructor; fields; cbn [concat]; auto.
  - rewrite pool_bufs_eq. cbn [linked]. rewrite insert_insert_eq.
    repeat (split; [reflexivity|]; eexists; split; [repeat rewrite lookup_insert_ne by (unfold PBUF_POOL_BUFSIZE, SIZEOF_PBUF; lia);
      apply lookup_insert_eq|]; cbn [next with_next]).
    reflexivity.
  - reflexivity.
  - reflexivity.
  - intros p Hp. apply elem_of_nil in Hp. contradiction.
  - rewrite !app_nil_r. apply pool_bufs_nodup.
  - intros p Hp. rewrite pool_bufs_eq, !elem_of_cons in Hp. rewrite insert_insert_eq.
    repeat (destruct Hp as [->|Hp]; [eexists; split; [repeat rewrite lookup_insert_ne by (unfold PBUF_POOL_BUFSIZE, SIZEOF_PBUF; lia);
      apply lookup_insert_eq|split; cbn; unfold PBUF_POOL_BUFSIZE; lia]|]).
    apply elem_of_nil in Hp. contradiction.
Qed.
End Steps.
End Invariant.
