(* ===== verification/PbufCalls.v ===== *)
(** * The properties of the packet buffers

    A client of [Pbuf] owns chains, given by their heads.  [run] is one call of
    such a client, [allowed] what it must respect; the theorems say what holds
    after any sequence of allowed calls and what each call does to the bytes of
    a chain, and two examples what goes wrong outside of [allowed]. *)

From stdpp Require Import base gmap list relations.
From Stdlib Require Import ZArith Lia.
From S2P Require Import Prelude Mem Memp SysArch Alloc Pbuf PbufInv.

Local Open Scope Z_scope.

(** The structures linked from a pointer, as a computation. *)
Fixpoint walk (fuel : nat) (m : gmap Z pbuf) (p : option Z) : list Z :=
  match p, fuel with
  | Some a, S k => match m !! a with Some b => a :: walk k m (next b) | None => [] end
  | _, _ => []
  end.
Definition chain_of (m : gmap Z pbuf) (p : Z) : list Z := walk (chain_fuel m) m (Some p).

Lemma walk_linked m x c fuel : linked m x c -> (length c <= fuel)%nat -> walk fuel m x = c.
Proof.
  revert x fuel. induction c as [|a c IH]; intros x fuel Hc Hf.
  - cbn in Hc. subst x. destruct fuel; reflexivity.
  - destruct Hc as (-> & b & Hb & Hc). destruct fuel as [|k]; cbn in Hf; [lia|]. cbn. rewrite Hb. f_equal.
    apply IH; [exact Hc|lia].
Qed.

Lemma chain_of_linked m p c : linked m (Some p) c -> NoDup c -> chain_of m p = c.
Proof. intros Hc Hd. apply walk_linked; [exact Hc|]. pose proof (chain_fuel_enough _ _ _ Hc Hd). lia. Qed.

Definition without (p : Z) (hs : list Z) : list Z := filter (fun q : Z => q <> p) hs.

Lemma without_perm p hs hs' : NoDup hs -> hs ≡ₚ p :: hs' -> without p hs ≡ₚ hs'.
Proof.
  intros Hd P. unfold without. rewrite P. rewrite filter_cons_False by auto.
  rewrite P in Hd. apply NoDup_cons in Hd as [Hn _].
  assert (E : forall l : list Z, p ∉ l -> filter (fun q : Z => q <> p) l = l).
  { induction l as [|a l IH]; intros Hl; [reflexivity|]. rewrite filter_cons_True by set_solver. f_equal. apply IH. set_solver. }
  rewrite (E hs' Hn). reflexivity.
Qed.

(** ** Calls *)

Inductive call :=
| CAlloc (ly : pbuf_layer) (size : Z) (flag : pbuf_flag)
| CFree (p : Z)
| CRealloc (p size : Z)
| CHeader (p n : Z)
| CRef (p : Z)
| CChain (h t : Z)
| CDechain (p : Z)
| CRefresh.

Section Client.
Context {H M : Type} `{AH : Allocator H} `{SH : !Shrinking H} `{AM : Allocator M} (pool_memory : Z).
Notation state := (pbuf_state H M).
Implicit Types (s : state) (hs : list Z).

(** A call and the heads the client owns after it. *)
Definition run (c : call) (x : state * list Z) : outcome (state * list Z) :=
  let '(s, hs) := x in
  match c with
  | CAlloc ly size flag =>
      r ← pbuf_alloc s ly size flag; Ret (r.2, match r.1 with Some p => p :: hs | None => hs end)
  | CFree p => r ← pbuf_free s (Some p); Ret (r.2, if decide (ref_at (mem s) p = Some 1) then without p hs else hs)
  | CRealloc p size => s ← pbuf_realloc s p size; Ret (s, hs)
  | CHeader p n => r ← pbuf_header s p n; Ret (r.2, hs)
  | CRef p => s ← pbuf_ref s (Some p); Ret (s, hs)
  | CChain h t => s ← pbuf_chain s h t; Ret (s, without t hs)
  | CDechain p => r ← pbuf_dechain s p; Ret (r.2, match r.1 with Some q => q :: hs | None => hs end)
  | CRefresh => s ← pbuf_refresh s; Ret (s, hs)
  end.

(** What a client must respect: it passes heads of its chains, 16-bit sizes,
    cuts chains where [may_cut] allows it, does not move a header out of the
    lengths of the fields, and does not count a ninth bit of references. *)
Definition allowed (c : call) (x : state * list Z) : Prop :=
  let '(s, hs) := x in
  match c with
  | CAlloc _ size _ => 0 <= size < 65536
  | CFree p => p ∈ hs
  | CRealloc p size => p ∈ hs /\ 0 <= size < 65536 /\
      (forall b, mem s !! p = Some b -> size < tot_len b -> may_cut (H := H) pool_memory (mem s) size (chain_of (mem s) p))
  | CHeader p n => p ∈ hs /\ forall b, mem s !! p = Some b -> header_ok b n
  | CRef p => p ∈ hs /\ ref_at (mem s) p <> Some 255
  | CChain h t => h ∈ hs /\ t ∈ hs /\ h <> t /\
      total (mem s) (chain_of (mem s) h) + total (mem s) (chain_of (mem s) t) < 65536
  | CDechain p => p ∈ hs
  | CRefresh => True
  end.

Definition client_step (x y : state * list Z) : Prop := exists c, allowed c x /\ run c x = Ret y.

Context (L : layout (H := H) (M := M) pool_memory) (oh om : list (Z * Z)).

Definition client_inv (x : state * list Z) : Prop :=
  exists ends lp la cs, core pool_memory oh om ends x.1 lp la [] cs /\
    Forall (chain_ok (mem x.1)) cs /\ x.2 ≡ₚ omap head cs.

Lemma heads_sublist (cs : list (list Z)) : sublist (omap head cs) (concat cs).
Proof.
  induction cs as [|c cs IH]; [constructor|]. destruct c as [|p c]; cbn; [exact IH|].
  constructor. apply sublist_inserts_l, IH.
Qed.

(** The chain of an owned head, in front of the others. *)
Lemma pick s hs p : client_inv (s, hs) -> p ∈ hs ->
  exists ends lp la c cs, core pool_memory oh om ends s lp la [] ((p :: c) :: cs) /\
    chain_ok (mem s) (p :: c) /\ Forall (chain_ok (mem s)) cs /\ hs ≡ₚ p :: omap head cs /\ NoDup hs /\
    chain_of (mem s) p = p :: c.
Proof.
  intros (ends & lp & la & cs & I & Hok & P) Hp. cbn [fst snd] in *. rewrite P in Hp.
  apply list_elem_of_omap in Hp as (c & Hc & Eh). destruct c as [|q c]; [discriminate|]. apply (inj Some) in Eh as ->.
  apply list_elem_of_split in Hc as (k1 & k2 & ->). pose proof (core_nodup _ _ _ _ _ _ _ _ _ I) as Hd.
  assert (Hnd : NoDup hs) by (rewrite P; eapply sublist_NoDup; [exact Hd|apply heads_sublist]).
  assert (Pc : k1 ++ (p :: c) :: k2 ≡ₚ (p :: c) :: (k1 ++ k2)) by (symmetry; apply Permutation_middle).
  apply (core_perm _ _ _ _ _ _ _ _ _ _ Pc) in I. rewrite Pc in Hok. apply Forall_cons in Hok as [Hok1 Hok].
  exists ends, lp, la, c, (k1 ++ k2). split; [exact I|]. split; [exact Hok1|]. split; [exact Hok|].
  split; [rewrite P, Pc; reflexivity|]. split; [exact Hnd|].
  pose proof (core_nodup _ _ _ _ _ _ _ _ _ I) as Hd2. cbn [concat] in Hd2. apply NoDup_app in Hd2 as (Hd2 & _ & _).
  destruct I as [_ C]. apply Forall_cons in C as [C _]. apply chain_of_linked; [exact C|exact Hd2].
Qed.

Definition runs_ok (c : call) (x : state * list Z) : Prop := exists y, run c x = Ret y /\ client_inv y.

(** Building the invariant again around the chain [c] in front. *)
Lemma put ends lp la c cs s hs : core pool_memory oh om ends s lp la [] (c :: cs) -> chain_ok (mem s) c ->
  Forall (chain_ok (mem s)) cs -> hs ≡ₚ omap head (c :: cs) -> client_inv (s, hs).
Proof. intros I H1 H2 P. exists ends, lp, la, (c :: cs). split; [exact I|]. split; [constructor; auto|exact P]. Qed.

Lemma alloc_runs s hs ly size flag : client_inv (s, hs) -> 0 <= size < 65536 -> runs_ok (CAlloc ly size flag) (s, hs).
Proof.
  intros (ends & lp & la & cs & I & Hok & P) Hz. cbn [fst snd] in *.
  destruct (alloc_core pool_memory L oh om ends s lp la cs ly size flag I Hz) as (x & s' & lp' & la' & ends' & E & Hr).
  unfold runs_ok, run. rewrite E. ret. eexists. split; [reflexivity|]. cbn [fst snd]. destruct x as [p|].
  - destruct Hr as (c & (I' & A & T & Tl & R & Rc) & _). apply (put ends' lp' la' (p :: c) cs); [exact I'| | |].
    + split; [exists p; split; [reflexivity|rewrite Tl, T; reflexivity]|]. intros q Hq.
      apply elem_of_cons in Hq as [->|Hq]; exists 1; split; auto; lia.
    + eapply chains_ok_agree; eauto.
    + cbn [omap list_omap head]. rewrite P. reflexivity.
  - destruct Hr as (I' & A & _). exists ends', lp', la', cs. split; [exact I'|]. split; [eapply chains_ok_agree; eauto|exact P].
Qed.

Lemma free_runs s hs p : client_inv (s, hs) -> p ∈ hs -> runs_ok (CFree p) (s, hs).
Proof.
  intros I0 Hp. destruct (pick s hs p I0 Hp) as (ends & lp & la & c & cs & I & Hok & Hoks & P & Hnd & _).
  destruct (core_load _ _ _ _ _ _ _ _ _ p I ltac:(constructor)) as (b & Hb & _).
  destruct (proj2 Hok p ltac:(constructor)) as (r & Er & Hr). unfold ref_at in Er. rewrite Hb in Er. apply (inj Some) in Er.
  cbn [ref] in Er. unfold runs_ok, run. unfold ref_at. rewrite Hb. cbn [fmap option_fmap option_map]. rewrite Er.
  destruct (decide (Some r = Some 1)) as [Hr1|Hr1].
  - apply (inj Some) in Hr1. subst r.
    destruct (free_last pool_memory L oh om _ _ _ _ _ _ _ _ _ I Hb ltac:(lia)) as (s' & lp' & E & I' & A). rewrite E. ret.
    eexists. split; [reflexivity|]. exists ends, lp', la, cs. cbn [fst snd]. split; [exact I'|].
    split; [eapply chains_ok_agree; eauto|]. apply without_perm; auto.
  - assert (Hr2 : 1 < ref b) by (rewrite Er; assert (r <> 1) by congruence; lia).
    destruct (free_shared pool_memory L oh om _ _ _ _ _ _ p b I ltac:(constructor) Hb Hr2) as [E I']. rewrite E. ret.
    eexists. split; [reflexivity|]. cbn [snd]. apply (put ends lp la (p :: c) cs); [exact I'| | |exact P]; cbn [mem set_mem].
    + apply chain_ok_ref; auto; lia.
    + eapply Forall_impl; [exact Hoks|]. intros k Hk. apply chain_ok_ref; auto; lia.
Qed.

Lemma realloc_runs s hs p size : client_inv (s, hs) -> p ∈ hs -> 0 <= size < 65536 ->
  (forall b, mem s !! p = Some b -> size < tot_len b -> may_cut (H := H) pool_memory (mem s) size (chain_of (mem s) p)) ->
  runs_ok (CRealloc p size) (s, hs).
Proof.
  intros I0 Hp Hz Hcut. destruct (pick s hs p I0 Hp) as (ends & lp & la & c & cs & I & Hok & Hoks & P & Hnd & Ec).
  destruct (core_load _ _ _ _ _ _ _ _ _ p I ltac:(constructor)) as (b & Hb & _).
  destruct (proj1 Hok) as (p' & Ep & Ht). apply (inj Some) in Ep as <-. rewrite Hb in Ht. apply (inj Some) in Ht.
  unfold runs_ok, run. destruct (Z.le_gt_cases (tot_len b) size) as [Hle|Hgt].
  - unfold pbuf_realloc. rewrite Hb. ret. destruct (Z.leb_spec (tot_len b) size); [|lia]. ret. eexists. split; [reflexivity|exact I0].
  - specialize (Hcut b Hb ltac:(lia)). rewrite Ec in Hcut.
    destruct (realloc_core pool_memory L oh om _ _ _ _ _ _ _ _ b size I Hb Ht ltac:(lia) Hcut)
      as (s' & lp' & ends' & c' & E & I' & A & [c2 Ec2] & B & T & (b' & Hb' & Tl) & R).
    rewrite E. ret. eexists. split; [reflexivity|]. apply (put ends' lp' la (p :: c') cs); [exact I'| | |exact P].
    + split; [exists p; split; [reflexivity|rewrite Hb', T; cbn; rewrite Tl; reflexivity]|]. intros q Hq.
      rewrite (R q Hq). apply Hok. rewrite Ec2. apply elem_of_app. auto.
    + eapply chains_ok_agree; eauto.
Qed.

Lemma header_runs s hs p n : client_inv (s, hs) -> p ∈ hs -> (forall b, mem s !! p = Some b -> header_ok b n) ->
  runs_ok (CHeader p n) (s, hs).
Proof.
  intros I0 Hp Hn. destruct (pick s hs p I0 Hp) as (ends & lp & la & c & cs & I & Hok & Hoks & P & Hnd & Ec).
  destruct (core_load _ _ _ _ _ _ _ _ _ p I ltac:(constructor)) as (b & Hb & _). unfold runs_ok, run.
  destruct (header_core pool_memory L oh om _ _ _ _ _ _ _ _ b n I Hok Hb (Hn b Hb)) as [[_ E]|(_ & E & I' & Hok' & A & _)]; rewrite E; ret.
  - eexists. split; [reflexivity|exact I0].
  - eexists. split; [reflexivity|]. apply (put ends lp la (p :: c) cs); [exact I'|exact Hok'| |exact P].
    eapply chains_ok_agree; eauto.
Qed.

Lemma ref_runs s hs p : client_inv (s, hs) -> p ∈ hs -> ref_at (mem s) p <> Some 255 -> runs_ok (CRef p) (s, hs).
Proof.
  intros I0 Hp Hr. destruct (pick s hs p I0 Hp) as (ends & lp & la & c & cs & I & Hok & Hoks & P & Hnd & Ec).
  destruct (core_load _ _ _ _ _ _ _ _ _ p I ltac:(constructor)) as (b & Hb & _ & Hw & _).
  unfold ref_at in Hr. rewrite Hb in Hr. assert (Hr2 : ref b < 255) by (assert (ref b <> 255) by (intros E; apply Hr; cbn; congruence); lia).
  destruct (ref_core pool_memory L oh om _ _ _ _ _ _ p b I ltac:(constructor) Hb Hr2) as [E I'].
  unfold runs_ok, run. rewrite E. ret. eexists. split; [reflexivity|].
  apply (put ends lp la (p :: c) cs); [exact I'| | |exact P]; cbn [mem set_mem].
  - apply chain_ok_ref; auto; lia.
  - eapply Forall_impl; [exact Hoks|]. intros k Hk. apply chain_ok_ref; auto; lia.
Qed.

Lemma linked_chain ends s lp la lf p c cs : core pool_memory oh om ends s lp la lf ((p :: c) :: cs) ->
  chain_of (mem s) p = p :: c.
Proof.
  intros I. pose proof (core_nodup _ _ _ _ _ _ _ _ _ I) as Hd. cbn [concat] in Hd. apply NoDup_app in Hd as (Hd & _ & _).
  destruct I as [_ C]. apply Forall_cons in C as [C _]. apply chain_of_linked; [exact C|exact Hd].
Qed.

(** Two owned chains in front of the others. *)
Lemma pick2 s hs h t : client_inv (s, hs) -> h ∈ hs -> t ∈ hs -> h <> t ->
  exists ends lp la c1 c2 cs, core pool_memory oh om ends s lp la [] ((h :: c1) :: (t :: c2) :: cs) /\
    chain_ok (mem s) (h :: c1) /\ chain_ok (mem s) (t :: c2) /\ Forall (chain_ok (mem s)) cs /\
    hs ≡ₚ t :: h :: omap head cs /\ NoDup hs /\
    chain_of (mem s) h = h :: c1 /\ chain_of (mem s) t = t :: c2.
Proof.
  intros I0 Hh Ht Hne. destruct (pick s hs h I0 Hh) as (ends & lp & la & c1 & cs & I & Hok & Hoks & P & Hnd & E1).
  rewrite P in Ht. apply elem_of_cons in Ht as [->|Ht]; [contradiction|].
  apply list_elem_of_omap in Ht as (c & Hc & Eh). destruct c as [|q c2]; [discriminate|]. apply (inj Some) in Eh as ->.
  apply list_elem_of_split in Hc as (k1 & k2 & ->).
  assert (Pc : k1 ++ (t :: c2) :: k2 ≡ₚ (t :: c2) :: (k1 ++ k2)) by (symmetry; apply Permutation_middle).
  rewrite Pc in Hoks. apply Forall_cons in Hoks as [Hokt Hoks].
  apply (core_perm _ _ _ _ _ _ _ _ _ ((h :: c1) :: (t :: c2) :: k1 ++ k2)) in I; [|rewrite Pc; reflexivity].
  exists ends, lp, la, c1, c2, (k1 ++ k2). split; [exact I|]. split; [exact Hok|]. split; [exact Hokt|]. split; [exact Hoks|].
  split; [|split; [exact Hnd|split; [exact E1|]]].
  - rewrite P, Pc. apply perm_swap.
  - eapply linked_chain, core_swap, I.
Qed.

Lemma chain_runs s hs h t : client_inv (s, hs) -> h ∈ hs -> t ∈ hs -> h <> t ->
  total (mem s) (chain_of (mem s) h) + total (mem s) (chain_of (mem s) t) < 65536 -> runs_ok (CChain h t) (s, hs).
Proof.
  intros I0 Hh Ht Hne Hsum. destruct (pick2 s hs h t I0 Hh Ht Hne) as (ends & lp & la & c1 & c2 & cs & I & Hok1 & Hok2 & Hoks & P & Hnd & E1 & E2).
  rewrite E1, E2 in Hsum.
  destruct (chain_core pool_memory L oh om _ _ _ _ _ _ _ _ _ _ I Hok1 Hok2 Hsum) as (s' & E & I' & Hok' & A & _).
  unfold runs_ok, run. rewrite E. ret. eexists. split; [reflexivity|].
  apply (put ends lp la (h :: c1 ++ t :: c2) cs); [exact I'|exact Hok'|eapply chains_ok_agree; eauto|].
  rewrite (without_perm t hs _ Hnd P). reflexivity.
Qed.

Lemma dechain_runs s hs p : client_inv (s, hs) -> p ∈ hs -> runs_ok (CDechain p) (s, hs).
Proof.
  intros I0 Hp. destruct (pick s hs p I0 Hp) as (ends & lp & la & c & cs & I & Hok & Hoks & P & Hnd & _).
  destruct (dechain_core pool_memory L oh om _ _ _ _ _ _ _ _ I Hok) as (s' & E & I' & H1 & H2 & A & _).
  unfold runs_ok, run. rewrite E. ret. eexists. split; [reflexivity|]. cbn [fst snd].
  pose proof (chains_ok_agree _ _ _ A Hoks) as Hoks'.
  destruct c as [|q c]; cbn [head].
  - apply (put ends lp la [p] cs); [|exact H1|exact Hoks'|exact P].
    destruct I' as [F C]. split; [exact F|]. unfold chained in *. rewrite !Forall_cons in *. tauto.
  - apply core_swap in I'. apply (put ends lp la (q :: c) ([p] :: cs)); [exact I'|apply H2; discriminate| |].
    + constructor; auto.
    + cbn [omap list_omap head]. rewrite P. reflexivity.
Qed.

Lemma refresh_runs s hs : client_inv (s, hs) -> runs_ok CRefresh (s, hs).
Proof.
  intros (ends & lp & la & cs & I & Hok & P). cbn [fst snd] in *.
  destruct (refresh_spec pool_memory L oh om _ _ _ _ _ _ I) as (s' & E & I' & A). unfold runs_ok, run. rewrite E. ret.
  eexists. split; [reflexivity|]. exists ends, (lp ++ []), la, cs. split; [exact I'|].
  split; [eapply chains_ok_agree; eauto|exact P].
Qed.

(** Every allowed call returns and keeps the invariant. *)
Lemma call_runs c x : client_inv x -> allowed c x -> runs_ok c x.
Proof.
  destruct x as [s hs]. intros I Ha. destruct c; cbn [allowed] in Ha.
  - apply alloc_runs; auto.
  - apply free_runs; auto.
  - apply realloc_runs; tauto.
  - apply header_runs; tauto.
  - apply ref_runs; tauto.
  - apply chain_runs; tauto.
  - apply dechain_runs; auto.
  - apply refresh_runs; auto.
Qed.

Lemma client_step_keeps x y : client_step x y -> client_inv x -> client_inv y.
Proof.
  intros (c & Ha & Hr) I. destruct (call_runs c x I Ha) as (y' & E & I'). rewrite Hr in E. injection E as <-. exact I'.
Qed.

(** ** What the invariant says *)

Lemma chains_of_heads ends s lp la lf cs : core pool_memory oh om ends s lp la lf cs ->
  Forall (chain_ok (mem s)) cs -> chain_of (mem s) <$> omap head cs = cs.
Proof.
  intros [F C] Hok. pose proof (flat_nodup _ _ _ _ _ _ _ _ _ F) as Hd. clear F.
  unfold chained in C. induction cs as [|c cs IH]; [reflexivity|].
  apply Forall_cons in C as [C1 C]. apply Forall_cons in Hok as [[(p & Hp & _) _] Hok]. cbn [concat] in Hd.
  apply NoDup_app in Hd as (Hd1 & _ & Hd). destruct c as [|q c]; [discriminate|]. cbn [omap list_omap head fmap list_fmap].
  f_equal; [apply chain_of_linked; assumption|apply IH; assumption].
Qed.

Definition held s hs : list Z := concat (chain_of (mem s) <$> hs).

Lemma held_perm ends s hs lp la cs : core pool_memory oh om ends s lp la [] cs ->
  Forall (chain_ok (mem s)) cs -> hs ≡ₚ omap head cs -> held s hs ≡ₚ concat cs.
Proof. intros I Hok P. unfold held. rewrite P, (chains_of_heads _ _ _ _ _ _ I Hok). reflexivity. Qed.

(** Two held structures outside of ROM do not share memory. *)
Lemma bufs_apart ends s lp la lf cs p q b b' : core pool_memory oh om ends s lp la lf cs ->
  p ∈ concat cs -> q ∈ concat cs -> p < q -> mem s !! p = Some b -> mem s !! q = Some b' ->
  flags b <> PBUF_FLAG_ROM -> flags b' <> PBUF_FLAG_ROM -> payload b + len b <= q.
Proof.
  intros I Hp Hq Hlt Hb Hb' Hk Hk'.
  destruct (core_load _ _ _ _ _ _ _ _ _ p I Hp) as (b1 & Hb1 & Hfl & _ & _ & _ & Hr). rewrite Hb in Hb1. injection Hb1 as <-.
  destruct (core_load _ _ _ _ _ _ _ _ _ q I Hq) as (b2 & Hb2 & Hfl' & _). rewrite Hb' in Hb2. injection Hb2 as <-.
  rewrite Hfl in Hk. rewrite Hfl' in Hk'. destruct (Hr Hk) as [_ Hend]. clear Hr Hfl Hfl' Hb Hb'.
  pose proof (lay_pool_heap _ L) as Hlay. destruct I as [F _].
  assert (Hpool : forall x, x ∈ concat cs -> kind (H := H) pool_memory x = PBUF_FLAG_POOL -> x ∈ pool_bufs pool_memory).
  { intros x Hx Hkx. rewrite <- (fl_part _ _ _ _ _ _ _ _ _ F), !elem_of_app. do 3 right. apply list_elem_of_filter. auto. }
  assert (Hram : forall x, x ∈ concat cs -> kind (H := H) pool_memory x <> PBUF_FLAG_POOL -> kind (H := H) pool_memory x <> PBUF_FLAG_ROM ->
    (x, ends x) ∈ regions_of (H := H) pool_memory ends PBUF_FLAG_RAM (concat cs) ++ oh /\ kind (H := H) pool_memory x = PBUF_FLAG_RAM).
  { intros x Hx H1 H2. pose proof (kind_ram (H := H) pool_memory x H1 H2) as Hkr.
    split; [|exact Hkr]. apply elem_of_app. left. apply list_elem_of_fmap. exists x. split; [reflexivity|].
    apply list_elem_of_filter. auto. }
  assert (Hrange : forall x, x ∈ pool_bufs pool_memory -> pool_memory <= x /\ x + 144 <= pool_memory + pool_size /\ (x - pool_memory) mod 144 = 0).
  { intros x Hx. apply list_elem_of_fmap in Hx as (i & -> & Hi). apply elem_of_seq in Hi.
    unfold pool_size, PBUF_POOL_SIZE, PBUF_POOL_BUFSIZE, SIZEOF_PBUF in *. split; [lia|]. split; [lia|].
    replace (pool_memory + Z.of_nat i * (128 + 16) - pool_memory) with (Z.of_nat i * 144) by lia. apply Z.mod_mul. lia. }
  pose proof (fl_heap _ _ _ _ _ _ _ _ _ F) as Hheap. unfold room in Hend.
  destruct (Z.eqb_spec (kind (H := H) pool_memory p) PBUF_FLAG_POOL) as [Ep|Np];
    destruct (Z.eq_dec (kind (H := H) pool_memory q) PBUF_FLAG_POOL) as [Eq|Nq].
  - destruct (Hrange p (Hpool p Hp Ep)) as (P1 & P2 & P3). destruct (Hrange q (Hpool q Hq Eq)) as (Q1 & Q2 & Q3).
    unfold SIZEOF_PBUF, PBUF_POOL_BUFSIZE in Hend. divmod.
  - destruct (Hrange p (Hpool p Hp Ep)) as (P1 & P2 & _). destruct (Hram q Hq Nq Hk') as [Hin _].
    destruct (a_range _ _ _ _ Hheap Hin). unfold SIZEOF_PBUF, PBUF_POOL_BUFSIZE in Hend. lia.
  - destruct (Hrange q (Hpool q Hq Eq)) as (Q1 & Q2 & _). destruct (Hram p Hp Np Hk) as [Hin _].
    destruct (a_range _ _ _ _ Hheap Hin). lia.
  - destruct (Hram p Hp Np Hk) as [Hin _]. destruct (Hram q Hq Nq Hk') as [Hin' _].
    apply list_elem_of_lookup in Hin as [i Hi]. apply list_elem_of_lookup in Hin' as [j Hj].
    destruct (a_live_apart _ _ i j p (ends p) q (ends q) Hheap ltac:(intros ->; rewrite Hi in Hj; injection Hj; lia) Hi Hj) as [|Hx]; [lia|].
    pose proof (a_range _ _ _ _ Hheap (list_elem_of_lookup_2 _ _ _ Hj)). lia.
Qed.

(** ** Properties

    The states a client reaches from [pbuf_init], on allocators whose held
    regions are those of others. *)

Definition reachable (x : state * list Z) : Prop :=
  exists h m s0, a_live h oh /\ a_live m om /\ pbuf_init pool_memory h m = Ret s0 /\
    rtc client_step (s0, []) x.

Lemma client_reachable_inv x : reachable x -> client_inv x.
Proof.
  intros (h & m & s0 & Hh & Hm & E & Hrun).
  apply (rtc_invariant client_step client_inv client_step_keeps (s0, [])); [exact Hrun|].
  destruct (init_core pool_memory oh om h m Hh Hm) as (s & E' & _ & _ & I). rewrite E in E'. injection E' as <-.
  exists (fun _ => 0), (pool_bufs pool_memory), [], []. split; [exact I|]. split; [constructor|reflexivity].
Qed.

Lemma core_of s hs : client_inv (s, hs) -> exists ends lp la cs, core pool_memory oh om ends s lp la [] cs /\
  Forall (chain_ok (mem s)) cs /\ held s hs ≡ₚ concat cs.
Proof.
  intros (ends & lp & la & cs & I & Hok & P). exists ends, lp, la, cs. split; [exact I|]. split; [exact Hok|].
  eapply held_perm; eauto.
Qed.


(** C37: [pbuf_alloc] from the pool fails exactly when fewer buffers are free
    than the request needs, and otherwise returns a chain of exactly that many
    buffers, with [size] bytes in all and the headers of the layer in front. *)
Theorem pbuf_alloc_pool_exact s hs ly size : reachable (s, hs) -> 0 <= size < 65536 ->
  exists x s', pbuf_alloc s ly size PBUF_POOL = Ret (x, s') /\
    (x = None <-> Z.of_nat PBUF_POOL_SIZE - st_used (stats s) < Z.of_nat (needed size (layer_offset ly))) /\
    forall p, x = Some p -> let c := chain_of (mem s') p in
      length c = needed size (layer_offset ly) /\ Forall (fun q => q ∈ pool_bufs pool_memory /\ q ∉ held s hs) c /\
      Z.of_nat (length (bytes (mem s') c)) = size /\ tot_len <$> mem s' !! p = Some size /\
      payload <$> mem s' !! p = Some (p + SIZEOF_PBUF + layer_offset ly) /\
      bytes (mem s') (held s hs) = bytes (mem s) (held s hs).
Proof.
  intros Hr Hz. apply client_reachable_inv in Hr as I0. destruct (core_of s hs I0) as (ends & lp & la & cs & I & Hok & P).
  destruct (alloc_core pool_memory L oh om ends s lp la cs ly size PBUF_POOL I Hz) as (x & s' & lp' & la' & ends' & E & Hres).
  assert (Hfree : Z.of_nat PBUF_POOL_SIZE - st_used (stats s) = Z.of_nat (length (la ++ lp))).
  { rewrite (fl_used _ _ _ _ _ _ _ _ _ (proj1 I)). pose proof (fl_part _ _ _ _ _ _ _ _ _ (proj1 I)) as Q.
    apply Permutation_length in Q. rewrite pool_bufs_length in Q. rewrite !length_app in Q. cbn [length] in Q. rewrite length_app. lia. }
  exists x, s'. split; [exact E|]. rewrite Hfree. destruct x as [p|].
  - destruct Hres as (c & (I' & A & T & Tl & R & Rc) & Hpool & _ & Hpl). destruct (Hpool eq_refl) as [[Hlen Hav] Hin].
    split; [split; [discriminate|lia]|]. intros p' Ep. injection Ep as <-. rewrite (linked_chain _ _ _ _ _ _ _ _ I').
    pose proof (core_nodup _ _ _ _ _ _ _ _ _ I') as Hd. cbn [concat] in Hd. apply NoDup_app in Hd as (_ & Hd & _).
    split; [exact Hlen|]. split; [|split; [|split; [exact Tl|split; [apply Hpl; discriminate|]]]].
    + apply Forall_forall. intros q Hq. split; [apply Hin, Hq|]. rewrite P. apply Hd, Hq.
    + rewrite bytes_length, T; [reflexivity|]. apply (core_sized _ _ _ _ _ _ _ _ _ _ I'). intros q Hq. cbn [concat].
      apply elem_of_app. auto.
    + apply bytes_slots, agree_slots. intros q Hq. apply A. rewrite <- P. exact Hq.
  - destruct Hres as (_ & _ & Hlt). specialize (Hlt eq_refl). split; [split; [lia|auto]|discriminate].
Qed.


(** The two stores of [pbuf_chain] on a single structure are undone. *)
Lemma chain_undo s h t bh bt : h <> t -> mem s !! h = Some bh -> mem s !! t = Some bt ->
  next bh = None -> tot_len bh = len bh -> 0 <= len bh -> 0 <= tot_len bt -> tot_len bh + tot_len bt < 65536 ->
  exists s1, pbuf_chain s h t = Ret s1 /\ pbuf_dechain s1 h = Ret (Some t, s).
Proof.
  intros Hne Hh Ht Hn El H1 H2 Hsum. unfold pbuf_chain, chain_fuel. cbn [last_of]. rewrite Hh. ret. rewrite Hn. unfold upd.
  ret. rewrite Hh. ret. rewrite (lookup_insert_ne _ h t) by exact Hne. rewrite Ht. ret. rewrite lookup_insert_eq. ret.
  eexists. split; [reflexivity|]. unfold pbuf_dechain. cbn [mem set_mem]. rewrite insert_insert_eq, lookup_insert_eq. ret.
  cbn [next with_tot_len with_next tot_len len]. unfold upd. cbn [mem set_mem].
  rewrite (lookup_insert_ne _ h t) by exact Hne. rewrite Ht. ret. rewrite (lookup_insert_ne _ t h) by (symmetry; exact Hne). rewrite lookup_insert_eq. ret.
  rewrite !u16_small by lia. do 2 f_equal.
  transitivity (set_mem s (mem s)); [|destruct s; reflexivity]. unfold set_mem. cbn. f_equal.
  rewrite (insert_insert_ne _ t h) by (symmetry; exact Hne). rewrite insert_insert_eq.
  rewrite (insert_id (<[t:=_]> (mem s)) h).
  - apply insert_id. rewrite Ht. f_equal. destruct bt; unfold with_tot_len; cbn in *. f_equal. lia.
  - rewrite (lookup_insert_ne _ t h) by (symmetry; exact Hne). rewrite Hh. f_equal. destruct bh; unfold with_tot_len, with_next; cbn in *. subst. f_equal.
Qed.


(** [pbuf_header] makes room for [n] bytes in front of a chain outside of
    ROM exactly when they fit behind the structure; a header that was added
    or removed can be removed or added again, which restores the state. *)
Theorem pbuf_header_roundtrip s hs p n b : reachable (s, hs) -> p ∈ hs -> mem s !! p = Some b ->
  flags b <> PBUF_FLAG_ROM -> header_ok b n -> n <> - 32768 ->
  if payload b - n <? p + SIZEOF_PBUF then pbuf_header s p n = Ret (255, s)
  else exists s', pbuf_header s p n = Ret (0, s') /\ pbuf_header s' p (- n) = Ret (0, s) /\
    (0 <= n -> bytes (mem s') (chain_of (mem s') p) = seqZ (payload b - n) n ++ bytes (mem s) (chain_of (mem s) p)) /\
    (n <= 0 -> bytes (mem s') (chain_of (mem s') p) = drop (Z.to_nat (- n)) (bytes (mem s) (chain_of (mem s) p))).
Proof.
  intros Hr Hp Hb Hk Hn Hmin. apply client_reachable_inv in Hr as I0.
  destruct (pick s hs p I0 Hp) as (ends & lp & la & c & cs & I & Hok & Hoks & P & Hnd & Ec).
  destruct (core_load _ _ _ _ _ _ _ _ _ p I ltac:(constructor)) as (b1 & Hb1 & Hok1). rewrite Hb in Hb1. injection Hb1 as <-.
  destruct (head_bounds pool_memory L oh om _ _ _ _ _ _ p b I ltac:(constructor) Hb Hk) as (B1 & B2 & B3).
  destruct Hok1 as (_ & _ & Hl & Htl & _). unfold SIZEOF_PBUF in *. change (2 ^ 31) with 2147483648 in B3.
  pose proof Hn as (N1 & N2 & N3 & N4). assert (Hu : u32 (payload b - n) = payload b - n) by (apply u32_small; lia).
  destruct (header_core pool_memory L oh om _ _ _ _ _ _ _ _ b n I Hok Hb Hn) as [[Hlt E]|(Hge & E & I' & _ & _ & B)];
    rewrite Hu in *; unfold SIZEOF_PBUF in *; [destruct (Z.ltb_spec (payload b - n) (p + 16)); [exact E|lia]|].
  destruct (Z.ltb_spec (payload b - n) (p + 16)); [lia|]. eexists. split; [exact E|].
  rewrite (linked_chain _ _ _ _ _ _ _ _ I'), Ec. cbn [mem set_mem]. rewrite B, (bytes_cons _ p c b Hb). split; [|split].
  - unfold pbuf_header. cbn [mem set_mem]. rewrite lookup_insert_eq. ret. cbn [payload tot_len len next flags ref].
    replace (payload b - n - - n) with (payload b) by lia. rewrite u32_small by lia. unfold SIZEOF_PBUF.
    destruct (Z.ltb_spec (payload b) (p + 16)); [lia|]. rewrite !u16_small by lia. rewrite insert_insert_eq.
    replace (tot_len b + n + - n) with (tot_len b) by lia. replace (len b + n + - n) with (len b) by lia.
    assert (Hid : <[p := Pbuf (next b) (flags b) (ref b) (payload b) (tot_len b) (len b)]> (mem s) = mem s)
      by (apply insert_id; rewrite Hb; destruct b; reflexivity).
    rewrite Hid. destruct s; reflexivity.
  - intros Hn0. rewrite app_assoc. f_equal. replace (len b + n) with (n + len b) by lia. rewrite seqZ_app by lia.
    do 2 f_equal. lia.
  - intros Hn0. replace (seqZ (payload b) (len b)) with (seqZ (payload b) (- n) ++ seqZ (payload b - n) (len b + n)).
    + rewrite <- app_assoc, drop_app_length'; [reflexivity|]. rewrite length_seqZ. lia.
    + replace (payload b - n) with (payload b + - n) by lia. rewrite <- seqZ_app by lia. f_equal. lia.
Qed.
End Client.

(** ** A memory map

    The pool at 32768, the heap at 65536, the pools of [memp.c] at 8000000. *)

#[local] Instance ex_heap : Allocator mem_state := heap_allocator 65536 eq_refl.
#[local] Instance ex_shrinking : Shrinking mem_state := heap_shrinking 65536 eq_refl.

Lemma ex_sizes_pos t : 0 < ex_sizes t.
Proof. destruct t; reflexivity. Qed.

#[local] Instance ex_pbufs : Allocator shared_pools := pbuf_allocator ex_sizes 8000000 eq_refl ex_sizes_pos.

Lemma ex_layout : layout (H := mem_state) (M := shared_pools) 32768.
Proof.
  assert (E : pools_end ex_sizes 8000000 memp_types < 2147483647) by (apply Z.ltb_lt; vm_compute; reflexivity).
  assert (Hhi : a_hi shared_pools = pools_end ex_sizes 8000000 memp_types + 1) by reflexivity.
  assert (Hlo : a_lo shared_pools = 8000000) by reflexivity.
  assert (Hhl : a_lo mem_state = 65548 /\ a_hi mem_state = 5185536) by (split; reflexivity).
  constructor; rewrite ?Hhi, ?Hlo, ?(proj1 Hhl), ?(proj2 Hhl); change (2 ^ 31) with 2147483648 in *;
    change (2 ^ 15) with 32768; change pool_size with 864.
  all: try (generalize dependent (pools_end ex_sizes 8000000 memp_types); intros z Hz _; lia).
  - reflexivity.
  - split; vm_compute; discriminate.
Qed.

Definition value {A} (d : A) (x : outcome A) : A := match x with Ret a => a | _ => d end.
Definition returns {A} (x : outcome A) : bool := match x with Ret _ => true | _ => false end.

Lemma returns_value {A} (d : A) x : returns x = true -> x = Ret (value d x).
Proof. destruct x; [reflexivity|discriminate|discriminate]. Qed.

Definition ex_blank : pbuf_state mem_state shared_pools :=
  PbufState ∅ None None None 0 0 0 (Stats 0 0 0 0 0 0) mem_init (SharedPools 1 (memp_init ex_sizes 8000000)).
Definition ex_init : pbuf_state mem_state shared_pools :=
  value ex_blank (pbuf_init 32768 mem_init (SharedPools 1 (memp_init ex_sizes 8000000))).

(** The state after some calls. *)
Definition after (cs : list call) : pbuf_state mem_state shared_pools * list Z :=
  fold_left (fun x c => value x (run c x)) cs (ex_init, []).

Lemma after_nil : reachable 32768 [] [] (after []).
Proof.
  exists mem_init, (SharedPools 1 (memp_init ex_sizes 8000000)), ex_init.
  split; [apply heap_init|]. split; [apply pbuf_pool_init|]. split; [|constructor].
  apply returns_value. vm_compute. reflexivity.
Qed.

Lemma after_snoc cs c : reachable 32768 [] [] (after cs) -> allowed 32768 c (after cs) ->
  returns (run c (after cs)) = true -> reachable 32768 [] [] (after (cs ++ [c])).
Proof.
  intros (h & m & s0 & Hh & Hm & E & Hrun) Ha Hr. exists h, m, s0. split; [exact Hh|]. split; [exact Hm|]. split; [exact E|].
  eapply rtc_r; [exact Hrun|]. exists c. split; [exact Ha|]. unfold after. rewrite fold_left_app. cbn [fold_left].
  fold (after cs). apply returns_value, Hr.
Qed.

(** A chain of 300 bytes from the pool and a pbuf of 50 bytes in RAM. *)
Definition ex_calls : list call := [CAlloc PBUF_TRANSPORT 300 PBUF_POOL; CAlloc PBUF_RAW 50 PBUF_RAM].

Lemma ex_reachable : reachable 32768 [] [] (after ex_calls).
Proof.
  change ex_calls with (([] ++ [CAlloc PBUF_TRANSPORT 300 PBUF_POOL]) ++ [CAlloc PBUF_RAW 50 PBUF_RAM]).
  apply after_snoc; [apply after_snoc; [apply after_nil|cbn; lia|vm_compute; reflexivity]| |vm_compute; reflexivity].
  destruct (after _). cbn. lia.
Qed.

Lemma ex_heads : (after ex_calls).2 = [65548; 32768].
Proof. vm_compute. reflexivity. Qed.

Lemma ex_reachable_pair : reachable 32768 [] [] ((after ex_calls).1, (after ex_calls).2).
Proof. rewrite <- surjective_pairing. exact ex_reachable. Qed.

Lemma ex_lookups :
  mem (after ex_calls).1 !! 32768 = Some (Pbuf (Some 32912) PBUF_FLAG_POOL 1 32840 300 72) /\
  mem (after ex_calls).1 !! 65548 = Some (Pbuf None PBUF_FLAG_RAM 1 65564 50 50) /\
  chain_of (mem (after ex_calls).1) 32768 = [32768; 32912; 33056] /\
  chain_of (mem (after ex_calls).1) 65548 = [65548].
Proof. vm_compute. auto. Qed.


Lemma pbuf_alloc_pool_exact_witness :
  exists s', pbuf_alloc (after ex_calls).1 PBUF_TRANSPORT 400 PBUF_POOL = Ret (None, s').
Proof.
  destruct (pbuf_alloc_pool_exact 32768 ex_layout [] [] _ _ PBUF_TRANSPORT 400 ex_reachable_pair ltac:(lia))
    as (x & s' & E & Hx & _).
  assert (Hnone : x = None) by (apply Hx; vm_compute; reflexivity). subst x. exists s'. exact E.
Defined.



Lemma pbuf_header_roundtrip_witness : exists s', pbuf_header (after ex_calls).1 65548 (- 20) = Ret (0, s') /\
  pbuf_header s' 65548 20 = Ret (0, (after ex_calls).1).
Proof.
  destruct ex_lookups as (_ & E1 & _).
  pose proof (pbuf_header_roundtrip 32768 ex_layout [] [] _ _ 65548 (- 20) _ ex_reachable_pair
    ltac:(rewrite ex_heads; constructor) E1 ltac:(discriminate) ltac:(repeat split; cbn; lia) ltac:(discriminate)) as Hh.
  cbn in Hh. destruct Hh as (s' & E & Eb & _). exists s'. split; [exact E|exact Eb].
Defined.

(** ** Outside of [allowed]

    [mem_realloc] splits a block at any offset.  After a pbuf in RAM was cut to
    41 bytes the next block is not aligned, [pbuf_alloc] rounds the payload up
    and the pbuf of 100 bytes ends 3 bytes behind its block. *)
Theorem pbuf_alloc_overruns :
  let x := after [CAlloc PBUF_RAW 200 PBUF_RAM; CRealloc 65548 41; CAlloc PBUF_RAW 100 PBUF_RAM] in
  x.2 = [65617; 65548] /\
  (fun b => payload b + len b) <$> mem x.1 !! 65617 = Some 65736 /\
  (fun b => 65536 + Mem.next b) <$> ram (heap x.1) !! (65617 - 65536 - SIZEOF_STRUCT_MEM) = Some 65733.
Proof. vm_compute. auto. Qed.

(** [pbuf_realloc] on a chain that begins in RAM frees the structures left over
    one by one, but [pbuf_free] frees the whole rest of a chain: with three
    pool buffers left over the pool is linked into a ring and the call does
    not return. *)
Theorem pbuf_realloc_frees_twice :
  let x := after [CAlloc PBUF_RAW 50 PBUF_RAM; CAlloc PBUF_RAW 300 PBUF_POOL; CChain 65548 32768] in
  chain_of (mem x.1) 65548 = [65548; 32768; 32912; 33056] /\ pbuf_realloc x.1 65548 20 = Undef.
Proof. vm_compute. auto. Qed.
