(* ===== verification/SocketHelper.v ===== *)
(** * Searching and writing streams ([cli/search_state.c], [cli/socket_helper.c])

    A connection is read through [read], which returns whatever has arrived:
    some bytes, an interruption, an error or the end of the file.  [read_search]
    collects the bytes in a growing buffer until a text occurs in it.  The
    functions of [real_socket_helper.c] are the same loops on the sockets of the
    host, which have negative numbers here.

    [read_search_finds]: the answer depends only on the bytes of the stream, not
    on how they arrive: the text is found at its first occurrence.
    [read_search_stops] adds errors and the bound on the number of reads.
    [writen_sends], [readn_exact]: the loops transfer exactly what they say. *)

From stdpp Require Import base gmap list.
From Stdlib Require Import ZArith Lia.
From S2P Require Import Prelude.

(** What calls of [read] on a socket will return.  The empty list is the end of
    the file, which [read] reports again and again. *)
Inductive read_event := Data (bs : list Z) | Interrupt | Failure.

Inductive read_answer := Got (bs : list Z) | Interrupted | Failed.

(** One call of [read] with room for [n] bytes. *)
Definition read (n : Z) (src : list read_event) : read_answer * list read_event :=
  match src with
  | [] => (Got [], [])
  | Interrupt :: src => (Interrupted, src)
  | Failure :: src => (Failed, src)
  | Data bs :: src =>
      if Z.of_nat (length bs) <=? n then (Got bs, src)
      else (Got (take (Z.to_nat n) bs), Data (drop (Z.to_nat n) bs) :: src)
  end.

(** The bytes that a source still holds. *)
Definition stream : list read_event -> list Z :=
  flat_map (fun e => match e with Data bs => bs | _ => [] end).

(** A call of [read] that finds no byte has reached the end of the file. *)
Definition proper_event (e : read_event) : Prop :=
  match e with Data bs => bs <> [] | _ => True end.

Definition unfailing (e : read_event) : Prop :=
  match e with Failure => False | _ => True end.

(** How many calls of [read] a source can answer before the end of the file. *)
Fixpoint size (src : list read_event) : nat :=
  match src with
  | [] => 1
  | Data bs :: src => length bs + S (size src)
  | _ :: src => S (size src)
  end.

(** Storing [bs] at offset [off] of a buffer; beyond its end is undefined. *)
Definition store (buf : list Z) (off : Z) (bs : list Z) : outcome (list Z) :=
  let o := Z.to_nat off in
  if (o + length bs <=? length buf)%nat
  then Ret (take o buf ++ bs ++ drop (o + length bs) buf)
  else Undef.

(** ** The state of a search *)

Record search_state := {
  chbuf : list Z;
  capacity : Z;
  max_capacity : Z;
  used : Z;
  search_offset : Z;
  needle_offset : Z
}.

Section SearchState.

(** What the heap hands out: [fresh n] is a region of [n] bytes with its
    contents, or nothing. *)
Variable fresh : Z -> option (list Z).

Definition realloc (p : list Z) (n : Z) : option (list Z) :=
  m ← fresh n; Some (take (Z.to_nat n) p ++ drop (length p) m).

Definition search_state_init (init_size max_size : Z) : outcome search_state :=
  if (init_size =? 0) || (max_size <? init_size) then Undef
  else m ← load (fresh init_size);
  Ret {| chbuf := replicate (length m) 0; capacity := init_size;
         max_capacity := max_size; used := 0; search_offset := 0;
         needle_offset := 0 |}.

Definition search_state_grow_if_full (state : search_state)
    : outcome (Z * search_state) :=
  if used state =? capacity state then
    let newsize := u32 (2 * capacity state) in
    if (newsize >? max_capacity state) && (used state =? max_capacity state)
    then Ret (2, state)
    else
      let newsize := if newsize >? max_capacity state then max_capacity state
                     else newsize in
      newmem ← load (realloc (chbuf state) newsize);
      Ret (1, {| chbuf := newmem; capacity := newsize;
                 max_capacity := max_capacity state; used := used state;
                 search_offset := search_offset state;
                 needle_offset := needle_offset state |})
  else Ret (0, state).

(** ** Reading *)

Fixpoint read_once_loop (fuel : nat) (n : Z) (src : list read_event)
    : outcome (Z * list Z * list read_event) :=
  match fuel with
  | O => Undef
  | S fuel =>
      match read n src with
      | (Interrupted, src) => read_once_loop fuel n src
      | (Failed, src) => Ret (-1, [], src)
      | (Got bs, src) => Ret (Z.of_nat (length bs), bs, src)
      end
  end.

(** [read_once] returns the result, the bytes in front of the buffer and the
    source. *)
Definition read_once (fd n : Z) (src : list read_event) :=
  if fd >=? 0 then read_once_loop (size src) n src else Undef.

Fixpoint readn_loop (fuel : nat) (n nleft : Z) (buf : list Z)
    (src : list read_event) : outcome (Z * list Z * list read_event) :=
  match fuel with
  | O => Undef
  | S fuel =>
      if nleft >? 0 then
        match read nleft src with
        | (Interrupted, src) => readn_loop fuel n nleft buf src
        | (Failed, src) => Ret (-1, buf, src)
        | (Got [], src) => Ret (n - nleft, buf, src)
        | (Got bs, src) =>
            readn_loop fuel n (nleft - Z.of_nat (length bs)) (buf ++ bs) src
        end
      else Ret (n - nleft, buf, src)
  end.

Definition readn (fd n : Z) (src : list read_event) :=
  if fd >=? 0 then readn_loop (S (size src)) n n [] src else Undef.

(** The same two on the sockets of the host. *)
Definition real_read_once (fd n : Z) (src : list read_event) :=
  if fd >=? 0 then read_once_loop (size src) n src else Undef.

Definition real_readn (fd n : Z) (src : list read_event) :=
  if fd >=? 0 then readn_loop (S (size src)) n n [] src else Undef.

(** ** Searching *)

(** The loop over the characters of the text at one offset of the buffer. *)
Fixpoint match_at (buf : list Z) (i : Z) (needle : list Z) : outcome bool :=
  match needle with
  | [] => Ret true
  | c :: needle =>
      b ← load (buf !! Z.to_nat i);
      if b =? c then match_at buf (i + 1) needle else Ret false
  end.

(** The loop over the offsets, up to [limit] bytes of the buffer. *)
Fixpoint scan (fuel : nat) (needle : list Z) (limit : Z) (state : search_state)
    : outcome (bool * search_state) :=
  match fuel with
  | O => Undef
  | S fuel =>
      let at_ := search_offset state in
      if u32 (at_ + Z.of_nat (length needle)) <=? limit then
        found ← match_at (chbuf state) at_ needle;
        let state' needle_at :=
          {| chbuf := chbuf state; capacity := capacity state;
             max_capacity := max_capacity state; used := used state;
             search_offset := u32 (at_ + 1); needle_offset := needle_at |} in
        if found : bool then Ret (true, state' at_)
        else scan fuel needle limit (state' (needle_offset state))
      else Ret (false, state)
  end.

Definition set_used (v : Z) (state : search_state) : search_state :=
  {| chbuf := chbuf state; capacity := capacity state;
     max_capacity := max_capacity state; used := v;
     search_offset := search_offset state; needle_offset := needle_offset state |}.

Definition set_chbuf (v : list Z) (state : search_state) : search_state :=
  {| chbuf := v; capacity := capacity state;
     max_capacity := max_capacity state; used := used state;
     search_offset := search_offset state; needle_offset := needle_offset state |}.

(** How one round of the search ends: with an answer, or with the number of
    reads that are left for the next round. *)
Inductive round_end := Answer (ret : Z) | Again (max_reads : Z).

(** The second half of a round: the search in what was read, and the count of
    the reads. *)
Definition check_round (needle : list Z) (nread max_reads : Z) (state : search_state)
    : outcome (round_end * search_state) :=
  let limit := u32 (used state + nread) in
  '(found, state) ← scan (S (Z.to_nat (limit - search_offset state))) needle limit state;
  let state := set_used (u32 (used state + nread)) state in
  if found : bool then Ret (Answer 0, state)
  else if negb (max_reads =? 0) then
    let max_reads := if negb (nread =? 0) then max_reads - 1 else max_reads in
    if max_reads =? 0 then Ret (Answer (-3), state)
    else Ret (Again max_reads, state)
  else Ret (Again max_reads, state).

(** One round of the loop. *)
Definition search_round (first_loop : bool) (needle : list Z) (max_reads : Z)
    (state : search_state) (src : list read_event)
    : outcome (round_end * search_state * list read_event) :=
  if first_loop then
    '(e, state) ← check_round needle 0 max_reads state; Ret (e, state, src)
  else
    '(grown, state) ← search_state_grow_if_full state;
    if grown =? 2 then Ret (Answer (-2), state, src)
    else
      match read (u32 (capacity state - used state)) src with
      | (Interrupted, src) => Ret (Again max_reads, state, src)
      | (Failed, src) => Ret (Answer (-1), state, src)
      | (Got [], src) => Ret (Answer 1, state, src)
      | (Got bs, src) =>
          buf ← store (chbuf state) (used state) bs;
          '(e, state) ← check_round needle (Z.of_nat (length bs)) max_reads
                          (set_chbuf buf state);
          Ret (e, state, src)
      end.

Fixpoint search_rounds (fuel : nat) (first_loop : bool) (needle : list Z)
    (max_reads : Z) (state : search_state) (src : list read_event)
    : outcome (Z * search_state * list read_event) :=
  match fuel with
  | O => Undef
  | S fuel =>
      '(e, state, src) ← search_round first_loop needle max_reads state src;
      match e with
      | Answer ret => Ret (ret, state, src)
      | Again max_reads => search_rounds fuel false needle max_reads state src
      end
  end.

Definition real_read_search (fd : Z) (needle : list Z) (state : search_state)
    (max_reads : Z) (src : list read_event) :=
  if fd >=? 0 then
    match needle with
    | [] => Undef
    | _ => search_rounds (S (S (size src))) true needle max_reads state src
    end
  else Undef.

Definition read_search (fd : Z) (needle : list Z) (state : search_state)
    (max_reads : Z) (src : list read_event) :=
  if fd <? 0 then real_read_search (s32 (- fd)) needle state max_reads src
  else
    match needle with
    | [] => Undef
    | _ => search_rounds (S (S (size src))) true needle max_reads state src
    end.

End SearchState.

(** ** Writing *)

(** What calls of [write] on a socket will return; when the list is used up,
    every call takes all the bytes. *)
Inductive write_event := Took (n : Z) | Write_interrupt | Write_failure.

(** One call of [write]: the bytes it took, an interruption or an error. *)
Definition write (bs : list Z) (sink : list write_event)
    : read_answer * list write_event :=
  match sink with
  | [] => (Got bs, [])
  | Took n :: sink => (Got (take (Z.to_nat n) bs), sink)
  | Write_interrupt :: sink => (Interrupted, sink)
  | Write_failure :: sink => (Failed, sink)
  end.

(** The loop on the [nleft] bytes at the front of [bs]; [sent] are the bytes
    that went out. *)
Fixpoint writen_loop (fuel : nat) (bs sent : list Z) (sink : list write_event)
    : outcome (Z * list Z * list write_event) :=
  match fuel with
  | O => Undef
  | S fuel =>
      match bs with
      | [] => Ret (0, sent, sink)
      | _ =>
          match write bs sink with
          | (Interrupted, sink) => writen_loop fuel bs sent sink
          | (Failed, sink) | (Got [], sink) => Ret (-1, sent, sink)
          | (Got took, sink) =>
              writen_loop fuel (drop (length took) bs) (sent ++ took) sink
          end
      end
  end.

Definition writen_fuel (n : nat) (sink : list write_event) : nat := S (n + length sink).

Definition real_writen (fd : Z) (buf : list Z) (n : Z) (sink : list write_event) :=
  if fd >=? 0 then
    if n <=? Z.of_nat (length buf)
    then writen_loop (writen_fuel (Z.to_nat n) sink) (take (Z.to_nat n) buf) [] sink
    else Undef
  else Undef.

Definition writen (fd : Z) (buf : list Z) (n : Z) (sink : list write_event) :=
  if fd <? 0 then real_writen (s32 (- fd)) buf n sink
  else if n <=? Z.of_nat (length buf)
  then writen_loop (writen_fuel (Z.to_nat n) sink) (take (Z.to_nat n) buf) [] sink
  else Undef.

Definition WRITEN_MAX_LEN : Z := 4096.

(** [vsnprintf] returns the length of the whole text and stores as much of it as
    fits; [text] is what it makes of the format and its arguments. *)
Definition writenf (fd : Z) (text : list Z) (sink : list write_event) :=
  let actual := Z.of_nat (length text) in
  let buf := take (Z.to_nat (WRITEN_MAX_LEN - 1)) text ++ [0] in
  if actual <? WRITEN_MAX_LEN then writen fd buf actual sink
  else Ret (-1, [], sink).

(** A string without its terminator. *)
Definition writenstr (fd : Z) (str : list Z) (sink : list write_event) :=
  writen fd str (Z.of_nat (length str)) sink.

Fixpoint writenstrs (fd : Z) (strs : list (list Z)) (sink : list write_event)
    : outcome (Z * list Z * list write_event) :=
  match strs with
  | [] => Ret (0, [], sink)
  | str :: strs =>
      '(ret, sent, sink) ← writenstr fd str sink;
      if ret =? 0 then
        '(ret, more, sink) ← writenstrs fd strs sink; Ret (ret, sent ++ more, sink)
      else Ret (ret, sent, sink)
  end.

(** The same three on the sockets of the host. *)
Definition real_writenf (fd : Z) (text : list Z) (sink : list write_event) :=
  let actual := Z.of_nat (length text) in
  let buf := take (Z.to_nat (WRITEN_MAX_LEN - 1)) text ++ [0] in
  if actual <? WRITEN_MAX_LEN then real_writen fd buf actual sink
  else Ret (-1, [], sink).

Definition real_writenstr (fd : Z) (str : list Z) (sink : list write_event) :=
  real_writen fd str (Z.of_nat (length str)) sink.

Fixpoint real_writenstrs (fd : Z) (strs : list (list Z)) (sink : list write_event)
    : outcome (Z * list Z * list write_event) :=
  match strs with
  | [] => Ret (0, [], sink)
  | str :: strs =>
      '(ret, sent, sink) ← real_writenstr fd str sink;
      if ret =? 0 then
        '(ret, more, sink) ← real_writenstrs fd strs sink; Ret (ret, sent ++ more, sink)
      else Ret (ret, sent, sink)
  end.

(** ** Occurrences of a text *)

Definition occurs (needle buf : list Z) (i : Z) : Prop :=
  0 <= i /\ take (length needle) (drop (Z.to_nat i) buf) = needle.

#[global] Instance occurs_dec needle buf i : Decision (occurs needle buf i).
Proof. unfold occurs; apply _. Defined.

(** The first occurrence at or after an offset. *)
Definition first_from (needle buf : list Z) (from k : Z) : Prop :=
  from <= k /\ occurs needle buf k /\
  forall j, from <= j < k -> ~ occurs needle buf j.

Definition absent_from (needle buf : list Z) (from : Z) : Prop :=
  forall j, from <= j -> ~ occurs needle buf j.

Lemma occurs_fits needle buf i :
  needle <> [] -> occurs needle buf i ->
  i + Z.of_nat (length needle) <= Z.of_nat (length buf).
Proof.
  intros Hn [Hi Ho]. apply (f_equal length) in Ho.
  rewrite length_take, length_drop in Ho.
  destruct needle; [done|]. cbn [length] in *. lia.
Qed.

(** Whether a text occurs at an offset depends on the bytes up to its end. *)
Lemma occurs_app needle buf more i :
  i + Z.of_nat (length needle) <= Z.of_nat (length buf) ->
  occurs needle (buf ++ more) i <-> occurs needle buf i.
Proof.
  intros Hle. unfold occurs.
  split; intros [Hi Ho]; split; auto; rewrite <- Ho at 2;
    rewrite drop_app_le, take_app_le by (rewrite ?length_drop; lia); done.
Qed.

Lemma first_from_app needle buf more from k :
  needle <> [] -> first_from needle buf from k -> first_from needle (buf ++ more) from k.
Proof.
  intros Hn (Hk & Ho & Hnot). pose proof (occurs_fits _ _ _ Hn Ho).
  split; [done|split; [by apply occurs_app|]].
  intros j Hj. rewrite occurs_app by lia. auto.
Qed.

Lemma first_unique needle buf from k k' :
  first_from needle buf from k -> first_from needle buf from k' -> k = k'.
Proof.
  intros (Hk & Ho & Hnot) (Hk' & Ho' & Hnot').
  destruct (Z.lt_trichotomy k k') as [?|[?|?]]; [|done|].
  - exfalso. apply (Hnot' k); auto with lia.
  - exfalso. apply (Hnot k'); auto with lia.
Qed.

Lemma match_at_spec needle : forall buf i,
  0 <= i -> i + Z.of_nat (length needle) <= Z.of_nat (length buf) ->
  match_at buf i needle = Ret (bool_decide (occurs needle buf i)).
Proof.
  induction needle as [|c needle IH]; intros buf i Hi Hle; cbn [match_at].
  { f_equal. symmetry. apply bool_decide_eq_true. split; done. }
  cbn [length] in Hle.
  destruct (lookup_lt_is_Some_2 buf (Z.to_nat i)) as [b Hb]; [lia|].
  rewrite Hb. cbn [load mbind outcome_bind].
  assert (Hd : drop (Z.to_nat i) buf = b :: drop (Z.to_nat (i + 1)) buf).
  { rewrite (drop_S _ _ _ Hb). do 2 f_equal. lia. }
  assert (Hiff : occurs (c :: needle) buf i <-> b = c /\ occurs needle buf (i + 1)).
  { unfold occurs. rewrite Hd. cbn [length take]. split.
    - intros [_ Heq]. injection Heq as -> Heq. rewrite Heq. split; [done|split; [lia|done]].
    - intros (-> & _ & Heq). split; [lia|]. by rewrite Heq. }
  destruct (Z.eqb_spec b c) as [Hbc|Hbc].
  - rewrite IH by lia. f_equal. apply bool_decide_ext. tauto.
  - f_equal. symmetry. apply bool_decide_eq_false. tauto.
Qed.

(** ** The invariant *)

Definition data (state : search_state) : list Z :=
  take (Z.to_nat (used state)) (chbuf state).

Record search_ok (state : search_state) : Prop := {
  ok_length : Z.of_nat (length (chbuf state)) = capacity state;
  ok_capacity : 0 < capacity state <= max_capacity state;
  ok_max : max_capacity state < 2147483648;
  ok_used : 0 <= used state <= capacity state;
  ok_offset : 0 <= search_offset state <= used state
}.

Lemma length_data state :
  search_ok state -> Z.of_nat (length (data state)) = used state.
Proof. intros []. unfold data. rewrite length_take. lia. Qed.

(** All the bytes of [whole] are in the buffer or still to be read. *)
Record search_inv (from : Z) (whole : list Z) (max : Z)
    (state : search_state) (src : list read_event) : Prop := {
  inv_ok : search_ok state;
  inv_max : max_capacity state = max;
  inv_whole : data state ++ stream src = whole;
  inv_from : 0 <= from <= search_offset state
}.

(** The offsets that the search has left behind are no occurrences. *)
Definition passed (needle : list Z) (from : Z) (state : search_state) : Prop :=
  forall j, from <= j < search_offset state ->
    j + Z.of_nat (length needle) <= used state /\ ~ occurs needle (data state) j.

(** The valid bytes from the current offset are too few for an occurrence. *)
Definition exhausted (needle : list Z) (state : search_state) : Prop :=
  used state < search_offset state + Z.of_nat (length needle).

Lemma exhausted_absent needle from state :
  needle <> [] -> search_ok state -> passed needle from state ->
  exhausted needle state -> absent_from needle (data state) from.
Proof.
  intros Hn Hok Hpast Hex j Hj Ho.
  pose proof (occurs_fits _ _ _ Hn Ho) as Hf. rewrite length_data in Hf by done.
  unfold exhausted in Hex.
  destruct (Z.lt_ge_cases j (search_offset state)); [|lia].
  by apply (Hpast j).
Qed.

(** The loop over the offsets of [limit] valid bytes. *)
Lemma scan_spec needle limit : forall fuel state,
  needle <> [] -> Z.of_nat (length needle) < 2147483648 ->
  0 <= search_offset state <= limit ->
  limit <= Z.of_nat (length (chbuf state)) -> limit < 2147483648 ->
  limit - search_offset state < Z.of_nat fuel ->
  exists found at_ needle_at,
    scan fuel needle limit state =
      Ret (found, {| chbuf := chbuf state; capacity := capacity state;
                     max_capacity := max_capacity state; used := used state;
                     search_offset := at_; needle_offset := needle_at |})
    /\ search_offset state <= at_ <= limit
    /\ if found : bool
       then at_ = needle_at + 1
            /\ first_from needle (take (Z.to_nat limit) (chbuf state))
                 (search_offset state) needle_at
       else limit < at_ + Z.of_nat (length needle)
            /\ forall j, search_offset state <= j < at_ ->
               j + Z.of_nat (length needle) <= limit
               /\ ~ occurs needle (take (Z.to_nat limit) (chbuf state)) j.
Proof.
  induction fuel as [|fuel IH]; intros state Hn Hlen Hso Hlim Hmax Hfuel; [lia|].
  assert (Hpos : 0 < Z.of_nat (length needle)) by (destruct needle; [done|cbn; lia]).
  cbn [scan]. set (at_ := search_offset state) in *.
  rewrite u32_small by lia.
  destruct (Z.leb_spec (at_ + Z.of_nat (length needle)) limit) as [Hle|Hgt].
  2:{ exists false, at_, (needle_offset state). split; [by destruct state|].
      split; [lia|]. split; [lia|]. intros j Hj; lia. }
  rewrite match_at_spec by lia. cbn [mbind outcome_bind].
  rewrite u32_small by lia.
  set (valid := take (Z.to_nat limit) (chbuf state)).
  assert (Hv : Z.of_nat (length valid) = limit) by (unfold valid; rewrite length_take; lia).
  assert (Hocc : occurs needle (chbuf state) at_ <-> occurs needle valid at_).
  { rewrite <- (take_drop (Z.to_nat limit) (chbuf state)). apply occurs_app. fold valid. lia. }
  case_bool_decide as Ho; rewrite Hocc in Ho.
  - exists true, (at_ + 1), at_. split; [done|]. split; [lia|]. split; [done|].
    split; [lia|]. split; [done|]. intros j Hj; lia.
  - destruct (IH {| chbuf := chbuf state; capacity := capacity state;
                    max_capacity := max_capacity state; used := used state;
                    search_offset := at_ + 1; needle_offset := needle_offset state |})
      as (found & at' & needle_at & Heq & Hat & Hres); cbn in *; try lia; [done|].
    exists found, at', needle_at. split; [done|]. split; [lia|].
    destruct found.
    + destruct Hres as (-> & Hge & Hoc & Hnot). split; [done|]. split; [lia|]. split; [done|].
      intros j Hj. destruct (decide (j = at_)) as [->|]; [done|]. apply Hnot. lia.
    + destruct Hres as [Hend Hnot]. split; [done|].
      intros j Hj. destruct (decide (j = at_)) as [->|]; [done|]. apply Hnot. lia.
Qed.

(** Growing keeps the bytes, and makes room unless the buffer has its largest
    size. *)
Lemma grow_spec fresh state :
  search_ok state ->
  (forall n, 0 < n <= max_capacity state -> exists m,
     fresh n = Some m /\ Z.of_nat (length m) = n) ->
  exists g state',
    search_state_grow_if_full fresh state = Ret (g, state')
    /\ ((g = 2 /\ state' = state /\ used state = max_capacity state)
        \/ ((g = 0 \/ g = 1)
            /\ search_ok state' /\ used state' < capacity state'
            /\ data state' = data state
            /\ used state' = used state /\ search_offset state' = search_offset state
            /\ needle_offset state' = needle_offset state
            /\ max_capacity state' = max_capacity state)).
Proof.
  intros [Hl Hc Hm Hu Ho] Hfresh. unfold search_state_grow_if_full.
  destruct (Z.eqb_spec (used state) (capacity state)) as [Hfull|Hroom].
  2:{ exists 0, state. split; [done|]. right. split; [auto|].
      split; [by split|]. split; [lia|done]. }
  rewrite u32_small by lia. rewrite !Z.gtb_ltb.
  destruct (Z.ltb_spec (max_capacity state) (2 * capacity state)) as [Hbig|Hsmall];
    cbn [andb].
  - destruct (Z.eqb_spec (used state) (max_capacity state)) as [Hum|Hum].
    { exists 2, state. split; [done|]. left; done. }
    destruct (Hfresh (max_capacity state)) as (m & Hm' & Hlm); [lia|].
    unfold realloc. rewrite Hm'. cbn [mbind option_bind load outcome_bind].
    eexists 1, _. split; [reflexivity|]. right. split; [auto|]. unfold data; cbn.
    rewrite (take_ge (chbuf state) (Z.to_nat (max_capacity state))) by lia.
    split; [|rewrite take_app_le by lia; split; [lia|done]].
    split; cbn; try lia. rewrite length_app, length_drop. lia.
  - destruct (Hfresh (2 * capacity state)) as (m & Hm' & Hlm); [lia|].
    unfold realloc. rewrite Hm'. cbn [mbind option_bind load outcome_bind].
    eexists 1, _. split; [reflexivity|]. right. split; [auto|]. unfold data; cbn.
    rewrite (take_ge (chbuf state) (Z.to_nat (2 * capacity state))) by lia.
    split; [|rewrite take_app_le by lia; split; [lia|done]].
    split; cbn; try lia. rewrite length_app, length_drop. lia.
Qed.

(** What [read] returns is the front of the stream. *)
Lemma read_stream n src :
  0 < n -> Forall proper_event src ->
  match read n src with
  | (Got [], src') => src = [] /\ src' = []
  | (Got bs, src') => stream src = bs ++ stream src' /\ Z.of_nat (length bs) <= n
                      /\ (size src' < size src)%nat
  | (Interrupted, src') => src = Interrupt :: src'
  | (Failed, src') => src = Failure :: src'
  end.
Proof.
  intros Hn Hp. destruct src as [|[bs| |] src]; cbn [read]; auto.
  inversion Hp as [|? ? Hne Hp']; subst. cbn in Hne.
  destruct (Z.leb_spec (Z.of_nat (length bs)) n) as [Hle|Hgt].
  - destruct bs as [|b bs]; [done|]. split; [done|]. cbn [size]. lia.
  - destruct (take (Z.to_nat n) bs) as [|b bs'] eqn:Ht.
    { apply (f_equal length) in Ht. rewrite length_take in Ht. cbn [length] in Ht. lia. }
    rewrite <- Ht. cbn [stream flat_map size]. rewrite app_assoc, take_drop.
    split; [done|]. rewrite length_take, length_drop. cbn [size]. lia.
Qed.

Lemma read_proper n src :
  0 < n -> Forall proper_event src -> Forall proper_event (snd (read n src)).
Proof.
  intros Hn Hp. destruct src as [|[bs| |] src]; cbn [read snd]; auto;
    inversion Hp as [|? ? Hne Hp']; subst; auto.
  destruct (Z.leb_spec (Z.of_nat (length bs)) n) as [Hle|Hgt]; cbn [snd]; [done|].
  constructor; [|done]. cbn. intros Hd. apply (f_equal length) in Hd.
  rewrite length_drop in Hd. cbn [length] in Hd. lia.
Qed.

(** The calls of [read] between two states of a source, of which [k] return
    bytes. *)
Inductive reads : Z -> list read_event -> list read_event -> Prop :=
  | reads_nil src : reads 0 src src
  | reads_got n k bs src src1 src2 :
      read n src = (Got bs, src1) -> bs <> [] -> reads k src1 src2 ->
      reads (k + 1) src src2
  | reads_other n a k src src1 src2 :
      read n src = (a, src1) -> (forall bs, a = Got bs -> bs = []) ->
      reads k src1 src2 -> reads k src src2.
#[export] Hint Constructors reads : lwtcp.

Lemma reads_trans k l src src1 src2 :
  reads k src src1 -> reads l src1 src2 -> reads (k + l) src src2.
Proof.
  intros H H'. induction H as [|n k bs src src3 src1 Hr Hne H IH|n a k src src3 src1 Hr Ha H IH].
  - by replace (0 + l) with l by lia.
  - replace (k + 1 + l) with (k + l + 1) by lia. eapply reads_got; eauto.
  - eapply reads_other; eauto.
Qed.

Lemma read_failure n a src src' :
  read n src = (a, src') -> In Failure src' -> In Failure src.
Proof.
  intros Hr Hin. destruct src as [|[bs| |] src]; cbn [read] in Hr.
  2: destruct (Z.of_nat (length bs) <=? n).
  all: injection Hr as <- <-; cbn in *; intuition congruence.
Qed.

Lemma reads_failure k src src' :
  reads k src src' -> In Failure src' -> In Failure src.
Proof. intros H. induction H; eauto using read_failure. Qed.

Section Search.

Context (fresh : Z -> option (list Z)) (needle : list Z).
Context (from : Z) (whole : list Z) (max : Z).
Hypothesis Hfresh : forall n, 0 < n <= max -> exists m,
  fresh n = Some m /\ Z.of_nat (length m) = n.
Hypothesis Hneedle : needle <> [].
Hypothesis Hlength : Z.of_nat (length needle) < 2147483648.

Notation inv := (search_inv from whole max).

(** What an answer says about the buffer and the source. *)
Definition answers (ret : Z) (state : search_state) (src : list read_event) : Prop :=
  (ret = 0 /\ first_from needle (data state) from (needle_offset state)
     /\ search_offset state = needle_offset state + 1)
  \/ (ret <> 0 /\ passed needle from state /\ exhausted needle state
      /\ ((ret = 1 /\ src = [] /\ used state < max) \/ ret = -1
          \/ (ret = -2 /\ used state = max) \/ ret = -3)).

Definition round_spec (e : round_end) (state : search_state) (src : list read_event) :=
  match e with
  | Answer ret => answers ret state src
  | Again _ => passed needle from state /\ exhausted needle state
  end.

(** The count of the reads after [nread] bytes were found to be of no use. *)
Definition counted (nread max_reads : Z) : round_end :=
  if max_reads =? 0 then Again 0
  else let m := if nread =? 0 then max_reads else max_reads - 1 in
       if m =? 0 then Answer (-3) else Again m.

(** The second half of a round, when [bs] was put behind the valid bytes. *)
Lemma check_round_spec state old bs max_reads src :
  search_ok state -> max_capacity state = max ->
  0 <= from <= search_offset state ->
  used state + Z.of_nat (length bs) <= capacity state ->
  Z.of_nat (length old) = used state ->
  take (Z.to_nat (used state + Z.of_nat (length bs))) (chbuf state) = old ++ bs ->
  old ++ bs ++ stream src = whole ->
  (forall j, from <= j < search_offset state ->
     j + Z.of_nat (length needle) <= used state /\ ~ occurs needle old j) ->
  exists e state',
    check_round needle (Z.of_nat (length bs)) max_reads state = Ret (e, state')
    /\ inv state' src /\ round_spec e state' src
    /\ (e = counted (Z.of_nat (length bs)) max_reads \/ e = Answer 0).
Proof using Hneedle Hlength.
  intros Hok Hmax Hfrom Hroom Hold Hdata Hwhole Hpast. pose proof Hok as [Hl Hc Hm Hu Ho].
  unfold check_round. rewrite !u32_small by lia.
  destruct (scan_spec needle (used state + Z.of_nat (length bs))
    (S (Z.to_nat (used state + Z.of_nat (length bs) - search_offset state))) state)
    as (found & at_ & k & Hscan & Hat & Hres); auto; try lia.
  rewrite Hscan. cbn [mbind outcome_bind used].
  rewrite Hdata in Hres. rewrite !u32_small by lia.
  set (state' := set_used _ _).
  assert (Hd' : data state' = old ++ bs) by exact Hdata.
  assert (Hinv : inv state' src).
  { split; cbn -[data]; auto; [split; cbn; lia| |lia].
    rewrite Hd'. by rewrite <- app_assoc. }
  assert (Hkeep : forall j, from <= j < search_offset state ->
    j + Z.of_nat (length needle) <= used state' /\ ~ occurs needle (old ++ bs) j).
  { intros j Hj. destruct (Hpast j Hj) as [Hend Hno]. cbn. split; [lia|].
    rewrite occurs_app; [done|lia]. }
  destruct found.
  - destruct Hres as (Hk & Hge & Hoc & Hnot). exists (Answer 0), state'.
    split; [done|]. split; [done|]. split; [|auto]. left. split; [done|].
    split; [|exact Hk]. rewrite Hd'. split; [cbn; lia|]. split; [done|].
    intros j Hj. destruct (Z.lt_ge_cases j (search_offset state)).
    + apply Hkeep; lia.
    + apply Hnot; cbn in *; lia.
  - destruct Hres as (Hend & Hnot).
    assert (Hpass : passed needle from state').
    { intros j Hj. rewrite Hd'. destruct (Z.lt_ge_cases j (search_offset state)).
      - apply Hkeep; lia.
      - apply Hnot; cbn in *; lia. }
    exists (counted (Z.of_nat (length bs)) max_reads), state'.
    split; [|split; [done|split; [|auto]]].
    + unfold counted. destruct (Z.eqb_spec max_reads 0) as [->|]; [done|].
      cbn [negb]. destruct (Z.of_nat (length bs) =? 0); cbn [negb]; case_match; done.
    + unfold counted.
      destruct (max_reads =? 0); [split; [done|exact Hend]|].
      case_match; cbn [round_spec]; [|split; [done|exact Hend]].
      right. split; [done|]. split; [done|]. split; [exact Hend|]. auto.
Qed.

(** How many reads may follow a round. *)
Definition budget (max_reads k : Z) (e : round_end) : Prop :=
  match e with
  | Again m => m = (if max_reads =? 0 then 0 else max_reads - k)
               /\ (max_reads <> 0 -> 0 < m)
  | Answer ret => (max_reads <> 0 -> k <= max_reads)
                  /\ (ret = -3 -> max_reads <> 0 /\ k = max_reads)
  end.

(** A round that reads: the buffer has no occurrence yet. *)
Lemma search_round_spec max_reads state src :
  0 <= max_reads -> Forall proper_event src -> inv state src ->
  passed needle from state -> exhausted needle state ->
  exists e state' src' k,
    search_round fresh false needle max_reads state src = Ret (e, state', src')
    /\ inv state' src' /\ round_spec e state' src' /\ Forall proper_event src'
    /\ reads k src src' /\ 0 <= k /\ budget max_reads k e
    /\ (e = Answer (-1) -> src = Failure :: src')
    /\ (forall m, e = Again m -> (size src' < size src)%nat).
Proof using Hfresh Hneedle Hlength.
  intros Hmr Hp [Hok Hmax Hwhole Hfrom] Hpast Hex. unfold search_round.
  destruct (grow_spec fresh state Hok) as (g & st & Hg & Hcase); [by rewrite Hmax|].
  rewrite Hg. cbn [mbind outcome_bind].
  destruct Hcase as [(-> & -> & Hfull)|(Hg01 & Hok' & Hroom & Hd & Hu & Hso & Hna & Hmx)].
  { eexists _, _, _, 0. split; [reflexivity|]. split; [done|].
    split; [right; split; [done|]; split; [done|]; split; [done|]; rewrite Hmax in Hfull; auto|].
    split; [done|]. split; [constructor|]. split; [done|]. split; [split; done|]. done. }
  replace (g =? 2) with false by (destruct Hg01; subst; done).
  pose proof Hok' as [Hl Hc Hm Hu' Ho].
  rewrite u32_small by lia.
  assert (Hinv : inv st src) by (split; [done|congruence|congruence|lia]).
  assert (Hpast' : passed needle from st) by (intros j; rewrite Hso, Hu, Hd; apply Hpast).
  assert (Hex' : exhausted needle st) by (unfold exhausted in *; by rewrite Hu, Hso).
  pose proof (read_stream (capacity st - used st) src ltac:(lia) Hp) as Hread.
  pose proof (read_proper (capacity st - used st) src ltac:(lia) Hp) as Hp'.
  destruct (read (capacity st - used st) src) as [[bs| |] src'] eqn:Hr; cbn [snd] in Hp'.
  - destruct bs as [|b bs].
    + destruct Hread as [-> ->]. eexists _, _, _, 0. split; [reflexivity|].
      split; [done|].
      split; [right; split; [done|]; split; [done|]; split; [done|]; left; split; [done|]; split; [done|lia]|].
      split; [done|]. split; [constructor|]. split; [done|]. split; [split; done|]. done.
    + destruct Hread as (Hs & Hle & Hsz). set (bs' := b :: bs) in *.
      unfold store. case_match eqn:Hfit; [|apply Nat.leb_gt in Hfit; lia].
      cbn [mbind outcome_bind].
      set (st1 := set_chbuf _ _).
      assert (Hbl : Z.of_nat (length (chbuf st1)) = capacity st).
      { apply Nat.leb_le in Hfit. cbn [st1 set_chbuf chbuf].
        rewrite !length_app, length_take, length_drop. lia. }
      destruct (check_round_spec st1 (data st) bs' max_reads src')
        as (e & st2 & Hcheck & Hinv2 & Hspec & He).
      * split; [exact Hbl|..]; cbn; lia.
      * cbn; congruence.
      * cbn; lia.
      * cbn [st1 set_chbuf used capacity]. lia.
      * exact (length_data st Hok').
      * unfold data. cbn [st1 set_chbuf used chbuf]. rewrite app_assoc, take_app_le.
        -- apply take_ge. rewrite length_app, length_take. lia.
        -- rewrite length_app, length_take. lia.
      * destruct Hinv as [_ _ Hw _]. by rewrite <- Hs.
      * intros j Hj. apply (Hpast' j Hj).
      * rewrite Hcheck. exists e, st2, src', 1. split; [done|]. split; [done|].
        split; [done|]. split; [done|].
        split; [apply (reads_got (capacity st - used st) 0 bs' _ src'); [done|done|constructor]|].
        split; [done|].
        assert (Hb : budget max_reads 1 e /\ e <> Answer (-1)).
        { destruct He as [->| ->]; [|split; [split; lia|done]].
          unfold counted. destruct (Z.eqb_spec max_reads 0) as [->|Hnz]; [done|].
          destruct (Z.eqb_spec (Z.of_nat (length bs')) 0); [done|].
          destruct (Z.eqb_spec (max_reads - 1) 0); cbn; [split; [lia|done]|].
          destruct (Z.eqb_spec max_reads 0); [done|]. split; [lia|done]. }
        destruct Hb as [Hb Hne]. split; [done|]. split; [done|]. intros; done.
  - subst src. eexists _, _, _, 0. split; [reflexivity|]. split; [by destruct Hinv|].
    split; [done|]. split; [done|].
    split; [by apply (reads_other (capacity st - used st) Interrupted 0 _ src'); [| |constructor]|].
    split; [done|]. split; [cbn; case_bool; lia|]. split; [done|]. intros; cbn; lia.
  - subst src. eexists _, _, _, 0. split; [reflexivity|]. split; [by destruct Hinv|].
    split; [right; split; [done|]; split; [exact Hpast'|]; auto|]. split; [done|].
    split; [by apply (reads_other (capacity st - used st) Failed 0 _ src'); [| |constructor]|].
    split; [done|]. split; [split; done|]. done.
Qed.

Lemma search_rounds_spec : forall fuel max_reads state src,
  (size src < fuel)%nat -> 0 <= max_reads -> Forall proper_event src ->
  inv state src -> passed needle from state -> exhausted needle state ->
  exists ret state' src' k,
    search_rounds fresh fuel false needle max_reads state src = Ret (ret, state', src')
    /\ inv state' src' /\ answers ret state' src' /\ reads k src src'
    /\ (max_reads <> 0 -> k <= max_reads)
    /\ (ret = -3 -> max_reads <> 0 /\ k = max_reads)
    /\ (ret = -1 -> In Failure src).
Proof using Hfresh Hneedle Hlength.
  induction fuel as [|fuel IH]; intros max_reads state src Hf Hmr Hp Hinv Hpast Hex; [lia|].
  destruct (search_round_spec max_reads state src) as
    (e & st & src1 & k & Heq & Hinv1 & Hspec & Hp1 & Hk & Hk0 & Hb & Hfail & Hsz); auto.
  cbn [search_rounds]. rewrite Heq. cbn [mbind outcome_bind].
  destruct e as [ret|m].
  - exists ret, st, src1, k. cbn in Hb, Hspec. destruct Hb as [Hb1 Hb2].
    split; [done|]. split; [done|]. split; [done|]. split; [done|]. split; [done|].
    split; [done|]. intros ->. rewrite (Hfail eq_refl). by left.
  - cbn in Hb, Hspec. destruct Hb as [Hm Hpos], Hspec as [Hpast1 Hex1].
    destruct (IH m st src1) as (ret & st2 & src2 & k2 & Heq2 & Hinv2 & Hans & Hk2 & Hle & H3 & H1);
      auto.
    + specialize (Hsz m eq_refl). lia.
    + destruct (Z.eqb_spec max_reads 0); lia.
    + exists ret, st2, src2, (k + k2). split; [done|]. split; [done|]. split; [done|].
      split; [by apply (reads_trans _ _ _ src1)|].
      destruct (Z.eqb_spec max_reads 0) as [->|Hnz].
      * split; [done|]. split; [intros ->; destruct (H3 eq_refl); lia|].
        intros Hr. eapply reads_failure; eauto.
      * split; [intros; lia|]. split; [intros ->; destruct (H3 eq_refl); lia|].
        intros Hr. eapply reads_failure; eauto.
Qed.

Lemma search_rounds_S fuel first_loop max_reads state src :
  search_rounds fresh (S fuel) first_loop needle max_reads state src =
  ('(e, state, src) ← search_round fresh first_loop needle max_reads state src;
   match e with
   | Answer ret => Ret (ret, state, src)
   | Again max_reads => search_rounds fresh fuel false needle max_reads state src
   end).
Proof. reflexivity. Qed.

(** The whole search, whose first round looks at the bytes that are there. *)
Lemma search_start_spec max_reads state src :
  0 <= max_reads -> Forall proper_event src -> inv state src ->
  search_offset state = from ->
  exists ret state' src' k,
    search_rounds fresh (S (S (size src))) true needle max_reads state src =
      Ret (ret, state', src')
    /\ inv state' src' /\ answers ret state' src' /\ reads k src src'
    /\ (max_reads <> 0 -> k <= max_reads)
    /\ (ret = -3 -> max_reads <> 0 /\ k = max_reads)
    /\ (ret = -1 -> In Failure src).
Proof using Hfresh Hneedle Hlength.
  intros Hmr Hp Hinv Hso. pose proof Hinv as [Hok Hmax Hwhole Hfrom].
  pose proof Hok as [Hl Hc Hm Hu Ho].
  rewrite search_rounds_S. cbn [search_round].
  destruct (check_round_spec state (data state) [] max_reads src)
    as (e & st & Hcheck & Hinv1 & Hspec & He); auto.
  - cbn; lia.
  - exact (length_data state Hok).
  - rewrite app_nil_r. unfold data. f_equal. cbn. lia.
  - intros j Hj; lia.
  - change (Z.of_nat (length [])) with 0 in *. rewrite Hcheck. cbn [mbind outcome_bind].
    destruct He as [->| ->].
    2:{ exists 0, st, src, 0. do 3 (split; [done|]). split; [constructor|].
        split; [lia|]. done. }
    unfold counted in *.
    assert (He : (if max_reads =? 0 then Again 0
      else if (if 0 =? 0 then max_reads else max_reads - 1) =? 0 then Answer (-3)
      else Again (if 0 =? 0 then max_reads else max_reads - 1)) = Again max_reads).
    { destruct (Z.eqb_spec max_reads 0) as [->|]; [done|]. cbn.
      destruct (Z.eqb_spec max_reads 0); done. }
    rewrite He in *. destruct Hspec as [Hpast1 Hex1].
    apply search_rounds_spec; auto.
Qed.

End Search.

(** ** Guarantees *)

(** A heap that never fails on requests up to [n] bytes. *)
Definition provides (fresh : Z -> option (list Z)) (n : Z) : Prop :=
  forall k, 0 < k <= n -> exists m, fresh k = Some m /\ Z.of_nat (length m) = k.

Lemma search_inv_refl state src :
  search_ok state ->
  search_inv (search_offset state) (data state ++ stream src) (max_capacity state) state src.
Proof. intros []; split; auto; [by split|lia]. Qed.

(** Both entry points run the same loop. *)
Lemma read_search_rounds fresh fd needle state max_reads src :
  needle <> [] -> -2147483648 < fd < 2147483648 ->
  read_search fresh fd needle state max_reads src =
  search_rounds fresh (S (S (size src))) true needle max_reads state src.
Proof.
  intros Hn Hfd. unfold read_search, real_read_search. destruct needle; [done|].
  destruct (Z.ltb_spec fd 0); [|done]. rewrite s32_small by lia.
  rewrite Z.geb_leb. destruct (Z.leb_spec 0 (- fd)); [done|lia].
Qed.

(** C29: on every state of a search, with every source and every bound on the
    number of reads, [read_search] returns; no byte is lost, the text is found
    at the first offset after the ones already searched, every other answer
    means that it does not occur in the bytes that have arrived, at most
    [max_reads] calls of [read] return bytes (exactly that many before -3), and
    -1 means that a call failed. *)
Theorem read_search_stops fresh fd needle state max_reads src :
  search_ok state -> provides fresh (max_capacity state) ->
  needle <> [] -> Z.of_nat (length needle) < 2147483648 ->
  -2147483648 < fd < 2147483648 -> 0 <= max_reads -> Forall proper_event src ->
  exists ret state' src' k,
    read_search fresh fd needle state max_reads src = Ret (ret, state', src')
    /\ search_ok state' /\ max_capacity state' = max_capacity state
    /\ data state' ++ stream src' = data state ++ stream src
    /\ (ret = 0 /\ search_offset state' = needle_offset state' + 1
          /\ first_from needle (data state') (search_offset state) (needle_offset state')
        \/ (ret = 1 /\ src' = [] \/ ret = -1 /\ In Failure src
             \/ ret = -2 /\ used state' = max_capacity state \/ ret = -3 /\ k = max_reads)
           /\ absent_from needle (data state') (search_offset state))
    /\ reads k src src' /\ (max_reads <> 0 -> k <= max_reads).
Proof.
  intros Hok Hfresh Hn Hlen Hfd Hmr Hp. rewrite read_search_rounds by done.
  destruct (search_start_spec fresh needle (search_offset state) (data state ++ stream src)
    (max_capacity state) Hfresh Hn Hlen max_reads state src Hmr Hp)
    as (ret & st & src' & k & Heq & [Hok' Hmax Hw Hfr] & Hans & Hk & Hle & H3 & H1);
    [by apply search_inv_refl|done|].
  exists ret, st, src', k. repeat (split; [done|]). split; [|done].
  destruct Hans as [(-> & Hfirst & Hso)|(Hnz & Hpass & Hex & Hcase)]; [by left|right].
  split; [|by apply exhausted_absent].
  destruct Hcase as [(-> & -> & _)|[-> |[[-> Hfull]| ->]]]; auto 6.
  right; right; right. split; [done|]. by apply H3.
Qed.

(** C28: without failures and without a bound on the reads, the answer of
    [read_search] depends only on the bytes that follow in the stream, not on
    how they arrive: 0 and the first occurrence, if it ends within the largest
    size of the buffer; 1 if the stream ends before that size without an
    occurrence; -2 otherwise. *)
Theorem read_search_finds fresh fd needle state src :
  search_ok state -> provides fresh (max_capacity state) ->
  needle <> [] -> Z.of_nat (length needle) < 2147483648 ->
  -2147483648 < fd < 2147483648 -> Forall proper_event src -> ~ In Failure src ->
  let whole := data state ++ stream src in
  let most := max_capacity state in
  exists ret state' src',
    read_search fresh fd needle state 0 src = Ret (ret, state', src')
    /\ (ret = 0 /\ first_from needle whole (search_offset state) (needle_offset state')
          /\ needle_offset state' + Z.of_nat (length needle) <= most
        \/ ret = 1 /\ absent_from needle whole (search_offset state)
          /\ Z.of_nat (length whole) < most
        \/ ret = -2 /\ absent_from needle (take (Z.to_nat most) whole) (search_offset state)
          /\ most <= Z.of_nat (length whole)).
Proof.
  intros Hok Hfresh Hn Hlen Hfd Hp Hnf whole most. rewrite read_search_rounds by done.
  destruct (search_start_spec fresh needle (search_offset state) whole most Hfresh Hn Hlen 0 state src
    ltac:(lia) Hp) as (ret & st & src' & k & Heq & [Hok' Hmax Hw Hfr] & Hans & Hk & Hle & H3 & H1);
    [by apply search_inv_refl|done|].
  exists ret, st, src'. split; [done|].
  pose proof (length_data st Hok') as Hld. pose proof Hok' as [_ Hc _ Hu _].
  destruct Hans as [(-> & Hfirst & Hso)|(Hnz & Hpass & Hex & Hcase)].
  - left. split; [done|]. rewrite <- Hw. split; [by apply first_from_app|].
    destruct Hfirst as (_ & Ho & _). apply occurs_fits in Ho; [lia|done].
  - pose proof (exhausted_absent _ _ _ Hn Hok' Hpass Hex) as Habs. right.
    destruct Hcase as [(-> & -> & Hlt)|[-> |[[-> Hfull]| ->]]].
    + left. rewrite <- Hw. cbn [stream flat_map]. rewrite app_nil_r. split; [done|].
      split; [done|]. lia.
    + by destruct Hnf; apply H1.
    + right. split; [done|]. rewrite <- Hw. rewrite take_app_le by lia.
      rewrite take_ge by lia. split; [done|]. rewrite length_app. lia.
    + destruct (H3 eq_refl). done.
Qed.

Lemma readn_loop_spec n : forall fuel nleft buf src,
  (size src < fuel)%nat -> 0 <= nleft <= n -> Z.of_nat (length buf) = n - nleft ->
  Forall proper_event src ->
  exists ret got src',
    readn_loop fuel n nleft buf src = Ret (ret, got, src')
    /\ got ++ stream src' = buf ++ stream src
    /\ (ret = n /\ Z.of_nat (length got) = n
        \/ ret = Z.of_nat (length got) /\ ret < n /\ src' = []
        \/ ret = -1 /\ In Failure src).
Proof.
  induction fuel as [|fuel IH]; intros nleft buf src Hf Hn Hb Hp; [lia|].
  cbn [readn_loop]. rewrite Z.gtb_ltb. destruct (Z.ltb_spec 0 nleft).
  2:{ exists n, buf, src. replace (n - nleft) with n in * by lia. auto. }
  pose proof (read_stream nleft src ltac:(lia) Hp) as Hread.
  pose proof (read_proper nleft src ltac:(lia) Hp) as Hp'.
  pose proof (read_failure nleft (fst (read nleft src)) src (snd (read nleft src))
    ltac:(by destruct (read nleft src))) as Hfl.
  destruct (read nleft src) as [[bs| |] src'] eqn:Hr; cbn [fst snd] in *.
  - destruct bs as [|b bs].
    + destruct Hread as [-> ->]. exists (n - nleft), buf, [].
      split; [done|]. split; [done|]. right; left. split; [done|]. split; [lia|done].
    + destruct Hread as (Hs & Hle & Hsz).
      destruct (IH (nleft - Z.of_nat (length (b :: bs))) (buf ++ b :: bs) src')
        as (ret & got & src2 & Heq & Hst & Hres); auto; [lia|lia|rewrite length_app; lia|].
      exists ret, got, src2. split; [exact Heq|]. split; [by rewrite Hst, Hs, <- app_assoc|].
      destruct Hres as [?|[?|[? ?]]]; auto.
  - subst src. destruct (IH nleft buf src') as (ret & got & src2 & Heq & Hst & Hres); auto;
      [cbn in *; lia|].
    exists ret, got, src2. split; [done|]. split; [done|].
    destruct Hres as [?|[?|[? ?]]]; auto.
  - subst src. exists (-1), buf, src'. split; [done|]. split; [done|]. right; right.
    split; [done|]. by left.
Qed.

(** [readn] gets exactly [n] bytes of the stream, or fewer at its end, or fails
    because a call of [read] did. *)
Theorem readn_exact fd n src :
  0 <= fd -> 0 <= n -> Forall proper_event src ->
  exists ret got src',
    readn fd n src = Ret (ret, got, src')
    /\ got ++ stream src' = stream src
    /\ (ret = n /\ Z.of_nat (length got) = n
        \/ ret = Z.of_nat (length got) /\ ret < n /\ src' = []
        \/ ret = -1 /\ In Failure src).
Proof.
  intros Hfd Hn Hp. unfold readn. rewrite Z.geb_leb.
  destruct (Z.leb_spec 0 fd); [|lia].
  destruct (readn_loop_spec n (S (size src)) n [] src) as (ret & got & src' & H' & Hs & Hr);
    auto; [lia|cbn; lia|]. by exists ret, got, src'.
Qed.

(** [read_once] waits for the first bytes. *)
Theorem read_once_some fd n src :
  0 <= fd -> 0 < n -> Forall proper_event src ->
  exists ret got src',
    read_once fd n src = Ret (ret, got, src')
    /\ got ++ stream src' = stream src
    /\ (0 < ret <= n /\ ret = Z.of_nat (length got)
        \/ ret = 0 /\ stream src = [] \/ ret = -1 /\ In Failure src).
Proof.
  intros Hfd Hn. unfold read_once. rewrite Z.geb_leb. destruct (Z.leb_spec 0 fd); [|lia].
  enough (Hloop : forall fuel src0, (size src0 <= fuel)%nat -> Forall proper_event src0 ->
    exists ret got src', read_once_loop fuel n src0 = Ret (ret, got, src')
    /\ got ++ stream src' = stream src0
    /\ (0 < ret <= n /\ ret = Z.of_nat (length got)
        \/ ret = 0 /\ stream src0 = [] \/ ret = -1 /\ In Failure src0)).
  { intros; by apply Hloop. }
  induction fuel as [|fuel IH]; intros src0 Hf Hp.
  { destruct src0 as [|[] ?]; cbn in Hf; lia. }
  cbn [read_once_loop]. pose proof (read_stream n src0 ltac:(lia) Hp) as Hread.
  pose proof (read_proper n src0 ltac:(lia) Hp) as Hp'.
  destruct (read n src0) as [[bs| |] src'] eqn:Hr; cbn [snd] in Hp'.
  - eexists _, _, _. split; [reflexivity|]. destruct bs as [|b bs].
    + destruct Hread as [-> ->]. split; [done|]. right; left. done.
    + destruct Hread as (-> & Hle & _). split; [done|]. left. cbn [length] in *. lia.
  - subst src0. destruct (IH src') as (ret & got & src2 & Heq & Hs & Hres); auto; [cbn in *; lia|].
    exists ret, got, src2. split; [done|]. split; [done|].
    destruct Hres as [?|[?|[? ?]]]; [by left|by right; left|right; right; split; [done|by right]].
  - subst src0. eexists _, _, _. split; [reflexivity|]. split; [done|]. right; right.
    split; [done|]. by left.
Qed.

(** A call of [write] that cannot be continued. *)
Definition write_breaks (e : write_event) : Prop :=
  match e with Took n => n <= 0 | Write_interrupt => False | Write_failure => True end.

Lemma writen_loop_spec : forall fuel bs sent sink,
  (length bs + length sink < fuel)%nat ->
  exists ret out rest sink',
    writen_loop fuel bs sent sink = Ret (ret, sent ++ out, sink') /\ bs = out ++ rest
    /\ (ret = 0 /\ rest = [] \/ ret = -1 /\ rest <> [] /\ Exists write_breaks sink).
Proof.
  induction fuel as [|fuel IH]; intros bs sent sink Hf; [lia|].
  destruct bs as [|b bs]; cbn [writen_loop].
  { exists 0, [], [], sink. rewrite app_nil_r. auto. }
  set (all := b :: bs) in *. destruct sink as [|[n| |] sink]; cbn [write].
  - destruct (IH [] (sent ++ all) []) as (ret & out & rest & sink' & Heq & Hb & Hres).
    { unfold all in *; cbn in *; lia. }
    destruct out, rest; try done. exists ret, all, [], sink'.
    rewrite app_nil_r in *. unfold all in *.
    replace (drop (length (b :: bs)) (b :: bs)) with (@nil Z) by (symmetry; by apply drop_all).
    split; [done|]. split; [done|]. destruct Hres as [[-> _]|(_ & ? & _)]; [auto|done].
  - destruct (take (Z.to_nat n) all) as [|t ts] eqn:Ht.
    + exists (-1), [], all, sink. rewrite app_nil_r. split; [done|]. split; [done|]. right.
      split; [done|]. split; [done|]. left. cbn. unfold all in Ht.
      destruct (Z.to_nat n) eqn:Hz; [lia|done].
    + pose proof (take_drop (Z.to_nat n) all) as Htd. rewrite Ht in Htd.
      assert (Hd : drop (length (t :: ts)) all = drop (Z.to_nat n) all)
        by (rewrite <- Htd at 1; apply drop_app_length).
      destruct (IH (drop (Z.to_nat n) all) (sent ++ t :: ts) sink)
        as (ret & out & rest & sink' & Heq & Hb & Hres).
      { rewrite <- Htd, length_app in Hf. cbn in Hf. lia. }
      exists ret, ((t :: ts) ++ out), rest, sink'. rewrite Hd, Heq, <- !app_assoc.
      split; [done|]. split; [by rewrite <- Htd, Hb|].
      destruct Hres as [?|(? & ? & ?)]; [auto|]. right. split; [done|]. split; [done|by right].
  - destruct (IH all sent sink) as (ret & out & rest & sink' & Heq & Hb & Hres);
      [cbn in *; lia|].
    exists ret, out, rest, sink'. split; [done|]. split; [done|].
    destruct Hres as [?|(? & ? & ?)]; [auto|]. right. split; [done|]. split; [done|by right].
  - exists (-1), [], all, sink. rewrite app_nil_r. split; [done|]. split; [done|]. right.
    split; [done|]. split; [done|]. by left.
Qed.

(** [writen] sends the first [n] bytes of its buffer in order; it gives up after
    a part of them only when a call of [write] fails or takes nothing. *)
Theorem writen_sends fd buf n sink :
  -2147483648 < fd < 2147483648 -> 0 <= n <= Z.of_nat (length buf) ->
  exists ret sent rest sink',
    writen fd buf n sink = Ret (ret, sent, sink') /\ take (Z.to_nat n) buf = sent ++ rest
    /\ (ret = 0 /\ rest = [] \/ ret = -1 /\ rest <> [] /\ Exists write_breaks sink).
Proof.
  intros Hfd Hn.
  assert (Hsame : writen fd buf n sink =
    writen_loop (writen_fuel (Z.to_nat n) sink) (take (Z.to_nat n) buf) [] sink).
  { unfold writen, real_writen. destruct (Z.leb_spec n (Z.of_nat (length buf))); [|lia].
    destruct (Z.ltb_spec fd 0); [|done]. rewrite s32_small by lia. rewrite Z.geb_leb.
    destruct (Z.leb_spec 0 (- fd)); [done|lia]. }
  rewrite Hsame. apply (writen_loop_spec _ _ []).
  unfold writen_fuel. rewrite length_take. lia.
Qed.

(** Without failures everything goes out. *)
Lemma writen_whole fd buf n :
  -2147483648 < fd < 2147483648 -> 0 <= n <= Z.of_nat (length buf) ->
  writen fd buf n [] = Ret (0, take (Z.to_nat n) buf, []).
Proof.
  intros Hfd Hn.
  assert (Hl : forall bs, writen_loop (writen_fuel (length bs) []) bs [] [] = Ret (0, bs, [])).
  { intros bs. unfold writen_fuel. destruct bs as [|b bs]; [done|].
    cbn [length Nat.add writen_loop write app].
    replace (drop (S (length bs)) (b :: bs)) with (@nil Z) by (symmetry; by apply drop_all).
    destruct (length bs + 0)%nat; done. }
  specialize (Hl (take (Z.to_nat n) buf)). rewrite length_take, Nat.min_l in Hl by lia.
  unfold writen, real_writen. destruct (Z.leb_spec n (Z.of_nat (length buf))); [|lia].
  rewrite Hl. destruct (Z.ltb_spec fd 0); [|done]. rewrite s32_small by lia.
  rewrite Z.geb_leb. by destruct (Z.leb_spec 0 (- fd)); [|lia].
Qed.

(** A heap of zeroes. *)
Definition zero_heap (n : Z) : option (list Z) := Some (replicate (Z.to_nat n) 0).

Lemma zero_heap_provides n : provides zero_heap n.
Proof.
  intros k Hk. eexists. split; [reflexivity|]. rewrite length_replicate. lia.
Qed.

Lemma search_state_init_ok fresh init_size max_size state :
  (forall n m, fresh n = Some m -> Z.of_nat (length m) = n) ->
  0 < init_size -> max_size < 2147483648 ->
  search_state_init fresh init_size max_size = Ret state ->
  search_ok state /\ data state = [] /\ search_offset state = 0
  /\ max_capacity state = max_size.
Proof.
  intros Hfresh Hi Hm. unfold search_state_init.
  destruct (Z.eqb_spec init_size 0); [done|].
  destruct (Z.ltb_spec max_size init_size); [done|]. cbn [orb].
  destruct (fresh init_size) as [m|] eqn:Hf; [|done]. apply Hfresh in Hf.
  intros [= <-]. split; [|done]. split; cbn; try lia. rewrite length_replicate. lia.
Qed.

(** A state in the middle of a search: two bytes have arrived, and were searched. *)
Definition sample_state : search_state :=
  {| chbuf := [97; 98]; capacity := 2; max_capacity := 8; used := 2;
     search_offset := 2; needle_offset := 0 |}.

Definition sample_source : list read_event := [Data [99]; Interrupt; Data [10; 100]; Data [101]].

Lemma sample_state_ok : search_ok sample_state.
Proof. split; cbn; lia. Qed.

Lemma read_search_stops_witness :
  search_ok sample_state /\
  exists ret state' src' k,
    read_search zero_heap (-7) [10] sample_state 2 sample_source = Ret (ret, state', src')
    /\ search_ok state' /\ max_capacity state' = 8
    /\ data state' ++ stream src' = [97; 98; 99; 10; 100; 101]
    /\ (ret = 0 /\ search_offset state' = needle_offset state' + 1
          /\ first_from [10] (data state') 2 (needle_offset state')
        \/ (ret = 1 /\ src' = [] \/ ret = -1 /\ In Failure sample_source
             \/ ret = -2 /\ used state' = 8 \/ ret = -3 /\ k = 2)
           /\ absent_from [10] (data state') 2)
    /\ reads k sample_source src' /\ (2 <> 0 -> k <= 2).
Proof.
  split; [exact sample_state_ok|].
  apply (read_search_stops zero_heap (-7) [10] sample_state 2 sample_source);
    try lia; [exact sample_state_ok|apply zero_heap_provides|done|cbn; lia|].
  repeat constructor; cbn; done.
Defined.

Lemma read_search_finds_witness :
  read_search zero_heap 7 [10] sample_state 0 sample_source =
    Ret (0, {| chbuf := [97; 98; 99; 10]; capacity := 4; max_capacity := 8;
               used := 4; search_offset := 4; needle_offset := 3 |},
         [Data [100]; Data [101]])
  /\ exists ret state' src',
    read_search zero_heap 7 [10] sample_state 0 sample_source = Ret (ret, state', src')
    /\ (ret = 0 /\ first_from [10] [97; 98; 99; 10; 100; 101] 2 (needle_offset state')
          /\ needle_offset state' + 1 <= 8
        \/ ret = 1 /\ absent_from [10] [97; 98; 99; 10; 100; 101] 2 /\ 6 < 8
        \/ ret = -2 /\ absent_from [10] [97; 98; 99; 10; 100; 101] 2 /\ 8 <= 6).
Proof.
  split; [vm_compute; reflexivity|].
  apply (read_search_finds zero_heap 7 [10] sample_state sample_source);
    try lia; [exact sample_state_ok|apply zero_heap_provides|done|cbn; lia| |].
  - repeat constructor; cbn; done.
  - cbn. intuition congruence.
Defined.

(** On a connection that takes everything, several strings arrive joined. *)
Theorem writenstrs_joins fd strs :
  -2147483648 < fd < 2147483648 ->
  writenstrs fd strs [] = Ret (0, concat strs, []).
Proof.
  intros Hfd. induction strs as [|str strs IH]; cbn [writenstrs]; [done|].
  unfold writenstr. rewrite writen_whole, Nat2Z.id, firstn_all by lia. cbn [mbind outcome_bind Z.eqb].
  by rewrite IH.
Qed.

(** [writenf] sends the whole text or, when it is too long for its buffer, nothing. *)
Theorem writenf_sends fd text :
  -2147483648 < fd < 2147483648 ->
  writenf fd text [] =
  if Z.of_nat (length text) <? WRITEN_MAX_LEN then Ret (0, text, []) else Ret (-1, [], []).
Proof.
  intros Hfd. unfold writenf. destruct (Z.ltb_spec (Z.of_nat (length text)) WRITEN_MAX_LEN); [|done].
  rewrite (take_ge text) by (unfold WRITEN_MAX_LEN in *; lia).
  rewrite writen_whole by (rewrite ?length_app; cbn; lia).
  by rewrite Nat2Z.id, take_app_le, firstn_all by lia.
Qed.
