(* ===== verification/CliClient.v ===== *)
(** * A client of the command line ([cli/cli_main.c], [cli/cli_parser.y], [cli/cli.c])

    The thread of a client reads lines and gives them to the parser, whose
    commands write to the client.  The parser itself is generated from
    [cli_parser.y] and [cli_scanner.lex] and is an argument, [parse]; the code
    around it, [cli_parser_handle_client], is modelled, and so are the functions
    of [cli.c] that write to the client in focus.

    [client_lines_once]: a client that waits for the answer to every line gets
    every line executed exactly once, in order, however the bytes are cut into
    packets.  [pipelined_commands], [pipelined_bytes_lost] and [nul_aborts] are
    what happens to other clients. *)

From stdpp Require Import base gmap list.
From Stdlib Require Import ZArith Lia.
From S2P Require Import Prelude SocketHelper.

Definition CLI_INIT_BUF : Z := 256.
Definition CLI_MAX_BUF : Z := 2048.

(** The static variables of [cli.c], with what the connection in focus accepts
    ([sink]), what was written to it ([sent]), and the rest of the router. *)
Record cli (A : Type) := {
  router_shutdown : bool;
  fd : Z;
  fd_alive : bool;
  skip_next_prompt : bool;
  sink : list write_event;
  sent : list Z;
  router : A
}.
Arguments router_shutdown {A}.
Arguments fd {A}.
Arguments fd_alive {A}.
Arguments skip_next_prompt {A}.
Arguments sink {A}.
Arguments sent {A}.
Arguments router {A}.

(** A client's record, [cli_client_t]. *)
Record cli_client_t := { client_fd : Z; state : search_state; verbose : bool }.

Section Cli.

Context {A : Type}.
Implicit Types (s : cli A).

Definition set_focus_alive (v : bool) s : cli A :=
  {| router_shutdown := router_shutdown s; fd := fd s; fd_alive := v;
     skip_next_prompt := skip_next_prompt s; sink := sink s; sent := sent s;
     router := router s |}.

Definition cli_init s : cli A :=
  {| router_shutdown := false; fd := fd s; fd_alive := fd_alive s;
     skip_next_prompt := false; sink := sink s; sent := sent s; router := router s |}.

(** The focus goes to another client, on whose connection [sink] is written. *)
Definition cli_focus_set (sfd : Z) s : cli A :=
  {| router_shutdown := router_shutdown s; fd := sfd; fd_alive := true;
     skip_next_prompt := skip_next_prompt s; sink := sink s; sent := sent s;
     router := router s |}.

(** After a write: its result, the bytes that went out and the rest of the sink. *)
Definition written (ret : Z) (out : list Z) (rest : list write_event) s : cli A :=
  {| router_shutdown := router_shutdown s; fd := fd s;
     fd_alive := if ret =? 0 then fd_alive s else false;
     skip_next_prompt := skip_next_prompt s; sink := rest; sent := sent s ++ out;
     router := router s |}.

Definition cli_send_str (str : list Z) s : outcome (cli A) :=
  if fd_alive s then
    '(ret, out, rest) ← writenstr (fd s) str (sink s);
    Ret (written ret out rest s)
  else Ret s.

Definition cli_send_strs (strs : list (list Z)) s : outcome (cli A) :=
  if fd_alive s then
    '(ret, out, rest) ← writenstrs (fd s) strs (sink s);
    Ret (written ret out rest s)
  else Ret s.

Definition cli_send_parse_error (strs : list (list Z)) s : outcome (cli A) :=
  cli_send_strs strs s.

(** ["~> "]. *)
Definition PROMPT : list Z := [126; 62; 32].

Definition cli_send_prompt s : outcome (cli A) :=
  s ← (if skip_next_prompt s then Ret s else cli_send_str PROMPT s);
  Ret {| router_shutdown := router_shutdown s; fd := fd s; fd_alive := fd_alive s;
         skip_next_prompt := false; sink := sink s; sent := sent s;
         router := router s |}.

(** ["You are now logged into the router CLI."] and the end of the line. *)
Definition welcome_text : list Z :=
  [89; 111; 117; 32; 97; 114; 101; 32; 110; 111; 119; 32; 108; 111; 103; 103; 101;
   100; 32; 105; 110; 116; 111; 32; 116; 104; 101; 32; 114; 111; 117; 116; 101; 114;
   32; 67; 76; 73; 46; 10].

Definition cli_send_welcome s : outcome (cli A) := cli_send_str welcome_text s.

(** ["Goodbye!"] and the end of the line. *)
Definition goodbye_text : list Z := [71; 111; 111; 100; 98; 121; 101; 33; 10].

Definition cli_exit s : outcome (cli A) :=
  s ← cli_send_str goodbye_text s; Ret (set_focus_alive false s).

(** ** Handing lines to the parser *)

(** [strchr] from offset [from] of a buffer: the offset of the character, or
    nothing when the terminator comes first; running off the buffer has no
    meaning. *)
Fixpoint strchr_list (c : Z) (at_ : Z) (str : list Z) : outcome (option Z) :=
  match str with
  | [] => Undef
  | b :: str =>
      if b =? c then Ret (Some at_)
      else if b =? 0 then Ret None
      else strchr_list c (at_ + 1) str
  end.

Definition strchr (buf : list Z) (from c : Z) : outcome (option Z) :=
  strchr_list c from (drop (Z.to_nat from) buf).

Definition newline : Z := 10.

(** The generated parser on a buffer that ends in two NUL bytes. *)
Variable parse : list Z -> cli A -> outcome (cli A).

(** The loop over the newlines: [pch] is the one that was found last.  The
    result says whether the client stays. *)
Fixpoint commands (fuel : nat) (sbuf : list Z) (pch : Z) s : outcome (bool * cli A) :=
  match fuel with
  | O => Undef
  | S fuel =>
      let cmd_blen := pch + 1 in
      if CLI_MAX_BUF + 2 <? cmd_blen + 2 then Undef
      else
        s ← parse (take (Z.to_nat cmd_blen) sbuf ++ [0; 0]) s;
        if negb (fd_alive s) || router_shutdown s then Ret (false, s)
        else
          next ← strchr sbuf (pch + 1) newline;
          match next with
          | Some pch => commands fuel sbuf pch s
          | None => Ret (true, s)
          end
  end.

(** What is kept of the buffer after the commands. *)
Definition keep_rest (st : search_state) : outcome search_state :=
  let num := s32 (used st - needle_offset st - 1) in
  sbuf ← (if 0 <? num then
            if needle_offset st + num <=? Z.of_nat (length (chbuf st))
            then Ret (take (Z.to_nat num) (drop (Z.to_nat (needle_offset st)) (chbuf st))
                      ++ drop (Z.to_nat num) (chbuf st))
            else Undef
          else Ret (chbuf st));
  Ret {| chbuf := sbuf; capacity := capacity st; max_capacity := max_capacity st;
         used := if 0 <? num then num else 0; search_offset := 0;
         needle_offset := u32 (capacity st + 1) |}.

Definition cli_parser_handle_client (st : search_state) s
    : outcome (bool * search_state * cli A) :=
  pch ← strchr (chbuf st) 0 newline;
  match pch with
  | None => Undef
  | Some pch =>
      '(stays, s) ← commands (length (chbuf st)) (chbuf st) pch s;
      if stays : bool then
        st ← keep_rest st;
        s ← cli_send_prompt s;
        Ret (fd_alive s, st, s)
      else Ret (false, st, s)
  end.

(** ** The thread of a client *)

Variable fresh : Z -> option (list Z).

Definition set_state (st : search_state) (client : cli_client_t) : cli_client_t :=
  {| client_fd := client_fd client; state := st; verbose := verbose client |}.

Definition cli_client_handle_request (client : cli_client_t) (src : list read_event) s
    : outcome (bool * cli_client_t * list read_event * cli A) :=
  '(ret, st, src) ← read_search fresh (client_fd client) [newline] (state client) 1 src;
  '(ret_grow, st) ← search_state_grow_if_full fresh st;
  '(ret, st) ← (if (ret_grow =? 2) || (ret_grow =? -1) then Ret (-2, st)
                else
                  buf ← store (chbuf st) (used st) [0];
                  Ret (ret, set_chbuf buf st));
  let client := set_state st client in
  if ret =? -3 then Ret (true, client, src, s)
  else if ret =? -2 then Ret (false, client, src, s)
  else if ret =? -1 then Ret (false, client, src, s)
  else if ret =? 1 then
    found ← strchr (chbuf st) 0 newline;
    match found with
    | None => Ret (false, client, src, s)
    | Some _ => Undef
    end
  else if ret =? 0 then
    '(b, st, s) ← cli_parser_handle_client st (cli_focus_set (client_fd client) s);
    Ret (b, set_state st client, src, s)
  else Undef.

(** How the thread ends: with the whole process, or after closing the connection. *)
Inductive ending := Exited | Closed.

Fixpoint client_loop (fuel : nat) (client : cli_client_t) (src : list read_event) s
    : outcome (ending * cli A) :=
  match fuel with
  | O => Undef
  | S fuel =>
      '(res, client, src, s) ← cli_client_handle_request client src s;
      if router_shutdown s then Ret (Exited, s)
      else if res : bool then client_loop fuel client src s
      else Ret (Closed, s)
  end.

(** The first request is handled and what is left of it dropped. *)
Definition cli_client_handler_main (fuel : nat) (client : cli_client_t)
    (src : list read_event) s : outcome (ending * cli A) :=
  let client := {| client_fd := client_fd client; state := state client; verbose := false |} in
  '(_, client, src, s) ← cli_client_handle_request client src s;
  let st := state client in
  let client := set_state {| chbuf := chbuf st; capacity := capacity st;
    max_capacity := max_capacity st; used := 0; search_offset := 0;
    needle_offset := 0 |} client in
  s ← cli_send_welcome (cli_focus_set (client_fd client) s);
  s ← cli_send_prompt s;
  client_loop fuel client src s.

End Cli.

(** ** Lines *)

(** The complete lines of a stream that follows the bytes [acc], and the rest. *)
Fixpoint split_lines (acc bs : list Z) : list (list Z) * list Z :=
  match bs with
  | [] => ([], acc)
  | b :: bs =>
      if b =? newline
      then let (ls, rest) := split_lines [] bs in ((acc ++ [b]) :: ls, rest)
      else split_lines (acc ++ [b]) bs
  end.

Lemma split_lines_plain acc l bs :
  newline ∉ l -> split_lines acc (l ++ bs) = split_lines (acc ++ l) bs.
Proof.
  revert acc. induction l as [|b l IH]; intros acc Hl; cbn [app split_lines].
  - by rewrite app_nil_r.
  - apply not_elem_of_cons in Hl as [Hb Hl]. destruct (Z.eqb_spec b newline); [congruence|].
    rewrite IH by done. by rewrite <- app_assoc.
Qed.

Lemma split_lines_line acc l bs :
  newline ∉ l ->
  split_lines acc (l ++ newline :: bs) =
  ((acc ++ l ++ [newline]) :: (split_lines [] bs).1, (split_lines [] bs).2).
Proof.
  intros Hl. rewrite split_lines_plain by done. cbn [split_lines]. rewrite Z.eqb_refl.
  destruct (split_lines [] bs) as [ls rest]. by rewrite app_assoc.
Qed.

(** Every line, and what is behind the last one, fits the buffer of a client. *)
Definition lines_fit (acc bs : list Z) : Prop :=
  Forall (fun l => Z.of_nat (length l) < CLI_MAX_BUF) (split_lines acc bs).1
  /\ Z.of_nat (length (split_lines acc bs).2) < CLI_MAX_BUF.

Lemma lines_fit_acc bs : forall acc,
  lines_fit acc bs -> Z.of_nat (length acc) < CLI_MAX_BUF.
Proof.
  induction bs as [|b bs IH]; intros acc [Hls Hrest]; cbn [split_lines] in *; [done|].
  destruct (Z.eqb_spec b newline).
  - destruct (split_lines [] bs) as [ls rest]. cbn in Hls. inversion Hls; subst.
    rewrite length_app in *. cbn in *. lia.
  - assert (H : Z.of_nat (length (acc ++ [b])) < CLI_MAX_BUF) by by apply IH.
    rewrite length_app in H. cbn in H. lia.
Qed.

(** What a client that waits for its answers sends: in one packet there is
    nothing behind the end of a line. *)
Definition patient_packet (e : read_event) : Prop :=
  match e with
  | Data bs => bs <> [] /\ exists l, newline ∉ l /\ (bs = l \/ bs = l ++ [newline])
  | Interrupt => True
  | Failure => False
  end.

Lemma patient_proper src : Forall patient_packet src -> Forall proper_event src.
Proof. intros H. apply (Forall_impl _ _ _ H). intros [bs| |]; cbn; tauto. Qed.

Lemma patient_unfailing src : Forall patient_packet src -> ~ In Failure src.
Proof. rewrite List.Forall_forall. intros H Hin. apply (H _ Hin). Qed.

Lemma not_elem_take {X} (x : X) n l : x ∉ l -> x ∉ take n l.
Proof. intros H Hin. by apply H, (subseteq_take n). Qed.

Lemma not_elem_drop {X} (x : X) n l : x ∉ l -> x ∉ drop n l.
Proof. intros H Hin. by apply H, (subseteq_drop n). Qed.

(** Cutting a packet leaves two packets of that kind. *)
Lemma patient_read n src bs src' :
  Forall patient_packet src -> read n src = (Got bs, src') ->
  stream src = bs ++ stream src' /\ Forall patient_packet src'
  /\ exists l tail, bs = l ++ tail /\ newline ∉ l /\ (tail = [] \/ tail = [newline]).
Proof.
  intros Hp Hr. destruct src as [|[all| |] src]; cbn [read] in Hr; try done.
  { injection Hr as <- <-. split; [done|]. split; [done|]. exists [], []. 
    split; [done|]. split; [apply not_elem_of_nil|auto]. }
  apply Forall_cons in Hp as [[Hne (l & Hl & Hall)] Hp'].
  destruct (Z.leb_spec (Z.of_nat (length all)) n) as [Hle|Hgt]; injection Hr as <- <-.
  { split; [done|]. split; [done|]. destruct Hall as [->| ->];
      [exists l, []; rewrite app_nil_r|exists l, [newline]]; auto. }
  set (m := Z.to_nat n) in *.
  assert (Hm : (m < length all)%nat) by (unfold m; destruct all; [done|cbn [length] in *; lia]).
  split; [cbn; by rewrite app_assoc, take_drop|].
  assert (Ht : newline ∉ take m all).
  { destruct Hall as [->| ->]; [by apply not_elem_take|].
    rewrite length_app in Hm. cbn in Hm. rewrite take_app_le by lia. by apply not_elem_take. }
  split; [|exists (take m all), []; rewrite app_nil_r; auto].
  constructor; [|done]. split.
  { intros Hd. apply (f_equal length) in Hd. rewrite length_drop in Hd. cbn in Hd. lia. }
  destruct Hall as [->| ->].
  - exists (drop m l). split; [by apply not_elem_drop|auto].
  - rewrite length_app in Hm. cbn in Hm. exists (drop m l). split; [by apply not_elem_drop|].
    right. by rewrite drop_app_le by lia.
Qed.

Lemma patient_other n a src src' :
  Forall patient_packet src -> read n src = (a, src') -> (forall bs, a = Got bs -> bs = []) ->
  stream src = stream src' /\ Forall patient_packet src'.
Proof.
  intros Hp Hr Ha. destruct a as [bs| |].
  - destruct (patient_read n src bs src' Hp Hr) as (Hs & Hp' & _).
    rewrite (Ha bs eq_refl) in Hs. done.
  - destruct src as [|[all| |] src]; cbn [read] in Hr; try done.
    + destruct (_ <=? n); done.
    + injection Hr as <-. inversion Hp; done.
  - destruct src as [|[all| |] src]; cbn [read] in Hr; try done.
    + destruct (_ <=? n); done.
    + by inversion Hp.
Qed.

Lemma reads_nonneg k src src' : reads k src src' -> 0 <= k.
Proof. induction 1; lia. Qed.

Lemma patient_none src src' k :
  reads k src src' -> k = 0 -> Forall patient_packet src ->
  stream src = stream src' /\ Forall patient_packet src'.
Proof.
  induction 1 as [|n k bs src src1 src2 Hr Hne H IH|n a k src src1 src2 Hr Ha H IH]; intros Hk Hp.
  - done.
  - apply reads_nonneg in H. lia.
  - destruct (patient_other _ _ _ _ Hp Hr Ha) as [-> Hp1]. auto.
Qed.

(** At most one call of [read] that returns bytes. *)
Lemma patient_reads k src src' :
  reads k src src' -> k <= 1 -> Forall patient_packet src ->
  exists l tail,
    stream src = (l ++ tail) ++ stream src' /\ newline ∉ l
    /\ (tail = [] \/ tail = [newline]) /\ Forall patient_packet src'
    /\ (k = 1 -> l ++ tail <> []).
Proof.
  induction 1 as [src|n k bs src src1 src2 Hr Hne H IH|n a k src src1 src2 Hr Ha H IH];
    intros Hk Hp.
  - exists [], []. split; [done|]. split; [apply not_elem_of_nil|].
    split; [auto|]. split; [done|]. lia.
  - destruct (patient_read _ _ _ _ Hp Hr) as (Hs & Hp1 & l & tail & -> & Hl & Ht).
    pose proof (reads_nonneg _ _ _ H).
    destruct (patient_none _ _ _ H ltac:(lia) Hp1) as [Hs2 Hp2].
    exists l, tail. rewrite Hs, Hs2. auto 6.
  - destruct (patient_other _ _ _ _ Hp Hr Ha) as [-> Hp1]. auto.
Qed.

(** ** One request *)

Lemma strchr_list_found c pre rest : forall at_,
  c ∉ pre -> 0 ∉ pre ->
  strchr_list c at_ (pre ++ c :: rest) = Ret (Some (at_ + Z.of_nat (length pre))).
Proof.
  induction pre as [|b pre IH]; intros at_ Hc H0; cbn [app strchr_list].
  - rewrite Z.eqb_refl. cbn. by rewrite Z.add_0_r.
  - apply not_elem_of_cons in Hc as [Hbc Hc]. apply not_elem_of_cons in H0 as [Hb0 H0].
    destruct (Z.eqb_spec b c); [congruence|]. destruct (Z.eqb_spec b 0); [congruence|].
    rewrite IH by done. cbn [length]. do 2 f_equal. lia.
Qed.

Lemma strchr_list_none c pre rest : forall at_,
  c <> 0 -> c ∉ pre -> 0 ∉ pre -> strchr_list c at_ (pre ++ 0 :: rest) = Ret None.
Proof.
  induction pre as [|b pre IH]; intros at_ Hnz Hc H0; cbn [app strchr_list].
  - destruct (Z.eqb_spec 0 c); [congruence|]. by rewrite Z.eqb_refl.
  - apply not_elem_of_cons in Hc as [Hbc Hc]. apply not_elem_of_cons in H0 as [Hb0 H0].
    destruct (Z.eqb_spec b c); [congruence|]. destruct (Z.eqb_spec b 0); [congruence|]. auto.
Qed.

(** Where a single newline at the end of the bytes is found. *)
Lemma occurs_newline buf i :
  occurs [newline] buf i <-> 0 <= i /\ buf !! Z.to_nat i = Some newline.
Proof.
  unfold occurs. cbn [length]. split; intros [Hi Ho]; split; auto.
  - destruct (drop (Z.to_nat i) buf) as [|b rest] eqn:Hd; [done|]. cbn in Ho.
    injection Ho as ->. rewrite <- (Nat.add_0_r (Z.to_nat i)), <- lookup_drop, Hd. done.
  - by rewrite (drop_S _ _ _ Ho).
Qed.

Lemma absent_newline buf from : newline ∉ buf -> absent_from [newline] buf from.
Proof.
  intros Hn j _ Ho. apply occurs_newline in Ho as [_ Ho]. by apply list_elem_of_lookup_2 in Ho.
Qed.

Lemma first_newline pre from k :
  newline ∉ pre -> first_from [newline] (pre ++ [newline]) from k ->
  k = Z.of_nat (length pre).
Proof.
  intros Hn (_ & Ho & _). apply occurs_newline in Ho as [Hk Ho].
  destruct (Nat.lt_ge_cases (Z.to_nat k) (length pre)).
  - rewrite lookup_app_l in Ho by lia. by apply list_elem_of_lookup_2 in Ho.
  - assert (Hlt : (Z.to_nat k < length (pre ++ [newline]))%nat)
      by (apply lookup_lt_is_Some_1; eauto).
    rewrite length_app in Hlt. cbn in Hlt. lia.
Qed.

(** The client's buffer holds the beginning of a line. *)
Record holds (partial : list Z) (client : cli_client_t) : Prop := {
  holds_ok : search_ok (state client);
  holds_max : max_capacity (state client) = CLI_MAX_BUF;
  holds_data : data (state client) = partial;
  holds_line : newline ∉ partial;
  holds_fd : -2147483648 < client_fd client < 2147483648
}.

(** Terminating the string behind the valid bytes. *)
Lemma terminated st :
  search_ok st -> used st < capacity st ->
  exists rest,
    store (chbuf st) (used st) [0] = Ret (data st ++ 0 :: rest)
    /\ search_ok (set_chbuf (data st ++ 0 :: rest) st)
    /\ data (set_chbuf (data st ++ 0 :: rest) st) = data st.
Proof.
  intros Hok Hlt. pose proof (length_data st Hok) as Hd. pose proof Hok as [Hl Hc Hm Hu Ho].
  unfold store. cbn [length]. case_match eqn:Hfit; [|apply Nat.leb_gt in Hfit; lia].
  eexists. split; [reflexivity|].
  assert (Hlen : Z.of_nat (length (data st ++ 0 :: drop (Z.to_nat (used st) + 1) (chbuf st)))
    = capacity st).
  { rewrite length_app. cbn [length]. rewrite length_drop. lia. }
  split; [split; cbn [chbuf set_chbuf capacity max_capacity used search_offset]; auto; lia|].
  unfold data at 1. cbn [chbuf set_chbuf used]. rewrite take_app_le by lia.
  apply take_ge. lia.
Qed.

Section Requests.

Context {A : Type} (fresh : Z -> option (list Z)).
Context (parse : list Z -> cli A -> outcome (cli A)).
Hypothesis Hfresh : provides fresh CLI_MAX_BUF.

(** The connection is up and takes everything, and nobody shuts the router
    down. *)
Definition up (s : cli A) : Prop :=
  fd_alive s = true /\ router_shutdown s = false /\ sink s = [].

Definition do_line (cfd : Z) (l : list Z) (s : cli A) : outcome (cli A) :=
  s ← parse (l ++ [0; 0]) (cli_focus_set cfd s);
  cli_send_prompt s.

Lemma cli_send_str_up str s : up s -> -2147483648 < fd s < 2147483648 ->
  cli_send_str str s = Ret (written 0 str [] s).
Proof.
  intros (Ha & Hs & Hk) Hfd. unfold cli_send_str. rewrite Ha, Hk.
  unfold writenstr. by rewrite writen_whole, Nat2Z.id, firstn_all by lia.
Qed.

Lemma cli_send_prompt_up s : up s -> -2147483648 < fd s < 2147483648 ->
  exists s', cli_send_prompt s = Ret s' /\ up s'.
Proof.
  intros Hup Hfd. unfold cli_send_prompt. destruct (skip_next_prompt s); cbn [mbind outcome_bind].
  - eexists. split; [reflexivity|]. destruct Hup as (? & ? & ?). done.
  - rewrite cli_send_str_up by done. eexists. split; [reflexivity|].
    destruct Hup as (? & ? & ?). done.
Qed.

(** The commands after a line that ends the valid bytes. *)
Lemma handle_line st pre s s1 :
  search_ok st -> used st < capacity st -> capacity st <= CLI_MAX_BUF ->
  data st = pre ++ [newline] -> newline ∉ pre -> 0 ∉ pre ->
  (exists rest, chbuf st = data st ++ 0 :: rest) ->
  needle_offset st = Z.of_nat (length pre) ->
  parse ((pre ++ [newline]) ++ [0; 0]) s = Ret s1 -> up s1 ->
  exists st',
    cli_parser_handle_client parse st s =
      (s2 ← cli_send_prompt s1; Ret (fd_alive s2, st', s2))
    /\ search_ok st' /\ max_capacity st' = max_capacity st /\ data st' = [].
Proof.
  intros Hok Hroom Hmax Hd Hn H0 [rest Hbuf] Hno Hparse (Halive & Hrs & _).
  pose proof (length_data st Hok) as Hl. rewrite Hd, length_app in Hl. cbn in Hl.
  pose proof Hok as [Hlen Hc Hm Hu Ho].
  rewrite Hd, <- app_assoc in Hbuf. cbn [app] in Hbuf.
  assert (Hfound : strchr (chbuf st) 0 newline = Ret (Some (0 + Z.of_nat (length pre)))).
  { unfold strchr. rewrite Hbuf. by apply strchr_list_found. }
  unfold cli_parser_handle_client. rewrite Hfound. cbn [mbind outcome_bind].
  assert (Hcmd : commands parse (length (chbuf st)) (chbuf st) (0 + Z.of_nat (length pre)) s
    = Ret (true, s1)).
  { destruct (length (chbuf st)) as [|n] eqn:Hlc; [lia|]. cbn [commands].
    replace (CLI_MAX_BUF + 2 <? 0 + Z.of_nat (length pre) + 1 + 2) with false
      by (symmetry; apply Z.ltb_ge; lia).
    replace (take (Z.to_nat (0 + Z.of_nat (length pre) + 1)) (chbuf st)) with (pre ++ [newline]).
    2:{ rewrite Hbuf, (cons_middle newline pre (0 :: rest)), app_assoc. symmetry.
        rewrite take_app_le by (rewrite length_app; cbn; lia).
        apply take_ge. rewrite length_app. cbn. lia. }
    rewrite Hparse. cbn [mbind outcome_bind]. rewrite Halive, Hrs. cbn [negb orb].
    unfold strchr. rewrite Hbuf, (cons_middle newline pre (0 :: rest)), app_assoc, drop_app_length'
      by (rewrite length_app; cbn; lia).
    reflexivity. }
  rewrite Hcmd. cbn [mbind outcome_bind]. unfold keep_rest. rewrite s32_small by lia.
  replace (used st - needle_offset st - 1) with 0 by lia. cbn [Z.ltb Z.compare mbind outcome_bind].
  eexists. split; [reflexivity|]. split; [split; cbn; lia|]. done.
Qed.

(** Growing the buffer for the terminator, when the line is not too long. *)
Lemma terminate_spec ret st :
  search_ok st -> max_capacity st = CLI_MAX_BUF -> used st < CLI_MAX_BUF ->
  exists st',
    ('(ret_grow, st) ← search_state_grow_if_full fresh st;
     '(ret, st) ← (if (ret_grow =? 2) || (ret_grow =? -1) then Ret (-2, st)
                   else
                     buf ← store (chbuf st) (used st) [0];
                     Ret (ret, set_chbuf buf st));
     Ret (ret, st)) = Ret (ret : Z, st')
    /\ search_ok st' /\ max_capacity st' = CLI_MAX_BUF /\ data st' = data st
    /\ used st' < capacity st' /\ needle_offset st' = needle_offset st
    /\ exists rest, chbuf st' = data st' ++ 0 :: rest.
Proof using Hfresh.
  intros Hok Hmax Hu. rewrite <- Hmax in Hfresh.
  destruct (grow_spec fresh st Hok Hfresh) as (g & st1 & Hg & Hcase). rewrite Hg.
  destruct Hcase as [(-> & -> & Hfull)|(Hg01 & Hok1 & Hroom & Hd & Hus & Hso & Hno & Hmx)]; [lia|].
  destruct (terminated st1 Hok1 Hroom) as (rest & Hst & Hok2 & Hd2).
  cbn [mbind outcome_bind].
  replace ((g =? 2) || (g =? -1)) with false by (destruct Hg01; subst; done).
  rewrite Hst. cbn [mbind outcome_bind]. eexists. split; [reflexivity|].
  rewrite Hd2. cbn [set_chbuf max_capacity used capacity needle_offset chbuf].
  repeat (split; [done || congruence|]). eauto.
Qed.

(** The end of a request, as a function of the answer of the search. *)
Lemma handle_request_rest client src ret st src' (s : cli A) :
  read_search fresh (client_fd client) [newline] (state client) 1 src = Ret (ret, st, src') ->
  search_ok st -> max_capacity st = CLI_MAX_BUF -> used st < CLI_MAX_BUF ->
  exists st',
    search_ok st' /\ max_capacity st' = CLI_MAX_BUF /\ data st' = data st
    /\ used st' < capacity st' /\ needle_offset st' = needle_offset st
    /\ (exists rest, chbuf st' = data st' ++ 0 :: rest)
    /\ (ret = -3 -> cli_client_handle_request parse fresh client src s =
          Ret (true, set_state st' client, src', s))
    /\ (ret = 1 -> newline ∉ data st -> 0 ∉ data st ->
          cli_client_handle_request parse fresh client src s =
          Ret (false, set_state st' client, src', s))
    /\ (ret = 0 -> cli_client_handle_request parse fresh client src s =
          ('(b, st, s) ← cli_parser_handle_client parse st' (cli_focus_set (client_fd client) s);
           Ret (b, set_state st client, src', s))).
Proof using Hfresh.
  intros Hread Hok Hmax Hu.
  destruct (terminate_spec ret st Hok Hmax Hu) as (st' & Heq & Hok' & Hmax' & Hd & Hroom & Hno & Hz).
  exists st'. repeat (split; [assumption|]).
  unfold cli_client_handle_request. rewrite Hread. cbn [mbind outcome_bind].
  destruct (search_state_grow_if_full fresh st) as [[g st1]| |]; try done.
  cbn [mbind outcome_bind] in *.
  destruct (if (g =? 2) || (g =? -1) then _ else _) as [[r st2]| |]; try done.
  cbn [mbind outcome_bind] in *. injection Heq as -> ->.
  split; [by intros ->|]. split; [|by intros ->].
  intros -> Hn H0. cbn [Z.eqb Z.compare Pos.eqb Pos.compare]. unfold strchr.
  destruct Hz as [rest ->]. rewrite drop_0, Hd. by rewrite strchr_list_none.
Qed.

(** What the search of one request finds in the stream of a patient client. *)
Lemma request_search partial client src :
  holds partial client -> Forall patient_packet src -> lines_fit partial (stream src) ->
  exists ret st src' l tail,
    read_search fresh (client_fd client) [newline] (state client) 1 src = Ret (ret, st, src')
    /\ search_ok st /\ max_capacity st = CLI_MAX_BUF /\ used st < CLI_MAX_BUF
    /\ data st = partial ++ l ++ tail /\ newline ∉ l /\ Forall patient_packet src'
    /\ stream src = l ++ tail ++ stream src'
    /\ ((tail = [newline] /\ ret = 0
           /\ needle_offset st = Z.of_nat (length (partial ++ l)))
        \/ (tail = [] /\ (ret = 1 /\ stream src' = [] \/ ret = -3 /\ l <> []))).
Proof using Hfresh.
  intros [Hok Hmax Hdata Hline Hfd] Hp Hfit. rewrite read_search_rounds by done.
  rewrite <- Hmax in Hfresh.
  destruct (search_start_spec fresh [newline] (search_offset (state client))
    (data (state client) ++ stream src) (max_capacity (state client)) Hfresh ltac:(done)
    ltac:(cbn; lia) 1 (state client) src ltac:(lia) (patient_proper _ Hp))
    as (ret & st & src' & k & Heq & [Hok' Hmax' Hw _] & Hans & Hk & Hle & H3 & H1);
    [by apply search_inv_refl|done|].
  destruct (patient_reads k src src' Hk (Hle ltac:(done)) Hp)
    as (l & tail & Hs & Hl & Htail & Hp' & Hk1).
  rewrite Hdata, Hs, !app_assoc in Hw. apply app_inv_tail in Hw. rewrite <- app_assoc in Hw.
  rewrite <- app_assoc in Hs.
  pose proof (length_data st Hok') as Hlen. rewrite Hw in Hlen.
  exists ret, st, src', l, tail. rewrite Hmax in *.
  assert (Hnew : newline ∉ partial ++ l) by (rewrite not_elem_of_app; done).
  destruct Htail as [-> | ->].
  - rewrite app_nil_r in *. cbn [app] in Hs.
    assert (Hshort : used st < CLI_MAX_BUF).
    { rewrite <- Hlen. apply (lines_fit_acc (stream src')). unfold lines_fit in *.
      by rewrite Hs, split_lines_plain in Hfit. }
    repeat (split; [done|]). right. split; [done|].
    destruct Hans as [(-> & (Hge & Ho & _) & _)|(Hnz & _ & _ & Hcase)].
    { exfalso. rewrite Hw in Ho. exact (absent_newline _ _ Hnew _ Hge Ho). }
    destruct Hcase as [(-> & -> & _)|[-> |[[-> Hfull]| ->]]].
    + by left.
    + by destruct (patient_unfailing _ Hp (H1 eq_refl)).
    + lia.
    + right. split; [done|]. apply Hk1. by apply H3.
  - assert (Hshort : used st < CLI_MAX_BUF).
    { destruct Hfit as [Hfit _]. rewrite Hs in Hfit. cbn [app] in Hfit.
      rewrite split_lines_line in Hfit by done. inversion Hfit; subst. lia. }
    repeat (split; [done|]). left. split; [done|].
    destruct Hans as [(-> & Hfirst & _)|(Hnz & Hpass & Hex & _)].
    + split; [done|]. rewrite Hw, app_assoc in Hfirst. by apply first_newline in Hfirst.
    + exfalso.
      assert (Hn : [newline] <> []) by done.
      apply (exhausted_absent _ _ _ Hn Hok' Hpass Hex (Z.of_nat (length (partial ++ l)))).
      * pose proof (length_data _ Hok) as Hlp. rewrite Hdata in Hlp.
        destruct Hok as [_ _ _ _ Ho]. rewrite length_app. lia.
      * rewrite Hw, app_assoc. apply occurs_newline. split; [lia|].
        rewrite Nat2Z.id. by rewrite lookup_app_r, Nat.sub_diag.
Qed.

(** A command that leaves the connection up and the router running. *)
Definition benign (l : list Z) : Prop :=
  forall s, up s -> exists s', parse (l ++ [0; 0]) s = Ret s' /\ up s' /\ fd s' = fd s.

(** What one request does: the connection has ended; a piece of a line has
    arrived; or a line is complete and its command is executed. *)
Lemma handle_request_spec partial client src (s : cli A) :
  holds partial client -> Forall patient_packet src ->
  0 ∉ partial ++ stream src -> lines_fit partial (stream src) ->
  Forall benign (split_lines partial (stream src)).1 -> up s ->
  exists b client' src' s',
    cli_client_handle_request parse fresh client src s = Ret (b, client', src', s')
    /\ client_fd client' = client_fd client /\ Forall patient_packet src' /\ up s'
    /\ ((b = false /\ s' = s /\ newline ∉ stream src)
        \/ (b = true /\ s' = s /\ exists l, l <> [] /\ newline ∉ l
              /\ stream src = l ++ stream src' /\ holds (partial ++ l) client')
        \/ (b = true /\ exists l, newline ∉ l
              /\ stream src = l ++ newline :: stream src' /\ holds [] client'
              /\ do_line (client_fd client) (partial ++ l ++ [newline]) s = Ret s')).
Proof using Hfresh.
  intros Hh Hp H0 Hfit Hben Hup.
  destruct (request_search partial client src Hh Hp Hfit)
    as (ret & st & src' & l & tail & Hread & Hok & Hmax & Hshort & Hd & Hl & Hp' & Hs & Hcase).
  destruct (handle_request_rest client src ret st src' s Hread Hok Hmax Hshort)
    as (st' & Hok' & Hmax' & Hd' & Hroom & Hno & Hz & Hmore & Hend & Hfound).
  destruct Hh as [_ _ _ Hpl Hfd].
  assert (H0' : 0 ∉ partial ++ l /\ newline ∉ partial ++ l).
  { rewrite Hs in H0. rewrite !not_elem_of_app in H0. rewrite !not_elem_of_app. tauto. }
  destruct H0' as [Hz0 Hnl]. rewrite Hd in *.
  destruct Hcase as [(-> & -> & Hpos)|(-> & [(-> & Hnone)|(-> & Hl0)])].
  - rewrite Hs in Hben. cbn [app] in Hben. rewrite split_lines_line in Hben by done.
    apply Forall_cons in Hben as [Hben _].
    set (s0 := cli_focus_set (client_fd client) s) in *.
    assert (Hup0 : up s0) by (destruct Hup as (? & ? & ?); done).
    destruct (Hben s0 Hup0) as (s1 & Hparse & Hup1 & Hfd1).
    destruct (handle_line st' (partial ++ l) s0 s1) as (st2 & Hh2 & Hok2 & Hmax2 & Hd2); auto.
    + destruct Hok' as [_ Hc _ _ _]. lia.
    + by rewrite Hd', app_assoc.
    + congruence.
    + by rewrite <- (app_assoc partial).
    + destruct (cli_send_prompt_up s1 Hup1) as (s2 & Hpr & Hup2); [by rewrite Hfd1|].
      rewrite (Hfound eq_refl), Hh2, Hpr. cbn [mbind outcome_bind].
      exists true, (set_state st2 client), src', s2.
      replace (fd_alive s2) with true by (symmetry; apply Hup2).
      split; [done|]. split; [done|]. split; [done|]. split; [done|]. right; right.
      split; [done|]. exists l. split; [done|]. split; [done|]. split.
      * split; cbn [set_state state client_fd]; auto; [congruence|apply not_elem_of_nil].
      * unfold do_line. fold s0. by rewrite Hparse.
  - rewrite app_nil_r in *. exists false, (set_state st' client), src', s.
    rewrite (Hend eq_refl Hnl Hz0). repeat (split; [done|]). left.
    split; [done|]. split; [done|]. rewrite Hs, Hnone. by rewrite app_nil_r.
  - rewrite app_nil_r in *. exists true, (set_state st' client), src', s.
    rewrite (Hmore eq_refl). repeat (split; [done|]). right; left.
    split; [done|]. split; [done|]. exists l. repeat (split; [done|]). by split.
Qed.

(** Executing lines one after the other. *)
Fixpoint do_lines (cfd : Z) (ls : list (list Z)) (s : cli A) : outcome (cli A) :=
  match ls with
  | [] => Ret s
  | l :: ls => s ← do_line cfd l s; do_lines cfd ls s
  end.

Lemma client_loop_spec : forall fuel partial client src (s : cli A),
  (length (stream src) < fuel)%nat ->
  holds partial client -> Forall patient_packet src ->
  0 ∉ partial ++ stream src -> lines_fit partial (stream src) ->
  Forall benign (split_lines partial (stream src)).1 -> up s ->
  exists s',
    do_lines (client_fd client) (split_lines partial (stream src)).1 s = Ret s'
    /\ client_loop parse fresh fuel client src s = Ret (Closed, s').
Proof using Hfresh.
  induction fuel as [|fuel IH]; intros partial client src s Hf Hh Hp H0 Hfit Hben Hup; [lia|].
  destruct (handle_request_spec partial client src s Hh Hp H0 Hfit Hben Hup)
    as (b & client' & src' & s' & Heq & Hfd & Hp' & Hup' & Hcase).
  cbn [client_loop]. rewrite Heq. cbn [mbind outcome_bind].
  replace (router_shutdown s') with false by (symmetry; apply Hup').
  destruct Hcase as [(-> & -> & Hn)|[(-> & -> & l & Hl0 & Hl & Hs & Hh')|
    (-> & l & Hl & Hs & Hh' & Hdo)]].
  - exists s. split; [|done]. rewrite <- (app_nil_r (stream src)).
    by rewrite split_lines_plain.
  - rewrite Hs in *. rewrite split_lines_plain in * by done. rewrite <- Hfd. apply (IH _ client'); auto.
    + rewrite length_app in Hf. destruct l; [done|]. cbn in Hf. lia.
    + by rewrite <- app_assoc.
    + unfold lines_fit in *. by rewrite split_lines_plain in Hfit by done.
  - rewrite Hs in *. rewrite split_lines_line in * by done. cbn [fst] in *.
    apply Forall_cons in Hben as [_ Hben].
    destruct (IH [] client' src' s') as (s2 & Hdos & Hloop); auto.
    + rewrite length_app in Hf. cbn in Hf. lia.
    + rewrite !not_elem_of_app, not_elem_of_cons in H0. cbn [app]. tauto.
    + unfold lines_fit in *. rewrite split_lines_line in Hfit by done. cbn [fst snd] in Hfit.
      destruct Hfit as [Hfit Hrest]. apply Forall_cons in Hfit as [_ Hfit]. done.
    + exists s2. cbn [do_lines]. rewrite Hdo. cbn [mbind outcome_bind].
      rewrite <- Hfd at 1. split; [|done]. by rewrite Hfd in *.
Qed.

End Requests.

(** ** Guarantees *)


(** A parser that only remembers what it was given. *)
Definition recorder (cmd : list Z) (s : cli (list (list Z))) : outcome (cli (list (list Z))) :=
  Ret {| router_shutdown := router_shutdown s; fd := fd s; fd_alive := fd_alive s;
         skip_next_prompt := skip_next_prompt s; sink := sink s; sent := sent s;
         router := router s ++ [cmd] |}.

Definition new_client : cli_client_t :=
  {| client_fd := 5;
     state := {| chbuf := [0; 0; 0; 0]; capacity := 4; max_capacity := CLI_MAX_BUF;
                 used := 0; search_offset := 0; needle_offset := 0 |};
     verbose := false |}.

Definition idle : cli (list (list Z)) :=
  {| router_shutdown := false; fd := 5; fd_alive := true; skip_next_prompt := false;
     sink := []; sent := []; router := [] |}.

Definition given (r : outcome (ending * cli (list (list Z)))) : outcome (list (list Z)) :=
  '(_, s) ← r; Ret (router s).

Lemma new_client_holds : holds [] new_client.
Proof.
  split; [|done|done|apply not_elem_of_nil|cbn; lia].
  split; cbn; unfold CLI_MAX_BUF; lia.
Qed.


(** Two commands in one packet: the loop of [cli_parser_handle_client] copies
    every command from the front of the buffer, so that the first one is executed
    again with the second; [memmove] then starts at the newline instead of behind
    it, which gives the parser empty lines. *)
Theorem pipelined_commands :
  given (client_loop recorder zero_heap 9 new_client [Data [97; 10; 98; 10]] idle) =
  Ret [[97; 10; 0; 0]; [97; 10; 98; 10; 0; 0]; [10; 0; 0]; [10; 0; 0]].
Proof. vm_compute. reflexivity. Qed.

(** The beginning of a second command in the packet of the first is lost. *)
Theorem pipelined_bytes_lost :
  given (client_loop recorder zero_heap 9 new_client
           [Data [97; 10; 98; 99]; Data [100; 10]] idle) =
  Ret [[97; 10; 0; 0]; [10; 0; 0]; [10; 0; 0]; [100; 10; 0; 0]].
Proof. vm_compute. reflexivity. Qed.

(** A NUL byte before the end of a line fails an assertion, which ends the
    router. *)
Theorem nul_aborts :
  client_loop recorder zero_heap 9 new_client [Data [0; 10]] idle = Undef.
Proof. vm_compute. reflexivity. Qed.

(** The connection of a line that fills the largest buffer is closed, although the
    line is complete: the search answers 0, and growing the buffer for the
    terminator fails. *)
Definition narrow_client : cli_client_t :=
  {| client_fd := 5;
     state := {| chbuf := [0; 0]; capacity := 2; max_capacity := 2;
                 used := 0; search_offset := 0; needle_offset := 0 |};
     verbose := false |}.

Theorem full_line_dropped :
  given (client_loop recorder zero_heap 9 narrow_client [Data [97; 10]] idle) = Ret [].
Proof. vm_compute. reflexivity. Qed.

(** Every client's first packet is given up: a command that is cut in two loses
    its first part. *)
Theorem first_packet_dropped :
  given (cli_client_handler_main recorder zero_heap 9 new_client
           [Data [97; 98]; Data [99; 10]] idle) = Ret [[99; 10; 0; 0]].
Proof. vm_compute. reflexivity. Qed.
