(* ===== verification/CliPing.v ===== *)
(** * Pings of the command line ([cli/cli_ping.c])

    Echo requests that wait for their reply are kept in a doubly linked list, in
    the order in which they expire.  The structures are a map from addresses; 0
    is the null pointer, and the head's [prev] may point anywhere.

    [ping_list_refines]: the list behaves as an ordered list of requests, in which
    a reply removes the first request that matches it and the scrubber thread the
    ones that have expired, and no freed structure is touched.
    [destroy_deadlocks] and [scrubber_spins] are defects of the threads around it. *)

From stdpp Require Import base gmap list relations sorting.
From Stdlib Require Import ZArith Lia.
From S2P Require Import Prelude SrCommon.

Definition PING_MAX_WAIT_FOR_REPLY_USEC : Z := 1000000.
Definition PING_HANDLER_MIN_RESPONSE_TIME_USEC : Z := 100000.

(** The contents of a [ping_t]. *)
Record request := Request {
  fd : Z;
  dst_ip : Z;
  seq : Z;
  send_time : timeval;
  expire_time : timeval
}.

Record ping_t := Ping { req : request; prev : Z; next : Z }.

Definition set_prev (v : Z) (p : ping_t) : ping_t := Ping (req p) v (next p).
Definition set_next (v : Z) (p : ping_t) : ping_t := Ping (req p) (prev p) v.

(** What a client is told: that its request was answered or that it timed out. *)
Record feedback := Feedback { told : request; worked : bool }.

(** The static variables, the structures in memory, and what the clients were
    told so far. *)
Record pings := Pings {
  heap : gmap Z ping_t;
  ping_list : Z;
  ping_count : Z;
  output : list feedback
}.

Definition set_heap (v : gmap Z ping_t) (st : pings) : pings :=
  Pings v (ping_list st) (ping_count st) (output st).
Definition set_list (v : Z) (st : pings) : pings :=
  Pings (heap st) v (ping_count st) (output st).

(** A change of a structure through a pointer. *)
Definition update (a : Z) (f : ping_t -> ping_t) (st : pings) : outcome pings :=
  p ← load (heap st !! a); Ret (set_heap (<[a := f p]> (heap st)) st).

Definition cli_ping_init (st : pings) : pings := set_list 0 st.

Section Ping.

(** The width of [long], and where the heap puts a new structure. *)
Variable wl : Z.
Variable malloc : gmap Z ping_t -> option Z.

(** The loop that looks for the place of [p_new]. *)
Fixpoint insert_loop (fuel : nat) (p p_new : Z) (st : pings) : outcome pings :=
  match fuel with
  | O => Undef
  | S fuel =>
      if p =? 0 then Ret st
      else
        vp ← load (heap st !! p);
        vn ← load (heap st !! p_new);
        if is_later (expire_time (req vp)) (expire_time (req vn)) then
          st ← (if p =? ping_list st then Ret (set_list p_new st)
                else update (prev vp) (set_next p_new) st);
          vp ← load (heap st !! p);
          st ← update p_new (set_prev (prev vp)) st;
          st ← update p_new (set_next p) st;
          update p (set_prev p_new) st
        else if negb (next vp =? 0) then insert_loop fuel (next vp) p_new st
        else
          st ← update p (set_next p_new) st;
          st ← update p_new (set_prev p) st;
          update p_new (set_next 0) st
  end.

(** [now1] and [now2] are the two readings of the clock. *)
Definition cli_ping_request (sfd ip : Z) (now1 now2 : timeval) (st : pings) : outcome pings :=
  p_new ← load (malloc (heap st));
  expire ← load (time_add_usec wl now2 PING_MAX_WAIT_FOR_REPLY_USEC);
  let new := Ping (Request sfd ip (htons (ping_count st)) now1 expire) 0 0 in
  let st := Pings (<[p_new := new]> (heap st)) (ping_list st)
                  (u16 (ping_count st + 1)) (output st) in
  st ← insert_loop (size (heap st)) (ping_list st) p_new st;
  if ping_list st =? 0 then
    st ← update p_new (set_prev 0) (set_list p_new st);
    update p_new (set_next 0) st
  else Ret st.

Definition cli_ping_feedback (p : request) (worked : bool) (st : pings) : pings :=
  Pings (heap st) (ping_list st) (ping_count st) (output st ++ [Feedback p worked]).

Definition free (a : Z) (st : pings) : outcome pings :=
  _ ← load (heap st !! a); Ret (set_heap (delete a (heap st)) st).

(** Taking [p] out of the list. *)
Definition unlink (p : Z) (st : pings) : outcome pings :=
  vp ← load (heap st !! p);
  st ← (if p =? ping_list st then Ret (set_list (next vp) st)
        else update (prev vp) (set_next (next vp)) st);
  if negb (next vp =? 0) then update (next vp) (set_prev (prev vp)) st else Ret st.

Fixpoint reply_loop (fuel : nat) (p ip sq : Z) (st : pings) : outcome pings :=
  match fuel with
  | O => Undef
  | S fuel =>
      if p =? 0 then Ret st
      else
        vp ← load (heap st !! p);
        if (dst_ip (req vp) =? ip) && (seq (req vp) =? sq) then
          st ← unlink p st;
          vp ← load (heap st !! p);
          free p (cli_ping_feedback (req vp) true st)
        else reply_loop fuel (next vp) ip sq st
  end.

Definition cli_ping_handle_reply (shutdown : bool) (ip sq : Z) (st : pings) : outcome pings :=
  if shutdown then Ret st
  else reply_loop (S (size (heap st))) (ping_list st) ip sq st.

(** The scrubber's loop over the expired requests. *)
Fixpoint expire_loop (fuel : nat) (now : timeval) (st : pings) : outcome pings :=
  match fuel with
  | O => Undef
  | S fuel =>
      vp ← load (heap st !! ping_list st);
      if is_later now (expire_time (req vp)) then
        let st := cli_ping_feedback (req vp) false st in
        let p_to_free := ping_list st in
        st ← free p_to_free (set_list (next vp) st);
        if ping_list st =? 0 then Ret st else expire_loop fuel now st
      else Ret st
  end.

(** One round of the scrubber with a non-empty list: the state, and the timeout
    of [select] if requests are left. *)
Definition scrub_round (now : timeval) (st : pings) : outcome (pings * option timeval) :=
  st ← expire_loop (S (size (heap st))) now st;
  if ping_list st =? 0 then Ret (st, None)
  else
    vp ← load (heap st !! ping_list st);
    sec ← load (as_long wl (tv_sec now - tv_sec (expire_time (req vp))));
    usec ← load (as_long wl (tv_usec now - tv_usec (expire_time (req vp))));
    let timeout :=
      if (0 <? sec) || (PING_HANDLER_MIN_RESPONSE_TIME_USEC <? usec)
      then Timeval 0 PING_HANDLER_MIN_RESPONSE_TIME_USEC else Timeval sec usec in
    Ret (st, Some timeout).

(** The end of [cli_ping_destroy], which frees what is left. *)
Fixpoint free_loop (fuel : nat) (st : pings) : outcome pings :=
  match fuel with
  | O => Undef
  | S fuel =>
      if ping_list st =? 0 then Ret st
      else
        vp ← load (heap st !! ping_list st);
        st ← free (ping_list st) (set_list (next vp) st);
        free_loop fuel st
  end.

Definition free_all (st : pings) : outcome pings := free_loop (S (size (heap st))) st.

End Ping.

(** ** The list of requests *)

(** A new request goes in front of the first one that expires later. *)
Fixpoint schedule (r : request) (l : list request) : list request :=
  match l with
  | [] => [r]
  | x :: l => if is_later (expire_time x) (expire_time r) then r :: x :: l
              else x :: schedule r l
  end.

Definition matches (ip sq : Z) (r : request) : bool := (dst_ip r =? ip) && (seq r =? sq).

(** The first match, and the others. *)
Fixpoint take_match (ip sq : Z) (l : list request) : option (request * list request) :=
  match l with
  | [] => None
  | x :: l => if matches ip sq x then Some (x, l)
              else '(r, l) ← take_match ip sq l; Some (r, x :: l)
  end.

(** The requests in front that have expired, and the others. *)
Fixpoint split_expired (now : timeval) (l : list request) : list request * list request :=
  match l with
  | [] => ([], [])
  | x :: l => if is_later now (expire_time x)
              then let (e, r) := split_expired now l in (x :: e, r) else ([], x :: l)
  end.

(** The pointers of a part of the list: from [p], the structures at the addresses
    of [l] in turn, up to the pointer [q].  Their [prev] pointers are right; the
    first one's is [before], if that is given. *)
Fixpoint linked (h : gmap Z ping_t) (before : option Z) (p : Z)
    (l : list (Z * request)) (q : Z) : Prop :=
  match l with
  | [] => p = q
  | (a, r) :: l =>
      p = a /\ a <> 0 /\ exists v, h !! a = Some v /\ req v = r
      /\ (match before with Some b => prev v = b | None => True end)
      /\ linked h (Some a) (next v) l q
  end.

Definition last_addr (before : option Z) (l : list (Z * request)) : option Z :=
  match last l with Some (a, _) => Some a | None => before end.

Lemma dlist_app h l1 : forall before p l2 q,
  linked h before p (l1 ++ l2) q <->
  exists m, linked h before p l1 m /\ linked h (last_addr before l1) m l2 q.
Proof.
  induction l1 as [|[a r] l1 IH]; intros before p l2 q; cbn [app linked].
  { split; [intros H; by exists p|]. by intros (m & -> & H). }
  assert (Hlast : last_addr before ((a, r) :: l1) = last_addr (Some a) l1).
  { unfold last_addr. destruct l1 as [|x l1]; [done|]. rewrite last_cons_cons.
    destruct (last (x :: l1)) as [[? ?]|] eqn:E; [done|]. by apply last_None in E. }
  rewrite Hlast. split.
  - intros (-> & Hnz & v & Hv & Hr & Hp & Hl). apply IH in Hl as (m & H1 & H2).
    exists m. split; [|done]. split; [done|]. split; [done|]. by exists v.
  - intros (m & (-> & Hnz & v & Hv & Hr & Hp & Hl) & H2).
    split; [done|]. split; [done|]. exists v. repeat (split; [done|]). apply IH. by exists m.
Qed.

(** Changes elsewhere do not matter. *)
Lemma dlist_agree h h' l : forall before p q,
  (forall a, a ∈ l.*1 -> h' !! a = h !! a) -> linked h before p l q -> linked h' before p l q.
Proof.
  induction l as [|[a r] l IH]; intros before p q Hag; cbn [linked]; [done|].
  intros (-> & Hnz & v & Hv & Hr & Hp & Hl). split; [done|]. split; [done|].
  exists v. rewrite Hag by (cbn; set_solver). repeat (split; [done|]). apply IH; [|done].
  intros b Hb. apply Hag. cbn. set_solver.
Qed.

Lemma linked_first h before p l : linked h before p l 0 -> p = 0 <-> l = [].
Proof. destruct l as [|[a r] l]; cbn; [done|]. intros (-> & Hnz & _). done. Qed.

(** The structure holds the list [l] of addresses with their requests. *)
Record holds (st : pings) (l : list (Z * request)) : Prop := {
  holds_linked : linked (heap st) None (ping_list st) l 0;
  holds_nodup : NoDup l.*1;
  holds_dom : forall a, is_Some (heap st !! a) <-> a ∈ l.*1
}.

Lemma holds_size st l : holds st l -> size (heap st) = length l.
Proof.
  intros [_ Hnd Hdom].
  assert (Hd : dom (heap st) = (list_to_set l.*1 : gset Z)).
  { apply set_eq. intros a. by rewrite elem_of_dom, Hdom, elem_of_list_to_set. }
  by rewrite <- size_dom, Hd, size_list_to_set, length_fmap.
Qed.

(** ** Inserting *)

Lemma linked_head h before p a r l q :
  linked h before p ((a, r) :: l) q -> p = a /\ a <> 0 /\ exists v, h !! a = Some v /\ req v = r.
Proof. cbn. intros (-> & Hnz & v & Hv & Hr & _). eauto. Qed.

Lemma last_addr_snoc before l a r : last_addr before (l ++ [(a, r)]) = Some a.
Proof. unfold last_addr. by rewrite last_snoc. Qed.

(** A list whose last structure points to [m] can be made to point to [m']. *)
Lemma linked_retarget h l a r : forall before p m m' v,
  linked h before p (l ++ [(a, r)]) m -> NoDup (l ++ [(a, r)]).*1 -> h !! a = Some v ->
  linked (<[a := set_next m' v]> h) before p (l ++ [(a, r)]) m'.
Proof.
  intros before p m m' v Hl Hnd Hv. apply dlist_app in Hl as (k & H1 & H2).
  rewrite fmap_app in Hnd. apply NoDup_app in Hnd as (_ & Hdis & _).
  apply dlist_app. exists k. split.
  - eapply dlist_agree; [|exact H1]. intros b Hb. apply lookup_insert_ne.
    intros ->. apply (Hdis b Hb). cbn. set_solver.
  - cbn in *. destruct H2 as (-> & Hnz & w & Hw & Hr & Hp & _). rewrite Hv in Hw. injection Hw as <-.
    split; [done|]. split; [done|]. eexists. rewrite lookup_insert_eq. split; [done|]. done.
Qed.

(** The first structure of a part gets another [prev]. *)
Lemma linked_reprev h a r l before before' p q v :
  linked h before p ((a, r) :: l) q -> NoDup ((a, r) :: l).*1 -> h !! a = Some v ->
  linked (<[a := set_prev before' v]> h) (Some before') p ((a, r) :: l) q.
Proof.
  intros Hl Hnd Hv. cbn in *. destruct Hl as (-> & Hnz & w & Hw & Hr & Hp & Hl).
  rewrite Hv in Hw. injection Hw as <-. apply NoDup_cons in Hnd as [Hni _].
  split; [done|]. split; [done|]. eexists. rewrite lookup_insert_eq.
  repeat (split; [done|]). cbn. eapply dlist_agree; [|exact Hl].
  intros b Hb. apply lookup_insert_ne. intros ->. done.
Qed.

(** The two pointers that are set last when [new] goes in front of [p]. *)
Lemma splice_in h before head l1 new rn p r l2 v :
  linked h before head l1 new -> linked h (last_addr before l1) p ((p, r) :: l2) 0 ->
  NoDup (l1 ++ (p, r) :: l2).*1 -> new ∉ (l1 ++ (p, r) :: l2).*1 -> new <> 0 ->
  h !! p = Some v ->
  linked (<[p := set_prev new v]> (<[new := Ping rn (prev v) p]> h)) before head
    (l1 ++ (new, rn) :: (p, r) :: l2) 0.
Proof.
  intros H1 H2 Hnd Hni Hnz Hv. rewrite fmap_app in Hnd, Hni. cbn in Hnd, Hni.
  apply NoDup_app in Hnd as (_ & Hdis & Hnd). apply dlist_app. exists new. split.
  - eapply dlist_agree; [|exact H1]. intros b Hb. rewrite !lookup_insert_ne; [done|..].
    + intros ->. set_solver.
    + intros ->. apply (Hdis b Hb). set_solver.
  - assert (Hpn : p <> new) by set_solver.
    cbn [linked]. split; [done|]. split; [done|]. exists (Ping rn (prev v) p).
    rewrite lookup_insert_ne, lookup_insert_eq by done. split; [done|]. split; [done|].
    split.
    { cbn in H2. destruct H2 as (_ & _ & w & Hw & _ & Hp & _). rewrite Hv in Hw.
      injection Hw as <-. by destruct (last_addr before l1). }
    apply (linked_reprev _ p r l2 (last_addr before l1)); [|done|by rewrite lookup_insert_ne].
    eapply dlist_agree; [|exact H2]. intros b Hb. apply lookup_insert_ne.
    intros ->. cbn in Hb. set_solver.
Qed.

(** A new structure behind the last one. *)
Lemma splice_end h before head l p r new rn v :
  linked h before head (l ++ [(p, r)]) 0 -> NoDup (l ++ [(p, r)]).*1 ->
  new ∉ (l ++ [(p, r)]).*1 -> new <> 0 -> h !! p = Some v ->
  linked (<[new := Ping rn p 0]> (<[p := set_next new v]> h)) before head
    ((l ++ [(p, r)]) ++ [(new, rn)]) 0.
Proof.
  intros Hl Hnd Hni Hnz Hv. apply dlist_app. exists new. split.
  - eapply dlist_agree; [|by apply (linked_retarget h l p r before head 0 new v)].
    intros b Hb. apply lookup_insert_ne. intros ->. done.
  - rewrite last_addr_snoc. cbn. split; [done|]. split; [done|]. eexists.
    rewrite lookup_insert_eq. done.
Qed.

Lemma update_ok a f st v :
  heap st !! a = Some v -> update a f st = Ret (set_heap (<[a := f v]> (heap st)) st).
Proof. intros H. unfold update. by rewrite H. Qed.

(** The pointer in front of [p], in the head or in a structure, is set to [q]. *)
Lemma point_to st l1 p r l2 q vp :
  linked (heap st) None (ping_list st) (l1 ++ (p, r) :: l2) 0 ->
  NoDup (l1 ++ (p, r) :: l2).*1 -> heap st !! p = Some vp ->
  exists st1,
    (if p =? ping_list st then Ret (set_list q st)
     else update (prev vp) (set_next q) st) = Ret st1
    /\ linked (heap st1) None (ping_list st1) l1 q
    /\ linked (heap st1) (last_addr None l1) p ((p, r) :: l2) 0
    /\ (forall a, a ∉ l1.*1 -> heap st1 !! a = heap st !! a)
    /\ (forall a, is_Some (heap st1 !! a) <-> is_Some (heap st !! a))
    /\ ping_count st1 = ping_count st /\ output st1 = output st.
Proof.
  intros Hl Hnd Hvp. apply dlist_app in Hl as (m & H1 & H2).
  pose proof (linked_head _ _ _ _ _ _ _ H2) as (-> & Hp0 & _).
  destruct l1 as [|[c rc] l1 _] using rev_ind.
  { cbn in H1. rewrite H1, Z.eqb_refl. eexists. split; [reflexivity|]. done. }
  rewrite last_addr_snoc in *. rewrite fmap_app in Hnd.
  apply NoDup_app in Hnd as (Hnd1 & Hdis & Hnd2). pose proof H2 as H2'. cbn in H2'.
  destruct H2' as (_ & _ & w & Hw & _ & Hpr & _). rewrite Hvp in Hw. injection Hw as <-.
  assert (Hout : forall b, b ∈ ((p, r) :: l2).*1 -> b ∉ (l1 ++ [(c, rc)]).*1).
  { intros b Hb Hin. by apply (Hdis b). }
  destruct (Z.eqb_spec p (ping_list st)) as [Heq|Hne].
  { exfalso. apply (Hout p); [cbn; set_solver|]. destruct l1 as [|[c' rc'] l1]; cbn in H1; cbn;
      destruct H1 as (Hh & _); rewrite Heq, Hh; set_solver. }
  assert (Hvc : exists vc, heap st !! c = Some vc).
  { apply dlist_app in H1 as (k & _ & Hc). apply linked_head in Hc as (_ & _ & vc & Hc & _). eauto. }
  destruct Hvc as [vc Hvc]. rewrite Hpr, (update_ok _ _ _ vc) by done.
  eexists. split; [reflexivity|]. cbn [heap set_heap ping_list ping_count output].
  assert (Hag : forall b, b ∉ (l1 ++ [(c, rc)]).*1 ->
    <[c := set_next q vc]> (heap st) !! b = heap st !! b).
  { intros b Hb. apply lookup_insert_ne. intros ->. apply Hb. rewrite fmap_app; cbn; set_solver. }
  split; [by apply (linked_retarget _ l1 c rc None _ p)|].
  split; [|split; [exact Hag|split; [|done]]].
  - eapply dlist_agree; [|exact H2]. intros b Hb. by apply Hag, Hout.
  - intros a. rewrite lookup_insert_is_Some'. intuition (subst; eauto).
Qed.

(** The branch of [insert_loop] that inserts in front of [p]. *)
Lemma insert_before st l1 p r l2 new vn vp :
  linked (heap st) None (ping_list st) (l1 ++ (p, r) :: l2) 0 ->
  NoDup (l1 ++ (p, r) :: l2).*1 -> new ∉ (l1 ++ (p, r) :: l2).*1 -> new <> 0 ->
  heap st !! new = Some vn -> heap st !! p = Some vp ->
  exists st',
    (st ← (if p =? ping_list st then Ret (set_list new st)
           else update (prev vp) (set_next new) st);
     vp ← load (heap st !! p);
     st ← update new (set_prev (prev vp)) st;
     st ← update new (set_next p) st;
     update p (set_prev new) st) = Ret st'
    /\ linked (heap st') None (ping_list st') (l1 ++ (new, req vn) :: (p, r) :: l2) 0
    /\ (forall a, is_Some (heap st' !! a) <-> is_Some (heap st !! a))
    /\ ping_count st' = ping_count st /\ output st' = output st.
Proof.
  intros Hl Hnd Hni Hnz Hvn Hvp.
  assert (Hpn : p <> new) by (rewrite fmap_app in Hni; cbn in Hni; set_solver).
  destruct (point_to st l1 p r l2 new vp Hl Hnd Hvp)
    as (st1 & -> & Hd & Hr & Hag & Hdom & Hcount & Hout).
  rewrite fmap_app in Hnd, Hni. apply NoDup_app in Hnd as Hnd'. destruct Hnd' as (_ & Hdis & _).
  assert (Hp1 : heap st1 !! p = Some vp)
    by (rewrite Hag; [done|]; intros Hin; apply (Hdis p Hin); cbn; set_solver).
  assert (Hn1 : heap st1 !! new = Some vn) by (rewrite Hag; [done|]; set_solver).
  rewrite <- fmap_app in Hnd, Hni. cbn [mbind outcome_bind]. rewrite Hp1. cbn [load mbind outcome_bind].
  rewrite (update_ok _ _ _ vn) by done. cbn [mbind outcome_bind].
  rewrite (update_ok _ _ _ (set_prev (prev vp) vn)) by apply lookup_insert_eq.
  cbn [mbind outcome_bind]. rewrite (update_ok _ _ _ vp)
    by (cbn; rewrite !lookup_insert_ne by done; done).
  eexists. split; [reflexivity|]. cbn [heap set_heap ping_list ping_count output].
  rewrite insert_insert_eq.
  split; [exact (splice_in _ _ _ _ _ _ _ _ _ _ Hd Hr Hnd Hni Hnz Hp1)|]. split; [|done].
  intros a. rewrite <- Hdom, !lookup_insert_is_Some'. intuition (subst; eauto).
Qed.

(** The loop finds the place of the new request. *)
Lemma insert_loop_spec : forall fuel l1 l2 p st new vn,
  linked (heap st) None (ping_list st) (l1 ++ l2) 0 ->
  linked (heap st) (last_addr None l1) p l2 0 ->
  NoDup (l1 ++ l2).*1 -> new ∉ (l1 ++ l2).*1 -> new <> 0 -> heap st !! new = Some vn ->
  l2 <> [] -> (length l2 <= fuel)%nat ->
  exists st' l2',
    insert_loop fuel p new st = Ret st'
    /\ linked (heap st') None (ping_list st') (l1 ++ l2') 0
    /\ l2'.*2 = schedule (req vn) l2.*2 /\ l2'.*1 ≡ₚ new :: l2.*1
    /\ (forall a, is_Some (heap st' !! a) <-> is_Some (heap st !! a))
    /\ ping_count st' = ping_count st /\ output st' = output st.
Proof.
  induction fuel as [|fuel IH]; intros l1 l2 p st new vn Hl H2 Hnd Hni Hnz Hvn Hne Hf;
    destruct l2 as [|[q r] l2]; try done; [cbn in Hf; lia|].
  pose proof H2 as H2'. cbn [linked] in H2'. destruct H2' as (-> & Hq0 & vp & Hvp & Hr & Hpr & Hnext).
  cbn [insert_loop]. destruct (Z.eqb_spec q 0); [done|].
  rewrite Hvp, Hvn. cbn [load mbind outcome_bind]. rewrite Hr. cbn [fmap list_fmap schedule snd].
  destruct (is_later (expire_time r) (expire_time (req vn))) eqn:Hlater.
  - destruct (insert_before st l1 q r l2 new vn vp Hl Hnd Hni Hnz Hvn Hvp)
      as (st' & Heq & Hl' & Hdom & Hcount & Hout).
    exists st', ((new, req vn) :: (q, r) :: l2). done.
  - destruct l2 as [|[q2 r2] l2].
    + cbn in Hnext. rewrite Hnext. cbn [Z.eqb negb].
      rewrite (update_ok _ _ _ vp) by done. cbn [mbind outcome_bind].
      assert (Hqn : q <> new) by (rewrite fmap_app in Hni; cbn in Hni; set_solver).
      rewrite (update_ok _ _ _ vn) by (cbn; by rewrite lookup_insert_ne). cbn [mbind outcome_bind].
      rewrite (update_ok _ _ _ (set_prev q vn)) by (cbn; apply lookup_insert_eq).
      eexists _, [(q, r); (new, req vn)]. split; [reflexivity|].
      cbn [heap set_heap ping_list ping_count output]. rewrite insert_insert_eq.
      change (l1 ++ [(q, r); (new, req vn)]) with (l1 ++ [(q, r)] ++ [(new, req vn)]).
      rewrite app_assoc. split; [exact (splice_end _ _ _ _ _ _ _ _ _ Hl Hnd Hni Hnz Hvp)|].
      split; [done|]. split; [cbn; apply perm_swap|]. split; [|done].
      intros a. rewrite !lookup_insert_is_Some'. intuition (subst; eauto).
    + assert (Hnz2 : next vp <> 0) by (cbn in Hnext; destruct Hnext as (-> & ? & _); done).
      destruct (Z.eqb_spec (next vp) 0); [done|]. cbn [negb].
      assert (Happ : forall l, l1 ++ (q, r) :: l = (l1 ++ [(q, r)]) ++ l) by (intros; by rewrite <- app_assoc).
      rewrite Happ in Hl, Hnd, Hni.
      destruct (IH (l1 ++ [(q, r)]) ((q2, r2) :: l2) (next vp) st new vn)
        as (st' & l2' & Heq & Hl' & Hs & Hperm & Hdom & Hcount & Hout); auto.
      { by rewrite last_addr_snoc. }
      { cbn in *; lia. }
      exists st', ((q, r) :: l2'). rewrite Happ. split; [done|]. split; [done|].
      cbn [fmap list_fmap]. split; [by rewrite Hs|]. split; [|done].
      cbn. rewrite Hperm. apply perm_swap.
Qed.

(** ** Removing *)

Lemma unlink_spec st l1 p r l2 :
  linked (heap st) None (ping_list st) (l1 ++ (p, r) :: l2) 0 ->
  NoDup (l1 ++ (p, r) :: l2).*1 ->
  exists st1 v,
    unlink p st = Ret st1 /\ linked (heap st1) None (ping_list st1) (l1 ++ l2) 0
    /\ heap st1 !! p = Some v /\ req v = r
    /\ (forall a, is_Some (heap st1 !! a) <-> is_Some (heap st !! a))
    /\ ping_count st1 = ping_count st /\ output st1 = output st.
Proof.
  intros Hl Hnd. pose proof Hl as Hl0. apply dlist_app in Hl0 as (m & _ & Hp).
  apply linked_head in Hp as (-> & Hp0 & v & Hv & Hr).
  unfold unlink. rewrite Hv. cbn [load mbind outcome_bind].
  destruct (point_to st l1 p r l2 (next v) v Hl Hnd Hv)
    as (st1 & -> & Hd & H2 & Hag & Hdom & Hcount & Hout).
  rewrite fmap_app in Hnd. apply NoDup_app in Hnd as (_ & Hdis & Hnd2). cbn in Hnd2.
  assert (Hv1 : heap st1 !! p = Some v)
    by (rewrite Hag; [done|]; intros Hin; apply (Hdis p Hin); cbn; set_solver).
  pose proof H2 as H2'. cbn in H2'. destruct H2' as (_ & _ & w & Hw & _ & Hbefore & Hnext).
  rewrite Hv1 in Hw. injection Hw as <-. cbn [mbind outcome_bind].
  apply NoDup_cons in Hnd2 as [Hpn Hnd2].
  destruct l2 as [|[b rb] l2].
  { cbn in Hnext. rewrite Hnext in *. exists st1, v. cbn [Z.eqb negb]. rewrite app_nil_r. done. }
  pose proof Hnext as Hn'. apply linked_head in Hn' as (Hnb & Hb0 & vb & Hvb & Hrb).
  rewrite Hnb in *. destruct (Z.eqb_spec b 0); [done|]. cbn [negb].
  rewrite (update_ok _ _ _ vb) by done.
  assert (Hbp : b <> p) by (cbn in Hpn; set_solver).
  eexists _, v. split; [reflexivity|]. cbn [heap set_heap ping_list ping_count output].
  rewrite lookup_insert_ne by done. split; [|split; [done|split; [done|split; [|done]]]].
  - apply dlist_app. exists b. split.
    + eapply dlist_agree; [|exact Hd]. intros a Ha. apply lookup_insert_ne.
      intros ->. apply (Hdis a Ha). cbn. set_solver.
    + pose proof (linked_reprev _ b rb l2 (Some p) (prev v) b 0 vb Hnext Hnd2 Hvb) as Hre.
      destruct (last_addr None l1) as [c|]; [by rewrite <- Hbefore|].
      cbn in Hre |- *. destruct Hre as (_ & _ & w & Hw & Hrw & _ & Hl2). eauto 10.
  - intros a. rewrite <- Hdom, lookup_insert_is_Some'. intuition (subst; eauto).
Qed.

Lemma linked_delete h a l : forall before p q,
  a ∉ l.*1 -> linked h before p l q -> linked (delete a h) before p l q.
Proof.
  intros before p q Ha. apply dlist_agree. intros b Hb. apply lookup_delete_ne.
  intros ->. done.
Qed.

Lemma free_ok a st v :
  heap st !! a = Some v -> free a st = Ret (set_heap (delete a (heap st)) st).
Proof. intros H. unfold free. by rewrite H. Qed.

(** What a reply does to the list and to the output. *)
Definition reply_list (ip sq : Z) (l : list request) : list request * list feedback :=
  match take_match ip sq l with
  | Some (r, l) => (l, [Feedback r true])
  | None => (l, [])
  end.

Lemma reply_loop_spec ip sq : forall fuel l1 l2 p st,
  holds st (l1 ++ l2) -> linked (heap st) (last_addr None l1) p l2 0 ->
  (length l2 < fuel)%nat ->
  exists st' l2',
    reply_loop fuel p ip sq st = Ret st' /\ holds st' (l1 ++ l2')
    /\ (l2'.*2, output st') =
       ((reply_list ip sq l2.*2).1, output st ++ (reply_list ip sq l2.*2).2)
    /\ ping_count st' = ping_count st.
Proof.
  induction fuel as [|fuel IH]; intros l1 l2 p st Hh Hl Hf; [lia|].
  destruct l2 as [|[q r] l2]; cbn [reply_loop].
  { cbn in Hl. subst p. rewrite Z.eqb_refl. exists st, []. rewrite app_nil_r in *.
    cbn. by rewrite app_nil_r. }
  pose proof Hl as Hl'. cbn in Hl'. destruct Hl' as (-> & Hq0 & v & Hv & Hr & _ & Hnext).
  destruct (Z.eqb_spec q 0); [done|]. rewrite Hv. cbn [load mbind outcome_bind]. rewrite Hr.
  unfold reply_list. cbn [fmap list_fmap snd take_match]. unfold matches.
  destruct ((dst_ip r =? ip) && (seq r =? sq)).
  - pose proof Hh as [Hlk Hnd Hdom].
    destruct (unlink_spec st l1 q r l2 Hlk Hnd) as (st1 & v1 & -> & Hl1 & Hv1 & Hr1 & Hd1 & Hc & Ho).
    cbn [mbind outcome_bind]. rewrite Hv1. cbn [load mbind outcome_bind].
    rewrite (free_ok _ _ v1) by done. eexists _, l2. split; [reflexivity|].
    cbn. rewrite Ho, Hr1, Hc. split; [|done].
    rewrite fmap_app in Hnd. cbn in Hnd. apply NoDup_app in Hnd as (Hn1 & Hdis & Hn2).
    apply NoDup_cons in Hn2 as [Hqn Hn2].
    assert (Hq : q ∉ (l1 ++ l2).*1).
    { rewrite fmap_app, not_elem_of_app. split; [|done]. intros Hin. apply (Hdis q Hin). set_solver. }
    split; cbn.
    + by apply linked_delete.
    + rewrite fmap_app. apply NoDup_app. split; [done|]. split; [|done].
      intros b Hb. specialize (Hdis b Hb). set_solver.
    + intros a. rewrite lookup_delete_is_Some, Hd1, Hdom, !fmap_app. cbn.
      rewrite fmap_app in Hq. set_solver.
  - assert (Happ : forall l, l1 ++ (q, r) :: l = (l1 ++ [(q, r)]) ++ l) by (intros; by rewrite <- app_assoc).
    rewrite Happ in Hh. destruct (IH (l1 ++ [(q, r)]) l2 (next v) st)
      as (st' & l2' & Heq & Hh' & Hres & Hc); auto; [by rewrite last_addr_snoc|cbn in Hf; lia|].
    exists st', ((q, r) :: l2'). rewrite Happ. split; [done|]. split; [done|]. split; [|done].
    unfold reply_list in Hres. injection Hres as Hres Hout. cbn [fmap list_fmap snd].
    destruct (take_match ip sq l2.*2) as [[r' l']|]; cbn in *; by rewrite Hres, Hout.
Qed.

(** ** Expiry *)

Lemma expire_loop_spec now : forall fuel st l,
  holds st l -> l <> [] -> (length l < fuel)%nat ->
  exists st' l',
    expire_loop fuel now st = Ret st' /\ holds st' l'
    /\ l'.*2 = (split_expired now l.*2).2
    /\ output st' = output st ++ ((fun r => Feedback r false) <$> (split_expired now l.*2).1)
    /\ ping_count st' = ping_count st.
Proof.
  induction fuel as [|fuel IH]; intros st l Hh Hne Hf; [lia|].
  destruct l as [|[a r] l]; [done|]. pose proof Hh as [Hl Hnd Hdom]. cbn in Hl.
  destruct Hl as (Ha & Ha0 & v & Hv & Hr & _ & Hnext).
  cbn [expire_loop]. rewrite Ha, Hv. cbn [load mbind outcome_bind]. rewrite Hr.
  cbn [fmap list_fmap snd split_expired].
  destruct (is_later now (expire_time r)).
  2:{ exists st, ((a, r) :: l). cbn. rewrite app_nil_r. done. }
  cbn in Hnd. apply NoDup_cons in Hnd as [Hna Hnd].
  rewrite (free_ok _ _ v) by (cbn; by rewrite Ha). cbn [mbind outcome_bind].
  set (st1 := set_heap _ _).
  assert (Hh1 : holds st1 l).
  { split; cbn; rewrite ?Ha; [|done|].
    - apply (dlist_agree (heap st)).
      { intros b Hb. apply lookup_delete_ne. intros ->. done. }
      destruct l as [|[b rb] l]; [done|]. cbn in Hnext |- *.
      destruct Hnext as (-> & Hb0 & w & Hw & Hrw & _ & Hn). eauto 10.
    - intros b. rewrite lookup_delete_is_Some, Hdom. cbn. set_solver. }
  assert (Hzero : (ping_list st1 =? 0) = bool_decide (l = [])).
  { pose proof (linked_first _ _ _ _ (holds_linked _ _ Hh1)) as H0.
    destruct (Z.eqb_spec (ping_list st1) 0); case_bool_decide; intuition. }
  rewrite Hzero. case_bool_decide as Hl0.
  - subst l. exists st1, []. cbn. done.
  - destruct (IH st1 l Hh1 Hl0) as (st' & l' & Heq & Hh' & Hl' & Ho & Hc); [cbn in Hf; lia|].
    exists st', l'. split; [done|]. split; [done|].
    destruct (split_expired now l.*2) as [e rest]. cbn in *. split; [done|].
    split; [|done]. by rewrite Ho, <- app_assoc.
Qed.

(** ** Clients *)

Inductive op :=
  | Ask (sfd ip : Z) (now1 now2 : timeval)
  | Reply (ip sq : Z)
  | Scrub (now : timeval).

(** What the clients of the list see: the requests that wait, the number of the
    next one, what was told, and all the requests that were ever made. *)
Record board := Board {
  waiting : list request;
  count : Z;
  outs : list feedback;
  asked : list request
}.

Section Clients.

Context (wl : Z) (malloc : gmap Z ping_t -> option Z).

Definition run_op (o : op) (st : pings) : outcome pings :=
  match o with
  | Ask sfd ip now1 now2 => cli_ping_request wl malloc sfd ip now1 now2 st
  | Reply ip sq => cli_ping_handle_reply false ip sq st
  | Scrub now =>
      if ping_list st =? 0 then Ret st
      else '(st, _) ← scrub_round wl now st; Ret st
  end.

Fixpoint run (ops : list op) (st : pings) : outcome pings :=
  match ops with [] => Ret st | o :: ops => st ← run_op o st; run ops st end.

(** One second later. *)
Definition deadline (t : timeval) : timeval :=
  Timeval (tv_sec t + 1) (tv_usec t).

Definition spec_op (o : op) (g : board) : board :=
  match o with
  | Ask sfd ip now1 now2 =>
      let r := Request sfd ip (htons (count g)) now1 (deadline now2) in
      Board (schedule r (waiting g)) (u16 (count g + 1)) (outs g) (asked g ++ [r])
  | Reply ip sq =>
      let (l, out) := reply_list ip sq (waiting g) in
      Board l (count g) (outs g ++ out) (asked g)
  | Scrub now =>
      let (e, l) := split_expired now (waiting g) in
      Board l (count g) (outs g ++ ((fun r => Feedback r false) <$> e)) (asked g)
  end.

Fixpoint spec (ops : list op) (g : board) : board :=
  match ops with [] => g | o :: ops => spec ops (spec_op o g) end.

(** Readings of a clock that stays two seconds from the end of its range. *)
Definition clock_ok (t : timeval) : Prop :=
  0 <= tv_sec t < 2 ^ (wl - 1) - 2 /\ 0 <= tv_usec t < 1000000.

Definition op_ok (o : op) : Prop :=
  match o with
  | Ask _ _ _ now2 => clock_ok now2
  | Reply _ _ => True
  | Scrub now => clock_ok now
  end.

Definition deadline_ok (r : request) : Prop :=
  0 <= tv_sec (expire_time r) < 2 ^ (wl - 1) - 1
  /\ 0 <= tv_usec (expire_time r) < 1000000.

Record represents (st : pings) (g : board) : Prop := {
  rep_list : exists l, holds st l /\ l.*2 = waiting g;
  rep_count : ping_count st = count g;
  rep_outs : output st = outs g;
  rep_times : Forall deadline_ok (waiting g)
}.

Hypothesis Hwl : 32 <= wl.
Hypothesis Hmalloc : forall h, exists a, malloc h = Some a /\ a <> 0 /\ h !! a = None.

Lemma time_add_second t : clock_ok t ->
  time_add_usec wl t PING_MAX_WAIT_FOR_REPLY_USEC = Some (deadline t).
Proof using Hwl.
  intros [Hs Hu]. unfold time_add_usec, PING_MAX_WAIT_FOR_REPLY_USEC, deadline.
  assert (Hp : 2 ^ 31 <= 2 ^ (wl - 1)) by (apply Z.pow_le_mono_r; lia).
  change (2 ^ 31) with 2147483648 in Hp. rewrite (u32_small (1000000 + tv_usec t)) by lia.
  replace ((1000000 + tv_usec t) / 1000000) with 1 by (Z.div_mod_to_equations; lia).
  unfold as_long. destruct (Z.leb_spec (- 2 ^ (wl - 1)) (tv_sec t + 1)); [|lia].
  destruct (Z.ltb_spec (tv_sec t + 1) (2 ^ (wl - 1))); [|lia]. cbn [andb mbind option_bind].
  do 2 f_equal. rewrite (u32_small (1000000 * 1)) by lia. rewrite u32_small by lia. lia.
Qed.

Lemma as_long_diff a b :
  0 <= a < 2 ^ (wl - 1) -> 0 <= b < 2 ^ (wl - 1) -> as_long wl (a - b) = Some (a - b).
Proof using.
  clear Hwl. intros Ha Hb. unfold as_long. destruct (Z.leb_spec (- 2 ^ (wl - 1)) (a - b)); [|lia].
  by destruct (Z.ltb_spec (a - b) (2 ^ (wl - 1))); [|lia].
Qed.

Lemma schedule_perm r l : schedule r l ≡ₚ r :: l.
Proof.
  induction l as [|x l IH]; cbn; [done|]. case_match; [done|]. rewrite IH. apply perm_swap.
Qed.

Lemma split_expired_app now l : (split_expired now l).1 ++ (split_expired now l).2 = l.
Proof.
  induction l as [|x l IH]; cbn; [done|]. case_match; [|done].
  destruct (split_expired now l) as [e rest]. cbn in *. by rewrite IH.
Qed.

Lemma take_match_perm ip sq l r l' : take_match ip sq l = Some (r, l') -> l ≡ₚ r :: l'.
Proof.
  revert l'. induction l as [|x l IH]; intros l'; cbn; [done|].
  destruct (matches ip sq x); [by intros [= -> ->]|].
  destruct (take_match ip sq l) as [[r1 l1]|]; [|done]. cbn. intros [= -> <-].
  rewrite (IH l1 eq_refl). apply perm_swap.
Qed.

Lemma request_step st g sfd ip now1 now2 :
  represents st g -> clock_ok now2 ->
  exists st', cli_ping_request wl malloc sfd ip now1 now2 st = Ret st'
    /\ represents st' (spec_op (Ask sfd ip now1 now2) g).
Proof using Hwl Hmalloc.
  intros [[l [Hh Hw]] Hc Ho Ht] Hclock. pose proof Hh as [Hl Hnd Hdom].
  unfold cli_ping_request. destruct (Hmalloc (heap st)) as (a & -> & Ha0 & Hfree).
  cbn [load mbind outcome_bind]. rewrite time_add_second by done. cbn [load mbind outcome_bind].
  rewrite Hc. set (r := Request sfd ip (htons (count g)) now1 (deadline now2)).
  set (st1 := Pings _ _ _ _). cbn [heap st1 ping_list].
  assert (Hal : a ∉ l.*1).
  { intros Hin. apply Hdom in Hin as [v Hv]. congruence. }
  assert (Hl1 : linked (heap st1) None (ping_list st1) l 0).
  { eapply dlist_agree; [|exact Hl]. intros b Hb. apply lookup_insert_ne. intros ->. done. }
  assert (Hdl : Forall deadline_ok (schedule r (waiting g))).
  { rewrite schedule_perm. constructor; [|done]. destruct Hclock. split; cbn; lia. }
  assert (Hd1 : forall b, is_Some (heap st1 !! b) <-> b ∈ a :: l.*1).
  { intros b. cbn. rewrite lookup_insert_is_Some', Hdom. set_solver. }
  rewrite (map_size_insert_None _ _ _ Hfree), (holds_size _ _ Hh).
  destruct (decide (l = [])) as [->|Hne].
  - cbn in Hl. cbn [length insert_loop]. rewrite Hl. cbn [Z.eqb mbind outcome_bind].
    replace (ping_list st1) with 0 by (symmetry; exact Hl). cbn [Z.eqb].
    rewrite (update_ok _ _ _ (Ping r 0 0)) by (cbn; apply lookup_insert_eq).
    cbn [mbind outcome_bind].
    rewrite (update_ok _ _ _ (Ping r 0 0)) by (cbn; apply lookup_insert_eq).
    eexists. split; [reflexivity|]. cbn in Hw. split; cbn; [|done|done|done].
    exists [(a, r)]. rewrite <- Hw. split; [|done]. split; cbn.
    + rewrite !insert_insert_eq. split; [done|]. split; [done|]. eexists.
      rewrite lookup_insert_eq. done.
    + apply NoDup_singleton.
    + intros b. rewrite !lookup_insert_is_Some', Hdom. set_solver.
  - destruct (insert_loop_spec (S (length l)) [] l (ping_list st1) st1 a (Ping r 0 0))
      as (st' & l' & Heq & Hl' & Hs & Hperm & Hd & Hcn & Hout); auto; [cbn; apply lookup_insert_eq|].
    cbn [app] in Hl'. change (ping_list st) with (ping_list st1). rewrite Heq.
    cbn [mbind outcome_bind].
    assert (Hne' : ping_list st' <> 0).
    { intros Hz. apply (linked_first _ _ _ _ Hl') in Hz. subst l'. symmetry in Hperm.
      by apply Permutation_nil_r in Hperm. }
    destruct (Z.eqb_spec (ping_list st') 0); [done|].
    exists st'. split; [done|]. split; cbn; [|exact Hcn|by rewrite Hout|done].
    exists l'. split; [|by rewrite Hs, Hw]. split; [done| |].
    + rewrite Hperm. by apply NoDup_cons.
    + intros b. by rewrite Hd, Hd1, Hperm.
Qed.

Lemma reply_step st g ip sq :
  represents st g ->
  exists st', cli_ping_handle_reply false ip sq st = Ret st'
    /\ represents st' (spec_op (Reply ip sq) g).
Proof using.
  clear Hwl Hmalloc. intros [[l [Hh Hw]] Hc Ho Ht]. unfold cli_ping_handle_reply.
  destruct (reply_loop_spec ip sq (S (size (heap st))) [] l (ping_list st) st)
    as (st' & l' & Heq & Hh' & Hres & Hcn); auto.
  { apply Hh. }
  { rewrite (holds_size _ _ Hh). lia. }
  exists st'. split; [done|]. cbn [spec_op]. rewrite <- Hw in *.
  destruct (reply_list ip sq l.*2) as [w out] eqn:Hr. cbn in Hres. injection Hres as Hw' Hout.
  split; cbn; [by exists l'|by rewrite Hcn|by rewrite Hout, Ho|].
  unfold reply_list in Hr. destruct (take_match ip sq l.*2) as [[r w']|] eqn:Htm.
  - injection Hr as -> _. apply take_match_perm in Htm. rewrite Htm in Ht. by apply Forall_cons in Ht as [_ Ht].
  - by injection Hr as <- _.
Qed.

Lemma scrub_step st g now :
  represents st g -> clock_ok now ->
  exists st', run_op (Scrub now) st = Ret st' /\ represents st' (spec_op (Scrub now) g).
Proof using Hwl.
  clear Hmalloc. intros [[l [Hh Hw]] Hc Ho Ht] [Hsec Husec]. cbn [run_op].
  pose proof (linked_first _ _ _ _ (holds_linked _ _ Hh)) as Hfirst.
  destruct (Z.eqb_spec (ping_list st) 0) as [H0|H0].
  { apply Hfirst in H0. subst l. exists st. split; [done|]. cbn [spec_op]. rewrite <- Hw. cbn.
    split; cbn; [by exists []|done|by rewrite app_nil_r|done]. }
  assert (Hne : l <> []) by (intros ->; by apply H0, Hfirst).
  destruct (expire_loop_spec now (S (size (heap st))) st l Hh Hne) as (st' & l' & Heq & Hh' & Hl' & Hout & Hcn).
  { rewrite (holds_size _ _ Hh). lia. }
  cbn [spec_op]. rewrite Hw in *. pose proof (split_expired_app now (waiting g)) as Happ.
  destruct (split_expired now (waiting g)) as [e rest]. cbn in Hl', Hout, Happ.
  rewrite <- Happ in Ht. apply Forall_app in Ht as [_ Ht].
  assert (Hrep : represents st' (Board rest (count g)
    (outs g ++ ((fun r => Feedback r false) <$> e)) (asked g))).
  { split; cbn; [by exists l'|by rewrite Hcn|by rewrite Hout, Ho|done]. }
  unfold scrub_round. rewrite Heq. cbn [mbind outcome_bind].
  destruct (Z.eqb_spec (ping_list st') 0) as [|H0']; [exists st'; done|].
  pose proof (holds_linked _ _ Hh') as Hlk. destruct l' as [|[a r] l']; [done|].
  apply linked_head in Hlk as (-> & _ & v & Hv & Hr). rewrite Hv. cbn [load mbind outcome_bind].
  cbn in Hl'. subst rest. apply Forall_cons in Ht as [[Hs Hu] _]. rewrite Hr.
  assert (Hp : 1000000 <= 2 ^ (wl - 1)).
  { apply (Z.le_trans _ (2 ^ 31)); [done|apply Z.pow_le_mono_r; lia]. }
  rewrite !as_long_diff by lia. cbn [load mbind outcome_bind]. exists st'. done.
Qed.

End Clients.

(** ** Guarantees *)

(** The order of the list: nothing expires later than what follows it. *)
Definition in_order (l : list request) : Prop :=
  StronglySorted (fun a b => is_later (expire_time a) (expire_time b) = false) l.

Lemma is_later_false a b :
  is_later a b = false <-> tv_sec a < tv_sec b \/ tv_sec a = tv_sec b /\ tv_usec a <= tv_usec b.
Proof. unfold is_later. repeat case_bool; cbn; intuition (try done; try lia). Qed.

Lemma is_later_true a b :
  is_later a b = true <-> tv_sec b < tv_sec a \/ tv_sec a = tv_sec b /\ tv_usec b < tv_usec a.
Proof. unfold is_later. repeat case_bool; cbn; intuition (try done; try lia). Qed.

Lemma schedule_in_order r l : in_order l -> in_order (schedule r l).
Proof.
  unfold in_order. induction 1 as [|x l Hl IH Hx]; cbn; [by repeat constructor|].
  destruct (is_later (expire_time x) (expire_time r)) eqn:Hlater.
  - apply is_later_true in Hlater. constructor; [by constructor|].
    constructor; [apply is_later_false; lia|]. eapply Forall_impl; [exact Hx|].
    intros y Hy. rewrite is_later_false in *. lia.
  - constructor; [done|]. rewrite schedule_perm. by constructor.
Qed.

Lemma take_match_in_order ip sq l r l' :
  take_match ip sq l = Some (r, l') -> in_order l -> in_order l'.
Proof.
  intros Htm Hl. revert l' Htm. induction Hl as [|x l Hl IH Hx]; intros l'; cbn; [done|].
  destruct (matches ip sq x); [by intros [= -> ->]|].
  destruct (take_match ip sq l) as [[r1 l1]|] eqn:Htm; [|done]. cbn. intros [= -> <-].
  constructor; [by apply IH|]. apply take_match_perm in Htm. rewrite Htm in Hx.
  by apply Forall_cons in Hx as [_ Hx].
Qed.

Lemma split_expired_in_order now l : in_order l -> in_order (split_expired now l).2.
Proof.
  induction 1 as [|x l Hl IH Hx]; cbn; [by constructor|].
  case_match; [|by constructor]. by destruct (split_expired now l).
Qed.

(** Every request waits or was told about exactly once. *)
Definition settled (g : board) : Prop :=
  in_order (waiting g) /\ (told <$> outs g) ++ waiting g ≡ₚ asked g.

Lemma spec_op_settled o g : settled g -> settled (spec_op o g).
Proof.
  intros [Hord Hperm]. destruct o as [sfd ip now1 now2|ip sq|now]; cbn [spec_op].
  - split; cbn; [by apply schedule_in_order|]. rewrite schedule_perm, <- Hperm.
    rewrite <- Permutation_middle. by rewrite (Permutation_app_comm _ [_]).
  - unfold reply_list. destruct (take_match ip sq (waiting g)) as [[r l]|] eqn:Htm.
    + split; cbn; [by eapply take_match_in_order|]. rewrite <- Hperm.
      apply take_match_perm in Htm. rewrite Htm, fmap_app, <- app_assoc. done.
    + split; cbn; [done|]. by rewrite app_nil_r.
  - pose proof (split_expired_in_order now (waiting g) Hord) as Hord'.
    pose proof (split_expired_app now (waiting g)) as Happ.
    destruct (split_expired now (waiting g)) as [e rest]. cbn in *.
    split; cbn; [done|]. rewrite <- Hperm, <- Happ, fmap_app, <- app_assoc, <- list_fmap_compose.
    cbn. by rewrite list_fmap_id.
Qed.

Lemma run_spec wl malloc :
  32 <= wl -> (forall h, exists a, malloc h = Some a /\ a <> 0 /\ h !! a = None) ->
  forall ops st g, represents wl st g -> Forall (op_ok wl) ops -> settled g ->
  exists st', run wl malloc ops st = Ret st' /\ represents wl st' (spec ops g)
    /\ settled (spec ops g).
Proof.
  intros Hwl Hmalloc. induction ops as [|o ops IH]; intros st g Hrep Hops Hset; [by exists st|].
  apply Forall_cons in Hops as [Ho Hops]. cbn [run spec].
  assert (Hstep : exists st1, run_op wl malloc o st = Ret st1 /\ represents wl st1 (spec_op o g)).
  { destruct o; [by apply request_step|by apply reply_step|by apply scrub_step]. }
  destruct Hstep as (st1 & -> & Hrep1). apply IH; [done|done|by apply spec_op_settled].
Qed.

(** C32: for every sequence of requests, replies and rounds of the scrubber, the
    doubly linked list behaves as a list of requests in the order in which they
    expire, no freed or null pointer is followed, and every request either waits
    or was reported to its client exactly once. *)
Theorem ping_list_refines wl malloc ops garbage :
  32 <= wl -> (forall h, exists a, malloc h = Some a /\ a <> 0 /\ h !! a = None) ->
  Forall (op_ok wl) ops ->
  let g := spec ops (Board [] 0 [] []) in
  exists st l,
    run wl malloc ops (cli_ping_init (Pings ∅ garbage 0 [])) = Ret st
    /\ holds st l /\ l.*2 = waiting g /\ output st = outs g /\ ping_count st = count g
    /\ in_order (waiting g) /\ (told <$> outs g) ++ waiting g ≡ₚ asked g.
Proof.
  intros Hwl Hmalloc Hops g.
  destruct (run_spec wl malloc Hwl Hmalloc ops (cli_ping_init (Pings ∅ garbage 0 []))
    (Board [] 0 [] [])) as (st & Heq & [(l & Hh & Hl) Hc Ho _] & Hord & Hperm); auto.
  - split; [|done|done|by constructor]. exists []. split; [|done].
    split; [done|by constructor|]. intros a. cbn. rewrite lookup_empty.
    split; [by intros [? ?]|set_solver].
  - split; by constructor.
  - by exists st, l.
Qed.

Definition first_free (h : gmap Z ping_t) : option Z :=
  Some (1 + foldr Z.max 0 (map fst (map_to_list h))).

Lemma first_free_ok h : exists a, first_free h = Some a /\ a <> 0 /\ h !! a = None.
Proof.
  eexists. split; [reflexivity|].
  assert (Hmax : forall l : list Z, 0 <= foldr Z.max 0 l /\ forall b, b ∈ l -> b <= foldr Z.max 0 l).
  { induction l as [|c l [H0 IH]]; cbn; [split; [lia|set_solver]|]. split; [lia|].
    intros b [->|Hb]%elem_of_cons; [lia|]. specialize (IH b Hb). lia. }
  destruct (Hmax (map fst (map_to_list h))) as [H0 Hle]. split; [lia|].
  destruct (h !! _) as [v|] eqn:Hv; [|done]. exfalso.
  apply elem_of_map_to_list in Hv. apply (list_elem_of_fmap_2 fst) in Hv. specialize (Hle _ Hv). cbn in Hle. lia.
Qed.

Lemma ping_list_refines_witness :
  let ops := [Ask 4 10 (Timeval 5 0) (Timeval 5 900000); Ask 4 11 (Timeval 5 1) (Timeval 5 2);
              Ask 6 12 (Timeval 5 3) (Timeval 6 0); Reply 11 (htons 1); Scrub (Timeval 6 950000)] in
  let g := spec ops (Board [] 0 [] []) in
  exists st l,
    run 32 first_free ops (cli_ping_init (Pings ∅ 77 0 [])) = Ret st
    /\ holds st l /\ l.*2 = waiting g /\ output st = outs g /\ ping_count st = count g
    /\ in_order (waiting g) /\ (told <$> outs g) ++ waiting g ≡ₚ asked g.
Proof.
  intros ops. apply (ping_list_refines 32 first_free ops 77); [lia|exact first_free_ok|].
  repeat constructor; cbn; lia.
Defined.

Lemma as_long_same wl x y : as_long wl x = Some y -> y = x.
Proof. unfold as_long. case_match; congruence. Qed.

(** ** The time the scrubber waits

    The difference is taken the wrong way round: as long as the first request has
    not expired, the seconds are negative, or they are zero and the microseconds
    not positive, unless the microseconds alone differ by more than the threshold.
    The call of [select] then fails or returns at once, and the thread runs
    without a pause. *)
Theorem scrubber_spins wl now st st' t :
  scrub_round wl now st = Ret (st', Some t) ->
  t = Timeval 0 PING_HANDLER_MIN_RESPONSE_TIME_USEC
  \/ tv_sec t < 0 \/ tv_sec t = 0 /\ tv_usec t <= 0.
Proof.
  unfold scrub_round. destruct (expire_loop _ now st) as [st1| |] eqn:He; try done.
  assert (Hhead : ping_list st1 <> 0 -> forall v, heap st1 !! ping_list st1 = Some v ->
    is_later now (expire_time (req v)) = false).
  { clear -He. revert He. generalize (S (size (heap st))) as fuel. intros fuel. revert st.
    induction fuel as [|fuel IH]; intros st; cbn [expire_loop]; [done|].
    destruct (heap st !! ping_list st) as [v|] eqn:Hv; [|done]. cbn [load mbind outcome_bind].
    destruct (is_later now (expire_time (req v))) eqn:Hl.
    - destruct (free _ _) as [st2| |]; try done. cbn [mbind outcome_bind].
      destruct (Z.eqb_spec (ping_list st2) 0) as [Hz|]; [|apply IH].
      intros [= <-] Hnz. done.
    - intros [= <-] _ w Hw. congruence. }
  cbn [mbind outcome_bind]. destruct (Z.eqb_spec (ping_list st1) 0) as [|Hnz]; [done|].
  destruct (heap st1 !! ping_list st1) as [v|] eqn:Hv; [|done].
  specialize (Hhead Hnz v eq_refl). rewrite is_later_false in Hhead. cbn [load mbind outcome_bind].
  destruct (as_long wl (tv_sec now - _)) as [sec|] eqn:Hsec; [|done]. apply as_long_same in Hsec.
  destruct (as_long wl (tv_usec now - _)) as [usec|] eqn:Husec; [|done]. apply as_long_same in Husec.
  cbn [load mbind outcome_bind]. intros [= <- <-]. case_match eqn:Hc; [by left|right]. cbn.
  apply orb_false_iff in Hc as [Hs Hu]. apply Z.ltb_ge in Hs, Hu. lia.
Qed.

(** ** The two threads

    [router_shutdown] is set before [cli_ping_destroy] takes the lock.  A thread
    step is what happens from taking the lock to giving it up. *)

Inductive scrubber_at := At_top | In_select | Sleeping | Gone.
Inductive destroyer_at := Not_called | Called | Waiting_off | Destroyed.

Record threads := Threads {
  shared : pings;
  shutdown : bool;
  scrubber : scrubber_at;
  destroyer : destroyer_at
}.

Section Threads.

Context (wl : Z) (malloc : gmap Z ping_t -> option Z).

(** The inner loop up to [select] or [pthread_cond_wait]. *)
Definition inner_loop (now : timeval) (t : threads) : outcome threads :=
  if negb (ping_list (shared t) =? 0) && negb (shutdown t) then
    '(st, timeout) ← scrub_round wl now (shared t);
    Ret (Threads st (shutdown t)
           (match timeout with Some _ => In_select | None => Sleeping end) (destroyer t))
  else Ret (Threads (shared t) (shutdown t) Sleeping (destroyer t)).

(** [cli_ping_scrubber_main] from the head of the outer loop; its end wakes the
    thread that waits in [cli_ping_destroy], which frees the list. *)
Definition cli_ping_scrubber_main (now : timeval) (t : threads) : outcome threads :=
  if shutdown t then
    match destroyer t with
    | Waiting_off => st ← free_all (shared t); Ret (Threads st true Gone Destroyed)
    | d => Ret (Threads (shared t) true Gone d)
    end
  else inner_loop now t.

(** The start of [cli_ping_destroy]: the signal reaches a sleeping scrubber only. *)
Definition cli_ping_destroy (t : threads) : threads :=
  Threads (shared t) (shutdown t)
    (match scrubber t with Sleeping => At_top | p => p end) Waiting_off.

Inductive thread_step : threads -> threads -> Prop :=
  | step_top now t t' :
      scrubber t = At_top -> cli_ping_scrubber_main now t = Ret t' -> thread_step t t'
  | step_select now t t' :
      scrubber t = In_select -> inner_loop now t = Ret t' -> thread_step t t'
  | step_request sfd ip now1 now2 t st :
      destroyer t = Not_called ->
      cli_ping_request wl malloc sfd ip now1 now2 (shared t) = Ret st ->
      thread_step t (Threads st (shutdown t)
        (match scrubber t with Sleeping => At_top | p => p end) (destroyer t))
  | step_reply ip sq t st :
      scrubber t <> Gone ->
      cli_ping_handle_reply (shutdown t) ip sq (shared t) = Ret st ->
      st <> shared t -> thread_step t (Threads st (shutdown t) (scrubber t) (destroyer t))
  | step_shutdown t :
      destroyer t = Not_called ->
      thread_step t (Threads (shared t) true (scrubber t) Called)
  | step_destroy t :
      destroyer t = Called -> thread_step t (cli_ping_destroy t).

End Threads.

Definition first_threads : threads := Threads (Pings ∅ 0 0 []) false At_top Not_called.

(** A shutdown while a ping is outstanding and the scrubber is in [select] never
    ends: the signal of [cli_ping_destroy] finds nobody waiting, and the scrubber
    then waits for it without looking at the flag again. *)
Theorem destroy_deadlocks :
  exists t, rtc (thread_step 32 first_free) first_threads t
    /\ scrubber t = Sleeping /\ destroyer t = Waiting_off
    /\ forall t', ~ thread_step 32 first_free t t'.
Proof.
  set (r := Request 4 10 (htons 0) (Timeval 5 0) (Timeval 6 0)).
  set (st := Pings {[ 1 := Ping r 0 0 ]} 1 1 []).
  exists (Threads st true Sleeping Waiting_off). split; [|split; [done|split; [done|]]].
  - eapply rtc_l; [apply (step_request _ _ 4 10 (Timeval 5 0) (Timeval 5 0) _ st); [done|reflexivity]|].
    eapply rtc_l; [apply (step_top _ _ (Timeval 5 1) _ (Threads st false In_select Not_called)); [done|vm_compute; reflexivity]|].
    eapply rtc_l; [apply step_shutdown; done|].
    eapply rtc_l; [apply step_destroy; done|].
    apply rtc_once, (step_select _ _ (Timeval 5 2)); done.
  - intros t' Hstep. inversion Hstep; subst; cbn in *; try done; congruence.
Qed.

(** When the scrubber sleeps, a shutdown does end. *)
Theorem destroy_ends wl malloc t (now : timeval) l :
  scrubber t = Sleeping -> destroyer t = Called -> shutdown t = true -> holds (shared t) l ->
  exists t', rtc (thread_step wl malloc) t t' /\ scrubber t' = Gone /\ destroyer t' = Destroyed
    /\ heap (shared t') = ∅.
Proof.
  intros Hs Hd Hf Hh.
  assert (Hfree : exists st, free_all (shared t) = Ret st /\ heap st = ∅).
  { clear Hs Hd Hf. unfold free_all. rewrite (holds_size _ _ Hh).
    revert Hh. generalize (shared t) as st. induction l as [|[a r] l IH]; intros st [Hl Hnd Hdom].
    - exists st. cbn in Hl. cbn [free_loop]. rewrite Hl. split; [done|].
      apply map_empty. intros a. apply eq_None_not_Some. rewrite Hdom. set_solver.
    - cbn [length]. pose proof (linked_head _ _ _ _ _ _ _ Hl) as (Ha & Ha0 & v & Hv & Hr).
      remember (S (length l)) as n. cbn [free_loop]. rewrite Ha.
      destruct (Z.eqb_spec a 0); [done|]. rewrite Hv. cbn [load mbind outcome_bind].
      rewrite (free_ok _ _ v) by done. cbn [mbind outcome_bind]. subst n. apply IH.
      cbn in Hnd. apply NoDup_cons in Hnd as [Hna Hnd].
      cbn in Hl. destruct Hl as (_ & _ & w & Hw & _ & _ & Hl). rewrite Hv in Hw. injection Hw as <-.
      split; cbn; [|done|].
      + apply (dlist_agree (heap st)).
        { intros b Hb. apply lookup_delete_ne. intros ->. done. }
        destruct l as [|[b rb] l]; [done|]. cbn in Hl |- *.
        destruct Hl as (-> & Hb0 & w & Hw & Hrw & _ & Hn). eauto 10.
      + intros b. rewrite lookup_delete_is_Some, Hdom. cbn. set_solver. }
  destruct Hfree as (st & Hst & Hemp). eexists. split.
  - eapply rtc_l; [by apply step_destroy|]. apply rtc_once, (step_top _ _ now).
    + unfold cli_ping_destroy. by rewrite Hs.
    + unfold cli_ping_scrubber_main, cli_ping_destroy. cbn [shutdown shared destroyer].
      rewrite Hf, Hst. reflexivity.
  - done.
Qed.
