(* ===== verification/Netbuf.v ===== *)
(** * Network buffers of the socket interface ([lwtcp/api_lib.c])

    A [netbuf] is what applications get and give: a chain of pbufs with a position
    in it and the sender's address.  The chain is held by its contents, and the
    position [ptr] counts its buffers.

    [copied_prefix] says what [netbuf_copy_partial] copies; [copy_partial_gap] is a
    defect: the offset into the first buffer is used for the later ones too. *)

From stdpp Require Import base gmap list.
From Stdlib Require Import ZArith Lia.
From S2P Require Import Prelude TcpTypes.

(** [struct netbuf]; a null pointer is [None]. *)
Record netbuf := Netbuf {
  p : option pbufs;
  ptr : option nat;
  fromaddr : option Z;
  fromport : Z
}.

Definition set_p (c : option pbufs) (i : option nat) (b : netbuf) : netbuf :=
  Netbuf c i (fromaddr b) (fromport b).

(** ** Operations *)

(** The other fields of a new buffer are what the pool left in them. *)
Definition netbuf_new (garbage : netbuf) : netbuf := set_p None None garbage.

(** [contents] is what the memory of the new pbuf holds, or nothing if there is no
    memory; the old chain is freed either way, and [p] is null afterwards. *)
Definition netbuf_alloc (b : netbuf) (contents : option (list Z)) : netbuf * bool :=
  match contents with
  | None => (set_p None (ptr b) b, false)
  | Some l => (set_p (Some (Pbufs [l] (u16 (Z.of_nat (length l))))) (Some 0%nat) b, true)
  end.

Definition netbuf_free (b : netbuf) : netbuf := set_p None None b.

(** A pbuf that points at the data of the caller; nobody looks whether there was
    memory for it. *)
Definition netbuf_ref (b : netbuf) (data : list Z) (size : Z) (ok : bool) : outcome netbuf :=
  if ok then Ret (set_p (Some (Pbufs [take (Z.to_nat (u16 size)) data] (u16 size))) (Some 0%nat) b)
  else Undef.

(** The chains are joined; the structure of the second one is freed. *)
Definition netbuf_chain (head tail : netbuf) : outcome netbuf :=
  h ← load (p head);
  t ← load (p tail);
  Ret (set_p (Some (Pbufs (bufs h ++ bufs t) (u16 (tot_len h + tot_len t)))) (Some 0%nat) head).

Definition netbuf_len (b : netbuf) : outcome Z := c ← load (p b); Ret (tot_len c).

Definition netbuf_data (b : netbuf) : outcome (err_t * list Z) :=
  match ptr b with
  | None => Ret (ERR_BUF, [])
  | Some i => c ← load (p b); d ← load (bufs c !! i); Ret (ERR_OK, d)
  end.

Definition netbuf_next (b : netbuf) : outcome (Z * netbuf) :=
  i ← load (ptr b);
  c ← load (p b);
  _ ← load (bufs c !! i);
  match bufs c !! S i with
  | None => Ret (-1, b)
  | Some _ =>
      Ret (match bufs c !! S (S i) with None => 1 | Some _ => 0 end, set_p (p b) (Some (S i)) b)
  end.

Definition netbuf_first (b : netbuf) : netbuf :=
  set_p (p b) (match p b with Some _ => Some 0%nat | None => None end) b.

(** The inner loop of [netbuf_copy_partial] on the bytes of a buffer that are left:
    those that are copied, the new [left], and whether the function returns. *)
Fixpoint copy_bytes (d : list Z) (filled len : Z) : list Z * Z * bool :=
  match d with
  | [] => ([], filled, false)
  | x :: d =>
      let filled := u16 (filled + 1) in
      if len <=? filled then ([x], filled, true)
      else let '(l, filled, over) := copy_bytes d filled len in (x :: l, filled, over)
  end.

(** The outer loop over the chain. *)
Fixpoint copy_loop (chain : list (list Z)) (filled len offset : Z) : list Z :=
  match chain with
  | [] => []
  | d :: chain =>
      if filled <? len then
        let plen := Z.of_nat (length d) in
        if negb (offset =? 0) && (plen <=? offset)
        then copy_loop chain filled len (u16 (offset - plen))
        else
          let '(l, filled, over) := copy_bytes (drop (Z.to_nat offset) d) filled len in
          if over : bool then l else l ++ copy_loop chain filled len offset
      else []
  end.

(** The bytes stored at [dataptr]; a null [p] is an empty chain. *)
Definition netbuf_copy_partial (b : netbuf) (len offset : Z) : list Z :=
  copy_loop (match p b with Some c => bufs c | None => [] end) 0 len offset.

Definition netbuf_copy (b : netbuf) (len : Z) : list Z := netbuf_copy_partial b len 0.

(** ** What is copied *)

Lemma copy_bytes_spec d : forall left len,
  0 <= left < len -> len < 65536 ->
  copy_bytes d left len =
  (take (Z.to_nat (len - left)) d, left + Z.of_nat (length (take (Z.to_nat (len - left)) d)),
   bool_decide (len - left <= Z.of_nat (length d))).
Proof.
  induction d as [|x d IH]; intros left len Hl Hn; cbn [copy_bytes].
  - rewrite take_nil. rewrite bool_decide_eq_false_2 by (cbn; lia). cbn. do 2 f_equal. lia.
  - rewrite u16_small by lia. destruct (Z.leb_spec len (left + 1)).
    + replace (Z.to_nat (len - left)) with 1%nat by lia.
      rewrite bool_decide_eq_true_2 by (cbn; lia). cbn. done.
    + rewrite IH by lia. replace (Z.to_nat (len - left)) with (S (Z.to_nat (len - (left + 1)))) by lia.
      cbn [take length]. rewrite Nat2Z.inj_succ. f_equal; [f_equal; lia|].
      apply bool_decide_ext. lia.
Qed.

(** From the beginning of a chain the bytes are those of the chain. *)
Lemma copy_loop_zero chain : forall left len,
  0 <= left <= len -> len < 65536 ->
  copy_loop chain left len 0 = take (Z.to_nat (len - left)) (concat chain).
Proof.
  induction chain as [|d chain IH]; intros left len Hl Hn; cbn [copy_loop concat]; [by rewrite take_nil|].
  destruct (Z.ltb_spec left len).
  - change (negb (0 =? 0)) with false. cbn [andb]. change (Z.to_nat 0) with 0%nat. rewrite drop_0.
    rewrite copy_bytes_spec by lia. case_bool_decide.
    + cbn [concat]. rewrite take_app_le by lia. done.
    + rewrite (take_ge d) by lia. rewrite IH by lia. cbn [concat].
      rewrite take_app_ge by lia. do 2 f_equal. lia.
  - by replace (Z.to_nat (len - left)) with 0%nat by lia.
Qed.

(** Buffers that end at or before the offset are skipped. *)
Lemma copy_loop_skip pre : forall chain len offset,
  0 <= Z.of_nat (length (concat pre)) <= offset -> offset < 65536 -> 0 < len ->
  (offset = Z.of_nat (length (concat pre)) -> Forall (fun d => d <> []) pre) ->
  copy_loop (pre ++ chain) 0 len offset
  = copy_loop chain 0 len (offset - Z.of_nat (length (concat pre))).
Proof.
  induction pre as [|d pre IH]; intros chain len offset Ho Hu Hl Hne; cbn [app concat length].
  - f_equal. lia.
  - cbn [concat] in Ho. rewrite length_app in Ho |- *. cbn [copy_loop].
    destruct (Z.ltb_spec 0 len); [|lia].
    destruct (Z.eqb_spec offset 0) as [->|].
    { assert (Hz : length (concat (d :: pre)) = 0%nat) by (cbn; rewrite length_app; lia).
      exfalso. rewrite Hz in Hne. specialize (Hne eq_refl). apply Forall_cons in Hne as [Hd _].
      destruct d; [done|]. cbn in Ho. lia. }
    destruct (Z.leb_spec (Z.of_nat (length d)) offset); [|lia]. cbn [negb andb].
    rewrite u16_small by lia. rewrite IH; [f_equal; lia|lia|lia|done|].
    intros Heq. cbn [concat] in Hne. rewrite length_app in Hne.
    assert (Hall : Forall (fun d => d <> []) (d :: pre)) by (apply Hne; lia).
    by apply Forall_cons in Hall as [_ Hall].
Qed.

(** [netbuf_copy_partial] copies the bytes from the offset on if the offset is at the
    beginning of a buffer, or if the bytes asked for are in one buffer. *)
Lemma copied_prefix b c pre d post len o :
  p b = Some c -> bufs c = pre ++ d :: post -> Forall (fun x => x <> []) pre ->
  0 <= o -> 0 < len < 65536 -> Z.of_nat (length (concat pre)) + o < 65536 ->
  (o = 0 \/ o + len <= Z.of_nat (length d)) ->
  netbuf_copy_partial b len (Z.of_nat (length (concat pre)) + o)
  = take (Z.to_nat len) (drop (length (concat pre) + Z.to_nat o) (pbuf_data c)).
Proof.
  intros Hp Hc Hne Ho Hlen Hu Hcase. unfold netbuf_copy_partial, pbuf_data. rewrite Hp, Hc.
  rewrite copy_loop_skip by (done || lia). rewrite Z.add_simpl_l.
  rewrite concat_app, drop_app_add'. 2:{ done. }
  cbn [concat]. destruct (decide (o = 0)) as [->|Hne0].
  - rewrite copy_loop_zero by lia. by rewrite Z.sub_0_r, drop_0.
  - destruct Hcase as [?|Hfit]; [done|]. cbn [copy_loop]. destruct (Z.ltb_spec 0 len); [|lia].
    destruct (Z.leb_spec (Z.of_nat (length d)) o); [lia|]. rewrite andb_false_r.
    rewrite copy_bytes_spec by lia. rewrite length_drop. case_bool_decide; [|lia].
    rewrite Z.sub_0_r, drop_app_le by lia. by rewrite take_app_le by (rewrite length_drop; lia).
Qed.

Lemma netbuf_copy_all b c len :
  p b = Some c -> 0 <= len < 65536 -> netbuf_copy b len = take (Z.to_nat len) (pbuf_data c).
Proof.
  intros Hp Hlen. unfold netbuf_copy, netbuf_copy_partial, pbuf_data. rewrite Hp.
  rewrite copy_loop_zero by lia. by rewrite Z.sub_0_r.
Qed.

(** Behind an offset into a buffer, the bytes up to that offset are left out of the
    next buffer as well. *)
Theorem copy_partial_gap :
  let b := Netbuf (Some (Pbufs [[1; 2; 3; 4]; [5; 6; 7; 8]] 8)) (Some 0%nat) None 0 in
  netbuf_copy_partial b 5 3 = [4; 8].
Proof. reflexivity. Qed.
