(* ===== verification/Netconn.v ===== *)
(** * Connections of the socket interface ([lwtcp/api_lib.c], [lwtcp/api_msg.c],
      [lwtcp/transport_subsys.c])

    Application threads do not call TCP and UDP: they put a message into the mailbox
    of the transport thread and wait at the mailbox of their connection until that
    thread has called the protocol and answered.  What TCP reports comes as calls of
    the functions in the first half of [api_msg.c].

    A function of an application thread is a [prog]: a sequence of atomic steps on
    the state that all threads share, between which others may run.  A function that
    the transport thread runs is one step, of type [action].  Structures are in stores by
    address, and addresses are not used twice, so that a use of freed memory is
    [Undef].  Mailboxes are queues; [Mbox] relates them to the rings of
    [sys_arch.c].

    The transport thread's own mailbox is a queue without bound: its messages come
    from a pool of 8 ([MEMP_NUM_TCPIP_MSG]), and its ring has 100 places.  When the pool
    has no message left is a value of [allocs].

    The protocols are an interface, the class [Transport].  [NetconnSafe] has what holds
    for all interleavings of the requests, [NetconnWrite] what [netconn_write] promises,
    [NetconnFaults] what goes wrong. *)

From stdpp Require Import base gmap list.
From Stdlib Require Import ZArith Lia.
From S2P Require Import Prelude TcpTypes SysArch Netbuf.

(** ** Data *)

Inductive netconn_type := NETCONN_TCP | NETCONN_UDP | NETCONN_UDPLITE | NETCONN_UDPNOCHKSUM.
Inductive netconn_state :=
  NETCONN_NONE | NETCONN_WRITE | NETCONN_ACCEPT | NETCONN_RECV | NETCONN_CONNECT | NETCONN_CLOSE.

#[global] Instance netconn_type_eq_dec : EqDecision netconn_type.
Proof. solve_decision. Defined.
#[global] Instance netconn_state_eq_dec : EqDecision netconn_state.
Proof. solve_decision. Defined.

(** [struct netconn]; the union of the two pointers is one of them. *)
Record netconn := Netconn {
  type : netconn_type;
  state : netconn_state;
  pcb : option Z;
  err : err_t;
  mbox : option Z;
  recvmbox : option Z;
  acceptmbox : option Z;
  sem : option Z
}.

Definition set_state (v : netconn_state) (c : netconn) : netconn :=
  Netconn (type c) v (pcb c) (err c) (mbox c) (recvmbox c) (acceptmbox c) (sem c).
Definition set_pcb (v : option Z) (c : netconn) : netconn :=
  Netconn (type c) (state c) v (err c) (mbox c) (recvmbox c) (acceptmbox c) (sem c).
Definition set_err (v : err_t) (c : netconn) : netconn :=
  Netconn (type c) (state c) (pcb c) v (mbox c) (recvmbox c) (acceptmbox c) (sem c).
Definition set_mbox (v : option Z) (c : netconn) : netconn :=
  Netconn (type c) (state c) (pcb c) (err c) v (recvmbox c) (acceptmbox c) (sem c).
Definition set_recvmbox (v : option Z) (c : netconn) : netconn :=
  Netconn (type c) (state c) (pcb c) (err c) (mbox c) v (acceptmbox c) (sem c).
Definition set_acceptmbox (v : option Z) (c : netconn) : netconn :=
  Netconn (type c) (state c) (pcb c) (err c) (mbox c) (recvmbox c) v (sem c).
Definition set_sem (v : option Z) (c : netconn) : netconn :=
  Netconn (type c) (state c) (pcb c) (err c) (mbox c) (recvmbox c) (acceptmbox c) v.

(** What is posted to the mailboxes of connections. *)
Inductive item := INull | IPbuf (p : pbufs) | INetbuf (id : Z) | IConn (id : Z).

(** A pointer to an address: null, to a variable that keeps its value, or into a
    control block. *)
Inductive addr_ptr := Null | Var (addr : Z) | Remote_ip (pcb : Z) | Local_ip (pcb : Z).

(** The messages of [api_msg.h] with their arguments. *)
Inductive api_op :=
  | API_MSG_NEWCONN
  | API_MSG_DELCONN
  | API_MSG_BIND (ipaddr : addr_ptr) (port : Z)
  | API_MSG_CONNECT (ipaddr : addr_ptr) (port : Z)
  | API_MSG_LISTEN
  | API_MSG_ACCEPT
  | API_MSG_SEND (p : option pbufs)
  | API_MSG_RECV (len : Z)
  | API_MSG_WRITE (data : list Z) (copy : bool)
  | API_MSG_CLOSE.

Record api_msg := ApiMsg { msg_type : api_op; msg_conn : Z }.

(** [struct transport_msg]: a message of an application, or a packet. *)
Inductive transport_msg := TCP_MSG_API (msg : Z) | TCP_MSG_INPUT (pkt : list Z).

(** ** The protocols *)

(** What TCP and UDP call: the first argument is the pointer that was registered. *)
Inductive upcall :=
  | Recv_tcp (arg : Z) (p : option pbufs) (err : err_t)
  | Recv_udp (arg : Z) (p : pbufs) (addr port : Z)
  | Poll_tcp (arg : Z)
  | Sent_tcp (arg : Z)
  | Err_tcp (arg : Z) (err : err_t)
  | Accept_function (arg newpcb : Z) (err : err_t)
  | Connected (arg : Z) (err : err_t).

(** The calls of the functions of TCP and UDP with the types of their results.  The
    functions that are registered are always those of [api_msg.c], or null. *)
Inductive transport_call : Type -> Type :=
  | Tcp_new : transport_call (option Z)
  | Tcp_arg (pcb arg : Z) : transport_call unit
  | Tcp_recv (pcb : Z) (f : bool) : transport_call unit
  | Tcp_sent (pcb : Z) (f : bool) : transport_call unit
  | Tcp_poll (pcb : Z) (f : bool) (interval : Z) : transport_call unit
  | Tcp_err (pcb : Z) (f : bool) : transport_call unit
  | Tcp_accept (pcb : Z) (f : bool) : transport_call unit
  | Tcp_is_listening (pcb : Z) : transport_call bool
  | Tcp_close (pcb : Z) : transport_call err_t
  | Tcp_abort (pcb : Z) : transport_call unit
  | Tcp_bind (pcb : Z) (ipaddr : option Z) (port : Z) : transport_call err_t
  | Tcp_connect (pcb : Z) (ipaddr : option Z) (port : Z) : transport_call err_t
  | Tcp_listen (pcb : Z) : transport_call (option Z)
  | Tcp_recved (pcb len : Z) : transport_call unit
  | Tcp_write (pcb : Z) (data : list Z) (copy : bool) : transport_call err_t
  | Tcp_output (pcb : Z) : transport_call err_t
  | Tcp_unacked_null (pcb : Z) : transport_call bool
  | Tcp_sndbuf (pcb : Z) : transport_call Z
  | Tcp_remote (pcb : Z) : transport_call (Z * Z)
  | Tcp_local (pcb : Z) : transport_call (Z * Z)
  | Udp_new : transport_call (option Z)
  | Udp_setflags (pcb flags : Z) : transport_call unit
  | Udp_recv (pcb arg : Z) : transport_call unit
  | Udp_no_arg (pcb : Z) : transport_call unit
  | Udp_remove (pcb : Z) : transport_call unit
  | Udp_bind (pcb : Z) (ipaddr : option Z) (port : Z) : transport_call err_t
  | Udp_connect (pcb : Z) (ipaddr : option Z) (port : Z) : transport_call err_t
  | Udp_send (pcb : Z) (p : option pbufs) : transport_call err_t
  | Udp_remote (pcb : Z) : transport_call (Z * Z)
  | Udp_local (pcb : Z) : transport_call (Z * Z)
  | Tcp_input (pkt : list Z) : transport_call (list upcall)
  | Tcp_tmr : transport_call (list upcall).

Class Transport (T : Type) := transport : forall A, transport_call A -> T -> outcome (A * T).

Definition UDP_FLAGS_NOCHKSUM : Z := 1.
Definition UDP_FLAGS_UDPLITE : Z := 2.

(** The pointers that are registered: to a connection, or to its [acceptmbox]. *)
Definition conn_ptr (c : Z) : Z := 2 * c.
Definition acceptmbox_ptr (c : Z) : Z := 2 * c + 1.

(** ** Steps on the shared state *)

Section Api.

Context {T : Type} `{Transport T}.

(** [allocs] tells for the allocations to come whether they succeed; when it is used
    up they do. *)
Record api := Api {
  trans : T;
  conns : gmap Z netconn;
  netbufs : gmap Z netbuf;
  msgs : gmap Z api_msg;
  boxes : gmap Z (list item);
  sems : gmap Z Z;
  inbox : list transport_msg;
  allocs : list bool;
  next : Z
}.

Definition set_trans (v : T) (s : api) : api :=
  Api v (conns s) (netbufs s) (msgs s) (boxes s) (sems s) (inbox s) (allocs s) (next s).
Definition set_conns (v : gmap Z netconn) (s : api) : api :=
  Api (trans s) v (netbufs s) (msgs s) (boxes s) (sems s) (inbox s) (allocs s) (next s).
Definition set_netbufs (v : gmap Z netbuf) (s : api) : api :=
  Api (trans s) (conns s) v (msgs s) (boxes s) (sems s) (inbox s) (allocs s) (next s).
Definition set_msgs (v : gmap Z api_msg) (s : api) : api :=
  Api (trans s) (conns s) (netbufs s) v (boxes s) (sems s) (inbox s) (allocs s) (next s).
Definition set_boxes (v : gmap Z (list item)) (s : api) : api :=
  Api (trans s) (conns s) (netbufs s) (msgs s) v (sems s) (inbox s) (allocs s) (next s).
Definition set_sems (v : gmap Z Z) (s : api) : api :=
  Api (trans s) (conns s) (netbufs s) (msgs s) (boxes s) v (inbox s) (allocs s) (next s).
Definition set_inbox (v : list transport_msg) (s : api) : api :=
  Api (trans s) (conns s) (netbufs s) (msgs s) (boxes s) (sems s) v (allocs s) (next s).
Definition set_allocs (v : list bool) (s : api) : api :=
  Api (trans s) (conns s) (netbufs s) (msgs s) (boxes s) (sems s) (inbox s) v (next s).

Definition action (A : Type) : Type := api -> outcome (A * api).

#[global] Instance action_ret : MRet action := fun A a s => Ret (a, s).
#[global] Instance action_bind : MBind action := fun A B f m s =>
  match m s with Ret (a, s) => f a s | Blocked => Blocked | Undef => Undef end.

Definition undef {A} : action A := fun _ => Undef.
Definition modify (f : api -> api) : action unit := fun s => Ret (tt, f s).

Definition call {A} (c : transport_call A) : action A := fun s =>
  '(a, t) ← transport A c (trans s); Ret (a, set_trans t s).

(** Accesses to a connection. *)
Definition conn (c : Z) : action netconn := fun s => n ← load (conns s !! c); Ret (n, s).
Definition update (c : Z) (f : netconn -> netconn) : action unit := fun s =>
  n ← load (conns s !! c); Ret (tt, set_conns (<[c := f n]> (conns s)) s).

Definition deref {A} (x : option A) : action A :=
  match x with Some a => mret a | None => undef end.

(** Whether an allocation succeeds, and a new address. *)
Definition alloc : action bool := fun s =>
  match allocs s with
  | [] => Ret (true, s)
  | b :: l => Ret (b, set_allocs l s)
  end.
Definition fresh : action Z := fun s =>
  Ret (next s, Api (trans s) (conns s) (netbufs s) (msgs s) (boxes s) (sems s) (inbox s)
                 (allocs s) (next s + 1)).

(** An object of the store [get] that is allocated if there is memory. *)
Definition new_in {V} (get : api -> gmap Z V) (set : gmap Z V -> api -> api) (v : V) : action (option Z) :=
  ok ← alloc;
  if ok : bool then
    i ← fresh; modify (fun s => set (<[i := v]> (get s)) s);; mret (Some i)
  else mret None.
Definition free_in {V} (get : api -> gmap Z V) (set : gmap Z V -> api -> api) (i : Z) : action unit := fun s =>
  _ ← load (get s !! i); Ret (tt, set (delete i (get s)) s).

Definition sys_mbox_new : action (option Z) := new_in boxes set_boxes [].
Definition sys_mbox_free (b : Z) : action unit := free_in boxes set_boxes b.

(** The ring of 100 places counts as empty when it is full. *)
Definition enqueue (x : item) (l : list item) : list item :=
  if (length l =? 99)%nat then [] else l ++ [x].
Definition sys_mbox_post (b : Z) (x : item) : action unit := fun s =>
  l ← load (boxes s !! b); Ret (tt, set_boxes (<[b := enqueue x l]> (boxes s)) s).
Definition sys_mbox_fetch (b : Z) : action item := fun s =>
  l ← load (boxes s !! b);
  match l with
  | [] => Blocked
  | x :: l => Ret (x, set_boxes (<[b := l]> (boxes s)) s)
  end.

Definition sys_sem_new : action (option Z) := new_in sems set_sems (sys_sem_new 0).
Definition sys_sem_free (i : Z) : action unit := free_in sems set_sems i.
Definition sys_sem_signal (i : Z) : action unit := fun s =>
  n ← load (sems s !! i); Ret (tt, set_sems (<[i := SysArch.sys_sem_signal n]> (sems s)) s).
Definition sys_sem_wait (i : Z) : action unit := fun s =>
  n ← load (sems s !! i); n ← SysArch.sys_sem_wait n; Ret (tt, set_sems (<[i := n]> (sems s)) s).

Definition post_opt (b : option Z) (x : item) : action unit :=
  match b with Some b => sys_mbox_post b x | None => mret tt end.
Definition signal_opt (i : option Z) : action unit :=
  match i with Some i => sys_sem_signal i | None => mret tt end.

(** ** Called by the protocols ([api_msg.c]) *)

(** The connection behind a pointer that was registered. *)
Definition conn_of (arg : Z) : option Z := if arg =? 0 then None else Some (arg / 2).

Definition recv_tcp (arg : Z) (p : option pbufs) (e : err_t) : action err_t :=
  match conn_of arg with
  | None => mret ERR_VAL
  | Some c =>
      n ← conn c;
      match recvmbox n with
      | None => mret ERR_OK
      | Some b =>
          update c (set_err e);;
          sys_mbox_post b (match p with Some p => IPbuf p | None => INull end);;
          mret ERR_OK
      end
  end.

Definition recv_udp (arg : Z) (p : pbufs) (addr port : Z) : action unit :=
  match conn_of arg with
  | None => mret tt
  | Some c =>
      n ← conn c;
      match recvmbox n with
      | None => mret tt
      | Some b =>
          o ← new_in netbufs set_netbufs (Netbuf (Some p) (Some 0%nat) (Some addr) port);
          match o with None => mret tt | Some buf => sys_mbox_post b (INetbuf buf) end
      end
  end.

Definition poll_tcp (arg : Z) : action err_t :=
  match conn_of arg with
  | None => mret ERR_OK
  | Some c =>
      n ← conn c;
      (if bool_decide (state n = NETCONN_WRITE \/ state n = NETCONN_CLOSE)
       then signal_opt (sem n) else mret tt);;
      mret ERR_OK
  end.

Definition sent_tcp (arg : Z) : action err_t :=
  match conn_of arg with
  | None => mret ERR_OK
  | Some c => n ← conn c; signal_opt (sem n);; mret ERR_OK
  end.

Definition err_tcp (arg : Z) (e : err_t) : action unit :=
  c ← deref (conn_of arg);
  update c (set_pcb None);;
  update c (set_err e);;
  n ← conn c;
  post_opt (recvmbox n) INull;;
  post_opt (mbox n) INull;;
  post_opt (acceptmbox n) INull;;
  signal_opt (sem n).

Definition setup_tcp (c : Z) : action unit :=
  n ← conn c;
  p ← deref (pcb n);
  call (Tcp_arg p (conn_ptr c));;
  call (Tcp_recv p true);;
  call (Tcp_sent p true);;
  call (Tcp_poll p true 4);;
  call (Tcp_err p true).

(** A new connection for the block [newpcb]; the fields that are not written keep
    what the pool left in them.  When the memory for the mailboxes or the semaphore
    is missing the connection is freed, but the block keeps pointing at it. *)
Definition accept_function (garbage : netconn) (arg newpcb : Z) (e : err_t) : action err_t :=
  o ← new_in conns set_conns (Netconn NETCONN_TCP (state garbage) (Some newpcb) (err garbage)
                                (mbox garbage) (recvmbox garbage) (acceptmbox garbage) (sem garbage));
  match o with
  | None => mret ERR_MEM
  | Some newconn =>
      setup_tcp newconn;;
      r ← sys_mbox_new;
      match r with
      | None => free_in conns set_conns newconn;; mret ERR_MEM
      | Some r =>
          m ← sys_mbox_new;
          match m with
          | None => sys_mbox_free r;; free_in conns set_conns newconn;; mret ERR_MEM
          | Some m =>
              i ← sys_sem_new;
              match i with
              | None => sys_mbox_free r;; sys_mbox_free m;; free_in conns set_conns newconn;; mret ERR_MEM
              | Some i =>
                  update newconn (fun n => Netconn (type n) (state n) (pcb n) e (Some m) (Some r) None (Some i));;
                  l ← conn (arg / 2);
                  b ← deref (acceptmbox l);
                  sys_mbox_post b (IConn newconn);;
                  mret ERR_OK
              end
          end
      end
  end.

Definition do_connected (arg : Z) (e : err_t) : action err_t :=
  match conn_of arg with
  | None => mret ERR_VAL
  | Some c =>
      update c (set_err e);;
      n ← conn c;
      (if bool_decide (type n = NETCONN_TCP /\ e = ERR_OK) then setup_tcp c else mret tt);;
      b ← deref (mbox n);
      sys_mbox_post b INull;;
      mret ERR_OK
  end.

(** ** The messages ([api_msg.c]) *)

(** The address behind a pointer, when it is read. *)
Definition addr_value (t : netconn_type) (a : addr_ptr) : action (option Z) :=
  match a with
  | Null => mret None
  | Var v => mret (Some v)
  | Remote_ip p =>
      r ← match t with NETCONN_TCP => call (Tcp_remote p) | _ => call (Udp_remote p) end;
      mret (Some r.1)
  | Local_ip p =>
      r ← match t with NETCONN_TCP => call (Tcp_local p) | _ => call (Udp_local p) end;
      mret (Some r.1)
  end.

Definition do_newconn (c : Z) : action unit := mret tt.

Definition do_delconn (c : Z) : action unit :=
  n ← conn c;
  match pcb n with
  | None => mret tt
  | Some p =>
      match type n with
      | NETCONN_TCP =>
          call (Tcp_arg p 0);;
          call (Tcp_sent p false);;
          call (Tcp_recv p false);;
          call (Tcp_accept p false);;
          call (Tcp_poll p false 0);;
          call (Tcp_err p false);;
          listening ← call (Tcp_is_listening p);
          r ← call (Tcp_close p);
          if (listening : bool) || bool_decide (r = ERR_OK) then mret tt else call (Tcp_abort p)
      | _ => call (Udp_no_arg p);; call (Udp_remove p)
      end
  end;;
  post_opt (mbox n) INull.

(** A UDP block for the connection, whose receive function is [recv_udp]. *)
Definition setup_udp (c p : Z) (t : netconn_type) : action unit :=
  match t with
  | NETCONN_UDPLITE => call (Udp_setflags p UDP_FLAGS_UDPLITE)
  | NETCONN_UDPNOCHKSUM => call (Udp_setflags p UDP_FLAGS_NOCHKSUM)
  | _ => mret tt
  end;;
  call (Udp_recv p (conn_ptr c)).

(** Nobody looks whether there was memory for the block. *)
Definition do_bind (c : Z) (ipaddr : addr_ptr) (port : Z) : action unit :=
  n ← conn c;
  match pcb n with
  | Some _ => mret tt
  | None =>
      match type n with
      | NETCONN_TCP => o ← call Tcp_new; update c (set_pcb o);; setup_tcp c
      | t => o ← call Udp_new; update c (set_pcb o);; p ← deref o; setup_udp c p t
      end
  end;;
  n ← conn c;
  p ← deref (pcb n);
  ipaddr ← addr_value (type n) ipaddr;
  match type n with
  | NETCONN_TCP => e ← call (Tcp_bind p ipaddr port); update c (set_err e)
  | _ => call (Udp_bind p ipaddr port);; mret tt
  end;;
  b ← deref (mbox n);
  sys_mbox_post b INull.

(** The answer to the connection of TCP is [do_connected]; the result of
    [tcp_connect] is not looked at. *)
Definition do_connect (c : Z) (ipaddr : addr_ptr) (port : Z) : action unit :=
  n ← conn c;
  ok ← match pcb n with
       | Some _ => mret true
       | None =>
           o ← match type n with NETCONN_TCP => call Tcp_new | _ => call Udp_new end;
           update c (set_pcb o);;
           match o with
           | None =>
               update c (set_err ERR_MEM);;
               b ← deref (mbox n);
               sys_mbox_post b INull;;
               mret false
           | Some p =>
               match type n with NETCONN_TCP => mret tt | t => setup_udp c p t end;;
               mret true
           end
       end;
  if ok : bool then
    n ← conn c;
    p ← deref (pcb n);
    ipaddr ← addr_value (type n) ipaddr;
    match type n with
    | NETCONN_TCP => setup_tcp c;; call (Tcp_connect p ipaddr port);; mret tt
    | _ =>
        call (Udp_connect p ipaddr port);;
        b ← deref (mbox n);
        sys_mbox_post b INull
    end
  else mret tt.

Definition do_listen (c : Z) : action unit :=
  n ← conn c;
  match pcb n, type n with
  | Some p, NETCONN_TCP =>
      o ← call (Tcp_listen p);
      update c (set_pcb o);;
      match o with
      | None => update c (set_err ERR_MEM)
      | Some p =>
          a ← match acceptmbox n with
              | Some a => mret (Some a)
              | None => o ← sys_mbox_new; update c (set_acceptmbox o);; mret o
              end;
          match a with
          | None => update c (set_err ERR_MEM)
          | Some _ => call (Tcp_arg p (acceptmbox_ptr c));; call (Tcp_accept p true)
          end
      end
  | _, _ => mret tt
  end;;
  b ← deref (mbox n);
  sys_mbox_post b INull.

Definition do_accept (c : Z) : action unit := _ ← conn c; mret tt.

Definition do_send (c : Z) (p : option pbufs) : action unit :=
  n ← conn c;
  match pcb n, type n with
  | Some _, NETCONN_TCP | None, _ => mret tt
  | Some u, _ => call (Udp_send u p);; mret tt
  end;;
  b ← deref (mbox n);
  sys_mbox_post b INull.

Definition do_recv (c len : Z) : action unit :=
  n ← conn c;
  match pcb n, type n with
  | Some p, NETCONN_TCP => call (Tcp_recved p len)
  | _, _ => mret tt
  end;;
  b ← deref (mbox n);
  sys_mbox_post b INull.

Definition do_write (c : Z) (data : list Z) (copy : bool) : action unit :=
  n ← conn c;
  match pcb n, type n with
  | None, _ => mret tt
  | Some p, NETCONN_TCP =>
      e ← call (Tcp_write p data copy);
      (if bool_decide (e = ERR_OK) then
         idle ← call (Tcp_unacked_null p);
         if idle : bool then call (Tcp_output p);; mret tt else mret tt
       else mret tt);;
      update c (set_err e)
  | Some _, _ => update c (set_err ERR_VAL)
  end;;
  b ← deref (mbox n);
  sys_mbox_post b INull.

Definition do_close (c : Z) : action unit :=
  n ← conn c;
  match pcb n, type n with
  | Some p, NETCONN_TCP => _ ← call (Tcp_is_listening p); e ← call (Tcp_close p); update c (set_err e)
  | _, _ => mret tt
  end;;
  b ← deref (mbox n);
  sys_mbox_post b INull.

Definition api_msg_input (m : api_msg) : action unit :=
  let c := msg_conn m in
  match msg_type m with
  | API_MSG_NEWCONN => do_newconn c
  | API_MSG_DELCONN => do_delconn c
  | API_MSG_BIND a p => do_bind c a p
  | API_MSG_CONNECT a p => do_connect c a p
  | API_MSG_LISTEN => do_listen c
  | API_MSG_ACCEPT => do_accept c
  | API_MSG_SEND p => do_send c p
  | API_MSG_RECV len => do_recv c len
  | API_MSG_WRITE data copy => do_write c data copy
  | API_MSG_CLOSE => do_close c
  end.

(** ** The transport thread ([transport_subsys.c]) *)

Definition run_upcall (h : netconn) (u : upcall) : action unit :=
  match u with
  | Recv_tcp arg p e => recv_tcp arg p e;; mret tt
  | Recv_udp arg p addr port => recv_udp arg p addr port
  | Poll_tcp arg => poll_tcp arg;; mret tt
  | Sent_tcp arg => sent_tcp arg;; mret tt
  | Err_tcp arg e => err_tcp arg e
  | Accept_function arg newpcb e => accept_function h arg newpcb e;; mret tt
  | Connected arg e => do_connected arg e;; mret tt
  end.

Fixpoint run_upcalls (h : netconn) (us : list upcall) : action unit :=
  match us with
  | [] => mret tt
  | u :: us => run_upcall h u;; run_upcalls h us
  end.

(** A round of the main loop: a message is taken, and its memory given back. *)
Definition transport_thread (h : netconn) : action unit := fun s =>
  match inbox s with
  | [] => Blocked
  | m :: l =>
      match m with
      | TCP_MSG_API i => a ← deref (msgs s !! i); api_msg_input a
      | TCP_MSG_INPUT pkt => us ← call (Tcp_input pkt); run_upcalls h us
      end (set_inbox l s)
  end.

(** The timeout of the transport thread. *)
Definition transport_tcp_timer (h : netconn) : action unit :=
  us ← call Tcp_tmr; run_upcalls h us.

Definition post_inbox (m : transport_msg) : action unit :=
  modify (fun s => set_inbox (inbox s ++ [m]) s).

Definition tcp_msg_input (pkt : list Z) : action err_t :=
  ok ← alloc;
  if ok : bool then post_inbox (TCP_MSG_INPUT pkt);; mret ERR_OK else mret ERR_MEM.

(** The same function under another name. *)
Definition transport_subsys_input (pkt : list Z) : action err_t := tcp_msg_input pkt.

Definition udp_msg_input (pkt : list Z) : action err_t := undef.

(** Without memory the message of the application is freed, and nobody answers. *)
Definition transport_apimsg (i : Z) : action unit :=
  ok ← alloc;
  if ok : bool then post_inbox (TCP_MSG_API i) else free_in msgs set_msgs i.

Definition api_msg_post (i : Z) : action unit := transport_apimsg i.

(** ** Threads of applications ([api_lib.c]) *)

(** A program: it is finished, or its next step is taken on the shared state. *)
Inductive prog (A : Type) := Done (a : A) | Act (f : api -> outcome (prog A * api)).
#[global] Arguments Done {A} a.
#[global] Arguments Act {A} f.

#[global] Instance prog_ret : MRet prog := fun A a => Done a.
#[global] Instance prog_bind : MBind prog := fun A B k =>
  fix bind m :=
    match m with
    | Done a => k a
    | Act f => Act (fun s => match f s with
                             | Ret (m, s) => Ret (bind m, s)
                             | Blocked => Blocked
                             | Undef => Undef
                             end)
    end.

Definition atomically {A} (m : action A) : prog A :=
  Act (fun s => '(a, s) ← m s; Ret (Done a, s)).

(** A loop that was not finished within the rounds that are looked at. *)
Definition spin {A} : prog A := Act (fun _ => Blocked).

(** A message with its contents, handing it over and waiting for the answer. *)
Definition new_msg (op : api_op) (c : Z) : prog (option Z) :=
  atomically (new_in msgs set_msgs (ApiMsg op c)).
Definition free_msg (i : Z) : prog unit := atomically (free_in msgs set_msgs i).
Definition post_and_wait (c i : Z) : prog unit :=
  atomically (api_msg_post i);;
  b ← atomically (n ← conn c; deref (mbox n));
  atomically (sys_mbox_fetch b);;
  mret tt.

Definition read {A} (c : Z) (f : netconn -> A) : prog A := atomically (n ← conn c; mret (f n)).
Definition write (c : Z) (f : netconn -> netconn) : prog unit := atomically (update c f).

(** [garbage] is what the pool left in the structure: [err] is not written. *)
Definition netconn_new (garbage : netconn) (t : netconn_type) : prog (option Z) :=
  o ← atomically (new_in conns set_conns (set_pcb None (Netconn t (state garbage) (pcb garbage) (err garbage)
        (mbox garbage) (recvmbox garbage) (acceptmbox garbage) (sem garbage))));
  match o with
  | None => mret None
  | Some c =>
      m ← atomically sys_mbox_new;
      write c (set_mbox m);;
      match m with
      | None => atomically (free_in conns set_conns c);; mret None
      | Some _ =>
          write c (fun n => Netconn (type n) NETCONN_NONE (pcb n) (err n) (mbox n) None None None);;
          mret (Some c)
      end
  end.

(** A fetch that gives up after a millisecond. *)
Definition sys_arch_mbox_fetch (b : Z) : action (option item) := fun s =>
  l ← load (boxes s !! b);
  match l with
  | [] => Ret (None, s)
  | x :: l => Ret (Some x, set_boxes (<[b := l]> (boxes s)) s)
  end.

Definition netbuf_delete (b : option Z) : action unit :=
  match b with Some b => free_in netbufs set_netbufs b | None => mret tt end.

(** Freeing what an application did not fetch. *)
Definition drop_item (x : item) : action unit :=
  match x with INetbuf b => netbuf_delete (Some b) | _ => mret tt end.

Fixpoint drain (fuel : nat) (b : Z) (f : item -> prog unit) : prog unit :=
  match fuel with
  | O => spin
  | S fuel =>
      x ← atomically (sys_arch_mbox_fetch b);
      match x with None => mret tt | Some x => f x;; drain fuel b f end
  end.

Fixpoint netconn_delete (fuel : nat) (conn : option Z) : prog err_t :=
  match fuel, conn with
  | _, None => mret ERR_OK
  | O, _ => spin
  | S fuel, Some c =>
      m ← new_msg API_MSG_DELCONN c;
      match m with
      | None => mret ERR_MEM
      | Some m =>
          post_and_wait c m;;
          free_msg m;;
          r ← read c recvmbox;
          match r with
          | None => mret tt
          | Some b =>
              drain fuel b (fun x => atomically (drop_item x));;
              atomically (sys_mbox_free b);; write c (set_recvmbox None)
          end;;
          a ← read c acceptmbox;
          match a with
          | None => mret tt
          | Some b =>
              drain fuel b (fun x => netconn_delete fuel (match x with IConn c => Some c | _ => None end);; mret tt);;
              atomically (sys_mbox_free b);; write c (set_acceptmbox None)
          end;;
          b ← read c mbox;
          match b with Some b => atomically (sys_mbox_free b) | None => atomically undef end;;
          write c (set_mbox None);;
          i ← read c sem;
          match i with Some i => atomically (sys_sem_free i) | None => mret tt end;;
          atomically (free_in conns set_conns c);;
          mret ERR_OK
      end
  end.

(** The pointer to the address and the port of the other side, or of this side. *)
Definition netconn_peer (c : Z) : prog (err_t * addr_ptr * Z) :=
  atomically (
    n ← conn c;
    p ← deref (pcb n);
    r ← match type n with NETCONN_TCP => call (Tcp_remote p) | _ => call (Udp_remote p) end;
    update c (set_err ERR_OK);;
    mret (ERR_OK, Remote_ip p, r.2)).

Definition netconn_addr (c : Z) : prog (err_t * addr_ptr * Z) :=
  atomically (
    n ← conn c;
    p ← deref (pcb n);
    r ← match type n with NETCONN_TCP => call (Tcp_local p) | _ => call (Udp_local p) end;
    update c (set_err ERR_OK);;
    mret (ERR_OK, Local_ip p, r.2)).

(** The mailbox of a connection that is made when it is missing; false if it cannot. *)
Definition need_mbox (get : netconn -> option Z) (set : option Z -> netconn -> netconn) (c : Z) : prog bool :=
  b ← read c get;
  match b with
  | Some _ => mret true
  | None =>
      b ← atomically (b ← sys_mbox_new; update c (set b);; mret b);
      mret (match b with Some _ => true | None => false end)
  end.

(** A message, its answer, and the error that the transport thread left. *)
Definition ask (op : api_op) (c : Z) (no_memory : prog err_t) : prog err_t :=
  m ← new_msg op c;
  match m with
  | None => no_memory
  | Some m => post_and_wait c m;; free_msg m;; read c err
  end.

Definition fail (c : Z) (e : err_t) : prog err_t := write c (set_err e);; mret e.

Definition netconn_bind (conn : option Z) (addr : addr_ptr) (port : Z) : prog err_t :=
  match conn with
  | None => mret ERR_VAL
  | Some c =>
      t ← read c type;
      ok ← (if bool_decide (t = NETCONN_TCP) then mret true else need_mbox recvmbox set_recvmbox c);
      if ok : bool then ask (API_MSG_BIND addr port) c (fail c ERR_MEM) else mret ERR_MEM
  end.

Definition netconn_connect (conn : option Z) (addr : addr_ptr) (port : Z) : prog err_t :=
  match conn with
  | None => mret ERR_VAL
  | Some c =>
      ok ← need_mbox recvmbox set_recvmbox c;
      if ok : bool then ask (API_MSG_CONNECT addr port) c (mret ERR_MEM) else mret ERR_MEM
  end.

Definition netconn_listen (conn : option Z) : prog err_t :=
  match conn with
  | None => mret ERR_VAL
  | Some c =>
      ok ← need_mbox acceptmbox set_acceptmbox c;
      if ok : bool then ask API_MSG_LISTEN c (fail c ERR_MEM) else mret ERR_MEM
  end.

Definition netconn_accept (conn : option Z) : prog (option Z) :=
  match conn with
  | None => mret None
  | Some c =>
      b ← read c acceptmbox;
      match b with
      | None => atomically undef
      | Some b => x ← atomically (sys_mbox_fetch b); mret (match x with IConn c => Some c | _ => None end)
      end
  end.

Definition netconn_recv (conn_ : option Z) : prog (option Z) :=
  match conn_ with
  | None => mret None
  | Some c =>
      r ← read c recvmbox;
      e ← read c err;
      t ← read c type;
      match r with
      | None => write c (set_err ERR_CONN);; mret None
      | Some b =>
          if negb (bool_decide (e = ERR_OK)) then mret None
          else if bool_decide (t = NETCONN_TCP) then
            listening ← atomically (n ← conn c; p ← deref (pcb n); call (Tcp_is_listening p));
            if listening : bool then write c (set_err ERR_CONN);; mret None
            else
              buf ← atomically (new_in netbufs set_netbufs (Netbuf None None None 0));
              match buf with
              | None => write c (set_err ERR_MEM);; mret None
              | Some buf =>
                  x ← atomically (sys_mbox_fetch b);
                  match x with
                  | IPbuf p =>
                      atomically (modify (fun s => set_netbufs
                        (<[buf := Netbuf (Some p) (Some 0%nat) None 0]> (netbufs s)) s));;
                      m ← new_msg (API_MSG_RECV (tot_len p)) c;
                      match m with
                      | None => write c (set_err ERR_MEM);; mret (Some buf)
                      | Some m => post_and_wait c m;; free_msg m;; mret (Some buf)
                      end
                  | _ =>
                      atomically (netbuf_delete (Some buf));;
                      atomically (sys_mbox_free b);;
                      write c (set_recvmbox None);;
                      mret None
                  end
              end
          else
            x ← atomically (sys_mbox_fetch b);
            mret (match x with INetbuf buf => Some buf | _ => None end)
      end
  end.

Definition netconn_send (conn : option Z) (buf : Z) : prog err_t :=
  match conn with
  | None => mret ERR_VAL
  | Some c =>
      e ← read c err;
      if negb (bool_decide (e = ERR_OK)) then mret e
      else
        d ← atomically (fun s => b ← load (netbufs s !! buf); Ret (Netbuf.p b, s));
        ask (API_MSG_SEND d) c (fail c ERR_MEM)
  end.

(** The space in the send buffer of a connection of TCP. *)
Definition sndbuf (c : Z) : prog Z := atomically (n ← conn c; p ← deref (pcb n); call (Tcp_sndbuf p)).

(** The number of bytes of a round of [netconn_write]; none when the connection has failed. *)
Definition write_len (c sem size : Z) : prog (option Z) :=
  t ← read c type;
  if bool_decide (t = NETCONN_TCP) then
    room ← sndbuf c;
    ok ← (if room =? 0
          then atomically (sys_sem_wait sem);; e ← read c err; mret (bool_decide (e = ERR_OK))
          else mret true);
    if ok : bool then
      room ← sndbuf c;
      if room <? size then room ← sndbuf c; mret (Some room) else mret (Some size)
    else mret None
  else mret (Some size).

(** A round with the message [m]: what is left to write, or whether the loop was left
    with [big_trouble].  The space is read again after the comparison; when it has
    grown above the size in between, [tcp_write] reads behind the data. *)
Definition write_round (c m sem : Z) (data : list Z) (copy : bool) : prog (list Z + bool) :=
  let size := Z.of_nat (length data) in
  len ← write_len c sem size;
  match len with
  | None => mret (inr true)
  | Some len =>
      if size <? len then atomically undef
      else
        let now := take (Z.to_nat len) data in
        atomically (modify (fun s => set_msgs (<[m := ApiMsg (API_MSG_WRITE now copy) c]> (msgs s)) s));;
        post_and_wait c m;;
        e ← read c err;
        if bool_decide (e = ERR_OK) then mret (inl (drop (Z.to_nat len) data))
        else if bool_decide (e = ERR_MEM) then
          write c (set_err ERR_OK);; atomically (sys_sem_wait sem);; mret (inl data)
        else mret (inr true)
  end.

Fixpoint write_loop (fuel : nat) (c m sem : Z) (data : list Z) (copy : bool) : prog bool :=
  match fuel with
  | O => spin
  | S fuel =>
      e ← read c err;
      if bool_decide (e = ERR_OK) && (0 <? Z.of_nat (length data)) then
        r ← write_round c m sem data copy;
        match r with
        | inl rest => write_loop fuel c m sem rest copy
        | inr trouble => mret trouble
        end
      else mret false
  end.

Definition netconn_write (fuel : nat) (conn : option Z) (data : list Z) (copy : bool) : prog err_t :=
  match conn with
  | None => mret ERR_VAL
  | Some c =>
      e ← read c err;
      if negb (bool_decide (e = ERR_OK)) then mret e
      else
        i ← read c sem;
        i ← match i with
            | Some i => mret (Some i)
            | None => atomically (i ← sys_sem_new; update c (set_sem i);; mret i)
            end;
        match i with
        | None => mret ERR_MEM
        | Some i =>
            m ← new_msg (API_MSG_WRITE [] copy) c;
            match m with
            | None => fail c ERR_MEM
            | Some m =>
                write c (set_state NETCONN_WRITE);;
                trouble ← write_loop fuel c m i data copy;
                free_msg m;;
                (if trouble : bool then
                   write c (set_state NETCONN_NONE);;
                   atomically (sys_sem_free i);;
                   write c (set_sem None)
                 else mret tt);;
                read c err
            end
        end
  end.

Fixpoint close_loop (fuel : nat) (c m : Z) : prog unit :=
  match fuel with
  | O => spin
  | S fuel =>
      post_and_wait c m;;
      e ← read c err;
      i ← read c sem;
      match i with
      | Some i => if bool_decide (e = ERR_MEM) then atomically (sys_sem_wait i);; close_loop fuel c m else mret tt
      | None => mret tt
      end
  end.

Definition netconn_close (fuel : nat) (conn : option Z) : prog err_t :=
  match conn with
  | None => mret ERR_VAL
  | Some c =>
      m ← new_msg API_MSG_CLOSE c;
      match m with
      | None => fail c ERR_MEM
      | Some m =>
          write c (set_state NETCONN_CLOSE);;
          close_loop fuel c m;;
          write c (set_state NETCONN_NONE);;
          free_msg m;;
          read c err
      end
  end.

Definition netconn_err (c : Z) : prog err_t := read c err.

(** A program that runs alone: [Blocked] when it waits for another thread. *)
Fixpoint exec {A} (m : prog A) (s : api) : outcome (A * api) :=
  match m with
  | Done a => Ret (a, s)
  | Act f => match f s with Ret (m, s) => exec m s | Blocked => Blocked | Undef => Undef end
  end.

Lemma exec_bind {A B} (m : prog A) (k : A -> prog B) s :
  exec (m ≫= k) s = match exec m s with Ret (a, s) => exec (k a) s | Blocked => Blocked | Undef => Undef end.
Proof using.
  revert m s. fix IH 1. intros [a|f] s; [reflexivity|]. cbn.
  destruct (f s) as [[m s1]| |]; [|reflexivity|reflexivity]. apply IH.
Qed.

Lemma exec_atomically {A} (m : action A) s : exec (atomically m) s = m s.
Proof using. cbn. by destruct (m s) as [[a s1]| |]. Qed.

(** ** Threads that run together *)

(** Each thread has a connection and a program. *)
Record sys := Sys { shared : api; threads : list (Z * prog err_t) }.

(** A step of a thread, a round of the transport thread, a call by the protocols, or
    what else changes them. *)
Inductive event := Thread (i : nat) | Serve | Upcall (u : upcall) | Network (t : T).

Definition unless_blocked {A} (o : outcome (A * api)) (k : A -> api -> sys) (s : sys) : outcome sys :=
  match o with Ret (a, x) => Ret (k a x) | Blocked => Ret s | Undef => Undef end.

(** What is blocked, or finished, waits. *)
Definition sys_step (h : netconn) (e : event) (s : sys) : outcome sys :=
  match e with
  | Thread i =>
      match threads s !! i with
      | Some (c, Act f) => unless_blocked (f (shared s)) (fun m x => Sys x (<[i := (c, m)]> (threads s))) s
      | _ => Ret s
      end
  | Serve => unless_blocked (transport_thread h (shared s)) (fun _ x => Sys x (threads s)) s
  | Upcall u => unless_blocked (run_upcall h u (shared s)) (fun _ x => Sys x (threads s)) s
  | Network t => Ret (Sys (set_trans t (shared s)) (threads s))
  end.

Fixpoint sys_run (h : netconn) (es : list event) (s : sys) : outcome sys :=
  match es with
  | [] => Ret s
  | e :: es => s ← sys_step h e s; sys_run h es s
  end.

(** Connections 1, 2, ... that [netconn_new] or [accept_function] made, with the
    mailboxes and the semaphores of their own, and buffers 1, 2, ... *)
Definition made (len i : Z) (n : netconn) : netconn :=
  Netconn (type n) (state n) (pcb n) (err n) (Some i) ((fun _ => len + i) <$> recvmbox n) None
    ((fun _ => i) <$> sem n).
Definition start (t : T) (ns : list netconn) (bufs : list netbuf) (oks : list bool) : api :=
  let len := length ns in
  Api t (map_seqZ 1 (imap (fun i n => made (Z.of_nat len) (1 + Z.of_nat i) n) ns)) (map_seqZ 1 bufs) ∅
    (map_seqZ 1 (replicate (len + len) [])) (map_seqZ 1 (replicate len 0)) [] oks
    (1 + Z.of_nat (len + len)).

End Api.

Arguments api T : clear implicits.
Arguments sys T : clear implicits.
Arguments event T : clear implicits.
Arguments prog T A : clear implicits.
Arguments action T A : clear implicits.
