(* ===== verification/NetconnSafe.v ===== *)
(** * What holds for all interleavings of the socket interface

    A system has application threads, each with programs on a connection of its own,
    the transport thread, and the calls that TCP and UDP make.  A connection has a
    phase: no message, a message that its thread holds, one that is in the mailbox
    of the transport thread, or one that was answered.  [inv] relates the phases to
    the shared state, and [safe] says that the steps of a program keep it.

    [requests_safe]: no request touches freed memory, and every answer is that to
    the last message, as long as no connection fails. *)

From stdpp Require Import base gmap list.
From Stdlib Require Import ZArith Lia.
From S2P Require Import Prelude TcpTypes SysArch Netbuf Netconn.

Inductive phase := Idle | Held (m : Z) | Sent (m : Z) | Answered (m : Z).

Definition phase_msg (p : phase) : option Z :=
  match p with Idle => None | Held m | Sent m | Answered m => Some m end.

Section Safe.

Context {T : Type} `{Transport T}.

(** The types, the mailboxes and the semaphores of the threads' connections, and the
    buffers that the threads send. *)
Context (kind : Z -> netconn_type) (box : Z -> Z) (sync : Z -> option Z) (held : Z -> Prop).

Notation api := (api T).
Notation prog := (prog T).

(** The messages in the mailbox of the transport thread. *)
Fixpoint pending (l : list transport_msg) : list Z :=
  match l with
  | [] => []
  | TCP_MSG_API m :: l => m :: pending l
  | TCP_MSG_INPUT _ :: l => pending l
  end.

Lemma inbox_app l k : pending (l ++ k) = pending l ++ pending k.
Proof using. induction l as [|[]]; cbn; [done|by rewrite IHl|done]. Qed.

(** The mailboxes and the semaphore of a connection exist. *)
Record conn_ok (s : api) (n : netconn) : Prop := {
  ok_mbox : forall b, mbox n = Some b -> is_Some (boxes s !! b);
  ok_recvmbox : forall b, recvmbox n = Some b -> is_Some (boxes s !! b);
  ok_acceptmbox : forall b, acceptmbox n = Some b -> is_Some (boxes s !! b);
  ok_sem : forall i, sem n = Some i -> is_Some (sems s !! i)
}.

(** What stays as it was made. *)
Definition fixed (c : Z) (n : netconn) : Prop :=
  type n = kind c /\ mbox n = Some (box c) /\ sem n = sync c.

(** The mailbox of a connection is not used for anything else. *)
Definition own_mbox (b c : Z) (s : api) : Prop :=
  forall c' n', conns s !! c' = Some n' ->
    recvmbox n' <> Some b /\ acceptmbox n' <> Some b /\ (c' <> c -> mbox n' <> Some b).

(** The messages that the transport thread answers itself. *)
Definition answered (c : Z) (op : api_op) : Prop :=
  match op with
  | API_MSG_NEWCONN | API_MSG_ACCEPT => False
  | API_MSG_CONNECT _ _ => kind c <> NETCONN_TCP
  | _ => True
  end.

Record inv (ph : gmap Z phase) (s : api) : Prop := {
  i_conns : forall c n, conns s !! c = Some n -> conn_ok s n;
  i_phases : forall c p, ph !! c = Some p -> exists n b,
    conns s !! c = Some n /\ fixed c n /\ mbox n = Some b /\ own_mbox b c s
    /\ boxes s !! b = Some (match p with Answered _ => [INull] | _ => [] end);
  i_msgs : forall c p m, ph !! c = Some p -> phase_msg p = Some m -> exists a,
    msgs s !! m = Some a /\ msg_conn a = c /\ answered c (msg_type a);
  i_pending : forall m, m ∈ pending (inbox s) <-> exists c, ph !! c = Some (Sent m);
  i_nodup : NoDup (pending (inbox s));
  i_inbox : Forall (fun m => exists i, m = TCP_MSG_API i) (inbox s);
  i_fresh : (forall c, is_Some (conns s !! c) -> c < next s)
            /\ (forall b, is_Some (boxes s !! b) -> b < next s)
            /\ (forall m, is_Some (msgs s !! m) -> m < next s)
            /\ (forall i, is_Some (sems s !! i) -> i < next s);
  i_bufs : forall b, held b -> is_Some (netbufs s !! b);
  i_owned : forall m, is_Some (msgs s !! m) -> exists c p, ph !! c = Some p /\ phase_msg p = Some m
}.

(** What the transport thread does to a phase between two steps of a program. *)
Definition evolves (p q : phase) : Prop := q = p \/ exists m, p = Sent m /\ q = Answered m.

(** ** Programs *)

(** [safe c p m Q]: in every state where the connection [c] is in the phase [p], a
    step of [m] is defined and keeps the invariant, and so on; when [m] ends, its
    result and the phase satisfy [Q]. *)
Inductive safe {A} (c : Z) (Q : A -> phase -> Prop) : phase -> prog A -> Prop :=
  | safe_done a p : Q a p -> safe c Q p (Done a)
  | safe_act p f :
      (forall ph s q, inv ph s -> ph !! c = Some q -> evolves p q ->
         f s <> Undef /\ forall m s', f s = Ret (m, s') ->
           exists p', inv (<[c := p']> ph) s' /\ safe c Q p' m) ->
      safe c Q p (Act f).

Lemma safe_mono {A} c (Q R : A -> phase -> Prop) p m :
  safe c Q p m -> (forall a p, Q a p -> R a p) -> safe c R p m.
Proof using.
  intros Hs Hqr. revert m p Hs. fix IH 3. intros m p Hs. destruct Hs as [a p Ha|p f Hf].
  - constructor. auto.
  - constructor. intros ph s q Hi Hp Hq. destruct (Hf ph s q Hi Hp Hq) as [Hu Hr]. split; [done|].
    intros m s' Hm. destruct (Hr m s' Hm) as (p' & Hi' & Hs'). exists p'. split; [done|].
    by apply IH.
Qed.

Lemma safe_bind {A B} c (Q : A -> phase -> Prop) (R : B -> phase -> Prop) p m (k : A -> prog B) :
  safe c Q p m -> (forall a p, Q a p -> safe c R p (k a)) -> safe c R p (m ≫= k).
Proof using.
  intros Hs Hk. revert m p Hs. fix IH 3. intros m p Hs. destruct Hs as [a p Ha|p f Hf].
  - exact (Hk a p Ha).
  - constructor. intros ph s q Hi Hp Hq. destruct (Hf ph s q Hi Hp Hq) as [Hu Hr]. split.
    + destruct (f s) as [[]| |]; done.
    + intros m s' Hm. destruct (f s) as [[m1 s1]| |] eqn:Hfs; try done. injection Hm as <- <-.
      destruct (Hr m1 s1 eq_refl) as (p' & Hi' & Hs'). exists p'. split; [done|].
      by apply IH.
Qed.

Lemma safe_ret {A} c (Q : A -> phase -> Prop) p a : Q a p -> safe c Q p (mret a).
Proof using. by constructor. Qed.

(** An atomic step that keeps the invariant. *)
Lemma safe_atomically {A} c (Q : A -> phase -> Prop) p (m : action T A) :
  (forall ph s q, inv ph s -> ph !! c = Some q -> evolves p q ->
     m s <> Undef /\ forall a s', m s = Ret (a, s') ->
       exists p', inv (<[c := p']> ph) s' /\ Q a p') ->
  safe c Q p (atomically m).
Proof using.
  intros Hm. constructor. intros ph s q Hi Hp Hq. destruct (Hm ph s q Hi Hp Hq) as [Hu Hr].
  destruct (m s) as [[a s1]| |] eqn:Hs; [|split; [done|by intros]|done]. cbn.
  split; [done|]. intros m' s' [= <- <-]. destruct (Hr a s1 eq_refl) as (p' & Hi' & Ha).
  exists p'. split; [done|]. by constructor.
Qed.

Lemma safe_spin {A} c (Q : A -> phase -> Prop) p : safe c Q p spin.
Proof using. constructor. intros. split; [done|by intros]. Qed.

(** ** Actions *)

(** From a state with [P] the action is defined, and its result satisfies [Q]. *)
Definition hoare {A} (P : api -> Prop) (m : action T A) (Q : A -> api -> Prop) : Prop :=
  forall s, P s -> m s <> Undef /\ forall a s', m s = Ret (a, s') -> Q a s'.

Lemma hoare_bind {A B} P Q R (m : action T A) (k : A -> action T B) :
  hoare P m Q -> (forall a, hoare (Q a) (k a) R) -> hoare P (m ≫= k) R.
Proof using.
  intros Hm Hk s Hs. destruct (Hm s Hs) as [Hu Hr]. unfold mbind, action_bind.
  destruct (m s) as [[a s1]| |]; [|split; [done|by intros]|done].
  by apply (Hk a s1), (Hr a s1).
Qed.

Lemma hoare_ret {A} (P : api -> Prop) (a : A) Q : (forall s, P s -> Q a s) -> hoare P (mret a) Q.
Proof using. intros HQ s Hs. split; [done|]. intros a' s' [= <- <-]. auto. Qed.

Lemma hoare_pre {A} (P P' : api -> Prop) (m : action T A) Q :
  (forall s, P' s -> P s) -> hoare P m Q -> hoare P' m Q.
Proof using. intros HP Hm s Hs. by apply Hm, HP. Qed.

(** The connection [c] is [n], and the phases are [ph]. *)
Definition at_conn (ph : gmap Z phase) (c : Z) (n : netconn) (s : api) : Prop :=
  inv ph s /\ conns s !! c = Some n.

(** What the invariant does not look at. *)
Lemma inv_ext ph s s' :
  conns s' = conns s -> boxes s' = boxes s -> msgs s' = msgs s -> sems s' = sems s ->
  inbox s' = inbox s -> next s' = next s -> netbufs s' = netbufs s -> inv ph s -> inv ph s'.
Proof using.
  intros Hc Hb Hm Hs Hi Hn Hu [H1 H2 H3 H4 H5 H7 H6 H8 H9].
  split; unfold own_mbox in *; rewrite ?Hc, ?Hb, ?Hm, ?Hs, ?Hi, ?Hn, ?Hu; try done.
  intros c n Hcn. destruct (H1 c n Hcn) as [A1 A2 A3 A4]. split; rewrite ?Hb, ?Hs; done.
Qed.

Lemma hoare_conn ph c n : hoare (at_conn ph c n) (conn c) (fun a s => a = n /\ at_conn ph c n s).
Proof using.
  intros s [Hi Hc]. unfold conn. rewrite Hc. cbn. split; [done|].
  intros a s' [= <- <-]. done.
Qed.

(** The protocols return: what follows is about the interface above them. *)
Context (Hdefined : forall A (x : transport_call A) t, transport A x t <> Undef).

Lemma hoare_call {A} ph c n (x : transport_call A) :
  hoare (at_conn ph c n) (call x)
    (fun a s => at_conn ph c n s /\ exists t t', transport A x t = Ret (a, t')).
Proof using Hdefined.
  intros s [Hi Hc]. unfold call. pose proof (Hdefined A x (trans s)) as Hd.
  destruct (transport A x (trans s)) as [[a t]| |] eqn:Ht; cbn; [|split; [done|by intros]|done].
  split; [done|]. intros a' s' [= <- <-]. split; [|eauto].
  split; [by apply (inv_ext ph s)|done].
Qed.

(** The fields that lead to mailboxes and semaphores stay. *)
Definition same_boxes (n n' : netconn) : Prop :=
  type n' = type n /\ mbox n' = mbox n /\ recvmbox n' = recvmbox n
  /\ acceptmbox n' = acceptmbox n /\ sem n' = sem n.

(** No connection with a phase has [b] as its mailbox. *)
Definition not_mbox (ph : gmap Z phase) (s : api) (b : Z) : Prop :=
  forall c p n, ph !! c = Some p -> conns s !! c = Some n -> mbox n <> Some b.

Lemma inv_set_conn ph s c n n' :
  inv ph s -> conns s !! c = Some n -> type n' = type n -> mbox n' = mbox n -> sem n' = sem n ->
  conn_ok s n' ->
  (forall b, recvmbox n' = Some b \/ acceptmbox n' = Some b -> not_mbox ph s b) ->
  inv ph (set_conns (<[c := n']> (conns s)) s).
Proof using.
  intros [H1 H2 H3 H4 H5 H7 H6 H8 H9] Hc Ht Hm Hse Hok Hn. split; cbn; try done.
  - intros c' n1 Hc'. apply lookup_insert_Some in Hc' as [[<- <-]|[Hne Hc']].
    + by destruct Hok.
    + by destruct (H1 c' n1 Hc').
  - intros c' p Hp. destruct (H2 c' p Hp) as (n1 & b & Hn1 & Ht1 & Hb & Ho & Hl).
    assert (Ho' : own_mbox b c' (set_conns (<[c := n']> (conns s)) s)).
    { intros c2 n2 Hc2. cbn in Hc2. apply lookup_insert_Some in Hc2 as [[<- <-]|[Hne Hc2]].
      - split; [intros Hr; apply (Hn b (or_introl Hr) c' p n1 Hp Hn1 Hb)|].
        split; [intros Ha; apply (Hn b (or_intror Ha) c' p n1 Hp Hn1 Hb)|].
        rewrite Hm. by destruct (Ho c n Hc) as (_ & _ & Hx).
      - by apply (Ho c2 n2). }
    destruct (decide (c' = c)) as [->|Hne].
    + exists n', b. unfold fixed in *. rewrite lookup_insert_eq, Hm, Ht, Hse. simplify_map_eq. done.
    + exists n1, b. by rewrite lookup_insert_ne.
  - destruct H6 as (F1 & F2). split; [|done]. intros c' Hc'.
    apply lookup_insert_is_Some' in Hc' as [<-|Hc']; [apply F1; by rewrite Hc|by apply F1].
Qed.

Lemma other_box ph s c n b :
  inv ph s -> conns s !! c = Some n -> recvmbox n = Some b \/ acceptmbox n = Some b ->
  is_Some (boxes s !! b) /\ not_mbox ph s b.
Proof using.
  intros Hi Hc Hb. pose proof (i_conns _ _ Hi c n Hc) as Hok. split.
  - destruct Hb; [by apply (ok_recvmbox _ _ Hok)|by apply (ok_acceptmbox _ _ Hok)].
  - intros c' p n' Hp Hc' Hm. destruct (i_phases _ _ Hi c' p Hp) as (n1 & b1 & Hn1 & _ & Hb1 & Ho & _).
    rewrite Hc' in Hn1. injection Hn1 as <-. rewrite Hm in Hb1. injection Hb1 as <-.
    destruct (Ho c n Hc) as (H1 & H2 & _). by destruct Hb.
Qed.

Lemma inv_update ph s c n n' :
  inv ph s -> conns s !! c = Some n -> same_boxes n n' ->
  inv ph (set_conns (<[c := n']> (conns s)) s).
Proof using.
  intros Hi Hc (Ht & Hm & Hr & Ha & Hse). apply (inv_set_conn ph s c n n'); try done.
  - destruct (i_conns _ _ Hi c n Hc) as [A1 A2 A3 A4].
    split; rewrite ?Hm, ?Hr, ?Ha, ?Hse; done.
  - intros b Hb. rewrite Hr, Ha in Hb. by apply (other_box ph s c n).
Qed.

Lemma hoare_update ph c n f :
  same_boxes n (f n) -> hoare (at_conn ph c n) (update c f) (fun _ => at_conn ph c (f n)).
Proof using.
  intros Hf s [Hi Hc]. unfold update. rewrite Hc. cbn. split; [done|].
  intros a s' [= <- <-]. split; [by apply (inv_update ph s c n)|].
  cbn. by rewrite lookup_insert_eq.
Qed.

(** A phase that changes without a change of its message. *)
Lemma owned_insert (ph : gmap Z phase) c p q m :
  ph !! c = Some p -> phase_msg q = phase_msg p ->
  (exists c' p', ph !! c' = Some p' /\ phase_msg p' = Some m) ->
  exists c' p', <[c := q]> ph !! c' = Some p' /\ phase_msg p' = Some m.
Proof using.
  intros Hp Hq (c' & p' & Hp' & Hm). destruct (decide (c' = c)) as [->|Hne].
  - exists c, q. rewrite lookup_insert_eq. split; [done|]. congruence.
  - exists c', p'. by rewrite lookup_insert_ne.
Qed.

(** *** Mailboxes and semaphores *)

Lemma inv_post ph s b l :
  inv ph s -> is_Some (boxes s !! b) -> not_mbox ph s b ->
  inv ph (set_boxes (<[b := l]> (boxes s)) s).
Proof using.
  intros [H1 H2 H3 H4 H5 H7 H6 H8 H9] Hb Hn. split; cbn; try done.
  - intros c n Hc. destruct (H1 c n Hc) as [A1 A2 A3 A4].
    split; cbn; intros; try (rewrite lookup_insert_is_Some'; right); eauto.
  - intros c p Hp. destruct (H2 c p Hp) as (n & b' & Hc & Ht & Hm & Ho & Hl).
    exists n, b'. split; [done|]. split; [done|]. split; [done|]. split; [done|].
    rewrite lookup_insert_ne; [done|]. intros ->. by apply (Hn c p n Hp Hc).
  - destruct H6 as (F1 & F2 & F3). split; [done|]. split; [|done]. intros b' Hb'.
    apply lookup_insert_is_Some' in Hb' as [<-|Hb']; by apply F2.
Qed.

Lemma hoare_post ph c n b x :
  recvmbox n = Some b \/ acceptmbox n = Some b ->
  hoare (at_conn ph c n) (sys_mbox_post b x) (fun _ => at_conn ph c n).
Proof using.
  intros Hb s [Hi Hc]. destruct (other_box ph s c n b Hi Hc Hb) as [[l Hl] Hn].
  unfold sys_mbox_post. rewrite Hl. cbn. split; [done|]. intros a s' [= <- <-].
  split; [|done]. apply inv_post; [done|by eexists|done].
Qed.

Lemma inv_sem ph s i v :
  inv ph s -> is_Some (sems s !! i) -> inv ph (set_sems (<[i := v]> (sems s)) s).
Proof using.
  intros [H1 H2 H3 H4 H5 H7 H6 H8 H9] Hi. split; cbn; try done.
  - intros c' n' Hc'. destruct (H1 c' n' Hc') as [A1 A2 A3 A4].
    split; cbn; intros; try (rewrite lookup_insert_is_Some'; right); eauto.
  - destruct H6 as (F1 & F2 & F3 & F4). split; [done|]. split; [done|]. split; [done|].
    intros j Hj. apply lookup_insert_is_Some' in Hj as [<-|Hj]; by apply F4.
Qed.

Lemma hoare_signal ph c n :
  hoare (at_conn ph c n) (signal_opt (sem n)) (fun _ => at_conn ph c n).
Proof using.
  intros s [Hi Hc]. destruct (sem n) as [i|] eqn:Hs; cbn; [|split; [done|by intros a s' [= <- <-]]].
  destruct (ok_sem _ _ (i_conns _ _ Hi c n Hc) i Hs) as [v Hv].
  unfold sys_sem_signal. rewrite Hv. cbn. split; [done|]. intros a s' [= <- <-]. split; [|done].
  apply inv_sem; [done|by eexists].
Qed.

(** The mailbox of a connection is written when a message is answered, and when the
    answer is fetched. *)
Lemma inv_own_box ph s c n b p q :
  inv ph s -> conns s !! c = Some n -> ph !! c = Some p -> mbox n = Some b ->
  phase_msg q = phase_msg p -> (forall m, p <> Sent m) -> (forall m, q <> Sent m) ->
  boxes s !! b = Some (match p with Answered _ => [INull] | _ => [] end)
  /\ inv (<[c := q]> ph)
       (set_boxes (<[b := match q with Answered _ => [INull] | _ => [] end]> (boxes s)) s).
Proof using.
  intros [H1 H2 H3 H4 H5 H7 H6 H8 H9] Hc Hp Hb Hq Hps Hqs.
  destruct (H2 c _ Hp) as (n1 & b1 & Hn1 & Ht1 & Hb1 & Ho1 & Hl1). simplify_eq. split; [done|].
  split; cbn; try done.
  - intros c' n' Hc'. destruct (H1 c' n' Hc') as [A1 A2 A3 A4].
    split; cbn; intros; try (rewrite lookup_insert_is_Some'; right); eauto.
  - intros c' p' Hp'. apply lookup_insert_Some in Hp' as [[<- <-]|[Hne Hp']].
    + exists n, b. rewrite lookup_insert_eq. done.
    + destruct (H2 c' p' Hp') as (n' & b' & Hc' & Ht' & Hb' & Ho' & Hl'). exists n', b'.
      split; [done|]. split; [done|]. split; [done|]. split; [done|].
      rewrite lookup_insert_ne; [done|]. intros ->.
      by destruct (Ho' c n Hc) as (_ & _ & Hx); apply (Hx Hne).
  - intros c' p' m' Hp' Hm'. apply lookup_insert_Some in Hp' as [[<- <-]|[Hne Hp']].
    + rewrite Hq in Hm'. by apply (H3 c p m' Hp).
    + by apply (H3 c' p').
  - intros m'. rewrite (H4 m'). split; intros [c' Hc'].
    + exists c'. destruct (decide (c' = c)) as [->|]; [|by rewrite lookup_insert_ne].
      rewrite Hp in Hc'. injection Hc' as ->. by destruct (Hps m').
    + exists c'. apply lookup_insert_Some in Hc' as [[_ Hc']|[_ ?]]; [|done]. by apply Hqs in Hc'.
  - destruct H6 as (F1 & F2 & F3). split; [done|]. split; [|done]. intros b' Hb'.
    apply lookup_insert_is_Some' in Hb' as [<-|Hb']; apply F2; [by eexists|done].
  - intros m1 Hm1. by apply (owned_insert ph c p q), H9.
Qed.

Lemma hoare_answer ph c n m :
  ph !! c = Some (Held m) -> is_Some (mbox n) ->
  hoare (at_conn ph c n) (b ← deref (mbox n); sys_mbox_post b INull)
    (fun _ => inv (<[c := Answered m]> ph)).
Proof using.
  intros Hp [b Hb] s [Hi Hc]. rewrite Hb. cbn.
  destruct (inv_own_box ph s c n b _ (Answered m) Hi Hc Hp Hb) as [Hl Hi']; [done..|].
  unfold mbind, action_bind, mret, action_ret, sys_mbox_post. rewrite Hl. cbn. split; [done|].
  by intros a s' [= <- <-].
Qed.

(** A new mailbox, which no connection has. *)
Lemma inv_new_box ph s :
  inv ph s ->
  let s' := Api (trans s) (conns s) (netbufs s) (msgs s) (<[next s := []]> (boxes s)) (sems s)
              (inbox s) (allocs s) (next s + 1) in
  inv ph s' /\ not_mbox ph s' (next s) /\ boxes s' !! next s = Some [].
Proof using.
  intros [H1 H2 H3 H4 H5 H7 (F1 & F2 & F3 & F4) H8 H9] s'.
  assert (Hold : forall b, is_Some (boxes s !! b) -> b <> next s) by (intros b Hb; apply F2 in Hb; lia).
  split; [|split; [|cbn; by rewrite lookup_insert_eq]].
  - split; cbn; try done.
    + intros c n Hc. destruct (H1 c n Hc) as [A1 A2 A3 A4].
      split; cbn; intros; try (rewrite lookup_insert_is_Some'; right); eauto.
    + intros c p Hp. destruct (H2 c p Hp) as (n & b & Hc & Ht & Hb & Ho & Hl). exists n, b.
      split; [done|]. split; [done|]. split; [done|]. split; [done|].
      rewrite lookup_insert_ne; [done|]. intros Heq. by apply (Hold b); [eexists|].
    + repeat split; intros i Hi; cbn in Hi.
      * apply F1 in Hi. lia.
      * apply lookup_insert_is_Some' in Hi as [<-|Hi]; [lia|]. apply F2 in Hi. lia.
      * apply F3 in Hi. lia.
      * apply F4 in Hi. lia.
  - intros c p n Hp Hc Hm. cbn in Hc. destruct (H2 c p Hp) as (n1 & b & Hn1 & _ & Hb & _ & Hl).
    rewrite Hc in Hn1. simplify_eq. by apply (Hold (next s)); [eexists|].
Qed.

(** A mailbox that is made for a connection, if there is memory. *)
Lemma hoare_new_mbox ph c n set :
  set = set_recvmbox \/ set = set_acceptmbox ->
  hoare (at_conn ph c n) (b ← sys_mbox_new; update c (set b);; mret b)
    (fun b => at_conn ph c (set b n)).
Proof using.
  intros Hset s [Hi Hc].
  assert (Hset_ok : forall s b, inv ph s -> conns s !! c = Some n ->
    match b with Some b => is_Some (boxes s !! b) /\ not_mbox ph s b | None => True end ->
    at_conn ph c (set b n) (set_conns (<[c := set b n]> (conns s)) s)).
  { intros s1 b Hi1 Hc1 Hb. split; [|cbn; by rewrite lookup_insert_eq].
    pose proof (i_conns _ _ Hi1 c n Hc1) as [A1 A2 A3 A4].
    apply (inv_set_conn ph s1 c n); try done; try (by destruct Hset as [-> | ->]).
    - destruct Hset as [-> | ->]; split; cbn; try done; intros b' ->; apply Hb.
    - intros b' Hb'. destruct Hset as [-> | ->]; cbn in Hb'; destruct Hb' as [Hb'|Hb'];
        first [by rewrite Hb' in Hb; apply Hb | by apply (other_box ph s1 c n); auto]. }
  unfold sys_mbox_new, new_in, alloc, fresh, modify, update, mbind, action_bind, mret, action_ret.
  assert (Hgo : forall a,
    let s1 := set_boxes (<[next s := []]> (boxes s)) (Api (trans s) (conns s) (netbufs s) (msgs s)
      (boxes s) (sems s) (inbox s) a (next s + 1)) in
    inv ph s1 /\ not_mbox ph s1 (next s) /\ boxes s1 !! next s = Some []).
  { intros a. destruct (inv_new_box ph s Hi) as (X1 & X2 & X3). split; [|split; [exact X2|exact X3]].
    by eapply inv_ext; [..|exact X1]. }
  assert (Hno : forall a, inv ph (set_allocs a s)) by (intros a; by apply (inv_ext ph s)).
  destruct (allocs s) as [|[] l] eqn:Ha; cbn.
  - rewrite Hc. cbn. split; [done|]. intros x s' [= <- <-].
    destruct (Hgo []) as (X1 & X2 & X3). rewrite Ha.
    apply (Hset_ok _ (Some (next s)) X1 Hc). split; [by eexists|done].
  - rewrite Hc. cbn. split; [done|]. intros x s' [= <- <-].
    destruct (Hgo l) as (X1 & X2 & X3).
    apply (Hset_ok _ (Some (next s)) X1 Hc). split; [by eexists|done].
  - rewrite Hc. cbn. split; [done|]. intros x s' [= <- <-].
    by apply (Hset_ok _ None (Hno l)).
Qed.

(** *** The messages *)

Lemma hoare_pure {A} (F : Prop) (P : api -> Prop) (m : action T A) Q :
  (F -> hoare P m Q) -> hoare (fun s => F /\ P s) m Q.
Proof using. intros Hm s [HF HP]. by apply Hm. Qed.

Lemma hoare_exists {A X} (P : X -> api -> Prop) (m : action T A) Q :
  (forall x, hoare (P x) m Q) -> hoare (fun s => exists x, P x s) m Q.
Proof using. intros Hm s [x HP]. by apply (Hm x). Qed.

Lemma hoare_post_cond {A} P (m : action T A) (Q R : A -> api -> Prop) :
  hoare P m Q -> (forall a s, Q a s -> R a s) -> hoare P m R.
Proof using. intros Hm HQ s Hs. destruct (Hm s Hs) as [Hu Hr]. split; [done|]. eauto. Qed.

Lemma hoare_call_ {A} ph c n (x : transport_call A) :
  hoare (at_conn ph c n) (call x) (fun _ => at_conn ph c n).
Proof using Hdefined. eapply hoare_post_cond; [apply hoare_call|]. by intros a s [Hs _]. Qed.

Lemma hoare_deref {A} (P : api -> Prop) (x : option A) a :
  x = Some a -> hoare P (deref x) (fun b s => b = a /\ P s).
Proof using. intros -> s Hs. split; [done|]. by intros b s' [= <- <-]. Qed.

Lemma same_boxes_refl n : same_boxes n n.
Proof using. done. Qed.
Lemma same_boxes_trans n1 n2 n3 : same_boxes n1 n2 -> same_boxes n2 n3 -> same_boxes n1 n3.
Proof using. intros (?&?&?&?&?) (?&?&?&?&?). repeat split; congruence. Qed.
Hint Resolve same_boxes_refl : core.

(** The first step of a sequence, by the lemma of its action. *)
Ltac hbind L := eapply hoare_bind; [L|intros ?; cbn beta].
Ltac hconn :=
  hbind ltac:(apply hoare_conn); apply hoare_pure; intros ->.
Ltac hcalls := repeat (hbind ltac:(apply hoare_call_)).

Lemma hoare_post_answer ph c n m :
  ph !! c = Some (Held m) -> is_Some (mbox n) ->
  hoare (at_conn ph c n) (post_opt (mbox n) INull) (fun _ => inv (<[c := Answered m]> ph)).
Proof using.
  intros Hp [b Hb]. pose proof (hoare_answer ph c n m Hp ltac:(by eexists)) as Ha.
  rewrite Hb in Ha |- *. intros s Hs. destruct (Ha s Hs) as [Hu Hr]. by split.
Qed.

Lemma hoare_setup_tcp ph c n :
  is_Some (pcb n) -> hoare (at_conn ph c n) (setup_tcp c) (fun _ => at_conn ph c n).
Proof using Hdefined.
  intros [p Hp]. unfold setup_tcp. hconn.
  hbind ltac:(apply (hoare_deref _ _ p Hp)). apply hoare_pure. intros ->. hcalls.
  apply hoare_call_.
Qed.

Lemma hoare_setup_udp ph c n p t :
  hoare (at_conn ph c n) (setup_udp c p t) (fun _ => at_conn ph c n).
Proof using Hdefined.
  unfold setup_udp. hbind ltac:(destruct t; try apply hoare_call_; apply hoare_ret; auto).
  apply hoare_call_.
Qed.

Lemma hoare_addr_value ph c n t a :
  hoare (at_conn ph c n) (addr_value t a) (fun _ => at_conn ph c n).
Proof using Hdefined.
  destruct a; cbn [addr_value]; try (apply hoare_ret; auto);
    (hbind ltac:(destruct t; apply hoare_call_)); apply hoare_ret; auto.
Qed.

(** There is memory for the control blocks: what happens else is a defect. *)
Context (Htcp : forall t t', transport _ Tcp_new t <> Ret (None, t')).
Context (Hudp : forall t t', transport _ Udp_new t <> Ret (None, t')).

(** A connection that has a control block, and the same mailboxes. *)
Definition with_block (ph : gmap Z phase) (c : Z) (n : netconn) (s : api) : Prop :=
  exists n', at_conn ph c n' s /\ same_boxes n n' /\ is_Some (pcb n').

Lemma hoare_new_block {A} ph c n (x : transport_call (option Z)) (k : option Z -> action T A) Q :
  (forall t t', transport _ x t <> Ret (None, t')) ->
  (forall p, hoare (at_conn ph c (set_pcb (Some p) n)) (k (Some p)) Q) ->
  hoare (at_conn ph c n) (o ← call x; update c (set_pcb o);; k o) Q.
Proof using Hdefined.
  intros Hx Hk. hbind ltac:(apply (hoare_call ph c n x)). destruct a as [p|].
  - eapply hoare_pre; [by intros s [Hs _]|]. hbind ltac:(by apply (hoare_update ph c n)).
    apply Hk.
  - intros s [_ (t & t' & Ht)]. by apply Hx in Ht.
Qed.

Lemma do_bind_ok ph c n m a port :
  ph !! c = Some (Held m) -> is_Some (mbox n) ->
  hoare (at_conn ph c n) (do_bind c a port) (fun _ => inv (<[c := Answered m]> ph)).
Proof using Hdefined Htcp Hudp.
  intros Hp Hm. unfold do_bind. hconn.
  eapply (hoare_bind _ (fun _ => with_block ph c n)).
  - destruct (pcb n) as [p|] eqn:Hpcb.
    + apply hoare_ret. intros s Hs. exists n. split; [done|]. split; [done|]. by rewrite Hpcb.
    + assert (Hsame : forall p, same_boxes n (set_pcb (Some p) n)) by done.
      assert (Hend : forall p s, at_conn ph c (set_pcb (Some p) n) s -> with_block ph c n s).
      { intros p s Hs. exists (set_pcb (Some p) n). split; [done|]. split; [done|]. by eexists. }
      destruct (type n); apply hoare_new_block; auto; intros p; cbn [deref];
        (apply (hoare_post_cond _ _ (fun _ => at_conn ph c (set_pcb (Some p) n))); [|intros ? ?; apply (Hend p)]);
        try (apply hoare_setup_tcp; by eexists);
        (hbind ltac:(apply (hoare_deref _ _ p eq_refl))); apply hoare_pure; intros ->;
        apply hoare_setup_udp.
  - intros _. apply hoare_exists. intros n'. eapply hoare_pre.
    { intros s (H1 & H2 & H3). exact (conj (conj H2 H3) H1). }
    apply hoare_pure. intros [Hsame [p Hpcb]]. hconn.
    hbind ltac:(apply (hoare_deref _ _ p Hpcb)). apply hoare_pure. intros ->.
    hbind ltac:(apply hoare_addr_value).
    assert (Hm' : mbox n' = mbox n) by apply Hsame.
    eapply (hoare_bind _ (fun _ s => exists n2, at_conn ph c n2 s /\ mbox n2 = mbox n)).
    + destruct (type n').
      * hbind ltac:(apply hoare_call_).
        eapply hoare_post_cond; [by apply (hoare_update ph c n')|]. intros ? s Hs.
        eexists. split; [exact Hs|exact Hm'].
      * hbind ltac:(apply hoare_call_). apply hoare_ret. eauto.
      * hbind ltac:(apply hoare_call_). apply hoare_ret. eauto.
      * hbind ltac:(apply hoare_call_). apply hoare_ret. eauto.
    + intros _. apply hoare_exists. intros n2. eapply hoare_pre.
      { intros s (H1 & H2). exact (conj H2 H1). }
      apply hoare_pure. intros Hm2. rewrite Hm', <- Hm2. apply hoare_answer; [done|by rewrite Hm2].
Qed.

(** The last step of a handler: the answer, from a connection that may have changed. *)
Definition with_mbox (ph : gmap Z phase) (c : Z) (n : netconn) (s : api) : Prop :=
  exists n', at_conn ph c n' s /\ mbox n' = mbox n.

Lemma hoare_with_mbox {A} ph c n m (x : action T A) :
  ph !! c = Some (Held m) -> is_Some (mbox n) ->
  hoare (at_conn ph c n) x (fun _ => with_mbox ph c n) ->
  hoare (at_conn ph c n) (x;; b ← deref (mbox n); sys_mbox_post b INull)
    (fun _ => inv (<[c := Answered m]> ph)).
Proof using.
  intros Hp Hm Hx. eapply hoare_bind; [exact Hx|]. intros ?. apply hoare_exists. intros n'.
  eapply hoare_pre; [intros s (H1 & H2); exact (conj H2 H1)|]. apply hoare_pure.
  intros Hm'. rewrite <- Hm'. apply hoare_answer; [done|by rewrite Hm'].
Qed.

Lemma with_mbox_same ph c n n' s : same_boxes n n' -> at_conn ph c n' s -> with_mbox ph c n s.
Proof using. intros (_ & Hm & _) Hs. by exists n'. Qed.

Lemma hoare_call_end {A B} ph c n (x : transport_call A) (b : B) :
  hoare (at_conn ph c n) (call x;; mret b) (fun _ => with_mbox ph c n).
Proof using Hdefined.
  hbind ltac:(apply hoare_call_). apply hoare_ret. intros s. by apply with_mbox_same.
Qed.

Lemma hoare_set_err ph c n e :
  hoare (at_conn ph c n) (update c (set_err e)) (fun _ => with_mbox ph c n).
Proof using.
  eapply hoare_post_cond; [by apply (hoare_update ph c n (set_err e))|].
  intros ? s Hs. by apply (with_mbox_same ph c n (set_err e n)).
Qed.

Lemma hoare_nothing {A} ph c n (a : A) :
  hoare (at_conn ph c n) (mret a) (fun _ => with_mbox ph c n).
Proof using. apply hoare_ret. intros s. by apply with_mbox_same. Qed.

Lemma do_delconn_ok ph c n m :
  ph !! c = Some (Held m) -> is_Some (mbox n) ->
  hoare (at_conn ph c n) (do_delconn c) (fun _ => inv (<[c := Answered m]> ph)).
Proof using Hdefined.
  intros Hp Hm. unfold do_delconn. hconn.
  eapply (hoare_bind _ (fun _ => at_conn ph c n)); [|intros ?; by apply hoare_post_answer].
  destruct (pcb n) as [p|]; [|by apply hoare_ret]. destruct (type n).
  1: { hcalls. destruct (_ || _); [by apply hoare_ret|apply hoare_call_]. }
  all: hcalls; apply hoare_call_.
Qed.

Lemma do_connect_ok ph c n m a port :
  ph !! c = Some (Held m) -> is_Some (mbox n) -> type n <> NETCONN_TCP ->
  hoare (at_conn ph c n) (do_connect c a port) (fun _ => inv (<[c := Answered m]> ph)).
Proof using Hdefined Hudp.
  intros Hp Hm Ht. unfold do_connect. hconn.
  eapply (hoare_bind _ (fun ok s => ok = true /\ with_block ph c n s)).
  - destruct (pcb n) as [p|] eqn:Hpcb.
    + apply hoare_ret. intros s Hs. split; [done|]. exists n. by rewrite Hpcb.
    + assert (Hend : forall p s, at_conn ph c (set_pcb (Some p) n) s -> true = true /\ with_block ph c n s).
      { intros p s Hs. split; [done|]. exists (set_pcb (Some p) n). split; [done|]. split; [done|]. by eexists. }
      destruct (type n); [done|..]; apply hoare_new_block; auto; intros p;
        (eapply hoare_bind; [apply hoare_setup_udp|intros ?]); apply hoare_ret; intros s; apply Hend.
  - intros ok. apply hoare_pure. intros ->. apply hoare_exists. intros n'.
    eapply hoare_pre; [intros s (H1 & H2 & H3); exact (conj (conj H2 H3) H1)|].
    apply hoare_pure. intros [(Ht' & Hm' & _) [p Hpcb]]. hconn.
    hbind ltac:(apply (hoare_deref _ _ p Hpcb)). apply hoare_pure. intros ->.
    hbind ltac:(apply hoare_addr_value). rewrite Ht'.
    destruct (type n); [done|..]; hbind ltac:(apply hoare_call_);
      (apply hoare_answer; [done|by rewrite Hm']).
Qed.

Lemma do_listen_ok ph c n m :
  ph !! c = Some (Held m) -> is_Some (mbox n) ->
  hoare (at_conn ph c n) (do_listen c) (fun _ => inv (<[c := Answered m]> ph)).
Proof using Hdefined.
  intros Hp Hm. unfold do_listen. hconn. apply hoare_with_mbox; [done|done|].
  destruct (pcb n) as [p|]; [|apply hoare_nothing]. destruct (type n); try apply hoare_nothing.
  hbind ltac:(apply hoare_call_). rename a into o.
  hbind ltac:(by apply (hoare_update ph c n (set_pcb o))). set (n1 := set_pcb o n).
  destruct o as [p'|]; [|apply (hoare_set_err ph c n1)].
  eapply (hoare_bind _ (fun _ s => exists n2, at_conn ph c n2 s /\ mbox n2 = mbox n)).
  - destruct (acceptmbox n) as [b|] eqn:Hb.
    + apply hoare_ret. intros s Hs. by exists n1.
    + eapply hoare_post_cond; [by apply (hoare_new_mbox ph c n1 set_acceptmbox); right|].
      intros b s Hs. by exists (set_acceptmbox b n1).
  - intros b. apply hoare_exists. intros n2.
    eapply hoare_pre; [intros s (H1 & H2); exact (conj H2 H1)|]. apply hoare_pure. intros Hm2.
    destruct b as [b|].
    + hcalls. eapply hoare_post_cond; [apply hoare_call_|]. intros ? s Hs. by exists n2.
    + eapply hoare_post_cond; [apply hoare_set_err|]. intros ? s (n3 & Hs & Hm3).
      exists n3. by rewrite Hm3.
Qed.

Lemma do_send_ok ph c n m p :
  ph !! c = Some (Held m) -> is_Some (mbox n) ->
  hoare (at_conn ph c n) (do_send c p) (fun _ => inv (<[c := Answered m]> ph)).
Proof using Hdefined.
  intros Hp Hm. unfold do_send. hconn. apply hoare_with_mbox; [done|done|].
  destruct (pcb n) as [u|]; [|apply hoare_nothing].
  destruct (type n); [apply hoare_nothing|..]; apply hoare_call_end.
Qed.

Lemma do_recv_ok ph c n m len :
  ph !! c = Some (Held m) -> is_Some (mbox n) ->
  hoare (at_conn ph c n) (do_recv c len) (fun _ => inv (<[c := Answered m]> ph)).
Proof using Hdefined.
  intros Hp Hm. unfold do_recv. hconn. apply hoare_with_mbox; [done|done|].
  destruct (pcb n) as [u|]; [|apply hoare_nothing]. destruct (type n); try apply hoare_nothing.
  eapply hoare_post_cond; [apply hoare_call_|]. intros ? s. by apply with_mbox_same.
Qed.

Lemma do_write_ok ph c n m data copy :
  ph !! c = Some (Held m) -> is_Some (mbox n) ->
  hoare (at_conn ph c n) (do_write c data copy) (fun _ => inv (<[c := Answered m]> ph)).
Proof using Hdefined.
  intros Hp Hm. unfold do_write. hconn. apply hoare_with_mbox; [done|done|].
  destruct (pcb n) as [u|]; [|apply hoare_nothing].
  destruct (type n); try apply hoare_set_err.
  hbind ltac:(apply hoare_call_). eapply (hoare_bind _ (fun _ => at_conn ph c n)).
  - case_bool_decide; [|by apply hoare_ret]. hbind ltac:(apply hoare_call_).
    destruct a0; [|by apply hoare_ret]. hbind ltac:(apply hoare_call_). by apply hoare_ret.
  - intros ?. apply hoare_set_err.
Qed.

Lemma do_close_ok ph c n m :
  ph !! c = Some (Held m) -> is_Some (mbox n) ->
  hoare (at_conn ph c n) (do_close c) (fun _ => inv (<[c := Answered m]> ph)).
Proof using Hdefined.
  intros Hp Hm. unfold do_close. hconn. apply hoare_with_mbox; [done|done|].
  destruct (pcb n) as [u|]; [|apply hoare_nothing].
  destruct (type n); try apply hoare_nothing. hcalls. apply hoare_set_err.
Qed.

Lemma api_msg_input_ok ph c n m op :
  ph !! c = Some (Held m) -> is_Some (mbox n) -> type n = kind c -> answered c op ->
  hoare (at_conn ph c n) (api_msg_input (ApiMsg op c)) (fun _ => inv (<[c := Answered m]> ph)).
Proof using Hdefined Htcp Hudp.
  intros Hp Hm Ht Hop. destruct op; cbn [api_msg_input msg_type msg_conn answered] in *; try done.
  - by apply do_delconn_ok.
  - by apply do_bind_ok.
  - apply do_connect_ok; congruence.
  - by apply do_listen_ok.
  - by apply do_send_ok.
  - by apply do_recv_ok.
  - by apply do_write_ok.
  - by apply do_close_ok.
Qed.

(** *** The transport thread *)

(** The transport thread takes the oldest message, and answers it. *)
Lemma inv_take ph s i l :
  inv ph s -> inbox s = TCP_MSG_API i :: l ->
  exists c n op,
    ph !! c = Some (Sent i) /\ msgs s !! i = Some (ApiMsg op c) /\ type n = kind c
    /\ is_Some (mbox n) /\ answered c op
    /\ at_conn (<[c := Held i]> ph) c n (set_inbox l s).
Proof using.
  intros [H1 H2 H3 H4 H5 H7 H6 H8 H9] Hl. rewrite Hl in H4, H5, H7. cbn in H4, H5.
  destruct (H4 i) as [[c Hc] _]; [by left|]. destruct (H3 c _ i Hc eq_refl) as ([op c'] & Ha & Hac & Hop).
  cbn in Hac, Hop. subst c'. destruct (H2 c _ Hc) as (n & b & Hn & Ht & Hb & Ho & Hbox).
  apply NoDup_cons in H5 as [Hni Hnd]. apply Forall_cons in H7 as [_ H7].
  exists c, n, op. split; [done|]. split; [done|]. split; [apply Ht|]. split; [by eexists|].
  split; [done|]. split; [|done]. split; cbn; try done.
  - intros c' n' Hc'. destruct (H1 c' n' Hc') as [A1 A2 A3 A4]. by split.
  - intros c' p Hp. apply lookup_insert_Some in Hp as [[<- <-]|[Hne Hp]]; [by exists n, b|by apply H2].
  - intros c' p m Hp Hm. apply lookup_insert_Some in Hp as [[<- <-]|[Hne Hp]]; [|by apply (H3 c' p)].
    injection Hm as <-. by apply (H3 c (Sent i)).
  - intros m. split.
    + intros Hm. destruct (H4 m) as [[c' Hc'] _]; [by right|]. exists c'.
      rewrite lookup_insert_ne; [done|]. intros <-. rewrite Hc in Hc'. by injection Hc' as ->.
    + intros [c' Hc']. apply lookup_insert_Some in Hc' as [[_ ?]|[Hne Hc']]; [done|].
      assert (Hm : m ∈ i :: pending l) by (apply H4; by exists c').
      apply elem_of_cons in Hm as [->|Hm]; [|done]. exfalso.
      destruct (H3 c' _ i Hc' eq_refl) as (a & Ha' & Hca & _). rewrite Ha in Ha'.
      injection Ha' as <-. by apply Hne.
  - intros m1 Hm1. by apply (owned_insert ph c (Sent i)), H9.
Qed.

(** What the transport thread does to the phases. *)
Definition evolved (ph ph' : gmap Z phase) : Prop :=
  (forall c p, ph !! c = Some p -> exists q, ph' !! c = Some q /\ evolves p q)
  /\ (forall c, is_Some (ph' !! c) -> is_Some (ph !! c)).

Lemma evolved_refl ph : evolved ph ph.
Proof using. split; [|done]. intros c p Hp. exists p. split; [done|]. by left. Qed.

Lemma transport_thread_ok h ph s :
  inv ph s ->
  transport_thread h s <> Undef
  /\ forall u s', transport_thread h s = Ret (u, s') -> exists ph', inv ph' s' /\ evolved ph ph'.
Proof using Hdefined Htcp Hudp.
  intros Hi. unfold transport_thread. destruct (inbox s) as [|m l] eqn:Hl; [split; [done|by intros]|].
  pose proof (i_inbox _ _ Hi) as Hapi. rewrite Hl in Hapi. apply Forall_cons in Hapi as [[i ->] _].
  destruct (inv_take ph s i l Hi Hl) as (c & n & op & Hc & Hmsg & Ht & Hm & Hop & Hat).
  rewrite Hmsg. cbn [deref].
  destruct (api_msg_input_ok (<[c := Held i]> ph) c n i op ltac:(by rewrite lookup_insert_eq)
    Hm Ht Hop (set_inbox l s) Hat) as [Hu Hr].
  unfold mbind, action_bind, mret, action_ret. split; [exact Hu|].
  intros u s' Hs. pose proof (Hr u s' Hs) as Hinv. rewrite insert_insert_eq in Hinv.
  exists (<[c := Answered i]> ph). split; [done|].
  split; [|intros c' [<-|?]%lookup_insert_is_Some'; [by eexists|done]]. intros c' p Hp.
  destruct (decide (c' = c)) as [->|Hne].
  - rewrite lookup_insert_eq. rewrite Hc in Hp. injection Hp as <-. eexists. split; [done|].
    right. by exists i.
  - rewrite lookup_insert_ne by done. exists p. split; [done|]. by left.
Qed.

(** *** Calls of the protocols *)

(** A call for a connection that works: data, space in the send buffer, the timer. *)
Definition harmless (s : api) (u : upcall) : bool :=
  match u with
  | Recv_tcp arg _ _ | Recv_udp arg _ _ _ | Poll_tcp arg | Sent_tcp arg =>
      match conn_of arg with
      | None => true
      | Some c => match conns s !! c with Some _ => true | None => false end
      end
  | _ => false
  end.

Lemma inv_netbuf ph s v a :
  inv ph s -> (forall b, is_Some (netbufs s !! b) -> is_Some (v !! b)) ->
  inv ph (Api (trans s) (conns s) v (msgs s) (boxes s) (sems s) (inbox s) a (next s + 1)).
Proof using.
  intros [H1 H2 H3 H4 H5 H7 (F1 & F2 & F3 & F4) H8 H9]. split; cbn; try done.
  - intros c n Hc. destruct (H1 c n Hc) as [A1 A2 A3 A4]. by split.
  - repeat split; intros i Hi; [apply F1 in Hi|apply F2 in Hi|apply F3 in Hi|apply F4 in Hi]; lia.
  - auto.
Qed.

Lemma hoare_new_netbuf ph c n v :
  hoare (at_conn ph c n) (new_in netbufs set_netbufs v) (fun _ => at_conn ph c n).
Proof using.
  intros s [Hi Hc]. unfold new_in, alloc, fresh, modify, mbind, action_bind, mret, action_ret.
  destruct (allocs s) as [|[] l] eqn:Ha; cbn; (split; [done|]); intros x s' [= <- <-];
    (split; [|exact Hc]); try (by apply (inv_ext ph s));
    apply (inv_netbuf ph s (<[next s := v]> (netbufs s))); try done;
    intros b Hb; rewrite lookup_insert_is_Some'; by right.
Qed.

Lemma hoare_upcall h u ph s :
  inv ph s -> harmless s u = true ->
  run_upcall h u s <> Undef /\ forall x s', run_upcall h u s = Ret (x, s') -> inv ph s'.
Proof using.
  intros Hi Hu.
  assert (Hlive : forall arg (m : action T unit),
    (conn_of arg = None -> m = mret tt) ->
    (forall c n, conn_of arg = Some c -> hoare (at_conn ph c n) m (fun _ => inv ph)) ->
    match conn_of arg with
    | None => true
    | Some c => match conns s !! c with Some _ => true | None => false end
    end = true ->
    m s <> Undef /\ forall x s', m s = Ret (x, s') -> inv ph s').
  { intros arg m Hn Hm Hok. destruct (conn_of arg) as [c|].
    - destruct (conns s !! c) as [n|] eqn:Hc; [|done]. by apply (Hm c n eq_refl).
    - rewrite Hn by done. split; [done|]. by intros x s' [= _ <-]. }
  assert (Hend : forall A c n (a : A), hoare (at_conn ph c n) (mret tt) (fun _ => inv ph)).
  { intros. apply hoare_ret. by intros s' [Hs _]. }
  assert (Hdone : forall A c n (m : action T A),
    hoare (at_conn ph c n) m (fun _ => at_conn ph c n) -> hoare (at_conn ph c n) (m;; mret tt) (fun _ => inv ph)).
  { intros A c n m Hm. eapply hoare_bind; [exact Hm|intros ?]. by apply (Hend unit). }
  destruct u as [arg d e|arg d addr port|arg|arg|arg e|arg np e|arg e]; cbn [harmless run_upcall] in *;
    try done; apply (Hlive arg); try done.
  - intros Hn. unfold recv_tcp. by rewrite Hn.
  - intros c n Hc. unfold recv_tcp. rewrite Hc.
    eapply (hoare_bind _ (fun _ => inv ph)); [|intros ?; apply hoare_ret; auto]. hconn.
    destruct (recvmbox n) as [b|] eqn:Hb; [|apply hoare_ret; by intros s' [? _]].
    hbind ltac:(by apply (hoare_update ph c n (set_err e))).
    hbind ltac:(apply (hoare_post ph c (set_err e n) b); by left).
    apply hoare_ret. by intros s' [? _].
  - intros Hn. unfold recv_udp. by rewrite Hn.
  - intros c n Hc. unfold recv_udp. rewrite Hc. hconn.
    destruct (recvmbox n) as [b|] eqn:Hb; [|by apply (Hend unit)].
    hbind ltac:(apply hoare_new_netbuf). destruct a as [x|]; [|by apply (Hend unit)].
    eapply hoare_post_cond; [apply (hoare_post ph c n b); by left|]. by intros ? s' [? _].
  - intros Hn. unfold poll_tcp. by rewrite Hn.
  - intros c n Hc. unfold poll_tcp. rewrite Hc.
    eapply (hoare_bind _ (fun _ => inv ph)); [|intros ?; apply hoare_ret; auto]. hconn.
    eapply (hoare_bind _ (fun _ => at_conn ph c n)).
    + case_bool_decide; [apply hoare_signal|by apply hoare_ret].
    + intros ?. apply hoare_ret. by intros s' [? _].
  - intros Hn. unfold sent_tcp. by rewrite Hn.
  - intros c n Hc. unfold sent_tcp. rewrite Hc.
    eapply (hoare_bind _ (fun _ => inv ph)); [|intros ?; apply hoare_ret; auto]. hconn.
    hbind ltac:(apply hoare_signal). apply hoare_ret. by intros s' [? _].
Qed.

(** ** The steps of the programs *)

Lemma evolves_idle q : evolves Idle q -> q = Idle.
Proof using. by intros [-> | (m & ? & _)]. Qed.
Lemma evolves_held m q : evolves (Held m) q -> q = Held m.
Proof using. by intros [-> | (m' & ? & _)]. Qed.
Lemma evolves_sent m q : evolves (Sent m) q -> q = Sent m \/ q = Answered m.
Proof using. intros [-> | (m' & [= <-] & ->)]; auto. Qed.

(** Reading a field of the connection. *)
Lemma safe_read {A} c (f : netconn -> A) p :
  (p = Idle \/ exists m, p = Held m) -> safe c (fun _ q => q = p) p (read c f).
Proof using.
  intros Hp. apply safe_atomically. intros ph s q Hi Hc Hq.
  assert (q = p) as -> by (destruct Hp as [-> | [m ->]]; [by apply evolves_idle|by apply evolves_held]).
  destruct (i_phases _ _ Hi c p Hc) as (n & b & Hn & _).
  unfold conn, mbind, action_bind, mret, action_ret. rewrite Hn. cbn. split; [done|].
  intros a s' [= <- <-]. exists p. by rewrite insert_id.
Qed.

(** Writing a field that leads to no mailbox. *)
Lemma safe_write c (f : netconn -> netconn) p :
  (p = Idle \/ exists m, p = Held m) -> (forall n, same_boxes n (f n)) ->
  safe c (fun _ q => q = p) p (write c f).
Proof using.
  intros Hp Hf. apply safe_atomically. intros ph s q Hi Hc Hq.
  assert (q = p) as -> by (destruct Hp as [-> | [m ->]]; [by apply evolves_idle|by apply evolves_held]).
  destruct (i_phases _ _ Hi c p Hc) as (n & b & Hn & _).
  destruct (hoare_update ph c n f (Hf n) s (conj Hi Hn)) as [Hu Hr]. split; [done|].
  intros a s' Hs. exists p. rewrite insert_id by done. split; [|done]. by apply (Hr a s').
Qed.

(** A new message. *)
Lemma safe_new_msg c op :
  answered c op ->
  safe c (fun o q => match o with Some m => q = Held m | None => q = Idle end) Idle (new_msg op c).
Proof using.
  intros Hop. apply safe_atomically. intros ph s q Hi Hc Hq. apply evolves_idle in Hq as ->.
  unfold new_in, alloc, fresh, modify, mbind, action_bind, mret, action_ret.
  assert (Hnew : forall a, inv (<[c := Held (next s)]> ph)
    (Api (trans s) (conns s) (netbufs s) (<[next s := ApiMsg op c]> (msgs s)) (boxes s) (sems s)
       (inbox s) a (next s + 1))).
  { intros a. destruct Hi as [H1 H2 H3 H4 H5 H7 (F1 & F2 & F3 & F4) H8 H9]. split; cbn; try done.
    - intros c' n Hc'. destruct (H1 c' n Hc') as [A1 A2 A3 A4]. by split.
    - intros c' p Hp. apply lookup_insert_Some in Hp as [[<- <-]|[Hne Hp]]; [|by apply H2].
      by apply (H2 c Idle).
    - intros c' p m Hp Hm. apply lookup_insert_Some in Hp as [[<- <-]|[Hne Hp]].
      + injection Hm as <-. exists (ApiMsg op c). by rewrite lookup_insert_eq.
      + destruct (H3 c' p m Hp Hm) as (a' & Ha & Hca). exists a'. rewrite lookup_insert_ne; [done|].
        intros <-. assert (next s < next s) by (apply F3; by eexists). lia.
    - intros m. rewrite (H4 m). split; intros [c' Hc']; exists c'.
      + rewrite lookup_insert_ne; [done|]. intros <-. congruence.
      + by apply lookup_insert_Some in Hc' as [[_ ?]|[_ ?]].
    - repeat split; intros i Hi'; cbn in Hi'.
      + apply F1 in Hi'. lia.
      + apply F2 in Hi'. lia.
      + apply lookup_insert_is_Some' in Hi' as [<-|Hi']; [lia|]. apply F3 in Hi'. lia.
      + apply F4 in Hi'. lia.
    - intros m Hm. destruct (decide (m = next s)) as [->|Hne].
      + exists c, (Held (next s)). by rewrite lookup_insert_eq.
      + apply lookup_insert_is_Some' in Hm as [?|Hm]; [congruence|].
        destruct (H9 m Hm) as (c' & p & Hp & Hpm). exists c', p. split; [|done].
        rewrite lookup_insert_ne; [done|]. intros <-. rewrite Hc in Hp. by injection Hp as <-. }
  destruct (allocs s) as [|[] l] eqn:Ha; cbn; (split; [done|]); intros x s' [= <- <-].
  - exists (Held (next s)). split; [|done]. eapply inv_ext; [..|apply (Hnew (allocs s))]; done.
  - exists (Held (next s)). split; [|done]. eapply inv_ext; [..|apply (Hnew l)]; done.
  - exists Idle. split; [|done]. rewrite insert_id by done. by apply (inv_ext ph s).
Qed.

(** Giving the message back. *)
Lemma inv_free_msg ph s c m :
  inv ph s -> ph !! c = Some (Held m) ->
  is_Some (msgs s !! m) /\ inv (<[c := Idle]> ph) (set_msgs (delete m (msgs s)) s).
Proof using.
  intros [H1 H2 H3 H4 H5 H7 (F1 & F2 & F3 & F4) H8 H9] Hc.
  destruct (H3 c _ m Hc eq_refl) as (a & Ha & Hac & _). split; [by eexists|].
  split; cbn; try done.
  - intros c' n Hc'. destruct (H1 c' n Hc') as [A1 A2 A3 A4]. by split.
  - intros c' p Hp. apply lookup_insert_Some in Hp as [[<- <-]|[Hne Hp]]; [by apply (H2 c (Held m))|by apply H2].
  - intros c' p m' Hp Hm'. apply lookup_insert_Some in Hp as [[<- <-]|[Hne Hp]]; [done|].
    destruct (H3 c' p m' Hp Hm') as (a' & Ha' & Hca' & Hop'). exists a'. split; [|done].
    rewrite lookup_delete_ne; [done|]. intros <-. simplify_eq.
  - intros m'. rewrite (H4 m'). split; intros [c' Hc']; exists c'.
    + rewrite lookup_insert_ne; [done|]. intros <-. congruence.
    + by apply lookup_insert_Some in Hc' as [[_ ?]|[_ ?]].
  - repeat split; try done. intros i [v Hv]. apply lookup_delete_Some in Hv as [_ Hv].
    apply F3. by eexists.
  - intros m' [v Hv]. apply lookup_delete_Some in Hv as [Hne Hv].
    destruct (H9 m' ltac:(by eexists)) as (c' & p & Hp & Hm'). exists c', p. split; [|done].
    rewrite lookup_insert_ne; [done|]. intros <-. rewrite Hc in Hp. injection Hp as <-.
    by injection Hm' as <-.
Qed.

Lemma safe_free_msg c m : safe c (fun _ q => q = Idle) (Held m) (free_msg m).
Proof using.
  apply safe_atomically. intros ph s q Hi Hc Hq. apply evolves_held in Hq as ->.
  destruct (inv_free_msg ph s c m Hi Hc) as [[a Ha] Hi']. unfold free_in. rewrite Ha. cbn.
  split; [done|]. intros x s' [= _ <-]. by exists Idle.
Qed.

(** Handing the message over and waiting for the answer. *)
Lemma safe_api_msg_post c m :
  safe c (fun _ q => q = Sent m \/ q = Idle) (Held m) (atomically (api_msg_post m)).
Proof using.
  apply safe_atomically. intros ph s q Hi Hc Hq. apply evolves_held in Hq as ->.
  unfold api_msg_post, transport_apimsg, alloc, post_inbox, modify, mbind, action_bind, mret, action_ret.
  assert (Hpost : forall a, inv (<[c := Sent m]> ph)
    (Api (trans s) (conns s) (netbufs s) (msgs s) (boxes s) (sems s) (inbox s ++ [TCP_MSG_API m]) a (next s))).
  { intros a. pose proof Hi as [H1 H2 H3 H4 H5 H7 H6 H8 H9].
    assert (Hni : m ∉ pending (inbox s)).
    { intros Hin. apply H4 in Hin as [c' Hc'].
      destruct (H3 c _ m Hc eq_refl) as (x & Hx & Hxc & _), (H3 c' _ m Hc' eq_refl) as (y & Hy & Hyc & _).
      simplify_eq. }
    split; cbn; try done.
    - intros c' n Hc'. destruct (H1 c' n Hc') as [A1 A2 A3 A4]. by split.
    - intros c' p Hp. apply lookup_insert_Some in Hp as [[<- <-]|[Hne Hp]]; [|by apply H2].
      by apply (H2 c (Held m)).
    - intros c' p m' Hp Hm'. apply lookup_insert_Some in Hp as [[<- <-]|[Hne Hp]]; [|by apply (H3 c' p)].
      injection Hm' as <-. by apply (H3 c (Held m)).
    - intros m'. rewrite inbox_app. cbn. rewrite elem_of_app, list_elem_of_singleton, (H4 m'). split.
      + intros [[c' Hc']| ->]; [|exists c; by rewrite lookup_insert_eq]. exists c'.
        rewrite lookup_insert_ne; [done|]. intros <-. congruence.
      + intros [c' Hc']. apply lookup_insert_Some in Hc' as [[<- [= ->]]|[Hne Hc']]; [by right|].
        left. by exists c'.
    - rewrite inbox_app. apply NoDup_app. split; [done|]. split; [|apply NoDup_singleton].
      intros x Hx Hx'. cbn in Hx'. apply list_elem_of_singleton in Hx' as ->. done.
    - apply Forall_app. split; [done|]. constructor; [by exists m|done].
    - intros m1 Hm1. by apply (owned_insert ph c (Held m)), H9. }
  destruct (allocs s) as [|[] l] eqn:Ha; cbn.
  - split; [done|]. intros x s' [= <- <-]. exists (Sent m). split; [|by left].
    eapply inv_ext; [..|apply (Hpost (allocs s))]; done.
  - split; [done|]. intros x s' [= <- <-]. exists (Sent m). split; [|by left].
    eapply inv_ext; [..|apply (Hpost l)]; done.
  - destruct (inv_free_msg ph s c m Hi Hc) as [[a Hm] Hi']. unfold free_in. cbn. rewrite Hm. cbn.
    split; [done|]. intros x s' [= <- <-]. exists Idle. split; [|by right].
    by eapply inv_ext; [..|exact Hi'].
Qed.

Lemma safe_wait c m p :
  p = Sent m \/ p = Idle ->
  safe c (fun _ q => q = Held m) p
    (b ← atomically (n ← conn c; deref (mbox n)); atomically (sys_mbox_fetch b);; mret tt).
Proof using.
  intros Hp.
  eapply (safe_bind c (fun b q => b = box c /\ (q = Sent m \/ q = Answered m \/ q = Idle))).
  - apply safe_atomically. intros ph s q Hi Hc Hq.
    destruct (i_phases _ _ Hi c q Hc) as (n & b & Hn & (_ & Hb & _) & _).
    unfold conn, mbind, action_bind, mret, action_ret. rewrite Hn. cbn. rewrite Hb. cbn.
    split; [done|]. intros x s' [= <- <-]. exists q. rewrite insert_id by done. split; [done|].
    split; [done|]. destruct Hp as [-> | ->];
      [apply evolves_sent in Hq as [-> | ->]|apply evolves_idle in Hq as ->]; auto.
  - intros b q [-> Hq]. eapply (safe_bind c (fun _ q => q = Held m)); [|by intros _ q' ->; constructor].
    apply safe_atomically. intros ph s r Hi Hc Hr.
    destruct (i_phases _ _ Hi c r Hc) as (n & b & Hn & (_ & Hb & _) & Hb' & Ho & Hl).
    rewrite Hb in Hb'. injection Hb' as <-. unfold sys_mbox_fetch. rewrite Hl. cbn.
    assert (Hcase : r = Sent m \/ r = Answered m \/ r = Idle).
    { destruct Hq as [-> | [-> | ->]].
      - apply evolves_sent in Hr as [-> | ->]; auto.
      - destruct Hr as [-> | (? & ? & _)]; [auto|done].
      - apply evolves_idle in Hr as ->. auto. }
    destruct Hcase as [-> | [-> | ->]]; [by split| |by split].
    destruct (inv_own_box ph s c n (box c) _ (Held m) Hi Hn Hc Hb) as [_ Hi']; [done..|].
    split; [done|]. intros x s' [= <- <-]. by exists (Held m).
Qed.

Lemma safe_post_and_wait c m : safe c (fun _ q => q = Held m) (Held m) (post_and_wait c m).
Proof using.
  unfold post_and_wait. eapply safe_bind; [apply safe_api_msg_post|].
  intros ? p Hp. by apply safe_wait.
Qed.

(** ** The functions of applications *)

Notation idle c := (safe c (fun _ q => q = Idle) Idle).

Lemma safe_need_mbox c get set :
  (get = recvmbox /\ set = set_recvmbox) \/ (get = acceptmbox /\ set = set_acceptmbox) ->
  idle c (need_mbox get set c).
Proof using.
  intros Hgs. unfold need_mbox. eapply safe_bind; [apply (safe_read c get); by left|].
  intros [b|] q ->; [by apply safe_ret|]. eapply (safe_bind c (fun _ q => q = Idle)).
  - apply safe_atomically. intros ph s q Hi Hc Hq. apply evolves_idle in Hq as ->.
    destruct (i_phases _ _ Hi c Idle Hc) as (n & b & Hn & _).
    destruct (hoare_new_mbox ph c n set ltac:(destruct Hgs as [[_ ->]|[_ ->]]; auto) s (conj Hi Hn))
      as [Hu Hr].
    split; [done|]. intros x s' Hs. exists Idle. rewrite insert_id by done. split; [|done].
    by apply (Hr x s').
  - intros b q ->. by apply safe_ret.
Qed.

Lemma safe_fail c e : idle c (fail c e).
Proof using.
  unfold fail. eapply safe_bind; [apply (safe_write c (set_err e) Idle); [by left|done]|].
  intros ? q ->. by apply safe_ret.
Qed.

Lemma safe_ask op c no_memory : answered c op -> idle c no_memory -> idle c (ask op c no_memory).
Proof using.
  intros Hop Hn. unfold ask. eapply safe_bind; [by apply safe_new_msg|].
  intros [m|] q ->; [|done]. eapply safe_bind; [apply safe_post_and_wait|].
  intros ? q ->. eapply safe_bind; [apply safe_free_msg|]. intros ? q ->. apply safe_read. by left.
Qed.

Lemma safe_bind_call c a port : idle c (netconn_bind (Some c) a port).
Proof using.
  unfold netconn_bind. eapply safe_bind; [apply (safe_read c type); by left|]. intros t q ->.
  eapply (safe_bind c (fun _ q => q = Idle)).
  - case_bool_decide; [by apply safe_ret|apply safe_need_mbox; auto].
  - intros [] q ->; [|by apply safe_ret]. apply safe_ask; [done|apply safe_fail].
Qed.

Lemma safe_connect c a port : kind c <> NETCONN_TCP -> idle c (netconn_connect (Some c) a port).
Proof using.
  intros Hk. unfold netconn_connect. eapply safe_bind; [apply safe_need_mbox; auto|].
  intros [] q ->; [|by apply safe_ret]. apply safe_ask; [done|by apply safe_ret].
Qed.

Lemma safe_listen c : idle c (netconn_listen (Some c)).
Proof using.
  unfold netconn_listen. eapply safe_bind; [apply safe_need_mbox; auto|].
  intros [] q ->; [|by apply safe_ret]. apply safe_ask; [done|apply safe_fail].
Qed.

Lemma safe_send c buf : held buf -> idle c (netconn_send (Some c) buf).
Proof using.
  intros Hb. unfold netconn_send. eapply safe_bind; [apply (safe_read c err); by left|].
  intros e q ->. destruct (negb _); [by apply safe_ret|].
  eapply (safe_bind c (fun _ q => q = Idle)).
  - apply safe_atomically. intros ph s q Hi Hc Hq. apply evolves_idle in Hq as ->.
    destruct (i_bufs _ _ Hi buf Hb) as [v Hv]. rewrite Hv. cbn. split; [done|].
    intros x s' [= <- <-]. exists Idle. by rewrite insert_id.
  - intros d q ->. apply safe_ask; [done|apply safe_fail].
Qed.

(** Waiting at the semaphore of the connection. *)
Lemma safe_sem_wait c i m : sync c = Some i -> safe c (fun _ q => q = Held m) (Held m) (atomically (sys_sem_wait i)).
Proof using.
  intros Hsync. apply safe_atomically. intros ph s q Hi Hc Hq. apply evolves_held in Hq as ->.
  destruct (i_phases _ _ Hi c (Held m) Hc) as (n & b & Hn & (_ & _ & Hs) & _). rewrite Hsync in Hs.
  destruct (ok_sem _ _ (i_conns _ _ Hi c n Hn) i Hs) as [v Hv].
  unfold sys_sem_wait. rewrite Hv. cbn. unfold SysArch.sys_sem_wait.
  destruct (v <=? 0); cbn; [split; [done|by intros]|]. split; [done|]. intros x s' [= <- <-].
  exists (Held m). rewrite insert_id by done. split; [|done]. by apply inv_sem.
Qed.

Lemma safe_close_loop fuel c m : safe c (fun _ q => q = Held m) (Held m) (close_loop fuel c m).
Proof using.
  induction fuel as [|fuel IH]; cbn [close_loop]; [apply safe_spin|].
  eapply safe_bind; [apply safe_post_and_wait|]. intros ? q ->.
  eapply safe_bind; [apply (safe_read c err); eauto|]. intros e q ->.
  eapply (safe_bind c (fun i q => q = Held m /\ i = sync c)).
  - apply safe_atomically. intros ph s q Hi Hc Hq. apply evolves_held in Hq as ->.
    destruct (i_phases _ _ Hi c (Held m) Hc) as (n & b & Hn & (_ & _ & Hs) & _).
    unfold conn, mbind, action_bind, mret, action_ret. rewrite Hn. cbn. split; [done|].
    intros x s' [= <- <-]. exists (Held m). by rewrite insert_id.
  - intros [i|] q [-> Hi]; [|by apply safe_ret]. case_bool_decide; [|by apply safe_ret].
    eapply safe_bind; [by apply safe_sem_wait|]. by intros ? q ->.
Qed.

Lemma safe_close fuel c : idle c (netconn_close fuel (Some c)).
Proof using.
  unfold netconn_close. eapply safe_bind; [by apply safe_new_msg|].
  intros [m|] q ->; [|apply safe_fail].
  eapply safe_bind; [apply (safe_write c (set_state NETCONN_CLOSE) (Held m)); eauto; done|].
  intros ? q ->. eapply safe_bind; [apply safe_close_loop|]. intros ? q ->.
  eapply safe_bind; [apply (safe_write c (set_state NETCONN_NONE) (Held m)); eauto; done|].
  intros ? q ->. eapply safe_bind; [apply safe_free_msg|]. intros ? q ->. apply safe_read. by left.
Qed.

End Safe.

(** ** All interleavings *)

Section System.

Context {T : Type} `{Transport T}.
Context (h : netconn).

(** The programs of applications: requests one after another, which may depend on the
    answers before.  [bufs] is the number of buffers. *)
Inductive client (bufs : nat) (t : netconn_type) (c : Z) : prog T err_t -> Prop :=
  | client_done e : client bufs t c (Done e)
  | client_bind a port k :
      (forall e, client bufs t c (k e)) -> client bufs t c (netconn_bind (Some c) a port ≫= k)
  | client_connect a port k :
      t <> NETCONN_TCP ->
      (forall e, client bufs t c (k e)) -> client bufs t c (netconn_connect (Some c) a port ≫= k)
  | client_listen k :
      (forall e, client bufs t c (k e)) -> client bufs t c (netconn_listen (Some c) ≫= k)
  | client_send b k :
      1 <= b <= Z.of_nat bufs ->
      (forall e, client bufs t c (k e)) -> client bufs t c (netconn_send (Some c) b ≫= k)
  | client_close fuel k :
      (forall e, client bufs t c (k e)) -> client bufs t c (netconn_close fuel (Some c) ≫= k).

(** The calls of the protocols that arrive for connections that work. *)
Definition quiet (n : nat) (e : event T) : Prop :=
  match e with
  | Upcall (Recv_tcp arg _ _) | Upcall (Recv_udp arg _ _ _) | Upcall (Poll_tcp arg) | Upcall (Sent_tcp arg) =>
      match conn_of arg with None => True | Some c => 1 <= c <= Z.of_nat n end
  | Upcall _ => False
  | _ => True
  end.

Context (ns : list netconn) (bufs : list netbuf).

Let kind (c : Z) : netconn_type := default NETCONN_TCP (type <$> ns !! Z.to_nat (c - 1)).
Let sync (c : Z) : option Z := n ← ns !! Z.to_nat (c - 1); (fun _ => c) <$> sem n.
Let held (b : Z) : Prop := 1 <= b <= Z.of_nat (length bufs).
Let ok : gmap Z phase -> api T -> Prop := inv kind (fun c => c) sync held.

Lemma start_inv t oks :
  ok (map_seqZ 1 (replicate (length ns) Idle)) (start t ns bufs oks).
Proof using.
  unfold start. split; cbn; unfold own_mbox, fixed; cbn.
  - intros c n Hc. apply lookup_map_seqZ_Some in Hc as [Hle Hc]. rewrite list_lookup_imap in Hc.
    destruct (ns !! Z.to_nat (c - 1)) as [n0|] eqn:Hn; [|done]. injection Hc as <-.
    apply lookup_lt_Some in Hn. split; cbn; try done.
    + intros b [= <-]. rewrite lookup_map_seqZ_is_Some, length_replicate. lia.
    + intros b Hb. destruct (recvmbox n0); [|done]. injection Hb as <-.
      rewrite lookup_map_seqZ_is_Some, length_replicate. lia.
    + intros b Hb. destruct (sem n0); [|done]. injection Hb as <-.
      rewrite lookup_map_seqZ_is_Some, length_replicate. lia.
  - intros c p Hc. apply lookup_map_seqZ_Some in Hc as [Hle Hc]. apply lookup_replicate in Hc as [-> Hlt].
    destruct (lookup_lt_is_Some_2 _ _ Hlt) as [n Hn].
    exists (made (Z.of_nat (length ns)) c n), c. rewrite !lookup_map_seqZ, !option_guard_True by lia.
    rewrite list_lookup_imap, Hn. cbn.
    replace (1 + Z.of_nat (Z.to_nat (c - 1))) with c by lia. split; [done|].
    split; [unfold kind, sync; by rewrite Hn|]. split; [done|]. split.
    + intros c' n' Hc'. apply lookup_map_seqZ_Some in Hc' as [Hle' Hc'].
      rewrite list_lookup_imap in Hc'. destruct (ns !! Z.to_nat (c' - 1)) as [n0|]; [|done].
      injection Hc' as <-. cbn. split; [|split; [done|congruence || (intros Hne [= ?]; lia)]].
      destruct (recvmbox n0); cbn; [|done]. intros [= ?]. lia.
    + apply lookup_replicate_2. lia.
  - intros c p m Hc. apply lookup_map_seqZ_Some in Hc as [_ Hc]. by apply lookup_replicate in Hc as [-> _].
  - intros m. split; [by intros ?%elem_of_nil|]. intros [c Hc].
    apply lookup_map_seqZ_Some in Hc as [_ Hc]. by apply lookup_replicate in Hc as [? _].
  - constructor.
  - constructor.
  - repeat split; intros i Hi.
    + rewrite lookup_map_seqZ_is_Some, length_imap in Hi. lia.
    + rewrite lookup_map_seqZ_is_Some, length_replicate in Hi. lia.
    + by rewrite lookup_empty in Hi; destruct Hi.
    + rewrite lookup_map_seqZ_is_Some, length_replicate in Hi. lia.
  - intros b Hb. rewrite lookup_map_seqZ_is_Some. unfold held in Hb. lia.
  - intros m Hm. by rewrite lookup_empty in Hm; destruct Hm.
Qed.

Context (Hdefined : forall A (x : transport_call A) t, transport A x t <> Undef).
Context (Htcp : forall t t', transport _ Tcp_new t <> Ret (None, t')).
Context (Hudp : forall t t', transport _ Udp_new t <> Ret (None, t')).

Let idle (c : Z) (p : phase) (m : prog T err_t) : Prop :=
  safe kind (fun c => c) sync held c (fun _ q => q = Idle) p m.

Lemma client_safe c m : client (length bufs) (kind c) c m -> idle c Idle m.
Proof using Hdefined.
  induction 1 as [e|a port k _ IH|a port k Hk _ IH|k _ IH|b k Hb _ IH|fuel k _ IH]; unfold idle.
  - by constructor.
  - eapply safe_bind; [apply safe_bind_call|]. intros e q ->. apply IH.
  - eapply safe_bind; [by apply safe_connect|]. intros e q ->. apply IH.
  - eapply safe_bind; [by apply safe_listen|]. intros e q ->. apply IH.
  - eapply safe_bind; [by apply safe_send|]. intros e q ->. apply IH.
  - eapply safe_bind; [by apply safe_close|]. intros e q ->. apply IH.
Qed.

(** The phases belong to the threads, whose programs are safe. *)
Definition sys_ok (ph : gmap Z phase) (s : sys T) : Prop :=
  ok ph (shared s)
  /\ (forall c, is_Some (ph !! c) <-> 1 <= c <= Z.of_nat (length ns))
  /\ (forall c, 1 <= c <= Z.of_nat (length ns) ->
       exists m p q, threads s !! Z.to_nat (c - 1) = Some (c, m) /\ idle c p m
         /\ ph !! c = Some q /\ evolves p q)
  /\ length (threads s) = length ns.

Lemma step_thread ph s i :
  sys_ok ph s -> exists s', sys_step h (Thread i) s = Ret s' /\ exists ph', sys_ok ph' s'.
Proof using.
  intros Hs. pose proof Hs as (Hok & Hdom & Hth & Hlen). cbn.
  destruct (threads s !! i) as [[c [e|f]]|] eqn:Hi; [by eauto| |by eauto].
  pose proof (lookup_lt_Some _ _ _ Hi) as Hlt. rewrite Hlen in Hlt.
  destruct (Hth (1 + Z.of_nat i) ltac:(lia)) as (m & p & q & Hi' & Hsafe & Hq & Hpq).
  replace (Z.to_nat (1 + Z.of_nat i - 1)) with i in Hi' by lia. rewrite Hi in Hi'. injection Hi' as -> <-.
  inversion Hsafe as [|? ? Hf]; subst. destruct (Hf ph (shared s) q Hok Hq Hpq) as [Hu Hr].
  destruct (f (shared s)) as [[m x]| |]; cbn; [|by eauto|done]. eexists. split; [done|].
  destruct (Hr m x eq_refl) as (p' & Hx & Hm). exists (<[1 + Z.of_nat i := p']> ph).
  split; [done|]. split; [|split].
  - intros c. rewrite lookup_insert_is_Some', Hdom. lia.
  - intros c Hc. destruct (decide (c = 1 + Z.of_nat i)) as [->|Hne].
    + exists m, p', p'. cbn. rewrite lookup_insert_eq.
      replace (Z.to_nat (1 + Z.of_nat i - 1)) with i by lia.
      rewrite list_lookup_insert_eq by lia. split; [done|]. split; [done|]. split; [done|]. by left.
    + destruct (Hth c Hc) as (m' & p1 & q1 & Ht & Hs1 & Hq1 & He). exists m', p1, q1.
      cbn. rewrite list_lookup_insert_ne by lia. by rewrite lookup_insert_ne.
  - cbn. by rewrite length_insert.
Qed.

(** The other steps change the phases as [evolves] says. *)
Lemma sys_ok_shared ph ph' s x :
  sys_ok ph s -> ok ph' x -> evolved ph ph' -> sys_ok ph' (Sys x (threads s)).
Proof using.
  intros (_ & Hdom & Hth & Hlen) Hx [Hev Hback]. split; [done|]. split; [|split; [|done]].
  - intros c. rewrite <- Hdom. split; [apply Hback|]. intros [p Hp]. destruct (Hev c p Hp) as (q & Hq & _).
    by eexists.
  - intros c Hc. destruct (Hth c Hc) as (m & p & q & Ht & Hs & Hq & He).
    destruct (Hev c q Hq) as (r & Hr & Hqr). exists m.
    destruct Hqr as [->|(m' & -> & ->)]; [by exists p, q|].
    exists p, (Answered m'). split; [done|]. split; [done|]. split; [done|].
    right. exists m'. split; [|done]. destruct He as [He|(? & _ & ?)]; done.
Qed.

Lemma event_ok ph s e :
  sys_ok ph s -> quiet (length ns) e ->
  exists s', sys_step h e s = Ret s' /\ exists ph', sys_ok ph' s'.
Proof using Hdefined Htcp Hudp.
  intros Hs He. pose proof Hs as (Hok & Hdom & _). destruct e as [i| |u|t]; [by apply (step_thread ph)|..]; cbn.
  - destruct (transport_thread_ok kind (fun c => c) sync held Hdefined Htcp Hudp h ph (shared s) Hok) as [Hu Hr].
    destruct (transport_thread h (shared s)) as [[x s']| |]; cbn; [|by eauto|done].
    eexists. split; [done|]. destruct (Hr x s' eq_refl) as (ph' & Hok' & Hev). exists ph'.
    by apply (sys_ok_shared ph).
  - assert (Hh : harmless (shared s) u = true).
    { assert (Hc : forall c, 1 <= c <= Z.of_nat (length ns) -> exists n, conns (shared s) !! c = Some n).
      { intros c Hc. apply Hdom in Hc as [p Hp]. destruct (i_phases _ _ _ _ _ _ Hok c p Hp) as (n & b & Hn & _).
        by exists n. }
      destruct u; cbn in He |- *; try done; destruct (conn_of arg) as [c|]; try done;
        destruct (Hc c He) as [n ->]; done. }
    destruct (hoare_upcall kind (fun c => c) sync held h u ph (shared s) Hok Hh) as [Hu Hr].
    destruct (run_upcall h u (shared s)) as [[x s']| |]; cbn; [|by eauto|done].
    eexists. split; [done|]. exists ph. apply (sys_ok_shared ph); [done|by apply (Hr x)|apply evolved_refl].
  - eexists. split; [done|]. exists ph. apply (sys_ok_shared ph); [done|by apply (inv_ext _ _ _ _ ph (shared s))|apply evolved_refl].
Qed.

Lemma events_ok ph s es :
  sys_ok ph s -> Forall (quiet (length ns)) es ->
  exists s', sys_run h es s = Ret s' /\ exists ph', sys_ok ph' s'.
Proof using Hdefined Htcp Hudp.
  intros Hs Hes. revert ph s Hs. induction Hes as [|e es He _ IH]; intros ph s Hs; cbn; [by eauto|].
  destruct (event_ok ph s e Hs He) as (s1 & -> & ph1 & Hs1). cbn. by apply (IH ph1).
Qed.

(** What the invariant says of a state: an answer at most, and nothing is left of the
    requests when all threads are finished. *)
Lemma sys_ok_spec ph s :
  sys_ok ph s ->
  (forall i c m, threads s !! i = Some (c, m) ->
     exists l, boxes (shared s) !! c = Some l /\ (length l <= 1)%nat)
  /\ ((forall i c m, threads s !! i = Some (c, m) -> exists e, m = Done e) ->
      msgs (shared s) = ∅
      /\ forall c, 1 <= c <= Z.of_nat (length ns) -> boxes (shared s) !! c = Some []).
Proof using.
  intros (Hok & Hdom & Hth & Hlen).
  assert (Hbox : forall c p, ph !! c = Some p ->
    boxes (shared s) !! c = Some (match p with Answered _ => [INull] | _ => [] end)).
  { intros c p Hp. destruct (i_phases _ _ _ _ _ _ Hok c p Hp) as (n & b & _ & (_ & Hb & _) & Hb' & _ & Hl).
    rewrite Hb in Hb'. by injection Hb' as <-. }
  split.
  - intros i c m Hi. pose proof (lookup_lt_Some _ _ _ Hi) as Hlt. rewrite Hlen in Hlt.
    destruct (Hth (1 + Z.of_nat i) ltac:(lia)) as (m' & p & q & Hi' & _ & Hq & _).
    replace (Z.to_nat (1 + Z.of_nat i - 1)) with i in Hi' by lia. rewrite Hi in Hi'. injection Hi' as -> _.
    eexists. split; [by apply Hbox|]. destruct q; cbn; lia.
  - intros Hdone. assert (Hidle : forall c p, ph !! c = Some p -> p = Idle).
    { intros c p Hp. destruct (Hth c) as (m & p' & q & Hi & Hm & Hq & He); [by apply Hdom; eexists|].
      destruct (Hdone _ c m Hi) as [e ->]. inversion Hm; subst. rewrite Hp in Hq. injection Hq as ->.
      by apply evolves_idle. }
    split.
    + apply map_empty. intros m. apply eq_None_not_Some. intros Hm.
      destruct (i_owned _ _ _ _ _ _ Hok m Hm) as (c & p & Hp & Hpm). by rewrite (Hidle c p Hp) in Hpm.
    + intros c Hc. apply Hdom in Hc as [p Hp]. rewrite (Hbox c p Hp). by rewrite (Hidle c p Hp).
Qed.

Lemma start_ok t oks ps :
  length ps = length ns ->
  (forall i n p, ns !! i = Some n -> ps !! i = Some p ->
     client (length bufs) (type n) (1 + Z.of_nat i) p) ->
  sys_ok (map_seqZ 1 (replicate (length ns) Idle))
    (Sys (start t ns bufs oks) (imap (fun i p => (1 + Z.of_nat i, p)) ps)).
Proof using Hdefined.
  intros Hlen Hps. split; [apply start_inv|]. split; [|split].
  - intros c. rewrite lookup_map_seqZ_is_Some, length_replicate. lia.
  - intros c Hc. destruct (lookup_lt_is_Some_2 ps (Z.to_nat (c - 1)) ltac:(lia)) as [p Hp].
    destruct (lookup_lt_is_Some_2 ns (Z.to_nat (c - 1)) ltac:(lia)) as [n Hn].
    exists p, Idle, Idle. cbn. rewrite list_lookup_imap, Hp. cbn.
    replace (1 + Z.of_nat (Z.to_nat (c - 1))) with c by lia. split; [done|].
    split; [|split; [|by left]].
    + apply client_safe. pose proof (Hps _ n p Hn Hp) as Hcl.
      replace (1 + Z.of_nat (Z.to_nat (c - 1))) with c in Hcl by lia. unfold kind. by rewrite Hn.
    + apply lookup_map_seqZ_Some. split; [lia|]. apply lookup_replicate_2. lia.
  - cbn. by rewrite length_imap.
Qed.

End System.

(** What is asked of the protocols: their functions return, and they have memory for
    control blocks (see [unchecked_block] for what happens else). *)
Class Transport_laws (T : Type) `{Transport T} : Prop := {
  law_defined : forall A (x : transport_call A) t, transport A x t <> Undef;
  law_tcp_new : forall t t', transport _ Tcp_new t <> Ret (None, t');
  law_udp_new : forall t t', transport _ Udp_new t <> Ret (None, t')
}.


(** ** A small protocol *)

(** Blocks are numbered, every call succeeds, and what is sent is counted. *)
#[global] Instance numbered : Transport Z := fun A x t =>
  match x in transport_call A return outcome (A * Z) with
  | Tcp_new | Udp_new => Ret (Some t, t + 1)
  | Tcp_listen p => Ret (Some p, t)
  | Tcp_is_listening _ => Ret (false, t)
  | Tcp_close _ | Tcp_bind _ _ _ | Tcp_connect _ _ _ | Tcp_output _ => Ret (ERR_OK, t)
  | Tcp_write _ _ _ => Ret (ERR_MEM, t)
  | Tcp_unacked_null _ => Ret (true, t)
  | Tcp_sndbuf _ => Ret (256, t)
  | Tcp_remote _ | Tcp_local _ | Udp_remote _ | Udp_local _ => Ret ((0, 0), t)
  | Udp_bind _ _ _ | Udp_connect _ _ _ => Ret (ERR_OK, t)
  | Udp_send _ _ => Ret (ERR_OK, t)
  | Tcp_input _ | Tcp_tmr => Ret ([], t)
  | Tcp_arg _ _ | Tcp_recv _ _ | Tcp_sent _ _ | Tcp_poll _ _ _ | Tcp_err _ _ | Tcp_accept _ _
  | Tcp_abort _ | Tcp_recved _ _ | Udp_setflags _ _ | Udp_recv _ _ | Udp_no_arg _ | Udp_remove _ => Ret (tt, t)
  end.

#[global] Instance numbered_laws : Transport_laws Z.
Proof.
  split; [|by intros|by intros]. intros A x t. by destruct x.
Qed.

Definition blank (t : netconn_type) : netconn := Netconn t NETCONN_NONE None ERR_OK None None None None.

Definition server : prog Z err_t :=
  e ← netconn_bind (Some 1) Null 80;
  if bool_decide (e = ERR_OK) then e ← netconn_listen (Some 1); mret e else mret e.
Definition sender : prog Z err_t :=
  e ← netconn_bind (Some 2) Null 5000;
  if bool_decide (e = ERR_OK) then
    e ← netconn_send (Some 2) 1;
    e ← netconn_close 3 (Some 2); mret e
  else mret e.

(** Both at once: two rounds of the threads for each of the transport thread. *)
Definition two_threads (rounds : nat) : list (event Z) :=
  concat (replicate rounds [Thread 0; Thread 1; Serve; Thread 1; Upcall (Recv_udp (conn_ptr 2) (Pbufs [] 0) 7 9)]).


(** In this run both threads finish. *)
Example two_threads_finish :
  match sys_run (blank NETCONN_TCP) (two_threads 30)
      (Sys (start 1 [blank NETCONN_TCP; blank NETCONN_UDP] [Netbuf None None None 0] [])
        (imap (fun i p => (1 + Z.of_nat i, p)) [server; sender])) with
  | Ret s => map (fun t => match t.2 with Done e => Some e | _ => None end) (threads s)
  | _ => []
  end = [Some ERR_OK; Some ERR_OK].
Proof. vm_compute. reflexivity. Qed.
