(* ===== verification/NetconnWrite.v ===== *)
(** * Writing through a connection

    What [netconn_write] promises: the bytes that TCP accepts are those of the caller,
    in order and each once, however the steps of the writing thread, of the transport
    thread and of TCP are interleaved.

    TCP is an interface here, [Stream_laws]: [tcp_write] accepts all of its bytes or none,
    which is what [TcpOutput.tcp_write_spec] shows of this stack, and nothing else adds
    to what was accepted.  [follows] is the rule for a program whose steps may be
    separated by any steps of its environment. *)

From stdpp Require Import base gmap list relations.
From Stdlib Require Import ZArith Lia.
From S2P Require Import Prelude TcpTypes SysArch Netbuf Netconn.

(** What TCP promises about its block [p]: [log] is what it has accepted, [room] the
    space in its send buffer. *)
Class Stream_laws (T : Type) `{Transport T} (log : T -> list Z) (room : T -> Z) (p : Z) : Prop := {
  sl_room t : 0 <= room t;
  sl_sndbuf t : transport _ (Tcp_sndbuf p) t = Ret (room t, t);
  sl_write d copy t : exists e t',
    transport _ (Tcp_write p d copy) t = Ret (e, t')
    /\ (e = ERR_OK /\ log t' = log t ++ d \/ e = ERR_MEM /\ log t' = log t);
  sl_unacked t : exists i t', transport _ (Tcp_unacked_null p) t = Ret (i, t') /\ log t' = log t;
  sl_output t : exists e t', transport _ (Tcp_output p) t = Ret (e, t') /\ log t' = log t
}.

Section Write.

Context {T : Type} `{HT : Transport T} (log : T -> list Z) (room : T -> Z) (p : Z).
Context `{!Stream_laws T log room p}.

Notation api := (api T).
Notation prog := (prog T).

(** The connection and its mailbox; [steady]: the space does not grow by itself. *)
Context (h : netconn) (c b : Z) (steady : Prop).

(** ** The environment *)

Definition about_c (arg : Z) : Prop := conn_of arg = None \/ conn_of arg = Some c.

(** A round of the transport thread, a signal, or what else changes TCP. *)
Inductive env_step : api -> api -> Prop :=
  | env_serve s s' : transport_thread h s = Ret (tt, s') -> env_step s s'
  | env_sent s s' arg : about_c arg -> run_upcall h (Sent_tcp arg) s = Ret (tt, s') -> env_step s s'
  | env_poll s s' arg : about_c arg -> run_upcall h (Poll_tcp arg) s = Ret (tt, s') -> env_step s s'
  | env_network s t :
      log t = log (trans s) -> (steady -> room t <= room (trans s)) -> env_step s (set_trans t s).

Notation env := (rtc env_step).

(** Where the message of the thread is: it has none, holds it (with bytes to write), has
    posted it with the bytes [d], it was answered, or it was lost. *)
Inductive place := Free | Mine (m : Z) (d : option (list Z)) | Posted (m : Z) (d : list Z) | Replied (m : Z) | Lost.

(** The state as far as the thread can rely on it: the place of its message, the error and
    the semaphore of its connection, and what TCP has accepted. *)
Record st (w : place) (e : err_t) (o : option Z) (l : list Z) (s : api) : Prop := {
  st_conn : exists n, conns s !! c = Some n /\ type n = NETCONN_TCP /\ pcb n = Some p
              /\ mbox n = Some b /\ sem n = o /\ err n = e;
  st_sem : forall i, o = Some i -> is_Some (sems s !! i);
  st_log : log (trans s) = l;
  st_box : boxes s !! b = Some (match w with Replied _ => [INull] | _ => [] end);
  st_inbox : inbox s = match w with Posted m _ => [TCP_MSG_API m] | _ => [] end;
  st_msg : match w with
           | Free | Lost => True
           | Mine m None | Replied m => is_Some (msgs s !! m)
           | Mine m (Some d) | Posted m d => exists copy, msgs s !! m = Some (ApiMsg (API_MSG_WRITE d copy) c)
           end
}.

(** What a step of the environment does to it. *)
Definition answers (w : place) (e : err_t) (l : list Z) (w' : place) (e' : err_t) (l' : list Z) : Prop :=
  (w' = w /\ e' = e /\ l' = l)
  \/ exists m d, w = Posted m d /\ w' = Replied m
       /\ (e' = ERR_OK /\ l' = l ++ d \/ e' = ERR_MEM /\ l' = l).

Lemma answers_trans w e l w1 e1 l1 w2 e2 l2 :
  answers w e l w1 e1 l1 -> answers w1 e1 l1 w2 e2 l2 -> answers w e l w2 e2 l2.
Proof using.
  intros [(-> & -> & ->)|(m & d & -> & -> & H1)]; [done|].
  intros [(-> & -> & ->)|(m' & d' & ? & _)]; [|done]. right. by exists m, d.
Qed.

(** The handler writes the bytes, keeps the error, and answers. *)
Lemma do_write_spec d copy s n :
  conns s !! c = Some n -> type n = NETCONN_TCP -> pcb n = Some p -> mbox n = Some b ->
  boxes s !! b = Some [] ->
  exists r t,
    do_write c d copy s
    = Ret (tt, set_boxes (<[b := [INull]]> (boxes s))
                 (set_conns (<[c := set_err r n]> (conns s)) (set_trans t s)))
    /\ (r = ERR_OK /\ log t = log (trans s) ++ d \/ r = ERR_MEM /\ log t = log (trans s)).
Proof using Stream_laws0.
  intros Hn Ht Hp Hb Hbox. destruct (sl_write d copy (trans s)) as (r & t1 & Hw & Hr).
  assert (Hend : forall t, log t = log t1 ->
    exists r' t', Ret (tt, set_boxes (<[b := [INull]]> (boxes s))
                 (set_conns (<[c := set_err r n]> (conns s)) (set_trans t s)))
      = Ret (tt, set_boxes (<[b := [INull]]> (boxes s))
                 (set_conns (<[c := set_err r' n]> (conns s)) (set_trans t' s)))
    /\ (r' = ERR_OK /\ log t' = log (trans s) ++ d \/ r' = ERR_MEM /\ log t' = log (trans s))).
  { intros t Hl. exists r, t. rewrite Hl. done. }
  unfold do_write, conn, call, update, sys_mbox_post, mbind, action_bind, mret, action_ret.
  rewrite Hn. cbn [load mbind outcome_bind]. rewrite Hp, Ht, Hw. cbn [load mbind outcome_bind].
  destruct Hr as [[-> _]|[-> _]].
  - rewrite bool_decide_eq_true_2 by done.
    destruct (sl_unacked t1) as (i & t2 & Hi & Hl2). cbn [trans set_trans]. rewrite Hi. cbn [mbind outcome_bind].
    destruct i.
    + destruct (sl_output t2) as (x & t3 & Hx & Hl3). cbn [trans set_trans]. rewrite Hx. cbn. rewrite Hn. cbn.
      rewrite Hb. cbn. rewrite Hbox. cbn. apply Hend. congruence.
    + cbn. rewrite Hn. cbn. rewrite Hb. cbn. rewrite Hbox. cbn. by apply Hend.
  - rewrite bool_decide_eq_false_2 by done. cbn. rewrite Hn. cbn. rewrite Hb. cbn. rewrite Hbox. cbn. by apply Hend.
Qed.

(** The transport thread answers the message that was posted. *)
Lemma serve_posted m d e o l s :
  st (Posted m d) e o l s ->
  exists s' e' l', transport_thread h s = Ret (tt, s') /\ st (Replied m) e' o l' s'
    /\ (e' = ERR_OK /\ l' = l ++ d \/ e' = ERR_MEM /\ l' = l).
Proof using Stream_laws0.
  intros [(n & Hn & Ht & Hp & Hb & Ho & He) Hsem Hlog Hbox Hin (copy & Hm)].
  destruct (do_write_spec d copy (set_inbox [] s) n Hn Ht Hp Hb Hbox) as (r & t & Hw & Hr).
  eexists _, r, (log t). split; [|split].
  - unfold transport_thread. rewrite Hin, Hm. exact Hw.
  - split; cbn; try done.
    + exists (set_err r n). by rewrite lookup_insert_eq.
    + by rewrite lookup_insert_eq.
  - cbn in Hr. by rewrite <- Hlog.
Qed.

Lemma serve_quiet w e o l s :
  st w e o l s -> (forall m d, w <> Posted m d) -> transport_thread h s = Blocked.
Proof using.
  intros Hs Hw. unfold transport_thread. rewrite (st_inbox _ _ _ _ _ Hs). destruct w; try done. by destruct (Hw m d).
Qed.

(** Signals change the count of the semaphore only. *)
Lemma signal_st w e o l s :
  st w e o l s ->
  exists s', signal_opt o s = Ret (tt, s') /\ st w e o l s' /\ trans s' = trans s.
Proof using.
  intros Hs. pose proof Hs as [(n & Hn & Hrest) Hsem Hlog Hbox Hin Hm].
  destruct o as [i|]; cbn; [|by exists s].
  destruct (Hsem i eq_refl) as [x Hx]. unfold sys_sem_signal. rewrite Hx. cbn. eexists. split; [done|].
  split; [|done]. split; cbn; try done; [by exists n|].
  intros j [= <-]. rewrite lookup_insert_eq. by eexists.
Qed.

Lemma upcall_st w e o l s u :
  st w e o l s -> (exists arg, about_c arg /\ (u = Sent_tcp arg \/ u = Poll_tcp arg)) ->
  exists s', run_upcall h u s = Ret (tt, s') /\ st w e o l s' /\ trans s' = trans s.
Proof using.
  intros Hs (arg & Harg & Hu). pose proof (st_conn _ _ _ _ _ Hs) as (n & Hn & _ & _ & _ & Ho & _).
  destruct (signal_st w e o l s Hs) as (s' & Hsig & Hs' & Ht).
  destruct Hu as [-> | ->]; cbn; unfold sent_tcp, poll_tcp; destruct Harg as [-> | ->];
    unfold mbind, action_bind, mret, action_ret, conn; try (by exists s); rewrite Hn; cbn; rewrite Ho.
  - rewrite Hsig. by exists s'.
  - case_bool_decide; [rewrite Hsig; by exists s'|by exists s].
Qed.

(** What the thread can rely on. *)
Lemma env_step_st w e o l s s' :
  st w e o l s -> env_step s s' ->
  exists w' e' l', st w' e' o l' s' /\ answers w e l w' e' l'
    /\ ((forall m d, w <> Posted m d) -> steady -> room (trans s') <= room (trans s)).
Proof using Stream_laws0.
  intros Hs Hstep. assert (Hsame : forall s', st w e o l s' -> trans s' = trans s ->
    exists w' e' l', st w' e' o l' s' /\ answers w e l w' e' l'
      /\ ((forall m d, w <> Posted m d) -> steady -> room (trans s') <= room (trans s))).
  { intros s1 Hs1 Ht. exists w, e, l. split; [done|]. split; [by left|]. by rewrite Ht. }
  destruct Hstep as [s s' Hserve|s s' arg Harg Hup|s s' arg Harg Hup|s t Hl Hroom].
  - destruct w as [|m d|m d|m|]; try (by rewrite (serve_quiet _ _ _ _ _ Hs) in Hserve).
    destruct (serve_posted m d e o l s Hs) as (s1 & e1 & l1 & Hs1 & Hst & Hr).
    rewrite Hserve in Hs1. injection Hs1 as <-. exists (Replied m), e1, l1. split; [done|].
    split; [right; by exists m, d|]. intros Hno. by destruct (Hno m d).
  - destruct (upcall_st w e o l s (Sent_tcp arg) Hs) as (s1 & Hs1 & Hst & Ht); [by eauto|].
    rewrite Hup in Hs1. injection Hs1 as <-. by apply Hsame.
  - destruct (upcall_st w e o l s (Poll_tcp arg) Hs) as (s1 & Hs1 & Hst & Ht); [by eauto|].
    rewrite Hup in Hs1. injection Hs1 as <-. by apply Hsame.
  - exists w, e, l. split; [|split; [by left|done]].
    destruct Hs as [H1 H2 H3 H4 H5 H6]. split; cbn; try done. congruence.
Qed.

Lemma env_st w e o l s s' :
  st w e o l s -> env s s' ->
  exists w' e' l', st w' e' o l' s' /\ answers w e l w' e' l'
    /\ ((forall m d, w <> Posted m d) -> steady -> room (trans s') <= room (trans s)).
Proof using Stream_laws0.
  intros Hs Henv. revert w e l Hs. induction Henv as [s|s s1 s2 Hstep _ IH]; intros w e l Hs.
  - exists w, e, l. split; [done|]. split; [by left|]. done.
  - destruct (env_step_st w e o l s s1 Hs Hstep) as (w1 & e1 & l1 & Hs1 & Ha1 & Hr1).
    destruct (IH w1 e1 l1 Hs1) as (w2 & e2 & l2 & Hs2 & Ha2 & Hr2).
    exists w2, e2, l2. split; [done|]. split; [by eapply answers_trans|].
    intros Hno Hst. specialize (Hr1 Hno Hst).
    assert (Hno1 : forall m d, w1 <> Posted m d).
    { intros m d ->. destruct Ha1 as [(? & _)|(m' & d' & ? & _)]; [by destruct (Hno m d)|by destruct (Hno m' d')]. }
    specialize (Hr2 Hno1 Hst). lia.
Qed.

(** Where the environment has nothing to do. *)
Lemma env_still w e o l s s' :
  st w e o l s -> env s s' -> (forall m d, w <> Posted m d) ->
  st w e o l s' /\ (steady -> room (trans s') <= room (trans s)).
Proof using Stream_laws0.
  intros Hs Henv Hno. destruct (env_st w e o l s s' Hs Henv) as (w' & e' & l' & Hs' & Ha & Hr).
  destruct Ha as [(-> & -> & ->)|(m & d & -> & _)]; [|by destruct (Hno m d)]. auto.
Qed.

(** ** Programs *)

(** The bytes to be written, and what TCP had accepted before. *)
Context (before data : list Z).

Definition accepted (k : nat) : list Z := before ++ take k data.
Definition prefix_ok (l : list Z) : Prop := exists k, l = accepted k.

(** What holds all the time: the prefix, and the environment can take its steps. *)
Definition fine (s : api) : Prop :=
  prefix_ok (log (trans s))
  /\ transport_thread h s <> Undef
  /\ forall arg, about_c arg -> run_upcall h (Sent_tcp arg) s <> Undef /\ run_upcall h (Poll_tcp arg) s <> Undef.

Lemma fine_st w e o l s : st w e o l s -> prefix_ok l -> fine s.
Proof using Stream_laws0.
  intros Hs Hl. split; [by rewrite (st_log _ _ _ _ _ Hs)|]. split.
  - destruct w as [|m d|m d|m|]; try by rewrite (serve_quiet _ _ _ _ _ Hs).
    destruct (serve_posted m d e o l s Hs) as (s' & e' & l' & -> & _). done.
  - intros arg Harg.
    destruct (upcall_st w e o l s (Sent_tcp arg) Hs) as (s1 & -> & _); [by eauto|].
    destruct (upcall_st w e o l s (Poll_tcp arg) Hs) as (s2 & -> & _); [by eauto|]. done.
Qed.

(** [follows Q m s]: the program [m] may be run from [s] on, with any steps of the
    environment before each of its steps; what TCP has accepted is a prefix of the data
    all the time, no step of the program is undefined (if [steady]), and at its end [Q]
    holds. *)
Inductive follows {A} (Q : A -> api -> Prop) : prog A -> api -> Prop :=
  | follows_done a s : Q a s -> follows Q (Done a) s
  | follows_act f s :
      (forall s', env s s' ->
         fine s' /\ (steady -> f s' <> Undef)
         /\ forall m s2, f s' = Ret (m, s2) -> follows Q m s2) ->
      follows Q (Act f) s.

Lemma follows_bind {A B} (Q : A -> api -> Prop) (R : B -> api -> Prop) m (k : A -> prog B) s :
  follows Q m s -> (forall a s, Q a s -> follows R (k a) s) -> follows R (m ≫= k) s.
Proof using.
  intros Hm Hk. revert m s Hm. fix IH 3. intros m s Hm. destruct Hm as [a s Ha|f s Hf].
  - exact (Hk a s Ha).
  - constructor. intros s' Hs'. destruct (Hf s' Hs') as (Hp & Hu & Hr). split; [done|]. split.
    + intros Hst. specialize (Hu Hst). destruct (f s') as [[]| |]; done.
    + intros m2 s2 Hm2. destruct (f s') as [[m1 s1]| |]; try done. injection Hm2 as <- <-.
      by apply IH, Hr.
Qed.

Definition good (w : place) (l : list Z) : Prop :=
  prefix_ok l /\ match w with Posted _ d => prefix_ok (l ++ d) | _ => True end.

Lemma good_answers w e l w' e' l' : good w l -> answers w e l w' e' l' -> good w' l'.
Proof using.
  intros [H1 H2] [(-> & -> & ->)|(m & d & -> & -> & [[_ ->]|[_ ->]])].
  - exact (conj H1 H2).
  - exact (conj H2 I).
  - exact (conj H1 I).
Qed.

Definition unposted (w : place) : Prop := forall m d, w <> Posted m d.

Lemma follows_step {A} w e o l s (m : action T A) Q :
  st w e o l s -> good w l ->
  (forall w' e' l' s', answers w e l w' e' l' -> st w' e' o l' s' ->
     (steady -> m s' <> Undef) /\ forall a s2, m s' = Ret (a, s2) -> Q a s2) ->
  follows Q (atomically m) s.
Proof using Stream_laws0.
  intros Hs Hg Hm. constructor. intros s' Henv.
  destruct (env_st w e o l s s' Hs Henv) as (w' & e' & l' & Hs' & Ha & _).
  split; [eapply fine_st; [done|]; by apply (good_answers w e l w' e' l')|].
  destruct (Hm w' e' l' s' Ha Hs') as [Hu Hr].
  destruct (m s') as [[a s2]| |] eqn:Hms; cbn; [|split; [done|by intros]|split; [intros Hst; by destruct (Hu Hst)|by intros]].
  split; [done|]. intros m' s3 [= <- <-]. constructor. by apply Hr.
Qed.

(** A step of a thread whose message is not with the transport thread. *)
Lemma follows_quiet {A} w e o l s (m : action T A) Q :
  st w e o l s -> prefix_ok l -> unposted w ->
  (forall s', st w e o l s' -> (steady -> room (trans s') <= room (trans s)) ->
     (steady -> m s' <> Undef) /\ forall a s2, m s' = Ret (a, s2) -> Q a s2) ->
  follows Q (atomically m) s.
Proof using Stream_laws0.
  intros Hs Hl Hw Hm. constructor. intros s' Henv.
  destruct (env_still w e o l s s' Hs Henv Hw) as [Hs' Hr'].
  split; [by eapply fine_st|]. destruct (Hm s' Hs' Hr') as [Hu Hr].
  destruct (m s') as [[a s2]| |] eqn:Hms; cbn; [|split; [done|by intros]|split; [intros Hst; by destruct (Hu Hst)|by intros]].
  split; [done|]. intros m' s3 [= <- <-]. constructor. by apply Hr.
Qed.

(** *** Steps *)

Lemma follows_read {A} w e o l s (f : netconn -> A) :
  st w e o l s -> prefix_ok l -> unposted w ->
  follows (fun a s' => st w e o l s' /\ exists n, a = f n /\ type n = NETCONN_TCP /\ sem n = o /\ err n = e)
    (read c f) s.
Proof using Stream_laws0.
  intros Hs Hl Hw. apply (follows_quiet w e o l s); try done. intros s' Hs' _.
  pose proof (st_conn _ _ _ _ _ Hs') as (n & Hn & Ht & _ & _ & Ho & He).
  unfold conn, mbind, action_bind, mret, action_ret. rewrite Hn. cbn. split; [done|].
  intros a s2 [= <- <-]. split; [done|]. by exists n.
Qed.

Lemma follows_write w e o l s f e' :
  st w e o l s -> prefix_ok l -> unposted w ->
  (forall n, err n = e -> type (f n) = type n /\ pcb (f n) = pcb n /\ mbox (f n) = mbox n
     /\ sem (f n) = sem n /\ err (f n) = e') ->
  follows (fun _ s' => st w e' o l s') (write c f) s.
Proof using Stream_laws0.
  intros Hs Hl Hw Hf. apply (follows_quiet w e o l s); try done. intros s' Hs' _.
  destruct Hs' as [(n & Hn & Ht & Hp & Hb & Ho & He) Hsem Hlog Hbox Hin Hm].
  unfold update. rewrite Hn. cbn. split; [done|]. intros a s2 [= _ <-].
  destruct (Hf n He) as (F1 & F2 & F3 & F4 & F5). split; cbn; try done.
  exists (f n). rewrite lookup_insert_eq, F1, F2, F3, F4. done.
Qed.

Lemma follows_wait w e i l s :
  st w e (Some i) l s -> prefix_ok l -> unposted w ->
  follows (fun _ s' => st w e (Some i) l s') (atomically (sys_sem_wait i)) s.
Proof using Stream_laws0.
  intros Hs Hl Hw. apply (follows_quiet w e (Some i) l s); try done. intros s' Hs' _.
  destruct Hs' as [Hn Hsem Hlog Hbox Hin Hm]. destruct (Hsem i eq_refl) as [x Hx].
  unfold sys_sem_wait. rewrite Hx. cbn. unfold SysArch.sys_sem_wait.
  destruct (x <=? 0); cbn; [split; [done|by intros]|]. split; [done|]. intros a s2 [= _ <-].
  split; cbn; try done. intros j [= <-]. rewrite lookup_insert_eq. by eexists.
Qed.

(** The space that is read, as long as nothing happens. *)
Lemma follows_sndbuf w e o l s :
  st w e o l s -> prefix_ok l -> unposted w ->
  follows (fun r s' => st w e o l s' /\ room (trans s') = r /\ (steady -> r <= room (trans s))) (sndbuf c) s.
Proof using Stream_laws0.
  intros Hs Hl Hw. apply (follows_quiet w e o l s); try done. intros s' Hs' Hr.
  pose proof (st_conn _ _ _ _ _ Hs') as (n & Hn & Ht & Hp & _).
  unfold conn, call, mbind, action_bind, mret, action_ret. rewrite Hn. cbn. rewrite Hp. cbn.
  rewrite sl_sndbuf. cbn. split; [done|]. intros a s2 [= <- <-]. split; [|by split].
  destruct Hs' as [H1 H2 H3 H4 H5 H6]. by split.
Qed.

(** *** The message and its answer *)

Lemma follows_bytes m x e o l d copy s :
  st (Mine m x) e o l s -> prefix_ok l ->
  follows (fun _ s' => st (Mine m (Some d)) e o l s')
    (atomically (modify (fun s => set_msgs (<[m := ApiMsg (API_MSG_WRITE d copy) c]> (msgs s)) s))) s.
Proof using Stream_laws0.
  intros Hs Hl. apply (follows_quiet (Mine m x) e o l s); try done. intros s' [H1 H2 H3 H4 H5 _] _.
  split; [done|]. intros a s2 [= _ <-]. split; cbn; try done. exists copy. by rewrite lookup_insert_eq.
Qed.

(** Between the request and its answer. *)
Definition awaiting (m : Z) (d : list Z) (e : err_t) (l : list Z) (w : place) (e' : err_t) (l' : list Z) : Prop :=
  (w = Posted m d /\ e' = e /\ l' = l) \/ (w = Lost /\ e' = e /\ l' = l)
  \/ (w = Replied m /\ (e' = ERR_OK /\ l' = l ++ d \/ e' = ERR_MEM /\ l' = l)).
Definition waits (m : Z) (d : list Z) (e : err_t) (o : option Z) (l : list Z) (s : api) : Prop :=
  exists w e' l', awaiting m d e l w e' l' /\ st w e' o l' s.

Lemma awaiting_answers m d e l w e1 l1 w' e' l' :
  awaiting m d e l w e1 l1 -> answers w e1 l1 w' e' l' -> awaiting m d e l w' e' l'.
Proof using.
  intros Hw [(-> & -> & ->)|(m' & d' & -> & -> & Hr)]; [done|].
  destruct Hw as [([= <- <-] & -> & ->)|[(? & _)|(? & _)]]; [|done|done]. right. right. by split.
Qed.

Lemma awaiting_good m d e l w e' l' :
  awaiting m d e l w e' l' -> prefix_ok l -> prefix_ok (l ++ d) -> good w l'.
Proof using.
  intros [(-> & _ & ->)|[(-> & _ & ->)|(-> & [[_ ->]|[_ ->]])]] H1 H2; by split.
Qed.

Lemma follows_waiting {A} m d e o l s (x : action T A) Q :
  waits m d e o l s -> prefix_ok l -> prefix_ok (l ++ d) ->
  (forall w e' l' s', awaiting m d e l w e' l' -> st w e' o l' s' ->
     (steady -> x s' <> Undef) /\ forall a s2, x s' = Ret (a, s2) -> Q a s2) ->
  follows Q (atomically x) s.
Proof using Stream_laws0.
  intros (w & e1 & l1 & Hw & Hs) H1 H2 Hx.
  apply (follows_step w e1 o l1); [done|by eapply awaiting_good|]. intros w' e' l' s' Ha Hs'.
  apply (Hx w' e' l'); [by eapply awaiting_answers|done].
Qed.

Lemma follows_post m d e o l s :
  st (Mine m (Some d)) e o l s -> prefix_ok l ->
  follows (fun _ s' => waits m d e o l s') (atomically (api_msg_post m)) s.
Proof using Stream_laws0.
  intros Hs Hl. apply (follows_quiet (Mine m (Some d)) e o l s); try done.
  intros s' [H1 H2 H3 H4 H5 (copy & H6)] _.
  unfold api_msg_post, transport_apimsg, alloc, post_inbox, modify, mbind, action_bind, mret, action_ret.
  assert (Hposted : forall a, waits m d e o l
    (Api (trans s') (conns s') (netbufs s') (msgs s') (boxes s') (sems s') (inbox s' ++ [TCP_MSG_API m]) a (next s'))).
  { intros a. exists (Posted m d), e, l. split; [by left|]. split; cbn; try done; [by rewrite H5|by exists copy]. }
  destruct (allocs s') as [|[] al] eqn:Ha; cbn; (split; [done || (unfold free_in; cbn; by rewrite H6)|]).
  - intros a s2 [= _ <-]. apply (Hposted (allocs s')).
  - intros a s2 [= _ <-]. apply (Hposted al).
  - unfold free_in. cbn. rewrite H6. cbn. intros a s2 [= _ <-]. exists Lost, e, l.
    split; [right; by left|]. by split.
Qed.

Lemma follows_request m d e o l s :
  st (Mine m (Some d)) e o l s -> prefix_ok l -> prefix_ok (l ++ d) ->
  follows (fun _ s' => exists e' l', st (Mine m None) e' o l' s'
             /\ (e' = ERR_OK /\ l' = l ++ d \/ e' = ERR_MEM /\ l' = l))
    (post_and_wait c m) s.
Proof using Stream_laws0.
  intros Hs H1 H2. unfold post_and_wait. eapply follows_bind; [by apply (follows_post m d e o l)|].
  intros ? s1 Hw. cbn beta in Hw.
  eapply (follows_bind (fun x s' => x = b /\ waits m d e o l s')).
  - apply (follows_waiting m d e o l); try done. intros w e' l' s' Ha Hs'.
    pose proof (st_conn _ _ _ _ _ Hs') as (n & Hn & _ & _ & Hb & _).
    unfold conn, mbind, action_bind, mret, action_ret. rewrite Hn. cbn. rewrite Hb. cbn. split; [done|].
    intros x s2 [= <- <-]. split; [done|]. by exists w, e', l'.
  - intros x s2 [-> Hw2]. eapply (follows_bind (fun _ s' => exists e' l', st (Mine m None) e' o l' s'
             /\ (e' = ERR_OK /\ l' = l ++ d \/ e' = ERR_MEM /\ l' = l))); [|by constructor].
    apply (follows_waiting m d e o l); try done. intros w e' l' s' Ha [G1 G2 G3 G4 G5 G6].
    unfold sys_mbox_fetch. rewrite G4. cbn.
    destruct Ha as [(-> & -> & ->)|[(-> & -> & ->)|(-> & Hr)]]; cbn; (split; [done|]); try by intros.
    intros x s3 [= _ <-]. exists e', l'. split; [|done]. split; cbn; try done. by rewrite lookup_insert_eq.
Qed.

(** *** The loop *)

Lemma prefix_accepted k : prefix_ok (accepted k).
Proof using. by exists k. Qed.

Lemma accepted_more k n : accepted k ++ take n (drop k data) = accepted (k + n).
Proof using. unfold accepted. by rewrite <- app_assoc, take_take_drop. Qed.

Hint Resolve prefix_accepted : core.

Lemma unposted_mine m x : unposted (Mine m x).
Proof using. by intros ? ?. Qed.
Hint Resolve unposted_mine : core.

(** The number of bytes of a round. *)
Lemma follows_len m x i l size s :
  st (Mine m x) ERR_OK (Some i) l s -> prefix_ok l -> 0 <= size ->
  follows (fun len s' => st (Mine m x) ERR_OK (Some i) l s'
             /\ exists v, len = Some v /\ 0 <= v /\ (steady -> v <= size))
    (write_len c i size) s.
Proof using Stream_laws0.
  intros Hs Hl Hsize. unfold write_len.
  eapply follows_bind; [by apply (follows_read (Mine m x) ERR_OK (Some i) l)|].
  intros t s1 (Hs1 & n & -> & Ht & _). rewrite bool_decide_eq_true_2 by done.
  eapply follows_bind; [by apply (follows_sndbuf (Mine m x) ERR_OK (Some i) l)|]. intros r1 s2 (Hs2 & _).
  eapply (follows_bind (fun ok s' => ok = true /\ st (Mine m x) ERR_OK (Some i) l s')).
  - destruct (r1 =? 0); [|by constructor].
    eapply follows_bind; [by apply follows_wait|]. intros ? s3 Hs3. cbn beta in Hs3.
    eapply follows_bind; [by apply (follows_read (Mine m x) ERR_OK (Some i) l)|].
    intros e s4 (Hs4 & n4 & -> & _ & _ & He). constructor. split; [|done]. by apply bool_decide_eq_true_2.
  - intros ok s3 [-> Hs3].
    eapply follows_bind; [by apply (follows_sndbuf (Mine m x) ERR_OK (Some i) l)|]. intros r2 s4 (Hs4 & Hr2 & _).
    destruct (Z.ltb_spec r2 size); [|constructor; split; [done|]; by exists size].
    eapply follows_bind; [by apply (follows_sndbuf (Mine m x) ERR_OK (Some i) l)|]. intros r3 s5 (Hs5 & Hr3 & Hle).
    constructor. split; [done|]. exists r3. split; [done|]. split; [rewrite <- Hr3; apply sl_room|].
    intros Hst. specialize (Hle Hst). lia.
Qed.

Lemma follows_round m x i k copy s :
  st (Mine m x) ERR_OK (Some i) (accepted k) s ->
  follows (fun r s' => exists k', r = inl (drop k' data) /\ st (Mine m None) ERR_OK (Some i) (accepted k') s')
    (write_round c m i (drop k data) copy) s.
Proof using Stream_laws0.
  intros Hs. set (size := Z.of_nat (length (drop k data))).
  unfold write_round. fold size.
  eapply follows_bind; [apply (follows_len m x i (accepted k) size s Hs); [done|lia]|].
  intros len s1 (Hs1 & v & -> & Hv & Hst). set (now := take (Z.to_nat v) (drop k data)).
  destruct (Z.ltb_spec size v).
  { apply (follows_quiet (Mine m x) ERR_OK (Some i) (accepted k)); try done. intros s' _ _. split; [|done].
    intros Hsteady. specialize (Hst Hsteady). lia. }
  eapply follows_bind; [by apply (follows_bytes m x ERR_OK (Some i) (accepted k) now copy)|].
  intros ? s2 Hs2. cbn beta in Hs2.
  eapply follows_bind.
  { apply (follows_request m now ERR_OK (Some i) (accepted k) s2 Hs2); [done|]. unfold now.
    rewrite accepted_more. done. }
  intros ? s3 (e' & l' & Hs3 & Hr). cbn beta in Hs3.
  assert (Hl' : prefix_ok l').
  { destruct Hr as [[_ ->]|[_ ->]]; [unfold now; rewrite accepted_more|]; done. }
  eapply follows_bind; [by apply (follows_read (Mine m None) e' (Some i) l')|].
  intros e s4 (Hs4 & n & -> & _ & _ & He). rewrite He.
  destruct Hr as [[-> ->]|[-> ->]].
  - rewrite bool_decide_eq_true_2 by done. constructor. exists (k + Z.to_nat v)%nat.
    rewrite drop_drop. split; [done|]. unfold now in Hs4. by rewrite accepted_more in Hs4.
  - rewrite bool_decide_eq_false_2, bool_decide_eq_true_2 by done.
    eapply follows_bind; [by apply (follows_write (Mine m None) ERR_MEM (Some i) (accepted k) s4 (set_err ERR_OK) ERR_OK)|].
    intros ? s5 Hs5. cbn beta in Hs5. eapply follows_bind; [by apply follows_wait|].
    intros ? s6 Hs6. constructor. by exists k.
Qed.

Lemma follows_loop fuel m i copy : forall k x s,
  st (Mine m x) ERR_OK (Some i) (accepted k) s ->
  follows (fun trouble s' => trouble = false /\ exists x k', st (Mine m x) ERR_OK (Some i) (accepted k') s' /\ drop k' data = [])
    (write_loop fuel c m i (drop k data) copy) s.
Proof using Stream_laws0.
  induction fuel as [|fuel IH]; intros k x s Hs; cbn [write_loop].
  - constructor. intros s' Henv.
    destruct (env_still _ _ _ _ _ _ Hs Henv ltac:(done)) as [Hs' _].
    split; [by eapply fine_st|]. by split.
  - eapply follows_bind; [by apply (follows_read (Mine m x) ERR_OK (Some i) (accepted k))|].
    intros e s1 (Hs1 & n & -> & _ & _ & He). rewrite He, bool_decide_eq_true_2 by done. cbn [andb].
    destruct (Z.ltb_spec 0 (Z.of_nat (length (drop k data)))) as [Hlt|Hge].
    + eapply follows_bind; [by apply (follows_round m x)|]. intros r s2 (k' & -> & Hs2). by apply (IH k' None).
    + constructor. split; [done|]. exists x, k. split; [done|]. apply nil_length_inv. lia.
Qed.

(** *** The whole function *)

Lemma follows_new_sem l s :
  st Free ERR_OK None l s -> prefix_ok l ->
  follows (fun o s' => st Free ERR_OK o l s')
    (atomically (i ← sys_sem_new; update c (set_sem i);; mret i)) s.
Proof using Stream_laws0.
  intros Hs Hl. apply (follows_quiet Free ERR_OK None l s); try done. intros s' [(n & Hn & Ht & Hp & Hb & Ho & He) H2 H3 H4 H5 H6] _.
  unfold sys_sem_new, new_in, alloc, fresh, modify, update, mbind, action_bind, mret, action_ret.
  destruct (allocs s') as [|[] al]; cbn; rewrite Hn; cbn; (split; [done|]); intros a s2 [= <- <-]; split; cbn; try done;
    try (exists (set_sem (Some (next s')) n); by rewrite lookup_insert_eq);
    try (exists (set_sem None n); by rewrite lookup_insert_eq);
    intros j [= <-]; rewrite lookup_insert_eq; by eexists.
Qed.

Lemma follows_new_msg op o l s :
  st Free ERR_OK o l s -> prefix_ok l ->
  follows (fun r s' => st (match r with Some m => Mine m None | None => Free end) ERR_OK o l s')
    (new_msg op c) s.
Proof using Stream_laws0.
  intros Hs Hl. apply (follows_quiet Free ERR_OK o l s); try done. intros s' [H1 H2 H3 H4 H5 H6] _.
  unfold new_in, alloc, fresh, modify, mbind, action_bind, mret, action_ret.
  destruct (allocs s') as [|[] al]; cbn; (split; [done|]); intros a s2 [= <- <-]; split; cbn; try done;
    rewrite lookup_insert_eq; by eexists.
Qed.

Lemma follows_free_msg m x e o l s :
  st (Mine m x) e o l s -> prefix_ok l -> follows (fun _ s' => st Free e o l s') (free_msg m) s.
Proof using Stream_laws0.
  intros Hs Hl. apply (follows_quiet (Mine m x) e o l s); try done. intros s' [H1 H2 H3 H4 H5 H6] _.
  assert (Hm : is_Some (msgs s' !! m)) by (destruct x; [destruct H6 as [copy ->]; by eexists|done]).
  destruct Hm as [a Ha]. unfold free_in. rewrite Ha. cbn. split; [done|]. intros u s2 [= _ <-]. by split.
Qed.

(** What holds when [netconn_write] has returned [r]. *)
Definition written (r : err_t) (s : api) : Prop :=
  exists e o l, st Free e o l s /\ prefix_ok l /\ (r = ERR_OK -> l = before ++ data).

Lemma follows_netconn_write fuel copy o s :
  st Free ERR_OK o before s -> follows written (netconn_write fuel (Some c) data copy) s.
Proof using Stream_laws0.
  intros Hs. assert (H0 : accepted 0 = before) by (unfold accepted; by rewrite take_0, app_nil_r).
  assert (Hb : prefix_ok before) by (by exists 0%nat).
  assert (Hno : forall x, unposted x -> unposted x) by done.
  assert (Hfree : unposted Free) by (by intros ? ?).
  unfold netconn_write. eapply follows_bind; [by apply (follows_read Free ERR_OK o before)|].
  intros e s1 (Hs1 & n & -> & _ & _ & He). rewrite He, bool_decide_eq_true_2 by done. cbn [negb].
  eapply follows_bind; [by apply (follows_read Free ERR_OK o before)|].
  intros x s2 (Hs2 & n2 & -> & _ & Ho & _). rewrite Ho. clear dependent n n2.
  eapply (follows_bind (fun x s' => st Free ERR_OK x before s')).
  { destruct o as [i|]; [by constructor|by apply follows_new_sem]. }
  intros [i|] s3 Hs3; [|constructor; exists ERR_OK, None, before; done].
  eapply follows_bind; [by apply (follows_new_msg _ (Some i) before)|]. intros [m|] s4 Hs4.
  - eapply follows_bind.
    { apply (follows_write (Mine m None) ERR_OK (Some i) before s4 (set_state NETCONN_WRITE) ERR_OK); done. }
    intros ? s5 Hs5. cbn beta in Hs5. rewrite <- H0 in Hs5.
    eapply follows_bind; [apply (follows_loop fuel m i copy 0 None s5 Hs5)|].
    intros t s6 (-> & x & k & Hs6 & Hk). eapply follows_bind; [by apply (follows_free_msg m x)|].
    intros ? s7 Hs7. cbn beta in Hs7.
    eapply (follows_bind (fun _ s' => st Free ERR_OK (Some i) (accepted k) s')); [by constructor|].
    intros ? s8 Hs8. cbn beta in Hs8.
    assert (Hall : accepted k = before ++ data).
    { unfold accepted. rewrite <- (take_drop k data) at 2. by rewrite Hk, app_nil_r. }
    constructor. intros s9 Henv.
    destruct (env_still _ _ _ _ _ _ Hs8 Henv Hfree) as [Hs9 _].
    split; [by eapply fine_st|].
    pose proof (st_conn _ _ _ _ _ Hs9) as (n & Hn & _ & _ & _ & _ & He9).
    unfold conn, mbind, action_bind, mret, action_ret, outcome_bind. rewrite Hn. cbn. split; [done|].
    intros q s10 [= <- <-]. constructor. exists ERR_OK, (Some i), (accepted k). done.
  - unfold fail. eapply follows_bind.
    { apply (follows_write Free ERR_OK (Some i) before s4 (set_err ERR_MEM) ERR_MEM); done. }
    intros ? s5 Hs5. constructor. by exists ERR_MEM, (Some i), before.
Qed.

End Write.

(** ** All interleavings *)

Section System.

Context {T : Type} `{HT : Transport T} (log : T -> list Z) (room : T -> Z) (p : Z).
Context `{!Stream_laws T log room p}.
Context (h : netconn) (c b : Z) (before data : list Z).

(** What happens besides the thread: the transport thread, signals for the connection, and
    changes of TCP that accept no bytes; [steady]: the space does not grow. *)
Definition stream_event (steady : Prop) (e : event T) (s : sys T) : Prop :=
  match e with
  | Upcall (Sent_tcp arg) | Upcall (Poll_tcp arg) => about_c c arg
  | Upcall _ => False
  | Network t => log t = log (trans (shared s)) /\ (steady -> room t <= room (trans (shared s)))
  | _ => True
  end.

Fixpoint stream_events (steady : Prop) (es : list (event T)) (s : sys T) : Prop :=
  match es with
  | [] => True
  | e :: es =>
      stream_event steady e s
      /\ match sys_step h e s with Ret s' => stream_events steady es s' | _ => True end
  end.

Section Steady.

Context (steady : Prop).

Notation env := (rtc (env_step log room h c steady)).
Notation written := (written log p c b before data).
Notation follows := (follows log room h c steady before data).

(** The one thread and the state it was last in. *)
Definition writing (s : sys T) : Prop :=
  exists m s0, threads s = [(c, m)] /\ follows written m s0 /\ env s0 (shared s).

Lemma written_env r s s' :
  written r s -> env s s' ->
  written r s' /\ prefix_ok before data (log (trans s')) /\ fine log h c before data s'.
Proof using Stream_laws0.
  intros (e & o & l & Hs & Hl & Hr) Henv.
  destruct (env_still log room p h c b steady _ _ _ _ _ _ Hs Henv) as [Hs' _]; [by intros ? ?|].
  split; [by exists e, o, l|]. split; [by rewrite (st_log _ _ _ _ _ _ _ _ _ Hs')|].
  by eapply (fine_st log room p h c b before data).
Qed.

Lemma writing_fine s : writing s -> fine log h c before data (shared s).
Proof using Stream_laws0.
  intros (m & s0 & _ & Hm & Henv). destruct Hm as [r s0 Hr|f s0 Hf].
  - by destruct (written_env r s0 (shared s) Hr Henv) as (_ & _ & ?).
  - by destruct (Hf (shared s) Henv) as (? & _).
Qed.

Lemma writing_step e s :
  writing s -> stream_event steady e s ->
  (steady -> sys_step h e s <> Undef) /\ forall s', sys_step h e s = Ret s' -> writing s'.
Proof using Stream_laws0.
  intros Hw He. pose proof (writing_fine s Hw) as (_ & Hserve & Hup).
  pose proof Hw as (m & s0 & Hth & Hm & Henv).
  assert (Hshared : forall (o : outcome (unit * api T)),
    o <> Undef -> (forall x, o = Ret (tt, x) -> env_step log room h c steady (shared s) x) ->
    (steady -> unless_blocked o (fun _ x => Sys x (threads s)) s <> Undef)
    /\ forall s', unless_blocked o (fun _ x => Sys x (threads s)) s = Ret s' -> writing s').
  { intros o Ho Hx. destruct o as [[[] x]| |]; cbn; [|split; [done|by intros s' [= <-]]|done].
    split; [done|]. intros s' [= <-]. exists m, s0. split; [done|]. split; [done|].
    eapply rtc_r; [done|by apply Hx]. }
  destruct e as [i| |u|t]; cbn [sys_step].
  - rewrite Hth. destruct i as [|i]; cbn; [|split; [done|by intros s' [= <-]]].
    destruct m as [r|f]; [split; [done|by intros s' [= <-]]|].
    inversion Hm as [|f' s1 Hf]; subst. destruct (Hf (shared s) Henv) as (_ & Hu & Hr).
    destruct (f (shared s)) as [[m x]| |]; cbn.
    + split; [done|]. intros s' [= <-]. exists m, x. split; [done|]. split; [by apply Hr|apply rtc_refl].
    + split; [done|]. by intros s' [= <-].
    + split; [|done]. intros Hst. by destruct (Hu Hst).
  - apply Hshared; [done|]. intros x Hx. by apply env_serve.
  - destruct u; try done; cbn in He; destruct (Hup arg He) as [H1 H2]; apply Hshared; try done; intros x Hx.
    + by apply (env_poll _ _ _ _ _ _ _ arg).
    + by apply (env_sent _ _ _ _ _ _ _ arg).
  - split; [done|]. intros s' [= <-]. exists m, s0. split; [done|]. split; [done|].
    eapply rtc_r; [done|]. destruct He as [Hl Hroom]. by apply env_network.
Qed.

Lemma writing_run es : forall s,
  writing s -> stream_events steady es s ->
  (steady -> sys_run h es s <> Undef) /\ forall s', sys_run h es s = Ret s' -> writing s'.
Proof using Stream_laws0.
  induction es as [|e es IH]; intros s Hs Hes; cbn; [split; [done|by intros s' [= <-]]|].
  destruct Hes as [He Hes]. destruct (writing_step e s Hs He) as [Hu Hr].
  destruct (sys_step h e s) as [s1| |]; cbn.
  - apply IH; [by apply Hr|exact Hes].
  - split; [done|by intros].
  - split; [intros Hst; by destruct (Hu Hst)|by intros].
Qed.

(** What is seen in a state of such a run. *)
Definition progress (s : sys T) : Prop :=
  (exists k, log (trans (shared s)) = before ++ take k data)
  /\ forall r, threads s = [(c, Done r)] -> r = ERR_OK -> log (trans (shared s)) = before ++ data.

Lemma writing_progress s : writing s -> progress s.
Proof using Stream_laws0.
  intros Hs. pose proof (writing_fine s Hs) as ((k & Hk) & _). split; [by exists k|].
  intros r Hr ->. destruct Hs as (m & s0 & Hm & Hf & Henv). rewrite Hr in Hm. injection Hm as <-.
  inversion Hf as [a s' Hw|]; subst. destruct (written_env _ _ _ Hw Henv) as [(e & o & l & Hst & _ & Hl) _].
  rewrite (st_log _ _ _ _ _ _ _ _ _ Hst). by apply Hl.
Qed.

Lemma start_writing fuel copy s :
  st log p c b Free ERR_OK None before s \/ (exists i, st log p c b Free ERR_OK (Some i) before s) ->
  writing (Sys s [(c, netconn_write fuel (Some c) data copy)]).
Proof using Stream_laws0.
  intros Hs. exists (netconn_write fuel (Some c) data copy), s. split; [done|]. split; [|apply rtc_refl].
  destruct Hs as [Hs|[i Hs]]; by eapply follows_netconn_write.
Qed.

End Steady.

Lemma step_not_blocked e (s : sys T) : sys_step h e s <> Blocked.
Proof using.
  destruct e as [i| |u|t]; cbn; [|by destruct (transport_thread h (shared s)) as [[]| |]
    |by destruct (run_upcall h u (shared s)) as [[]| |]|done].
  destruct (threads s !! i) as [[c' [|f]]|]; [done| |done]. by destruct (f (shared s)) as [[]| |].
Qed.

Lemma run_not_blocked es : forall s : sys T, sys_run h es s <> Blocked.
Proof using.
  induction es as [|e es IH]; intros s; cbn; [done|].
  pose proof (step_not_blocked e s). destruct (sys_step h e s); [apply IH|done|done].
Qed.

End System.

(** A connection of TCP with the block [p], ready to be written to. *)
Definition ready (p : Z) (n : netconn) : Prop := type n = NETCONN_TCP /\ pcb n = Some p /\ err n = ERR_OK.

Lemma start_st {T} `{Transport T} (log : T -> list Z) p n t bufs oks :
  ready p n ->
  exists o, st log p 1 1 Free ERR_OK o (log t) (start t [n] bufs oks) /\ (o = None \/ o = Some 1).
Proof.
  intros (Ht & Hp & He). exists ((fun _ => 1) <$> sem n). split; [|by destruct (sem n); [right|left]].
  split; cbn; try done.
  - exists (made 1 1 n). by rewrite lookup_insert_eq.
  - intros i Hi. destruct (sem n); [|done]. injection Hi as <-. by rewrite lookup_insert_eq.
Qed.


(** ** A small protocol *)

(** It accepts two bytes at a time after having refused a number of times. *)
#[global] Instance grudging : Transport (list Z * nat) := fun A x t =>
  match x in transport_call A return outcome (A * (list Z * nat)) with
  | Tcp_sndbuf _ => Ret (2, t)
  | Tcp_write _ d _ => match t.2 with O => Ret (ERR_OK, (t.1 ++ d, 1%nat)) | S k => Ret (ERR_MEM, (t.1, k)) end
  | Tcp_unacked_null _ => Ret (true, t)
  | Tcp_output _ => Ret (ERR_OK, t)
  | _ => Undef
  end.

#[global] Instance grudging_laws : Stream_laws (list Z * nat) fst (fun _ => 2) 7.
Proof.
  split; try done; intros; cbn.
  - destruct t as [l [|k]]; eexists _, _; (split; [reflexivity|]); cbn; auto.
  - by eexists _, _.
  - by eexists _, _.
Qed.

Definition open_conn : netconn := Netconn NETCONN_TCP NETCONN_NONE (Some 7) ERR_OK None None None None.

(** The thread, the transport thread and a signal after each round. *)
Definition write_events (n : nat) : list (event (list Z * nat)) :=
  concat (replicate n [Thread 0; Thread 0; Serve; Thread 0; Upcall (Sent_tcp (conn_ptr 1))]).

Lemma stream_events_signals n (s : sys (list Z * nat)) : stream_events fst (fun _ => 2) open_conn 1 True (write_events n) s.
Proof.
  assert (H : Forall (fun e : event (list Z * nat) => match e with
    | Upcall (Sent_tcp a) => about_c 1 a | Thread _ | Serve => True | _ => False end) (write_events n)).
  { apply Forall_concat, Forall_replicate. repeat constructor; by right. }
  revert s. induction H as [|e es He _ IH]; intros s; cbn; [done|]. split.
  - destruct e as [| |[]|]; done.
  - destruct (sys_step open_conn e s); [apply IH|done|done].
Qed.


(** In this run all of the data is written. *)
Example all_written :
  match sys_run open_conn (write_events 40)
    (Sys (start ([9], 1%nat) [open_conn] [] []) [(1, netconn_write 20 (Some 1) [1; 2; 3; 4; 5] true)]) with
  | Ret s => (trans (shared s), match threads s with [(_, Done r)] => Some r | _ => None end)
  | _ => (([], 0%nat), None)
  end = (([9; 1; 2; 3; 4; 5], 1%nat), Some ERR_OK).
Proof. vm_compute. reflexivity. Qed.
