(* ===== verification/NetconnFaults.v ===== *)
(** * What goes wrong at the socket interface

    Runs in which requests are lost, answered too early, or touch freed memory.  Each
    is a small system with the protocol [numbered]: what it shows does not depend on
    what TCP and UDP do. *)

From stdpp Require Import base gmap list.
From Stdlib Require Import ZArith Lia.
From S2P Require Import Prelude TcpTypes SysArch Netbuf Netconn NetconnSafe.

(** ** The systems *)

(** One thread with the connection 1. *)
Definition one (n : netconn) (oks : list bool) (p : prog Z err_t) : sys Z :=
  Sys (start 1 [n] [Netbuf None None None 0] oks) [(1, p)].
Definition run_one (es : list (event Z)) (s : sys Z) : outcome (sys Z) := sys_run (blank NETCONN_TCP) es s.

(** The result of the thread, if it is finished. *)
Definition result (o : outcome (sys Z)) : option err_t :=
  match o with
  | Ret s => match threads s with [(_, Done e)] => Some e | _ => None end
  | _ => None
  end.

(** Rounds of the thread and the transport thread. *)
Definition rounds (n : nat) : list (event Z) := concat (replicate n [Thread 0; Serve]).

(** A connection of TCP with a block, a mailbox for data and a semaphore. *)
Definition connected : netconn := Netconn NETCONN_TCP NETCONN_NONE (Some 1) ERR_OK None (Some 0) None (Some 0).

(** ** Requests that are not answered *)

(** When there is no memory for the message to the transport thread the request is
    dropped, and the thread waits at its mailbox for ever. *)
Lemma request_lost :
  exists s,
    run_one [Thread 0; Thread 0; Thread 0; Thread 0; Thread 0]
      (one (blank NETCONN_TCP) [true; false] (netconn_bind (Some 1) Null 80)) = Ret s
    /\ inbox (shared s) = [] /\ result (Ret s) = None
    /\ forall n, run_one (rounds n) s = Ret s.
Proof.
  eexists. split; [vm_compute; reflexivity|]. split; [reflexivity|]. split; [reflexivity|].
  intros n. induction n as [|n IH]; [reflexivity|exact IH].
Qed.

(** What only calls the protocols leaves the connections and the mailboxes. *)
Definition leaves {T} `{Transport T} {A} (m : action T A) : Prop :=
  forall s a s', m s = Ret (a, s') -> boxes s' = boxes s /\ conns s' = conns s.

Section Keeps.

Context {T : Type} `{Transport T}.

Lemma leaves_ret {A} (a : A) : leaves (mret a : action T A).
Proof. by intros s x s' [= _ <-]. Qed.
Lemma leaves_call {A} (x : transport_call A) : leaves (call x).
Proof.
  intros s a s' Hs. unfold call in Hs. destruct (transport A x (trans s)) as [[b t]| |]; try done.
  by injection Hs as _ <-.
Qed.
Lemma leaves_bind {A B} (m : action T A) (k : A -> action T B) :
  leaves m -> (forall a, leaves (k a)) -> leaves (m ≫= k).
Proof.
  intros Hm Hk s b s' Hs. unfold mbind, action_bind in Hs. destruct (m s) as [[a s1]| |] eqn:Hms; try done.
  destruct (Hm _ _ _ Hms) as [<- <-]. by apply (Hk a s1 b s').
Qed.
Lemma leaves_conn c : leaves (conn c : action T netconn).
Proof. intros s a s' Hs. unfold conn in Hs. destruct (conns s !! c); [|done]. by injection Hs as _ <-. Qed.
Lemma leaves_deref {A} (x : option A) : leaves (deref x : action T A).
Proof. destruct x; [apply leaves_ret|done]. Qed.

Hint Resolve leaves_ret leaves_call leaves_bind leaves_conn leaves_deref : leaves.

Lemma leaves_setup_tcp c : leaves (setup_tcp c : action T unit).
Proof. unfold setup_tcp. auto 20 with leaves. Qed.
Lemma leaves_addr_value t a : leaves (addr_value t a : action T (option Z)).
Proof. destruct a; cbn; try apply leaves_ret; (apply leaves_bind; [destruct t|]); auto with leaves. Qed.

Hint Resolve leaves_setup_tcp leaves_addr_value : leaves.

(** The request to connect is not answered by [do_connect], whatever [tcp_connect]
    returns; when that is an error, [do_connected] is not called either. *)
Lemma connect_unanswered c n p a port s u s' :
  conns s !! c = Some n -> pcb n = Some p -> type n = NETCONN_TCP ->
  do_connect c a port s = Ret (u, s') -> boxes s' = boxes s /\ conns s' = conns s.
Proof.
  intros Hn Hp Ht. unfold do_connect, mbind at 1, action_bind at 1, conn at 1. rewrite Hn. cbn.
  rewrite Hp. unfold mret, action_ret, conn at 1. unfold mbind at 1 2, action_bind at 1 2. rewrite Hn. cbn.
  rewrite Hp, Ht. apply leaves_bind; [apply leaves_deref|]. intros q.
  apply leaves_bind; [apply leaves_addr_value|]. intros v.
  apply leaves_bind; [apply leaves_setup_tcp|intros ?].
  apply leaves_bind; [apply leaves_call|intros ?]. apply leaves_ret.
Qed.

End Keeps.

(** ** Requests that are answered too early *)

(** The call for a connection that was aborted is taken for the answer to the next
    request: its message is freed while the transport thread has it. *)
Lemma stray_answer :
  run_one ([Upcall (Err_tcp (conn_ptr 1) ERR_ABRT)] ++ replicate 12 (Thread 0) ++ [Serve])
    (one connected [] (netconn_close 3 (Some 1))) = Undef.
Proof. vm_compute. reflexivity. Qed.

(** ** Errors that are overwritten *)

(** [tcp_write] refuses every byte, and [netconn_write] reports success: the arrival of
    data resets the error before the thread has read it. *)
Lemma refused_write_reported :
  (forall p data copy t, transport _ (Tcp_write p data copy) t = Ret (ERR_MEM, t))
  /\ result (run_one (replicate 12 (Thread 0) ++ [Serve; Upcall (Recv_tcp (conn_ptr 1) (Some (Pbufs [[7]] 1)) ERR_OK)]
                      ++ replicate 12 (Thread 0))
       (one connected [] (netconn_write 3 (Some 1) [1; 2; 3] true))) = Some ERR_OK.
Proof. split; [done|]. vm_compute. reflexivity. Qed.

(** A new connection has the error that the last user of its memory left. *)
Lemma error_not_initialised garbage e :
  err garbage = e -> e <> ERR_OK ->
  result (run_one (replicate 20 (Thread 0))
    (one connected [] (o ← netconn_new garbage NETCONN_UDP; netconn_send o 1))) = Some e.
Proof.
  intros <- He. destruct garbage as [t st pc e m r a i]. cbn in He. destruct e; try done; vm_compute; reflexivity.
Qed.

(** ** Memory that is used after it was freed, or never allocated *)

(** The connection is aborted between the test and the use of its block. *)
Lemma write_without_block :
  run_one (replicate 6 (Thread 0) ++ [Upcall (Err_tcp (conn_ptr 1) ERR_ABRT)] ++ replicate 2 (Thread 0))
    (one connected [] (netconn_write 3 (Some 1) [1; 2; 3] true)) = Undef.
Proof. vm_compute. reflexivity. Qed.

(** The mailbox for data is freed before the pointer to it is cleared. *)
Lemma recv_freed_mailbox :
  run_one ([Upcall (Recv_tcp (conn_ptr 1) None ERR_OK)] ++ replicate 8 (Thread 0)
           ++ [Upcall (Err_tcp (conn_ptr 1) ERR_ABRT)])
    (one connected [] (_ ← netconn_recv (Some 1); mret ERR_OK)) = Undef.
Proof. vm_compute. reflexivity. Qed.

(** Without memory for the mailboxes of a new connection its block is aborted, as
    [accept_function] has failed, but leaves pointing at the connection. *)
Lemma accept_freed_connection garbage :
  match accept_function garbage (acceptmbox_ptr 1) 5 ERR_OK (start 1 [blank NETCONN_TCP] [] [true; false]) with
  | Ret (e, s) => e = ERR_MEM /\ err_tcp (conn_ptr 3) ERR_ABRT s = Undef
  | _ => False
  end.
Proof. vm_compute. split; reflexivity. Qed.

(** The results of [tcp_new] and [udp_new] are used unchecked. *)
Lemma unchecked_block {T} `{Transport T} c n a port s t :
  conns s !! c = Some n -> pcb n = None ->
  transport _ (match type n with NETCONN_TCP => Tcp_new | _ => Udp_new end) (trans s) = Ret (None, t) ->
  do_bind c a port s = Undef.
Proof.
  intros Hn Hp Ht. unfold do_bind, conn, call, update, setup_tcp, mbind, action_bind.
  rewrite Hn. cbn. rewrite Hp.
  destruct (type n) eqn:Hty; rewrite Ht; cbn; rewrite Hn; cbn; try reflexivity.
  unfold conn. cbn. by rewrite lookup_insert_eq.
Qed.

(** ** Bytes behind the data *)

(** A protocol whose send buffer has 2 bytes free, and 256 once it is acknowledged. *)
#[local] Instance acknowledged : Transport bool := fun A x t =>
  match x in transport_call A return outcome (A * bool) with
  | Tcp_sndbuf _ => Ret (if t then 256 else 2, t)
  | Tcp_write _ _ _ => Ret (ERR_OK, t)
  | Tcp_unacked_null _ => Ret (false, t)
  | Tcp_output _ => Ret (ERR_OK, t)
  | _ => Undef
  end.

(** The three bytes do not fit when [netconn_write] compares; the space is read again
    after an acknowledgement, and [tcp_write] is asked for 256 bytes.  Without the
    acknowledgement at that point the run is defined. *)
Lemma write_overrun :
  let s := Sys (start false [connected] [Netbuf None None None 0] []) [(1, netconn_write 3 (Some 1) [1; 2; 3] true)] in
  let until := replicate 8 (Thread 0) in
  sys_run (blank NETCONN_TCP) (until ++ [Network true; Thread 0; Thread 0]) s = Undef
  /\ match sys_run (blank NETCONN_TCP) (until ++ [Thread 0; Network true; Thread 0]) s with
     | Ret _ => True | _ => False
     end.
Proof. split; vm_compute; [reflexivity|exact I]. Qed.
