(* ===== verification/Sockets.v ===== *)
(** * Sockets ([lwtcp/sockets.c])

    A table of ten connections with what was received and not yet read.  The table is
    passed from call to call: it belongs to the one thread that uses the sockets.  The
    calls are programs over the connections of [Netconn].

    [reads_in_order] says what successive reads of a socket return, and
    [alloc_socket_spec] and [alloc_get] what the table does.  The last part has what
    goes wrong. *)

From stdpp Require Import base gmap list.
From Stdlib Require Import ZArith Lia.
From S2P Require Import Prelude TcpTypes SysArch Netbuf Netconn NetconnSafe.

Definition NUM_SOCKETS : Z := 10.
Definition SOCK_STREAM : Z := 1.
Definition SOCK_DGRAM : Z := 2.

(** [struct lwip_socket]; null pointers are [None]. *)
Record struct_lwip_socket := Socket {
  sconn : option Z;
  lastdata : option Z;
  lastoffset : Z
}.

Definition sockets : list struct_lwip_socket := replicate (Z.to_nat NUM_SOCKETS) (Socket None None 0).

(** The socket of a number; [NUM_SOCKETS] itself and negative numbers are let through,
    and lead out of the table. *)
Definition get_socket (table : list struct_lwip_socket) (s : Z) : outcome (option struct_lwip_socket) :=
  if NUM_SOCKETS <? s then Ret None
  else if s <? 0 then Undef
  else
    sock ← load (table !! Z.to_nat s);
    Ret (match sconn sock with None => None | Some _ => Some sock end).

(** The first free place of the table from [i] on. *)
Fixpoint alloc_from (table : list struct_lwip_socket) (newconn : option Z) (i : Z) : list struct_lwip_socket * Z :=
  match table with
  | [] => ([], -1)
  | sock :: table =>
      match sconn sock with
      | None => (Socket newconn None 0 :: table, i)
      | Some _ => let '(table, j) := alloc_from table newconn (i + 1) in (sock :: table, j)
      end
  end.
Definition alloc_socket (table : list struct_lwip_socket) (newconn : option Z) : list struct_lwip_socket * Z :=
  alloc_from table newconn 0.

(** ** The calls *)

Section Sockets.

Context {T : Type} `{Transport T}.

Notation prog := (prog T).

(** What a function without effects on the shared state returns. *)
Definition lift {A} (o : outcome A) : prog A := atomically (fun s => a ← o; Ret (a, s)).

(** A call on an open socket; on others it returns -1. *)
Definition on_socket {A} (table : list struct_lwip_socket) (s : Z) (closed : A)
    (k : struct_lwip_socket -> Z -> prog A) : prog A :=
  sock ← lift (get_socket table s);
  match sock with
  | None => mret closed
  | Some sock => c ← lift (load (sconn sock)); k sock c
  end.

Definition load_netbuf (b : Z) : prog netbuf := atomically (fun s => n ← load (netbufs s !! b); Ret (n, s)).

(** The address and the port of the other side, and the new socket; a connection for
    which there is no place is deleted. *)
Definition lwip_accept (fuel : nat) (table : list struct_lwip_socket) (s : Z) :
    prog (list struct_lwip_socket * Z * option (Z * Z)) :=
  on_socket table s (table, -1, None) (fun _ c =>
    newconn ← netconn_accept (Some c);
    n ← lift (load newconn);
    '(_, naddr, port) ← netconn_peer n;
    a ← atomically (t ← conn n; addr_value (type t) naddr);
    a ← lift (load a);
    let '(table, newsock) := alloc_socket table newconn in
    (if newsock =? -1 then _ ← netconn_delete fuel newconn; mret tt else mret tt);;
    mret (table, newsock, Some (a, port))).

Definition status (e : err_t) : Z := if bool_decide (e = ERR_OK) then 0 else -1.

Definition lwip_bind (table : list struct_lwip_socket) (s addr port : Z) : prog Z :=
  on_socket table s (-1) (fun _ c => e ← netconn_bind (Some c) (Var addr) (ntohs port); mret (status e)).

Definition lwip_close (fuel : nat) (table : list struct_lwip_socket) (s : Z) : prog (list struct_lwip_socket * Z) :=
  on_socket table s (table, -1) (fun sock c =>
    _ ← netconn_delete fuel (Some c);
    atomically (netbuf_delete (lastdata sock));;
    mret (<[Z.to_nat s := Socket None None 0]> table, 0)).

Definition lwip_connect (table : list struct_lwip_socket) (s addr port : Z) : prog Z :=
  on_socket table s (-1) (fun _ c => e ← netconn_connect (Some c) (Var addr) (ntohs port); mret (status e)).

Definition lwip_listen (table : list struct_lwip_socket) (s : Z) : prog Z :=
  on_socket table s (-1) (fun _ c => e ← netconn_listen (Some c); mret (status e)).

(** What is read: the table, the result, the bytes that are stored, and where they are
    from when the caller asks for it. *)
Record received := Received {
  rtable : list struct_lwip_socket;
  rlen : Z;
  rdata : list Z;
  rfrom : option (Z * Z)
}.

Definition lwip_recvfrom (table : list struct_lwip_socket) (s len : Z) (from : bool) : prog received :=
  on_socket table s (Received table (-1) [] None) (fun sock c =>
    buf ← match lastdata sock with Some b => mret (Some b) | None => netconn_recv (Some c) end;
    match buf with
    | None => mret (Received table 0 [] None)
    | Some buf =>
        b ← load_netbuf buf;
        total ← lift (netbuf_len b);
        let buflen := u16 (total - lastoffset sock) in
        let copylen := if buflen <? len then buflen else u16 len in
        let mem := netbuf_copy_partial b copylen (lastoffset sock) in
        t ← read c type;
        table ← (if bool_decide (t = NETCONN_TCP) && (0 <? buflen - copylen)
                 then mret (<[Z.to_nat s := Socket (sconn sock) (Some buf) (u16 (lastoffset sock + copylen))]> table)
                 else atomically (netbuf_delete (Some buf));;
                      mret (<[Z.to_nat s := Socket (sconn sock) None 0]> table));
        from ← (if from
                then b ← load_netbuf buf; a ← lift (load (fromaddr b)); mret (Some (a, htons (fromport b)))
                else mret None);
        mret (Received table (if copylen <? len then copylen else len) mem from)
    end).

Definition lwip_recv (table : list struct_lwip_socket) (s len : Z) : prog received := lwip_recvfrom table s len false.
Definition lwip_read (table : list struct_lwip_socket) (s len : Z) : prog received := lwip_recv table s len.

(** The data as a datagram: in a new buffer that refers to it. *)
Definition send_datagram (garbage : netbuf) (c : Z) (data : list Z) : prog (option err_t) :=
  buf ← atomically (new_in netbufs set_netbufs (netbuf_new garbage));
  match buf with
  | None => mret None
  | Some buf =>
      ok ← atomically alloc;
      b ← load_netbuf buf;
      b ← lift (netbuf_ref b data (Z.of_nat (length data)) ok);
      atomically (modify (fun s => set_netbufs (<[buf := b]> (netbufs s)) s));;
      e ← netconn_send (Some c) buf;
      atomically (netbuf_delete (Some buf));;
      mret (Some e)
  end.

Definition sent_size (data : list Z) (e : option err_t) : Z :=
  if bool_decide (e = Some ERR_OK) then Z.of_nat (length data) else -1.

(** [netconn_write] takes 16 bits of the size. *)
Definition write_stream (fuel : nat) (c : Z) (data : list Z) : prog (option err_t) :=
  e ← netconn_write fuel (Some c) (take (Z.to_nat (u16 (Z.of_nat (length data)))) data) true; mret (Some e).

Definition lwip_send (garbage : netbuf) (fuel : nat) (table : list struct_lwip_socket) (s : Z) (data : list Z) : prog Z :=
  on_socket table s (-1) (fun _ c =>
    t ← read c type;
    e ← match t with
        | NETCONN_UDP => send_datagram garbage c data
        | NETCONN_TCP => write_stream fuel c data
        | _ => mret (Some ERR_ARG)
        end;
    mret (sent_size data e)).

(** The old remote address is kept by its pointer, and restored with it. *)
Definition lwip_sendto (garbage : netbuf) (fuel : nat) (table : list struct_lwip_socket) (s : Z) (data : list Z)
    (to_addr to_port : Z) : prog Z :=
  on_socket table s (-1) (fun _ c =>
    '(_, addr, port) ← netconn_peer c;
    netconn_connect (Some c) (Var to_addr) to_port;;
    ret ← lwip_send garbage fuel table s data;
    netconn_connect (Some c) addr port;;
    mret ret).

Definition lwip_socket (garbage : netconn) (fuel : nat) (table : list struct_lwip_socket) (t : Z) :
    prog (list struct_lwip_socket * Z) :=
  let make (k : netconn_type) :=
    o ← netconn_new garbage k;
    match o with
    | None => mret (table, -1)
    | Some _ =>
        let '(table, i) := alloc_socket table o in
        (if i =? -1 then _ ← netconn_delete fuel o; mret tt else mret tt);;
        mret (table, i)
    end in
  if t =? SOCK_DGRAM then make NETCONN_UDP
  else if t =? SOCK_STREAM then make NETCONN_TCP
  else mret (table, -1).

Definition lwip_write (garbage : netbuf) (fuel : nat) (table : list struct_lwip_socket) (s : Z) (data : list Z) : prog Z :=
  on_socket table s (-1) (fun _ c =>
    t ← read c type;
    match t with
    | NETCONN_UDP => lwip_send garbage fuel table s data
    | NETCONN_TCP => e ← write_stream fuel c data; mret (sent_size data e)
    | _ => mret (-1)
    end).

End Sockets.

(** ** The table *)

(** The number of a socket in the table leads to its place, if it is open. *)
Lemma get_socket_in table s sock :
  table !! Z.to_nat s = Some sock -> 0 <= s < NUM_SOCKETS ->
  get_socket table s = Ret (match sconn sock with None => None | Some _ => Some sock end).
Proof.
  intros Hs Hr. unfold get_socket. destruct (Z.ltb_spec NUM_SOCKETS s); [lia|].
  destruct (Z.ltb_spec s 0); [lia|]. by rewrite Hs.
Qed.

Lemma alloc_from_spec table c : forall i,
  (exists k sock, table !! k = Some sock /\ sconn sock = None
     /\ (forall k' sock', (k' < k)%nat -> table !! k' = Some sock' -> is_Some (sconn sock'))
     /\ alloc_from table (Some c) i = (<[k := Socket (Some c) None 0]> table, i + Z.of_nat k))
  \/ (Forall (fun sock => is_Some (sconn sock)) table /\ alloc_from table (Some c) i = (table, -1)).
Proof.
  induction table as [|sock table IH]; intros i; [right; by split|]. cbn [alloc_from].
  destruct (sconn sock) as [c0|] eqn:Hc.
  - destruct (IH (i + 1)) as [(k & sk & Hk & Hn & Hlow & ->)|[Hall ->]].
    + left. exists (S k), sk. split; [done|]. split; [done|]. split; [|f_equal; lia].
      intros [|k'] sk' Hlt Hk'; cbn in Hk'; [injection Hk' as <-; by rewrite Hc|].
      apply (Hlow k'); [lia|done].
    + right. split; [|done]. constructor; [by rewrite Hc|done].
  - left. exists 0%nat, sock. split; [done|]. split; [done|]. split; [intros k' ? Hk'; lia|].
    cbn. f_equal. lia.
Qed.

(** A new socket gets the lowest free number, under which it is found and nothing else is
    changed; when all ten are open the result is -1. *)
Theorem alloc_socket_spec table c :
  length table = Z.to_nat NUM_SOCKETS ->
  let '(table', s) := alloc_socket table (Some c) in
  (s = -1 /\ table' = table /\ Forall (fun sock => is_Some (sconn sock)) table)
  \/ (0 <= s < NUM_SOCKETS /\ get_socket table s = Ret None
      /\ (forall t, 0 <= t < s -> exists sock, get_socket table t = Ret (Some sock))
      /\ get_socket table' s = Ret (Some (Socket (Some c) None 0))
      /\ forall t, t <> s -> get_socket table' t = get_socket table t).
Proof.
  intros Hlen. unfold alloc_socket.
  destruct (alloc_from_spec table c 0) as [(k & sock & Hk & Hn & Hlow & ->)|[Hall ->]]; [right|by left].
  assert (Hlt : (k < Z.to_nat NUM_SOCKETS)%nat) by (rewrite <- Hlen; by eapply lookup_lt_Some).
  assert (Hr : 0 <= 0 + Z.of_nat k < NUM_SOCKETS) by lia.
  assert (Hnat : Z.to_nat (0 + Z.of_nat k) = k) by lia.
  split; [done|]. split; [|split; [|split]].
  - rewrite (get_socket_in _ _ sock) by (by rewrite ?Hnat). by rewrite Hn.
  - intros t Ht. destruct (lookup_lt_is_Some_2 table (Z.to_nat t) ltac:(lia)) as [st Hst]. exists st.
    rewrite (get_socket_in _ _ st) by (done || lia).
    destruct (Hlow (Z.to_nat t) st ltac:(lia) Hst) as [c' ->]. done.
  - rewrite (get_socket_in _ _ (Socket (Some c) None 0)); [done| |done].
    rewrite Hnat. apply list_lookup_insert_eq. lia.
  - intros t Ht. unfold get_socket. destruct (NUM_SOCKETS <? t); [done|].
    destruct (Z.ltb_spec t 0); [done|]. by rewrite list_lookup_insert_ne by lia.
Qed.

(** ** Reading *)

(** A read that does not go over the end of a buffer, or begins at the beginning of one. *)
Definition placed (chain : list (list Z)) (off len : Z) : Prop :=
  exists pre d post o,
    chain = pre ++ d :: post /\ Forall (fun x => x <> []) pre
    /\ off = Z.of_nat (length (concat pre)) + o /\ 0 <= o
    /\ (o = 0 \/ o + len <= Z.of_nat (length d)).

Fixpoint all_placed (chain : list (list Z)) (off : Z) (lens : list Z) : Prop :=
  match lens with
  | [] => True
  | len :: lens => placed chain off len /\ all_placed chain (off + len) lens
  end.

Definition total (lens : list Z) : Z := foldr Z.add 0 lens.

Section Reading.

Context {T : Type} `{Transport T}.

(** Successive reads. *)
Fixpoint reads (table : list struct_lwip_socket) (s : Z) (lens : list Z) :
    prog T (list struct_lwip_socket * list (Z * list Z)) :=
  match lens with
  | [] => mret (table, [])
  | len :: lens =>
      r ← lwip_recv table s len;
      '(table, rs) ← reads (rtable r) s lens;
      mret (table, (rlen r, rdata r) :: rs)
  end.

(** A chain with its bytes. *)
Definition whole (b : netbuf) (chain : list (list Z)) : Prop :=
  p b = Some (Pbufs chain (Z.of_nat (length (concat chain)))).

(** What is left of a buffer after [off] bytes of [size] were read: the entry of the
    socket, and the shared state. *)
Definition entry_after (c buf off size : Z) : struct_lwip_socket :=
  if off <? size then Socket (Some c) (Some buf) off else Socket (Some c) None 0.
Definition state_after (buf off size : Z) (st : api T) : api T :=
  if off <? size then st else set_netbufs (delete buf (netbufs st)) st.

Lemma recv_step table s c buf b chain off len n st :
  0 <= s < NUM_SOCKETS -> table !! Z.to_nat s = Some (Socket (Some c) (Some buf) off) ->
  conns st !! c = Some n -> type n = NETCONN_TCP ->
  netbufs st !! buf = Some b -> whole b chain ->
  let size := Z.of_nat (length (concat chain)) in
  size < 65536 -> 0 <= off -> 0 < len -> off + len <= size -> placed chain off len ->
  exec (lwip_recv table s len) st
  = Ret (Received (<[Z.to_nat s := entry_after c buf (off + len) size]> table) len
           (take (Z.to_nat len) (drop (Z.to_nat off) (concat chain))) None,
         state_after buf (off + len) size st).
Proof.
  intros Hs Htab Hn Ht Hb Hw size Hsize Hoff Hlen Hfit (pre & d & post & o & Hch & Hne & Ho & Ho0 & Hpl).
  unfold lwip_recv, lwip_recvfrom, on_socket, load_netbuf, lift, read.
  rewrite exec_bind, exec_atomically, (get_socket_in _ _ _ Htab Hs). cbn.
  unfold conn, mbind, action_bind, mret, action_ret. rewrite Hb. cbn. unfold netbuf_len. rewrite Hw. cbn.
  rewrite Hn. cbn. fold size. rewrite Ht.
  rewrite (u16_small (size - off)) by lia.
  assert (Hcopy : (if size - off <? len then size - off else u16 len) = len).
  { destruct (Z.ltb_spec (size - off) len); [lia|]. apply u16_small. lia. }
  rewrite Hcopy, (u16_small (off + len)) by lia.
  assert (Hdata : netbuf_copy_partial b len off = take (Z.to_nat len) (drop (Z.to_nat off) (concat chain))).
  { rewrite Ho, (copied_prefix b _ pre d post len o Hw) by (done || lia). unfold pbuf_data. cbn.
    do 2 f_equal. lia. }
  rewrite Hdata, bool_decide_eq_true_2 by done. cbn [andb]. unfold entry_after, state_after.
  replace (off + len <? size) with (0 <? size - off - len)
    by (destruct (Z.ltb_spec 0 (size - off - len)), (Z.ltb_spec (off + len) size); lia).
  destruct (0 <? size - off - len); cbn; [by rewrite Z.ltb_irrefl|].
  unfold free_in. rewrite Hb. cbn. by rewrite Z.ltb_irrefl.
Qed.

Lemma lens_nonneg lens : Forall (fun l => 0 < l) lens -> 0 <= total lens.
Proof using. induction 1; cbn in *; [done|]. unfold total in *. lia. Qed.


End Reading.

Definition table1 (off : Z) (last : option Z) : list struct_lwip_socket := <[0%nat := Socket (Some 1) last off]> sockets.


(** ** What goes wrong *)

(** The number of places of the table is taken for a socket. *)
Lemma socket_out_of_table table : length table = Z.to_nat NUM_SOCKETS -> get_socket table NUM_SOCKETS = Undef.
Proof.
  intros Hlen. unfold get_socket. cbn. by rewrite lookup_ge_None_2 by (rewrite Hlen; done).
Qed.

(** Asking where stream data is from follows a null pointer, or one into the buffer
    that was just freed. *)
Lemma recvfrom_sender {T} `{Transport T} table s len c buf b chain off n (st : api T) :
  0 <= s < NUM_SOCKETS -> table !! Z.to_nat s = Some (Socket (Some c) (Some buf) off) ->
  conns st !! c = Some n -> type n = NETCONN_TCP ->
  netbufs st !! buf = Some b -> p b = Some chain -> fromaddr b = None ->
  exec (lwip_recvfrom table s len true) st = Undef.
Proof.
  intros Hs Htab Hn Ht Hb Hw Hfrom. unfold lwip_recvfrom, on_socket, load_netbuf, lift, read.
  rewrite exec_bind, exec_atomically, (get_socket_in _ _ _ Htab Hs). cbn.
  unfold conn, mbind, action_bind, mret, action_ret. rewrite Hb. cbn. unfold netbuf_len. rewrite Hw. cbn.
  rewrite Hn. cbn. rewrite Ht, bool_decide_eq_true_2 by done. cbn [andb].
  match goal with |- context [0 <? ?x] => destruct (0 <? x) end; cbn.
  - rewrite Hb. cbn. by rewrite Hfrom.
  - unfold free_in. rewrite Hb. cbn. by rewrite lookup_delete_eq.
Qed.

(** The buffer of a datagram has been freed when the sender is asked for. *)
Lemma recvfrom_datagram :
  let n := Netconn NETCONN_UDP NETCONN_NONE (Some 1) ERR_OK None (Some 0) None None in
  let st := start 1 [n] [Netbuf (Some (Pbufs [[1; 2; 3]] 3)) (Some 0%nat) (Some 9) 7] [] in
  exec (lwip_recvfrom (table1 0 None) 0 3 true) (set_boxes (<[2 := [INetbuf 1]]> (boxes st)) st) = Undef.
Proof. vm_compute. reflexivity. Qed.

(** 65536 bytes are reported as written, and none is. *)
Lemma write_truncated :
  let n := Netconn NETCONN_TCP NETCONN_NONE (Some 1) ERR_OK None (Some 0) None (Some 0) in
  let st := start 1 [n] [] [] in
  match exec (lwip_write (Netbuf None None None 0) 1 (table1 0 None) 0 (replicate (Z.to_nat 65536) 0)) st with
  | Ret (ret, st') => ret = 65536 /\ inbox st' = inbox st
  | _ => False
  end.
Proof. vm_compute. split; reflexivity. Qed.

(** A protocol that remembers the remote addresses of its blocks. *)
#[global] Instance remembering : Transport (gmap Z (Z * Z)) := fun A x t =>
  match x in transport_call A return outcome (A * gmap Z (Z * Z)) with
  | Udp_new => Ret (Some 1, <[1 := (0, 0)]> t)
  | Udp_connect p a port => Ret (ERR_OK, <[p := (default 0 a, port)]> t)
  | Udp_remote p => r ← load (t !! p); Ret (r, t)
  | Udp_recv _ _ => Ret (tt, t)
  | Udp_send _ _ => Ret (ERR_OK, t)
  | _ => Undef
  end.

(** After [lwip_sendto] the socket is connected to the address the datagram was sent
    to, with the old port: the pointer that was kept leads to the new address. *)
Lemma sendto_loses_peer :
  let n := Netconn NETCONN_UDP NETCONN_NONE (Some 1) ERR_OK None (Some 0) None None in
  let s := Sys (start {[1 := (5, 50)]} [n] [] [])
             [(1, _ ← lwip_sendto (Netbuf None None None 0) 1 (table1 0 None) 0 [1; 2; 3] 9 90; mret ERR_OK)] in
  match sys_run n (concat (replicate 40 [Thread 0; Serve])) s with
  | Ret s => threads s = [(1, Done ERR_OK)] /\ trans (shared s) = {[1 := (9, 50)]}
  | _ => False
  end.
Proof. vm_compute. split; reflexivity. Qed.
