(* ===== verification/Router.v ===== *)
(** * The interfaces of the router ([sr_router.c], [sr_interface.c], [sr_integration.c],
      [sr_mininet_extension.c])

    The table of interfaces, the file it is read from, the texts of its entries, and
    the way of a received packet to the work queue, in the Makefile's default mode
    [MININET_MODE].  Lookups and the forwarding of packets are stubs in this version.

    The functions of the C library that read the file, [fgets] and [sscanf] with the
    one format that is used, are definitions; [inet_aton], the raw sockets and
    [malloc] are arguments.  [None] stands for the end of the process in [die].

    [interfaces_read_back]: a file of lines in the documented format gives exactly the
    interfaces it describes. *)

From S2P Require Import Prelude SrCommon.
From stdpp Require Import base list strings.
From Stdlib Require Import ZArith Lia Ascii String.

Local Open Scope Z_scope.

(** ** Data *)

Definition SR_NAMELEN : nat := 32.
Definition ROUTER_MAX_INTERFACES : nat := 4.
Definition PREFIX_LENGTH : nat := 3.

(** [interface_t] without its lock and its list of neighbours, which stays empty. *)
Record interface_t := Interface {
  name : string;
  mac : addr_mac_t;
  ip : Z;
  enabled : bool;
  subnet_mask : Z;
  hw_id : Z;
  hw_fd : Z
}.

(** [router_t]: the [num_interfaces] entries of the array that are in use. *)
Record router_t := Router { interface : list interface_t; use_ospf : bool }.

Definition num_interfaces (r : router_t) : nat := List.length (interface r).

Definition router_init : router_t := Router [] true.

(** ** Adding an interface *)

Definition INTF (i : nat) : Z := Z.of_nat i.

(** The text from [PREFIX_LENGTH] on; in a shorter name that is behind its end. *)
Definition behind_prefix (n : string) : outcome string :=
  if (String.length n <? PREFIX_LENGTH)%nat then Undef
  else Ret (String.substring PREFIX_LENGTH (String.length n - PREFIX_LENGTH) n).

Definition intf_hw_id (n : string) (num : nat) : outcome Z :=
  s ← behind_prefix n;
  Ret (if String.eqb s "eth0" then INTF 0
       else if String.eqb s "eth1" then INTF 1
       else if String.eqb s "eth2" then INTF 2
       else if String.eqb s "eth3" then INTF 3
       else u8 (Z.of_nat num)).

(** An index out of the array, and a name that does not fit its field, write over
    other memory. *)
Definition router_add_interface (open_socket : string -> option Z) (r : router_t)
    (n : string) (ip mask : Z) (m : addr_mac_t) : outcome (option router_t) :=
  if (ROUTER_MAX_INTERFACES <=? num_interfaces r)%nat then Undef
  else if (SR_NAMELEN <=? String.length n)%nat then Undef
  else
    match open_socket n with
    | None => Ret None
    | Some fd =>
        id ← intf_hw_id n (num_interfaces r);
        Ret (Some (Router (interface r ++ [Interface n m ip true mask id fd]) (use_ospf r)))
    end.

(** ** Reading a line *)

Definition newline : ascii := "010".

Definition is_space (c : ascii) : bool :=
  let n := Z.of_nat (nat_of_ascii c) in (n =? 32) || (9 <=? n) && (n <=? 13).

(** [fgets] with room for [n] characters: the line with its end, and what follows. *)
Fixpoint fgets (n : nat) (file : string) : string * string :=
  match n, file with
  | S n, String c rest =>
      if Ascii.eqb c newline then (String c EmptyString, rest)
      else let '(l, r) := fgets n rest in (String c l, r)
  | _, _ => (EmptyString, file)
  end.

Fixpoint skip_spaces (s : string) : string :=
  match s with
  | String c rest => if is_space c then skip_spaces rest else s
  | EmptyString => s
  end.

(** The characters up to the next white space, and what follows. *)
Fixpoint span (s : string) : string * string :=
  match s with
  | String c rest => if is_space c then (EmptyString, s) else let '(w, r) := span rest in (String c w, r)
  | EmptyString => (EmptyString, EmptyString)
  end.

(** The conversion [%s]: [None] when there is nothing left. *)
Definition scan_word (s : string) : option (string * string) :=
  match span (skip_spaces s) with
  | (EmptyString, _) => None
  | wr => Some wr
  end.

Definition hex_digit (c : ascii) : option Z :=
  let n := Z.of_nat (nat_of_ascii c) in
  if (48 <=? n) && (n <=? 57) then Some (n - 48)
  else if (65 <=? n) && (n <=? 70) then Some (n - 55)
  else if (97 <=? n) && (n <=? 102) then Some (n - 87)
  else None.

(** The digits that follow, with the value of those before; a value that does not
    fit gives the largest one. *)
Fixpoint hex_digits (v : Z) (s : string) : Z * string :=
  match s with
  | String c rest => match hex_digit c with Some d => hex_digits (v * 16 + d) rest | None => (v, s) end
  | EmptyString => (v, s)
  end.
Definition hex_value (s : string) : option (Z * string) :=
  match s with
  | String c rest =>
      match hex_digit c with
      | Some d => let '(v, r) := hex_digits d rest in Some (v `min` 4294967295, r)
      | None => None
      end
  | EmptyString => None
  end.

(** The conversion [%X]: white space, a sign and the prefix [0x] may precede the digits. *)
Definition scan_sign (s : string) : bool * string :=
  match s with
  | String "-" rest => (true, rest)
  | String "+" rest => (false, rest)
  | _ => (false, s)
  end.
Definition scan_hex (s : string) : option (Z * string) :=
  let '(negative, s) := scan_sign (skip_spaces s) in
  let s := match s with
           | String "0" (String "x" rest) | String "0" (String "X" rest) => rest
           | _ => s
           end in
  match hex_value s with
  | Some (v, r) => Some (if negative : bool then u32 (- v) else v, r)
  | None => None
  end.

(** The variables a line is read into. *)
Record fields := Fields { str_name : string; str_ip : string; str_mask : string; mac_octet : list Z }.

(** The octets; from the first that cannot be read on they keep their values. *)
Fixpoint scan_octets (first : bool) (s : string) (old : list Z) : list Z :=
  match old with
  | [] => []
  | o :: old =>
      match (if first then Some s else match s with String ":" rest => Some rest | _ => None end) with
      | None => o :: old
      | Some s =>
          match scan_hex s with
          | None => o :: old
          | Some (v, s) => v :: scan_octets false s old
          end
      end
  end.

(** A buffer of 32 characters takes 31. *)
Definition fits (w : string) : outcome unit := if (32 <=? String.length w)%nat then Undef else Ret tt.

(** [sscanf] with the format of an interface; what cannot be read is left as it is. *)
Definition scan_line (line : string) (f : fields) : outcome fields :=
  match scan_word line with
  | None => Ret f
  | Some (n, s) =>
      _ ← fits n;
      match scan_word s with
      | None => Ret (Fields n (str_ip f) (str_mask f) (mac_octet f))
      | Some (a, s) =>
          _ ← fits a;
          match scan_word s with
          | None => Ret (Fields n a (str_mask f) (mac_octet f))
          | Some (m, s) => _ ← fits m; Ret (Fields n a m (scan_octets true s (mac_octet f)))
          end
      end
  end.

Definition mac_of (l : list Z) : outcome addr_mac_t :=
  match l with
  | [a; b; c; d; e; f] => Ret (Mac (u8 a) (u8 b) (u8 c) (u8 d) (u8 e) (u8 f))
  | _ => Undef
  end.

(** ** The file *)

Section File.

Context (open_socket : string -> option Z) (inet_aton : string -> option Z).

(** One round of the loop, with the line that was read. *)
Definition read_interface (r : router_t) (f : fields) : outcome (option router_t) :=
  match inet_aton (str_ip f), inet_aton (str_mask f) with
  | Some a, Some m => x ← mac_of (mac_octet f); router_add_interface open_socket r (str_name f) a m x
  | _, _ => Ret None
  end.

Fixpoint read_loop (fuel : nat) (file : string) (r : router_t) (f : fields) : outcome (option router_t) :=
  match fuel with
  | O => Undef
  | S fuel =>
      match fgets 511 file with
      | (EmptyString, _) => Ret (Some r)
      | (line, file) =>
          f ← scan_line line f;
          o ← read_interface r f;
          match o with
          | None => Ret None
          | Some r => read_loop fuel file r f
          end
      end
  end.

(** Every round takes a character; [garbage] is what the variables hold at first. *)
Definition sr_read_intf_from_file (r : router_t) (file : option string) (garbage : fields) :
    outcome (option router_t) :=
  match file with
  | None => Ret None
  | Some file => read_loop (S (String.length file)) file r garbage
  end.

End File.

(** ** Texts *)

(** The conversion [%-ns]. *)
Definition pad (n : nat) (s : string) : string :=
  (s +:+ String.concat EmptyString (repeat " "%string (n - String.length s)))%string.

Definition STR_INTF_FORMAT (a b c d : string) : string :=
  (pad 9 a +:+ "  " +:+ pad 17 b +:+ "  " +:+ pad 15 c +:+ "  " +:+ pad 6 d +:+ String newline EmptyString)%string.

Definition STR_INTF_HDR_MAX_LEN : nat := 55.
Definition STR_INTF_MAX_LEN : nat := 46 + SR_NAMELEN.

(** The text that is stored, and the result of [my_snprintf]. *)
Definition print_to (len : nat) (text : string) : string * Z :=
  (snprintf len text, my_snprintf (Z.of_nat (String.length text)) (Z.of_nat len)).

Definition intf_header_to_string (len : nat) : string * Z :=
  print_to len (STR_INTF_FORMAT "Interface" "MAC" "IP" "Status").

Definition intf_to_string (i : interface_t) (len : nat) : string * Z :=
  print_to len (STR_INTF_FORMAT (name i) (mac_to_string (mac i)) (ip_to_string (ip i))
                  (if enabled i then "Up" else "Down")).

Definition STR_NEIGHBOR_FORMAT (a b c d : string) : string :=
  ("  " +:+ pad 15 a +:+ "  " +:+ pad 15 b +:+ "  " +:+ pad 18 c +:+ "  " +:+ pad 24 d
   +:+ String newline EmptyString)%string.

Definition intf_neighbor_header_to_string (len : nat) : string * Z :=
  print_to len (STR_NEIGHBOR_FORMAT "Neighbor IP" "Neighbor Rtr ID" "Subnet" "Last Hello Time").

(** ** Packets that arrive *)

(** [packet_info_t]: a copy of the packet and the interface, as work for the queue. *)
Record packet_info_t := PacketInfo { packet : list Z; pinterface : nat }.
Inductive work_type := WORK_NEW_PACKET.

(** The copy of the first [len] bytes of the buffer; [malloc] tells whether there is
    memory. *)
Definition sr_integ_input (malloc : Z -> bool) (buf : list Z) (len : Z) (intf : nat) :
    outcome (option (work_type * packet_info_t)) :=
  if negb (malloc (u32 len)) then Ret None
  else if Z.of_nat (List.length buf) <? u32 len then Undef
  else Ret (Some (WORK_NEW_PACKET, PacketInfo (take (Z.to_nat (u32 len)) buf) intf)).

(** A round of the loop over the interfaces: the first from [i] on that is ready is read,
    whatever [real_read_once] returns. *)
Fixpoint first_ready (ready : Z -> bool) (l : list interface_t) (i : nat) : option (nat * interface_t) :=
  match l with
  | [] => None
  | x :: l => if ready (hw_fd x) then Some (i, x) else first_ready ready l (S i)
  end.

(** [read_once fd] gives the bytes of the buffer of 2000 and the result; [None] when no
    interface is ready and the loop goes on. *)
Definition sr_mininet_read_packet (malloc : Z -> bool) (ready : Z -> bool) (read_once : Z -> list Z * Z)
    (r : router_t) : outcome (option (option (work_type * packet_info_t))) :=
  match first_ready ready (interface r) 0 with
  | None => Ret None
  | Some (i, x) =>
      let '(buf, len) := read_once (hw_fd x) in
      o ← sr_integ_input malloc buf len i; Ret (Some o)
  end.

(** ** Lines and what is read from them *)

Fixpoint all_chars (P : ascii -> bool) (s : string) : bool :=
  match s with EmptyString => true | String c s => P c && all_chars P s end.

Lemma all_chars_app P s t : all_chars P (s +:+ t) = all_chars P s && all_chars P t.
Proof.
  induction s as [|c s IH]; [reflexivity|].
  change (all_chars P (String c s +:+ t)) with (P c && all_chars P (s +:+ t)). rewrite IH. cbn.
  by rewrite andb_assoc.
Qed.

Definition visible (s : string) : bool := all_chars (fun c => negb (is_space c)) s.

Lemma app_cons c s t : String c s +:+ t = String c (s +:+ t).
Proof. reflexivity. Qed.
Lemma app_nil t : EmptyString +:+ t = t.
Proof. reflexivity. Qed.
Lemma app_assoc s t u : (s +:+ t) +:+ u = s +:+ (t +:+ u).
Proof. induction s as [|c s IH]; [reflexivity|]. rewrite !app_cons. by rewrite IH. Qed.

(** [fgets] takes a line whole. *)
Lemma fgets_line s rest : forall n,
  all_chars (fun c => negb (Ascii.eqb c newline)) s = true -> (String.length s < n)%nat ->
  fgets n (s +:+ String newline rest) = (s +:+ String newline EmptyString, rest).
Proof.
  induction s as [|c s IH]; intros [|n] Hs Hn; cbn in Hn; try lia; [reflexivity|].
  cbn in Hs. apply andb_true_iff in Hs as [Hc Hs]. rewrite app_cons. cbn [fgets].
  destruct (Ascii.eqb c newline); [done|]. rewrite IH by (done || lia). reflexivity.
Qed.

(** A word ends at white space. *)
Lemma span_word w c rest :
  visible w = true -> is_space c = true -> span (w +:+ String c rest) = (w, String c rest).
Proof.
  intros Hw Hc. induction w as [|d w IH]; [rewrite app_nil; cbn [span]; by rewrite Hc|].
  unfold visible in *. cbn in Hw. apply andb_true_iff in Hw as [Hd Hw]. rewrite app_cons. cbn [span].
  destruct (is_space d); [done|]. by rewrite IH.
Qed.

Lemma scan_space s : scan_word (String " " s) = scan_word s.
Proof. reflexivity. Qed.

Lemma scan_word_visible w c rest :
  visible w = true -> w <> EmptyString -> is_space c = true ->
  scan_word (w +:+ String c rest) = Some (w, String c rest).
Proof.
  intros Hw Hne Hc. unfold scan_word.
  assert (Hskip : skip_spaces (w +:+ String c rest) = w +:+ String c rest).
  { destruct w as [|d w]; [done|]. unfold visible in Hw. cbn in Hw. apply andb_true_iff in Hw as [Hd _].
    rewrite app_cons. cbn [skip_spaces]. by destruct (is_space d). }
  rewrite Hskip, span_word by done. by destruct w.
Qed.

(** What the tests of [scan_hex] say of a digit. *)
Lemma hex_char c d :
  hex_digit c = Some d ->
  is_space c = false /\ (forall s, scan_sign (String c s) = (false, String c s)) /\ 0 <= d < 16
  /\ c <> "x"%char /\ c <> "X"%char.
Proof.
  destruct c as [[] [] [] [] [] [] [] []]; intros Hd; vm_compute in Hd; try discriminate; injection Hd as <-;
    repeat split; try reflexivity; try lia; discriminate.
Qed.

Lemma scan_hex_two c1 c2 c d1 d2 rest :
  hex_digit c1 = Some d1 -> hex_digit c2 = Some d2 -> hex_digit c = None ->
  scan_hex (String c1 (String c2 (String c rest))) = Some (d1 * 16 + d2, String c rest).
Proof.
  intros H1 H2 Hc. destruct (hex_char c1 d1 H1) as (Hs & Hsign & Hr1 & _).
  destruct (hex_char c2 d2 H2) as (_ & _ & Hr2 & Hx & HX).
  assert (Hval : hex_value (String c1 (String c2 (String c rest))) = Some (d1 * 16 + d2, String c rest)).
  { cbn [hex_value hex_digits]. rewrite H1, H2, Hc. by rewrite Z.min_l by lia. }
  unfold scan_hex. cbn [skip_spaces]. rewrite Hs, Hsign.
  match goal with |- match hex_value ?t with _ => _ end = _ =>
    assert (Ht : t = String c1 (String c2 (String c rest))) end.
  { destruct c1 as [[] [] [] [] [] [] [] []]; try reflexivity.
    destruct c2 as [[] [] [] [] [] [] [] []]; try reflexivity; congruence. }
  by rewrite Ht, Hval.
Qed.

(** The two characters of an octet. *)
Lemma octet_chars o :
  0 <= o < 256 -> exists c1 c2 d1 d2,
    octet_text o = String c1 (String c2 EmptyString)
    /\ hex_digit c1 = Some d1 /\ hex_digit c2 = Some d2 /\ d1 * 16 + d2 = o.
Proof.
  intros Ho. unfold octet_text, digit.
  set (c1 := ascii_of_nat _). set (c2 := ascii_of_nat _).
  exists c1, c2, (Z.shiftr o 4), (Z.land 15 o). split; [reflexivity|].
  assert (H : (match hex_digit c1 with Some d => d =? Z.shiftr o 4 | None => false end
               && match hex_digit c2 with Some d => d =? Z.land 15 o | None => false end
               && (Z.shiftr o 4 * 16 + Z.land 15 o =? o)) = true).
  { subst c1 c2. revert o Ho. apply (byte_forall (fun o => _)). vm_compute. reflexivity. }
  rewrite !andb_true_iff, Z.eqb_eq in H. destruct H as [[H1 H2] H3].
  destruct (hex_digit c1); [|done]. destruct (hex_digit c2); [|done].
  apply Z.eqb_eq in H1 as ->. by apply Z.eqb_eq in H2 as ->.
Qed.

Lemma scan_octet o c rest :
  0 <= o < 256 -> hex_digit c = None ->
  scan_hex (octet_text o +:+ String c rest) = Some (o, String c rest).
Proof.
  intros Ho Hc. destruct (octet_chars o Ho) as (c1 & c2 & d1 & d2 & -> & H1 & H2 & <-).
  rewrite !app_cons, app_nil. by apply scan_hex_two.
Qed.

(** Texts of addresses are words. *)
Lemma dec_visible b : 0 <= b < 256 -> visible (dec b) = true.
Proof. revert b. apply (byte_forall (fun b => visible (dec b))). vm_compute. reflexivity. Qed.

Lemma ip_text_visible a : visible (ip_text a) = true.
Proof.
  pose proof (fun i => dec_visible _ (ip_byte_range a i)) as Hd. unfold visible in *. unfold ip_text.
  rewrite !all_chars_app, !Hd. reflexivity.
Qed.

Lemma ip_text_nonempty a : ip_text a <> EmptyString.
Proof.
  unfold ip_text. intros H. apply (f_equal String.length) in H. rewrite !length_cat in H. cbn in H. lia.
Qed.

(** A word has no end of line in it. *)
Lemma visible_line s : visible s = true -> all_chars (fun c => negb (Ascii.eqb c newline)) s = true.
Proof.
  unfold visible. induction s as [|c s IH]; [done|]. cbn. rewrite !andb_true_iff. intros [Hc Hs].
  split; [|by apply IH]. destruct (Ascii.eqb_spec c newline) as [->|]; [done|reflexivity].
Qed.

Lemma octet_visible o : 0 <= o < 256 -> visible (octet_text o) = true.
Proof. revert o. apply (byte_forall (fun o => visible (octet_text o))). vm_compute. reflexivity. Qed.

Definition octets_ok (m : addr_mac_t) : Prop := Forall (fun o => 0 <= o < 256) (octets m).

Lemma mac_text_visible m : octets_ok m -> visible (mac_text m) = true.
Proof.
  intros Hm. unfold octets_ok, octets in Hm. repeat (apply Forall_cons in Hm as [? Hm]).
  unfold mac_text. pose proof octet_visible as Ho. unfold visible in *.
  rewrite !all_chars_app, !Ho by done. reflexivity.
Qed.

(** The octets of an address are read back. *)
Lemma scan_octets_mac m old rest :
  octets_ok m -> List.length old = 6%nat ->
  scan_octets true (String " " (mac_text m +:+ String newline rest)) old = octets m.
Proof.
  intros Hm Hold. unfold octets_ok, octets in Hm. repeat (apply Forall_cons in Hm as [? Hm]).
  do 6 (destruct old as [|? old]; [done|]). destruct old; [|done].
  assert (Hspace : forall s, scan_hex (String " " s) = scan_hex s) by reflexivity.
  cbn [scan_octets]. unfold mac_text. rewrite !app_assoc, Hspace.
  do 6 (rewrite ?app_cons, ?app_nil; rewrite scan_octet by (done || reflexivity); cbn [scan_octets]).
  reflexivity.
Qed.

(** ** The file *)

(** A line in the documented format. *)
Definition intf_line (i : interface_t) : string :=
  name i +:+ String " " (ip_text (ip i) +:+ String " " (ip_text (subnet_mask i)
    +:+ String " " (mac_text (mac i) +:+ String newline EmptyString))).

Fixpoint file_of (ns : list interface_t) : string :=
  match ns with [] => EmptyString | i :: ns => intf_line i +:+ file_of ns end.

(** The line up to its end. *)
Definition intf_words (i : interface_t) : string :=
  name i +:+ String " " (ip_text (ip i) +:+ String " " (ip_text (subnet_mask i) +:+ String " " (mac_text (mac i)))).

Lemma intf_line_words i rest : intf_line i +:+ rest = intf_words i +:+ String newline rest.
Proof.
  unfold intf_line, intf_words. rewrite !app_assoc. do 3 (rewrite !app_cons, !app_assoc). by rewrite !app_cons, app_nil.
Qed.

Section ReadBack.

Context (open_socket : string -> option Z) (inet_aton : string -> option Z).

(** The interface with the index [k] that a line describes. *)
Record described (k : nat) (i : interface_t) : Prop := {
  d_name : visible (name i) = true;
  d_short : (PREFIX_LENGTH <= String.length (name i) < SR_NAMELEN)%nat;
  d_ip : inet_aton (ip_text (ip i)) = Some (ip i);
  d_mask : inet_aton (ip_text (subnet_mask i)) = Some (subnet_mask i);
  d_mac : octets_ok (mac i);
  d_enabled : enabled i = true;
  d_hw_id : intf_hw_id (name i) k = Ret (hw_id i);
  d_hw_fd : open_socket (name i) = Some (hw_fd i)
}.

Lemma fits_short w : (String.length w < 32)%nat -> fits w = Ret tt.
Proof using. intros Hw. unfold fits. destruct (Nat.leb_spec 32 (String.length w)); [lia|done]. Qed.

Lemma scan_intf k i f :
  described k i -> List.length (mac_octet f) = 6%nat ->
  scan_line (intf_words i +:+ String newline EmptyString) f
  = Ret (Fields (name i) (ip_text (ip i)) (ip_text (subnet_mask i)) (octets (mac i))).
Proof using.
  intros [Hn Hs Hip Hmask Hmac _ _ _] Hf.
  assert (Hne : name i <> EmptyString) by (intros He; rewrite He in Hs; cbn in Hs; unfold PREFIX_LENGTH in Hs; lia).
  pose proof (ip_text_length (ip i)). pose proof (ip_text_length (subnet_mask i)).
  unfold scan_line, intf_words. rewrite app_assoc, app_cons.
  rewrite scan_word_visible, fits_short by (done || (unfold SR_NAMELEN in Hs; lia)). cbn [mbind outcome_bind].
  rewrite scan_space, app_assoc, app_cons.
  rewrite scan_word_visible, fits_short by (apply ip_text_visible || apply ip_text_nonempty || done || lia).
  cbn [mbind outcome_bind]. rewrite scan_space, app_assoc, app_cons.
  rewrite scan_word_visible, fits_short by (apply ip_text_visible || apply ip_text_nonempty || done || lia).
  cbn [mbind outcome_bind]. by rewrite scan_octets_mac.
Qed.

(** The interface is added. *)
Lemma read_intf r i :
  described (num_interfaces r) i -> (num_interfaces r < ROUTER_MAX_INTERFACES)%nat ->
  read_interface open_socket inet_aton r
    (Fields (name i) (ip_text (ip i)) (ip_text (subnet_mask i)) (octets (mac i)))
  = Ret (Some (Router (interface r ++ [i]) (use_ospf r))).
Proof using.
  intros [Hn Hs Hip Hmask Hmac Hen Hid Hfd] Hlt. unfold read_interface. cbn [str_ip str_mask str_name mac_octet].
  rewrite Hip, Hmask. unfold octets, mac_of, mbind, outcome_bind.
  unfold octets_ok, octets in Hmac. repeat (apply Forall_cons in Hmac as [? Hmac]).
  rewrite !u8_small by done. unfold router_add_interface.
  destruct (Nat.leb_spec ROUTER_MAX_INTERFACES (num_interfaces r)); [lia|].
  destruct (Nat.leb_spec SR_NAMELEN (String.length (name i))); [lia|].
  rewrite Hfd, Hid. cbn. destruct i as [n [m0 m1 m2 m3 m4 m5] a e k h fd]. cbn in *. by subst e.
Qed.

Lemma words_visible k i :
  described k i ->
  all_chars (fun c => negb (Ascii.eqb c newline)) (intf_words i) = true
  /\ (String.length (intf_words i) < 511)%nat.
Proof using.
  intros [Hn Hs Hip Hmask Hmac _ _ _]. unfold intf_words.
  pose proof (ip_text_length (ip i)). pose proof (ip_text_length (subnet_mask i)).
  pose proof (mac_text_length (mac i)) as Hml. split.
  - assert (Hc : forall s t, all_chars (fun c => negb (Ascii.eqb c newline)) (s +:+ String " " t)
      = all_chars (fun c => negb (Ascii.eqb c newline)) s && all_chars (fun c => negb (Ascii.eqb c newline)) t).
    { intros s t. by rewrite all_chars_app. }
    rewrite !Hc, !visible_line; try done; try apply ip_text_visible. by apply mac_text_visible.
  - rewrite !length_cat. cbn [String.length]. rewrite !length_cat. cbn [String.length]. rewrite !length_cat.
    cbn [String.length]. unfold SR_NAMELEN in Hs. lia.
Qed.

Lemma read_all ns : forall fuel r f,
  (String.length (file_of ns) < fuel)%nat -> List.length (mac_octet f) = 6%nat ->
  (num_interfaces r + List.length ns <= ROUTER_MAX_INTERFACES)%nat ->
  (forall k i, ns !! k = Some i -> described (num_interfaces r + k) i) ->
  read_loop open_socket inet_aton fuel (file_of ns) r f = Ret (Some (Router (interface r ++ ns) (use_ospf r))).
Proof using.
  induction ns as [|i ns IH]; intros [|fuel] r f Hfuel Hf Hlen Hd; try lia; cbn [read_loop file_of].
  - cbn. rewrite List.app_nil_r. by destruct r.
  - pose proof (Hd 0%nat i eq_refl) as Hi. rewrite Nat.add_0_r in Hi. cbn [List.length] in Hlen.
    destruct (words_visible _ i Hi) as [Hline Hshort].
    rewrite intf_line_words, fgets_line by (done || lia).
    destruct (intf_words i +:+ String newline EmptyString) as [|c l] eqn:Hw.
    { apply (f_equal String.length) in Hw. rewrite length_cat in Hw. cbn in Hw. lia. }
    rewrite <- Hw. rewrite (scan_intf _ i f Hi Hf). unfold mbind at 1, outcome_bind at 1.
    rewrite (read_intf r i Hi) by lia. unfold mbind, outcome_bind.
    rewrite IH.
    + cbn. by rewrite <- List.app_assoc.
    + cbn [file_of] in Hfuel. rewrite intf_line_words, length_cat in Hfuel. cbn in Hfuel. lia.
    + reflexivity.
    + unfold num_interfaces in *. cbn. rewrite List.length_app. cbn. lia.
    + intros k j Hk. unfold num_interfaces in *. cbn. rewrite List.length_app. cbn.
      replace (List.length (interface r) + 1 + k)%nat with (List.length (interface r) + S k)%nat by lia.
      by apply Hd.
Qed.


End ReadBack.

(** ** Examples *)

(** Addresses as [inet_aton] reads them, for numbers of one to three digits. *)
Fixpoint dotted (s : string) (cur : Z) (place : Z) : Z :=
  match s with
  | EmptyString => cur * place
  | String "." s => cur * place + dotted s 0 (place * 256)
  | String c s => dotted s (cur * 10 + (Z.of_nat (nat_of_ascii c) - 48)) place
  end.
Definition aton (s : string) : option Z := Some (dotted s 0 1).
Definition sockets_by_name (n : string) : option Z := Some (3 + Z.of_nat (String.length n)).
Definition unset : fields := Fields "" "" "" [0; 0; 0; 0; 0; 0].

Definition r3 : list interface_t :=
  [Interface "r3-eth0" (Mac 0 0 0 0 3 1) 33816586 true 16777215 0 10;
   Interface "r3-eth1" (Mac 0 0 0 0 3 2) 17104906 true 16777215 1 10;
   Interface "r3-eth2" (Mac 0 0 0 0 3 3) 17694730 true 16777215 2 10].


(** The lines of [cpuhw/cpuhw_thames_r3] as they are, with more spaces than one. *)
Definition cpuhw_thames_r3 : string :=
  ("r3-eth0 10.0.4.2  255.255.255.0  00:00:00:00:03:01 " +:+ String newline
  ("r3-eth1 10.0.5.1  255.255.255.0  00:00:00:00:03:02" +:+ String newline
  ("r3-eth2 10.0.14.1  255.255.255.0  00:00:00:00:03:03" +:+ String newline EmptyString)))%string.

Lemma thames_r3_read :
  sr_read_intf_from_file sockets_by_name aton router_init (Some cpuhw_thames_r3) unset = Ret (Some (Router r3 true)).
Proof. vm_compute. reflexivity. Qed.

(** ** What goes wrong *)

Section Faults.

Context (open_socket : string -> option Z) (inet_aton : string -> option Z).

(** A blank line adds the interface of the line before once more. *)
Lemma blank_line_repeats i garbage :
  described open_socket inet_aton 0 i -> List.length (mac_octet garbage) = 6%nat ->
  intf_hw_id (name i) 1 = Ret (hw_id i) ->
  sr_read_intf_from_file open_socket inet_aton router_init
    (Some (intf_line i +:+ String newline EmptyString)) garbage = Ret (Some (Router [i; i] true)).
Proof using.
  intros Hi Hg Hid. unfold sr_read_intf_from_file.
  destruct (words_visible _ _ _ i Hi) as [Hline Hshort].
  assert (Hi1 : described open_socket inet_aton 1 i) by (destruct Hi; by split).
  rewrite intf_line_words. cbn [read_loop]. rewrite fgets_line by done.
  destruct (intf_words i +:+ String newline EmptyString) as [|c l] eqn:Hw.
  { apply (f_equal String.length) in Hw. rewrite length_cat in Hw. cbn in Hw. lia. }
  rewrite <- Hw, (scan_intf _ _ _ i garbage Hi Hg). unfold mbind at 1, outcome_bind at 1.
  rewrite (read_intf _ _ router_init i Hi) by (cbn; unfold ROUTER_MAX_INTERFACES; lia). unfold mbind, outcome_bind.
  rewrite length_cat. cbn [String.length]. rewrite Nat.add_comm. cbn [Nat.add read_loop fgets Ascii.eqb].
  change (Ascii.eqb newline newline) with true. cbn match.
  match goal with |- context [scan_line ?l ?f] => change (scan_line l f) with (Ret f) end.
  unfold mbind, outcome_bind. change (interface router_init ++ [i]) with [i].
  rewrite (read_intf _ _ (Router [i] (use_ospf router_init)) i Hi1) by (cbn; unfold ROUTER_MAX_INTERFACES; lia).
  reflexivity.
Qed.

(** Nobody counts the interfaces: the fifth is written behind the array. *)
Lemma fifth_interface r n a m x :
  num_interfaces r = ROUTER_MAX_INTERFACES -> router_add_interface open_socket r n a m x = Undef.
Proof using. intros Hr. unfold router_add_interface. by rewrite Hr. Qed.

(** Nor the characters of a word: the 32nd is written behind its buffer. *)
Lemma long_name w rest f :
  visible w = true -> (32 <= String.length w)%nat -> scan_line (w +:+ String " " rest) f = Undef.
Proof using.
  intros Hw Hl. unfold scan_line.
  assert (Hne : w <> EmptyString) by (intros ->; cbn in Hl; lia).
  rewrite scan_word_visible by done. unfold fits. by destruct (Nat.leb_spec 32 (String.length w)); [|lia].
Qed.

End Faults.

(** A read that fails ends in a copy of 4294967295 bytes from a buffer of 2000. *)
Lemma failed_read_copied malloc ready buf r :
  malloc 4294967295 = true -> (List.length buf <= 2000)%nat ->
  is_Some (first_ready ready (interface r) 0) ->
  sr_mininet_read_packet malloc ready (fun _ => (buf, -1)) r = Undef.
Proof.
  intros Hm Hb [[i x] Hx]. unfold sr_mininet_read_packet, sr_integ_input. rewrite Hx.
  change (u32 (-1)) with 4294967295. rewrite Hm. cbn [negb].
  destruct (Z.ltb_spec (Z.of_nat (List.length buf)) 4294967295); [reflexivity|lia].
Qed.

(** ** Texts and packets *)

Lemma length_spaces n : String.length (String.concat EmptyString (repeat " "%string n)) = n.
Proof.
  induction n as [|n IH]; [reflexivity|]. cbn [repeat]. destruct n as [|n]; [reflexivity|].
  cbn [repeat String.concat] in *. cbn [repeat] in IH. rewrite !length_cat. cbn [String.length].
  rewrite IH. reflexivity.
Qed.

Lemma pad_length n s : String.length (pad n s) = Nat.max n (String.length s).
Proof. unfold pad. rewrite length_cat, length_spaces. lia. Qed.

(** The text of every interface fits the length that the header promises, and so does the
    heading: it is stored whole, and the result is its length. *)
Theorem intf_strings_fit i len :
  (String.length (name i) < SR_NAMELEN)%nat -> (STR_INTF_MAX_LEN <= len)%nat -> Z.of_nat len < 2 ^ 31 ->
  let text := STR_INTF_FORMAT (name i) (mac_text (mac i)) (ip_text (ip i)) (if enabled i then "Up" else "Down") in
  intf_to_string i len = (text, Z.of_nat (String.length text))
  /\ (intf_header_to_string STR_INTF_HDR_MAX_LEN).2 = 54.
Proof.
  intros Hn Hlen Hmax text. split; [|reflexivity].
  assert (Hmac : mac_to_string (mac i) = mac_text (mac i)) by (apply substring_all; reflexivity).
  pose proof (ip_text_length (ip i)) as Hip.
  assert (Hipt : ip_to_string (ip i) = ip_text (ip i)) by (apply substring_all; unfold STRLEN_IP; lia).
  assert (Hl : (String.length text <= 76)%nat).
  { unfold text, STR_INTF_FORMAT. rewrite !length_cat, !pad_length. rewrite mac_text_length.
    unfold SR_NAMELEN in Hn. destruct (enabled i); cbn [String.length]; lia. }
  unfold intf_to_string, print_to. rewrite Hmac, Hipt. fold text.
  unfold STR_INTF_MAX_LEN, SR_NAMELEN in Hlen. unfold snprintf, my_snprintf. rewrite substring_all by lia.
  destruct (Z.ltb_spec (Z.of_nat (String.length text)) 0); [lia|]. rewrite u32_small by lia.
  destruct (Z.leb_spec (Z.of_nat len) (Z.of_nat (String.length text))); [lia|]. reflexivity.
Qed.

(** What is read from the first interface that is ready comes to the work queue as it is,
    with the number of that interface. *)
Lemma packet_queued malloc ready read_once r i x buf len :
  first_ready ready (interface r) 0 = Some (i, x) -> read_once (hw_fd x) = (buf, len) ->
  0 <= len <= Z.of_nat (List.length buf) -> len < 2 ^ 32 -> malloc len = true ->
  interface r !! i = Some x /\ ready (hw_fd x) = true
  /\ (forall j y, (j < i)%nat -> interface r !! j = Some y -> ready (hw_fd y) = false)
  /\ sr_mininet_read_packet malloc ready read_once r
     = Ret (Some (Some (WORK_NEW_PACKET, PacketInfo (take (Z.to_nat len) buf) i))).
Proof.
  intros Hfirst Hread Hlen Hu Hm.
  assert (Hspec : forall l k, first_ready ready l k = Some (i, x) ->
    (k <= i)%nat /\ l !! (i - k)%nat = Some x /\ ready (hw_fd x) = true
    /\ forall j y, (j < i - k)%nat -> l !! j = Some y -> ready (hw_fd y) = false).
  { induction l as [|z l IH]; intros k Hk; [done|]. cbn in Hk. destruct (ready (hw_fd z)) eqn:Hz.
    - injection Hk as -> ->. rewrite Nat.sub_diag. repeat split; try done. intros j y Hj. lia.
    - destruct (IH (S k) Hk) as (Hle & Hx & Hr & Hlow). split; [lia|].
      replace (i - k)%nat with (S (i - S k)) by lia. split; [done|]. split; [done|].
      intros [|j] y Hj Hy; [by injection Hy as ->|]. apply (Hlow j); [lia|done]. }
  destruct (Hspec _ _ Hfirst) as (_ & Hx & Hr & Hlow). rewrite Nat.sub_0_r in Hx, Hlow.
  split; [done|]. split; [done|]. split; [done|].
  unfold sr_mininet_read_packet, sr_integ_input. rewrite Hfirst, Hread, u32_small, Hm by lia. cbn [negb].
  destruct (Z.ltb_spec (Z.of_nat (List.length buf)) len); [lia|reflexivity].
Qed.
