(* ===== verification/Nf10.v ===== *)
(** * The NIC driver's rings ([nf10priv.c], [nf10iface.c], [nf10driver.c])

    The driver of the reference NIC, under [projects/reference_nic/sw/host/driver].
    Each direction has a ring of 32 descriptors in the card, a buffer of 512 lines
    of 64 bytes in the card, a ring of completion lines in the host's memory, and
    arrays that remember the packet of each descriptor.  The six arrays and
    counters of one direction, [mem_tx_dsc], [mem_tx_pkt], [host_tx_dne], [tx_bk_*],
    [tx_dsc], [host_tx_dne_ptr] (and the same with rx), are a [ring] here.

    The card is not part of the C code: it is a step of the system that takes the
    descriptors in the order of the ring, each once, and writes the completion
    line of the same index.  Packets in memory are a map from addresses to
    lengths; a packet that was freed or handed on is gone.

    [Nf10Ring] has the invariant of the rings and [Nf10System] what the driver
    guarantees. *)

From stdpp Require Import base gmap list.
From Stdlib Require Import ZArith Lia.
From S2P Require Import Prelude.

(** [struct nf10mem]. *)
Record nf10mem := Mem { wr_ptr : Z; rd_ptr : Z; cnt : Z; mask : Z; cl_size : Z }.

(** What is remembered of a descriptor; receive descriptors have no port. *)
Record bk := Bk { bk_dma_addr : Z; bk_skb : Z; bk_size : Z; bk_port : Z }.

(** The two words of a descriptor in the card. *)
Definition words : Type := Z * Z.

Record ring := Ring {
  mem_dsc : nf10mem;
  mem_pkt : nf10mem;
  host_dne : nf10mem;
  books : list bk;
  (** the descriptors that were written and not yet taken by the card *)
  dsc : list (option words);
  dne : list Z;
  (** the card's position *)
  hw : Z
}.

(** The part of [struct net_device] and its private data that the driver uses. *)
Record ndev := Ndev {
  stopped : bool;
  port_up : bool;
  tx_packets : Z;
  tx_bytes : Z;
  rx_packets : Z;
  rx_bytes : Z
}.

(** [struct nf10_card], with the packets in memory and what left the driver: the
    packets freed after their transmission and those given to the network stack
    with their ports. *)
Record card := Card {
  tx : ring;
  rx : ring;
  ndevs : list ndev;
  tx_irq : bool;
  rx_irq : bool;
  skbs : gmap Z Z;
  sent : list Z;
  received : list (Z * Z)
}.

Definition set_wr (v : Z) (m : nf10mem) : nf10mem :=
  Mem v (rd_ptr m) (cnt m) (mask m) (cl_size m).
Definition set_rd (v : Z) (m : nf10mem) : nf10mem :=
  Mem (wr_ptr m) v (cnt m) (mask m) (cl_size m).
Definition add_cnt (v : Z) (m : nf10mem) : nf10mem :=
  Mem (wr_ptr m) (rd_ptr m) (cnt m + v) (mask m) (cl_size m).

Definition set_tx (r : ring) (c : card) : card :=
  Card r (rx c) (ndevs c) (tx_irq c) (rx_irq c) (skbs c) (sent c) (received c).
Definition set_rx (r : ring) (c : card) : card :=
  Card (tx c) r (ndevs c) (tx_irq c) (rx_irq c) (skbs c) (sent c) (received c).
Definition set_ndevs (v : list ndev) (c : card) : card :=
  Card (tx c) (rx c) v (tx_irq c) (rx_irq c) (skbs c) (sent c) (received c).
Definition set_irqs (v : bool) (c : card) : card :=
  Card (tx c) (rx c) (ndevs c) v v (skbs c) (sent c) (received c).
Definition set_skbs (v : gmap Z Z) (c : card) : card :=
  Card (tx c) (rx c) (ndevs c) (tx_irq c) (rx_irq c) v (sent c) (received c).

(** A store into an array, which must be in its bounds. *)
Definition array_set {A} (l : list A) (i : Z) (v : A) : outcome (list A) :=
  if (0 <=? i) && (i <? Z.of_nat (length l)) then Ret (<[Z.to_nat i := v]> l) else Undef.

Definition array_get {A} (l : list A) (i : Z) : outcome A :=
  if 0 <=? i then load (l !! Z.to_nat i) else Undef.

(** ** Initial state ([nf10_probe]) *)

Definition mem_init (mask : Z) : nf10mem := Mem 0 0 0 mask ((mask + 1) / 64).

(** The masks after the comparison of the two rings, which have the same size. *)
Definition dsc_mask : Z := 2047.
Definition pkt_mask : Z := 32767.
Definition dne_mask : Z := 2047.

(** The completion line of nothing, as wide as the driver reads it. *)
Definition no_tx : Z := 4294967295.
Definition no_rx : Z := 18446744073709551615.

(** The arrays of [kmalloc] have unknown contents. *)
Definition ring_init (garbage : bk) (nothing : Z) : ring :=
  let n := Z.to_nat ((dsc_mask + 1) / 64) in
  {| mem_dsc := mem_init dsc_mask; mem_pkt := mem_init pkt_mask;
     host_dne := mem_init dne_mask; books := replicate n garbage;
     dsc := replicate n None; dne := replicate n nothing; hw := 0 |}.

Definition nf10_probe (garbage : bk) (skbs : gmap Z Z) : card :=
  {| tx := ring_init garbage no_tx; rx := ring_init garbage no_rx;
     ndevs := replicate 4 (Ndev false false 0 0 0 0); tx_irq := true; rx_irq := true;
     skbs := skbs; sent := []; received := [] |}.

(** ** Steps on a ring that both directions share *)

(** Room for one descriptor and [size] lines. *)
Definition room (size : Z) (r : ring) : bool :=
  (cnt (mem_dsc r) + 1 <=? cl_size (mem_dsc r))
  && (cnt (mem_pkt r) + size <=? cl_size (mem_pkt r)).

Definition advance (size : Z) (r : ring) : ring :=
  let pkt := mem_pkt r in
  {| mem_dsc := set_wr (Z.land (wr_ptr (mem_dsc r) + 64) (mask (mem_dsc r))) (mem_dsc r);
     mem_pkt := set_wr (Z.land (wr_ptr pkt + 64 * size) (mask pkt)) pkt;
     host_dne := host_dne r; books := books r; dsc := dsc r; dne := dne r; hw := hw r |}.

(** The change of the two counters. *)
Definition count (n size : Z) (r : ring) : ring :=
  {| mem_dsc := add_cnt n (mem_dsc r); mem_pkt := add_cnt size (mem_pkt r);
     host_dne := host_dne r; books := books r; dsc := dsc r; dne := dne r; hw := hw r |}.

(** The bookkeeping of a descriptor, and the descriptor in the card. *)
Definition write_dsc (index : Z) (b : bk) (w : words) (r : ring) : outcome ring :=
  books' ← array_set (books r) index b;
  dsc' ← array_set (dsc r) index (Some w);
  Ret {| mem_dsc := mem_dsc r; mem_pkt := mem_pkt r; host_dne := host_dne r;
         books := books'; dsc := dsc'; dne := dne r; hw := hw r |}.

(** Moving on in the completion ring: the index of the descriptor that is done. *)
Definition move_on (r : ring) : Z * ring :=
  let addr := rd_ptr (host_dne r) in
  (addr / 64, {| mem_dsc := mem_dsc r; mem_pkt := mem_pkt r;
                 host_dne := set_rd (Z.land (addr + 64) (mask (host_dne r))) (host_dne r);
                 books := books r; dsc := dsc r; dne := dne r; hw := hw r |}).

(** Invalidating a completion line. *)
Definition invalidate (nothing index : Z) (r : ring) : outcome ring :=
  dne' ← array_set (dne r) index nothing;
  Ret {| mem_dsc := mem_dsc r; mem_pkt := mem_pkt r; host_dne := host_dne r;
         books := books r; dsc := dsc r; dne := dne'; hw := hw r |}.

(** Both, as the driver does for the packets it received. *)
Definition next_done (nothing : Z) (r : ring) : outcome (Z * ring) :=
  let '(index, r) := move_on r in r ← invalidate nothing index r; Ret (index, r).

(** The completion line that is due. *)
Definition due (r : ring) : outcome Z := array_get (dne r) (rd_ptr (host_dne r) / 64).

(** [kfree_skb] and [dev_kfree_skb_any]. *)
Definition free_skb (skb : Z) (c : card) : outcome card :=
  _ ← load (skbs c !! skb); Ret (set_skbs (delete skb (skbs c)) c).

Definition stop_queue (v : bool) (d : ndev) : ndev :=
  Ndev v (port_up d) (tx_packets d) (tx_bytes d) (rx_packets d) (rx_bytes d).

(** ** Transmission *)

Definition port_decoded (port : Z) : Z :=
  if port =? 0 then 258 else if port =? 1 then 1032
  else if port =? 2 then 4128 else if port =? 3 then 16512 else 0.

(** What a call of [nf10priv_xmit] still has to do after it gave up the lock. *)
Record call := Call { c_index : Z; c_bk : bk; c_words : words; c_stop : bool }.

(** The part under [tx_lock]; [dma] is the result of [pci_map_single].  The queue
    is stopped before the lock is given up, but the completion handler does not
    take that lock. *)
Definition xmit_lock (skb port : Z) (dma : option Z) (c : card)
    : outcome (Z * option call * card) :=
  len ← load (skbs c !! skb);
  let size := u32 (len + 2 * 63) / 64 in
  let r := tx c in
  if room size r then
    let pkt_addr := wr_ptr (mem_pkt r) in
    let dsc_addr := wr_ptr (mem_dsc r) in
    let r := advance size r in
    match dma with
    | None => Ret (-1, None, set_tx r c)
    | Some dma_addr =>
        let r := count 1 size r in
        let stop := negb ((cnt (mem_dsc r) + 1 <=? cl_size (mem_dsc r))
                          && (cnt (mem_pkt r) + 32 <=? cl_size (mem_pkt r))) in
        let pkt_addr_fixed := u64 (pkt_addr + Z.land dma_addr 63) in
        let l0 := u64 (Z.shiftl len 48 + Z.shiftl (port_decoded port) 32
                       + Z.land pkt_addr_fixed 4294967295) in
        Ret (0, Some (Call (dsc_addr / 64) (Bk dma_addr skb size port)
                        (l0, dma_addr) stop), set_tx r c)
    end
  else Ret (-1, None, c).

Definition xmit_stop (k : call) (c : card) : outcome card :=
  if c_stop k then
    d ← array_get (ndevs c) (bk_port (c_bk k));
    l ← array_set (ndevs c) (bk_port (c_bk k)) (stop_queue true d);
    Ret (set_ndevs l c)
  else Ret c.

Definition xmit_post (k : call) (c : card) : outcome card :=
  r ← write_dsc (c_index k) (c_bk k) (c_words k) (tx c); Ret (set_tx r c).

Definition nf10priv_xmit (skb port : Z) (dma : option Z) (c : card) : outcome (Z * card) :=
  '(ret, k, c) ← xmit_lock skb port dma c;
  match k with
  | None => Ret (ret, c)
  | Some k => c ← xmit_stop k c; c ← xmit_post k c; Ret (0, c)
  end.

Definition add_tx (len : Z) (d : ndev) : ndev :=
  Ndev (stopped d) (port_up d) (tx_packets d + 1) (tx_bytes d + len) (rx_packets d) (rx_bytes d).

(** The statistics that [nf10i_tx] keeps after the call, with the length of a
    packet that it no longer owns. *)
Definition tx_stats (skb port : Z) (c : card) : outcome card :=
  d ← array_get (ndevs c) port;
  len ← load (skbs c !! skb);
  l ← array_set (ndevs c) port (add_tx len d);
  Ret (set_ndevs l c).

(** Padding to the smallest size of an Ethernet frame; [skb_pad] can make room. *)
Definition nf10i_tx (skb port : Z) (dma : option Z) (c : card) : outcome card :=
  len ← load (skbs c !! skb);
  let c := if len <? 60 then set_skbs (<[skb := 60]> (skbs c)) c else c in
  if 1514 <? len then free_skb skb c
  else
    '(ret, c) ← nf10priv_xmit skb port dma c;
    if negb (ret =? 0) then free_skb skb c else tx_stats skb port c.

(** ** Receive descriptors *)

Definition SK_BUFF_ALLOC_SIZE : Z := 1533.
Definition rx_lines : Z := (SK_BUFF_ALLOC_SIZE + 66) / 64.

(** [alloc] is the result of [dev_alloc_skb] with the address it is mapped to. *)
Definition nf10priv_send_rx_dsc (alloc : option (Z * Z)) (c : card) : outcome (Z * card) :=
  let r := rx c in
  if room rx_lines r then
    match alloc with
    | None => Ret (-1, c)
    | Some (skb, dma_addr) =>
        let pkt_addr := wr_ptr (mem_pkt r) in
        let dsc_addr := wr_ptr (mem_dsc r) in
        let r := count 1 rx_lines (advance rx_lines r) in
        let pkt_addr_fixed := u64 (pkt_addr + Z.land dma_addr 3) in
        let l0 := u64 (Z.shiftl SK_BUFF_ALLOC_SIZE 48 + Z.land pkt_addr_fixed 4294967295) in
        r ← write_dsc (dsc_addr / 64) (Bk dma_addr skb rx_lines 0) (l0, dma_addr) r;
        Ret (0, set_rx r (set_skbs (<[skb := 0]> (skbs c)) c))
    end
  else Ret (-1, c).

(** The descriptors that [nf10iface_probe] gives to the card. *)
Fixpoint give_rx (allocs : list (option (Z * Z))) (c : card) : outcome card :=
  match allocs with
  | [] => Ret c
  | a :: allocs => '(_, c) ← nf10priv_send_rx_dsc a c; give_rx allocs c
  end.

(** ** Completions *)

(** [netif_wake_queue] on the queues that are stopped. *)
Definition wake_queues (c : card) : card :=
  set_ndevs (map (stop_queue false) (ndevs c)) c.

(** The packet that was transmitted is freed and its place is given back. *)
Definition tx_retire (c : card) : outcome (Z * card) :=
  let '(index, r) := move_on (tx c) in
  b ← array_get (books r) index;
  _ ← load (skbs c !! bk_skb b);
  c ← free_skb (bk_skb b) (set_tx r c);
  Ret (index, Card (count (-1) (- bk_size b) r) (rx c) (ndevs c) (tx_irq c) (rx_irq c)
                (skbs c) (sent c ++ [bk_skb b]) (received c)).

(** Only then its completion line is invalidated. *)
Definition tx_restart (index : Z) (c : card) : outcome card :=
  r ← invalidate no_tx index (tx c);
  Ret (if (cnt (mem_dsc r) + 8 * 1 <=? cl_size (mem_dsc r))
          && (cnt (mem_pkt r) + 4 * 32 <=? cl_size (mem_pkt r))
       then wake_queues (set_tx r c) else set_tx r c).

Definition tx_done (c : card) : outcome card :=
  '(index, c) ← tx_retire c; tx_restart index c.

Definition rx_port (port_encoded : Z) : Z :=
  if truthy (Z.land port_encoded 512) then 0
  else if truthy (Z.land port_encoded 2048) then 1
  else if truthy (Z.land port_encoded 8192) then 2
  else if truthy (Z.land port_encoded 32768) then 3
  else -1.

Definition add_rx (len : Z) (d : ndev) : ndev :=
  Ndev (stopped d) (port_up d) (tx_packets d) (tx_bytes d) (rx_packets d + 1) (rx_bytes d + len).

Section Handler.

(** The length that is left after [eth_type_trans] has taken off the header. *)
Variable eth_type_trans : Z -> Z.

(** A packet whose length or port is invalid is not freed. *)
Definition rx_deliver (w skb : Z) (c : card) : outcome card :=
  let len := Z.land w 65535 in
  let port := rx_port (Z.land (Z.shiftr w 16) 65535) in
  if (1514 <? len) || (len <? 60) || (port <? 0) || (3 <? port) then Ret c
  else
    d ← array_get (ndevs c) port;
    if port_up d then
      l ← array_set (ndevs c) port (add_rx (eth_type_trans len) d);
      _ ← load (skbs c !! skb);
      Ret (Card (tx c) (rx c) l (tx_irq c) (rx_irq c) (delete skb (skbs c)) (sent c)
             (received c ++ [(port, skb)]))
    else free_skb skb c.

Definition rx_done (w : Z) (alloc : option (Z * Z)) (c : card) : outcome card :=
  '(index, r) ← next_done no_rx (rx c);
  b ← array_get (books r) index;
  _ ← load (skbs c !! bk_skb b);
  let c := set_rx (count (-1) (- bk_size b) r) c in
  '(_, c) ← nf10priv_send_rx_dsc alloc c;
  rx_deliver w (bk_skb b) c.

(** The local variables of [work_handler]. *)
Record polling := Polling { work_counter : Z; tcnt : Z; int_enabled : bool }.

Definition tx_is_done (w : Z) : bool := Z.land w 65535 =? 1.
Definition rx_is_done (w : Z) : bool := negb (Z.land (Z.shiftr w 48) 65535 =? 65535).

(** One round of the loop. *)
Definition work_round (alloc : option (Z * Z)) (p : polling) (c : card)
    : outcome (polling * card) :=
  let disable := int_enabled p && (0 <? work_counter p) in
  let c := if disable then set_irqs false c else c in
  let int_enabled := int_enabled p && negb disable in
  tx_int ← due (tx c);
  rx_int ← due (rx c);
  c ← (if tx_is_done tx_int then tx_done c else Ret c);
  c ← (if rx_is_done rx_int then rx_done rx_int alloc c else Ret c);
  let irq_done := negb (tx_is_done tx_int) && negb (rx_is_done rx_int) in
  let work_counter := work_counter p + 1 in
  let tcnt := if irq_done then tcnt p - 1
              else if tcnt p <? 10000 then tcnt p + 1 else tcnt p in
  if (tcnt <=? 1) && negb int_enabled
  then Ret (Polling 0 1 true, set_irqs true c)
  else Ret (Polling work_counter tcnt int_enabled, c).

(** The whole handler; [alloc] gives the results of the allocations. *)
Fixpoint work_loop (fuel : nat) (alloc : nat -> option (Z * Z)) (p : polling) (c : card)
    : outcome (polling * card) :=
  match fuel with
  | O => Undef
  | S fuel =>
      if tcnt p =? 0 then Ret (p, c)
      else '(p, c) ← work_round (alloc fuel) p c; work_loop fuel alloc p c
  end.

Definition polling_init : polling := Polling 0 1 true.

Definition work_handler (fuel : nat) (alloc : nat -> option (Z * Z)) (c : card) :=
  work_loop fuel alloc polling_init c.

End Handler.

Definition set_up (v : bool) (d : ndev) : ndev :=
  Ndev (stopped d) v (tx_packets d) (tx_bytes d) (rx_packets d) (rx_bytes d).

Definition nf10i_open (port : Z) (c : card) : outcome card :=
  d ← array_get (ndevs c) port;
  l ← array_set (ndevs c) port (set_up true d); Ret (set_ndevs l c).

Definition nf10i_stop (port : Z) (c : card) : outcome card :=
  d ← array_get (ndevs c) port;
  l ← array_set (ndevs c) port (set_up false d); Ret (set_ndevs l c).

(** ** Register accesses ([nf10fops.c]) *)

Definition EINVAL : Z := 22.
Definition EFAULT : Z := 14.

(** What the card's status word says of its write buffer: the new count of the
    writes since it was empty, or nothing if it is full.  [~] is the bitwise
    negation of a 64-bit word. *)
Definition axi_count (val : Z) : option Z :=
  if truthy (Z.land val 1) then Some 1
  else if truthy (u64 (Z.lnot (Z.land val 2))) then Some 49
  else if truthy (u64 (Z.lnot (Z.land val 4))) then Some 64
  else None.

(** The cases of [nf10fops_ioctl] with the address or value that is passed. *)
Inductive ioctl_cmd := READ_STAT (addr : Z) | WRITE_REG (arg : Z) | READ_REG (addr : Z) | UNKNOWN.

(** An access to a 64-bit register of the card. *)
Inductive access := RegRead (i : Z) | RegWrite (i v : Z).

(** Returns the result, the new [axi_wr_cnt] and the accesses.  [val] and [val']
    are the status words before and after the wait of a millisecond. *)
Definition nf10fops_ioctl (cmd : ioctl_cmd) (val val' axi_wr_cnt : Z) : Z * Z * list access :=
  match cmd with
  | READ_STAT addr =>
      if 512 <=? addr then (- EINVAL, axi_wr_cnt, [])
      else (0, axi_wr_cnt, [RegRead (512 + addr)])
  | WRITE_REG arg =>
      let '(n, polls) :=
        if axi_wr_cnt <? 64 then (axi_wr_cnt + 1, [])
        else match axi_count val with
             | Some n => (n, [RegRead 130])
             | None => (match axi_count val' with Some n => n | None => 65 end,
                        [RegRead 130; RegRead 130])
             end in
      if n <=? 64 then (0, n, polls ++ [RegWrite 128 arg]) else (- EFAULT, n, polls)
  | READ_REG addr =>
      (0, 0, [RegWrite 129 (u64 (Z.shiftl addr 32)); RegRead 129])
  | UNKNOWN => (0, axi_wr_cnt, [])
  end.

(** ** The card *)

(** The card takes the descriptor at its position and reports it done with [w]. *)
Definition hw_step (w : Z) (r : ring) : option ring :=
  match dsc r !! Z.to_nat (hw r) with
  | Some (Some _) =>
      Some {| mem_dsc := mem_dsc r; mem_pkt := mem_pkt r; host_dne := host_dne r;
              books := books r; dsc := <[Z.to_nat (hw r) := None]> (dsc r);
              dne := <[Z.to_nat (hw r) := w]> (dne r);
              hw := (hw r + 1) mod ((dsc_mask + 1) / 64) |}
  | _ => None
  end.
