(* ===== verification/Nf10Ring.v ===== *)
(** * Guarantees of the NIC driver's rings

    The packets between [xmit_lock] (or [nf10priv_send_rx_dsc]) and their
    completion are a queue, the window of a ring.  [ring_ok] relates the pointers,
    counters, arrays and completion lines of a ring to its window; the lemmas say
    what every operation does to the window.  [work_round_spec] is the
    round of the completion handler; [Nf10System] has the theorems. *)

From stdpp Require Import base gmap list relations.
From Stdlib Require Import ZArith Lia.
From S2P Require Import Prelude Nf10.

(** How far a descriptor has come: its place is taken, it was written to the
    card, the card has reported it done. *)
Inductive stage := Locked | Written | Done (w : Z).

Record flight := Flight { f_bk : bk; f_line : Z; f_words : words; f_stage : stage }.

Definition set_stage (v : stage) (f : flight) : flight :=
  Flight (f_bk f) (f_line f) (f_words f) v.

Definition is_done (f : flight) : bool := match f_stage f with Done _ => true | _ => false end.

(** The slot of the [i]th packet of a window that begins at [rd]. *)
Definition slot (rd i : Z) : Z := (rd + i) mod 32.

Lemma slot_range rd i : 0 <= slot rd i < 32.
Proof. unfold slot. divmod. Qed.

Lemma slot_inj rd i j :
  0 <= i < 32 -> 0 <= j < 32 -> slot rd i = slot rd j -> i = j.
Proof. unfold slot. intros. divmod. Qed.

Lemma slot_next rd i : slot ((rd + 1) mod 32) i = slot rd (i + 1).
Proof. unfold slot. divmod. Qed.

Lemma slot_add rd i : (slot rd i + 1) mod 32 = slot rd (i + 1).
Proof. unfold slot. divmod. Qed.

Lemma slot_wrap rd : slot rd 32 = slot rd 0.
Proof. unfold slot. divmod. Qed.

Lemma slot_zero rd : 0 <= rd < 32 -> slot rd 0 = rd.
Proof. unfold slot. intros. divmod. Qed.

(** Moving a pointer by one line or more, in bytes and in lines. *)
Lemma dsc_wrap k : Z.land (64 * k + 64) 2047 = 64 * ((k + 1) mod 32).
Proof. rewrite (land_ones_mod _ 11) by lia. change (2 ^ 11) with 2048. divmod. Qed.

Lemma pkt_wrap k n : Z.land (64 * k + 64 * n) 32767 = 64 * ((k + n) mod 512).
Proof. rewrite (land_ones_mod _ 15) by lia. change (2 ^ 15) with 32768. divmod. Qed.

Lemma array_get_ok {A} (l : list A) i v :
  0 <= i -> l !! Z.to_nat i = Some v -> array_get l i = Ret v.
Proof. intros Hi Hv. unfold array_get. destruct (Z.leb_spec 0 i); [|lia]. by rewrite Hv. Qed.

Lemma array_set_ok {A} (l : list A) i (v : A) :
  0 <= i < Z.of_nat (length l) -> array_set l i v = Ret (<[Z.to_nat i := v]> l).
Proof.
  intros Hi. unfold array_set. destruct (Z.leb_spec 0 i); [|lia].
  by destruct (Z.ltb_spec i (Z.of_nat (length l))); [|lia].
Qed.

(** ** The invariant of a ring *)

Fixpoint total (win : list flight) : Z :=
  match win with [] => 0 | f :: win => bk_size (f_bk f) + total win end.

Lemma total_snoc win f : total (win ++ [f]) = total win + bk_size (f_bk f).
Proof. induction win; cbn; lia. Qed.

(** The packets have consecutive lines of the card's buffer. *)
Fixpoint lines_ok (base : Z) (win : list flight) : Prop :=
  match win with
  | [] => True
  | f :: win => f_line f = base mod 512 /\ 0 <= bk_size (f_bk f)
                /\ lines_ok (base + bk_size (f_bk f)) win
  end.

Lemma lines_snoc win : forall base f,
  lines_ok base win -> f_line f = (base + total win) mod 512 -> 0 <= bk_size (f_bk f) ->
  lines_ok base (win ++ [f]).
Proof.
  induction win as [|g win IH]; intros base f; cbn.
  - rewrite Z.add_0_r. auto.
  - intros (Hl & Hs & Hw) Hf Hn. split; [done|]. split; [done|]. apply IH; [done| |done].
    rewrite Hf. f_equal. lia.
Qed.

Section Ring.

(** The completion line of nothing, and the test on a completion line. *)
Context (nothing : Z) (doneP : Z -> bool).
Hypothesis Hnothing : doneP nothing = false.

(** The completion line and the card's descriptor of a slot. *)
Definition dne_of (f : option flight) : Z :=
  match f with Some f => match f_stage f with Done w => w | _ => nothing end | None => nothing end.
Definition dsc_of (f : option flight) : option words :=
  match f with Some f => match f_stage f with Written => Some (f_words f) | _ => None end | None => None end.

Record ring_ok (r : ring) (rd base : Z) (win : list flight) : Prop := {
  ro_masks : mask (mem_dsc r) = 2047 /\ mask (mem_pkt r) = 32767 /\ mask (host_dne r) = 2047;
  ro_sizes : cl_size (mem_dsc r) = 32 /\ cl_size (mem_pkt r) = 512;
  ro_rd : 0 <= rd < 32;
  ro_rd_ptr : rd_ptr (host_dne r) = 64 * rd;
  ro_wr_ptr : wr_ptr (mem_dsc r) = 64 * slot rd (Z.of_nat (length win));
  ro_cnt : cnt (mem_dsc r) = Z.of_nat (length win) /\ Z.of_nat (length win) <= 32;
  ro_pkt_wr : wr_ptr (mem_pkt r) = 64 * ((base + total win) mod 512);
  ro_pkt_cnt : cnt (mem_pkt r) = total win /\ total win <= 512;
  ro_lines : lines_ok base win;
  ro_lengths : length (books r) = 32%nat /\ length (dsc r) = 32%nat /\ length (dne r) = 32%nat;
  ro_hw : exists n, hw r = slot rd (Z.of_nat n) /\ Forall (fun f => is_done f = true) (take n win)
          /\ Forall (fun f => is_done f = false) (drop n win) /\ (n <= length win)%nat;
  ro_cells : forall i : nat, (i < 32)%nat ->
    let k := Z.to_nat (slot rd (Z.of_nat i)) in
    dne r !! k = Some (dne_of (win !! i)) /\ dsc r !! k = Some (dsc_of (win !! i))
    /\ (forall f, win !! i = Some f -> f_stage f <> Locked -> books r !! k = Some (f_bk f));
  ro_done : forall (i : nat) f w, win !! i = Some f -> f_stage f = Done w -> doneP w = true
}.

Lemma room_spec size r rd base win :
  ring_ok r rd base win ->
  room size r = true <-> Z.of_nat (length win) < 32 /\ total win + size <= 512.
Proof using.
  clear Hnothing. intros H. destruct (ro_cnt _ _ _ _ H) as [Hc _], (ro_pkt_cnt _ _ _ _ H) as [Hp _].
  destruct (ro_sizes _ _ _ _ H) as [Hd Hk]. unfold room. rewrite Hc, Hp, Hd, Hk.
  rewrite andb_true_iff, !Z.leb_le. lia.
Qed.

(** Taking the next place. *)
Lemma ring_push r rd base win size b w :
  ring_ok r rd base win -> room size r = true -> 0 <= size -> bk_size b = size ->
  ring_ok (count 1 size (advance size r)) rd base
    (win ++ [Flight b ((base + total win) mod 512) w Locked]).
Proof using.
  clear Hnothing. intros H Hroom Hs Hb. apply (room_spec _ _ _ _ _ H) in Hroom as [Hlen Htot].
  destruct H as [Hm Hz Hrd Hrp Hwp Hc Hpw Hpc Hl Hln Hhw Hcells Hdone].
  destruct Hm as (Hm1 & Hm2 & Hm3).
  split; cbn [count advance mem_dsc mem_pkt host_dne set_wr add_cnt mask cl_size rd_ptr wr_ptr cnt
    books dsc dne hw]; try done.
  - rewrite Hwp, Hm1, dsc_wrap, slot_add, length_app. f_equal. f_equal. cbn. lia.
  - rewrite length_app. cbn. destruct Hc. split; lia.
  - rewrite Hpw, Hm2, pkt_wrap, total_snoc. cbn. rewrite Hb. f_equal.
    rewrite Zplus_mod_idemp_l. f_equal. lia.
  - rewrite total_snoc. cbn. destruct Hpc. lia.
  - apply lines_snoc; cbn; [done|done|lia].
  - destruct Hhw as (n & Hn & Ht & Hd & Hle). exists n. rewrite length_app. split; [done|].
    rewrite take_app_le, drop_app_le by lia. split; [done|]. split; [|lia].
    apply Forall_app. split; [done|]. by constructor.
  - intros i Hi. destruct (Hcells i Hi) as (H1 & H2 & H3).
    destruct (decide (i < length win)%nat).
    { rewrite lookup_app_l by lia. done. }
    destruct (decide (i = length win)) as [->|].
    + rewrite list_lookup_middle by done. rewrite (lookup_ge_None_2 win) in H1, H2 by lia.
      split; [done|]. split; [done|]. intros f [= <-] Hst. done.
    + rewrite !(lookup_ge_None_2 (win ++ _)) by (rewrite length_app; cbn; lia).
      rewrite !(lookup_ge_None_2 win) in H1, H2 by lia. done.
  - intros i f w' Hi. destruct (decide (i < length win)%nat).
    { rewrite lookup_app_l in Hi by lia. by apply (Hdone i). }
    apply lookup_lt_Some in Hi as Hlt. rewrite length_app in Hlt. cbn in Hlt.
    replace i with (length win) in Hi by lia. rewrite list_lookup_middle in Hi by done.
    by injection Hi as <-.
Qed.

Lemma flights_done_set win i f n :
  win !! i = Some f -> is_done f = false ->
  Forall (fun f => is_done f = true) (take n win) ->
  Forall (fun f => is_done f = false) (drop n win) -> (n <= length win)%nat ->
  (n <= i)%nat.
Proof using.
  clear Hnothing. intros Hi Hf Ht Hd Hle. destruct (decide (n <= i)%nat); [done|]. exfalso.
  rewrite Forall_lookup in Ht. rewrite (Ht i f) in Hf; [done|]. by rewrite lookup_take_lt by lia.
Qed.

Lemma total_stage win i f v :
  win !! i = Some f -> total (<[i := set_stage v f]> win) = total win.
Proof using.
  clear Hnothing. revert i. induction win as [|g win IH]; intros [|i] Hi; cbn in *; try done.
  - by injection Hi as ->.
  - by rewrite IH.
Qed.

Lemma lines_stage win i f v : forall base,
  win !! i = Some f -> lines_ok base win -> lines_ok base (<[i := set_stage v f]> win).
Proof using.
  clear Hnothing. revert i. induction win as [|g win IH]; intros [|i] base Hi; cbn in *; try done.
  - by injection Hi as ->.
  - intros (? & ? & ?). auto.
Qed.

(** A packet gets to another stage: its slot changes, and nothing else. *)
Lemma ring_stage r r' rd base win i f v :
  ring_ok r rd base win -> win !! i = Some f -> v <> Locked ->
  let k := Z.to_nat (slot rd (Z.of_nat i)) in
  (mem_dsc r', mem_pkt r', host_dne r') = (mem_dsc r, mem_pkt r, host_dne r) ->
  books r' = <[k := f_bk f]> (books r) ->
  dsc r' = <[k := dsc_of (Some (set_stage v f))]> (dsc r) ->
  dne r' = <[k := dne_of (Some (set_stage v f))]> (dne r) ->
  (exists n, hw r' = slot rd (Z.of_nat n)
     /\ Forall (fun f => is_done f = true) (take n (<[i := set_stage v f]> win))
     /\ Forall (fun f => is_done f = false) (drop n (<[i := set_stage v f]> win))
     /\ (n <= length win)%nat) ->
  (forall w, v = Done w -> doneP w = true) ->
  ring_ok r' rd base (<[i := set_stage v f]> win).
Proof using.
  clear Hnothing. intros [Hm Hz Hrd Hrp Hwp Hc Hpw Hpc Hl Hln Hhw Hcells Hdone] Hi Hv k.
  intros Hmem Hb Hds Hdn Hhw' Hw. injection Hmem as Hm1 Hm2 Hm3. apply lookup_lt_Some in Hi as Hlt.
  pose proof (slot_range rd (Z.of_nat i)) as Hsl. destruct Hln as (Hlb & Hld & Hlw).
  split; rewrite ?length_insert, ?(total_stage _ _ _ _ Hi), ?Hm1, ?Hm2, ?Hm3; try done.
  - by apply lines_stage.
  - by rewrite Hb, Hds, Hdn, !length_insert.
  - intros j Hj kj. rewrite Hb, Hds, Hdn. destruct (decide (j = i)) as [->|Hne].
    + subst kj k. rewrite !list_lookup_insert_eq by lia. split; [done|]. split; [done|].
      by intros g [= <-] _.
    + assert (Hk : k <> kj).
      { unfold k, kj. intros Heq. apply Hne. pose proof (slot_range rd (Z.of_nat j)).
        apply Nat2Z.inj, (slot_inj rd); lia. }
      rewrite !list_lookup_insert_ne by congruence. by apply Hcells.
  - intros j g w Hj. destruct (decide (j = i)) as [->|Hne].
    + rewrite list_lookup_insert_eq in Hj by done. injection Hj as <-. apply Hw.
    + rewrite list_lookup_insert_ne in Hj by congruence. by apply (Hdone j).
Qed.

(** Writing the bookkeeping and the descriptor of a packet whose place was taken. *)
Lemma ring_write r rd base win i f :
  ring_ok r rd base win -> win !! i = Some f -> f_stage f = Locked ->
  exists r',
    write_dsc (slot rd (Z.of_nat i)) (f_bk f) (f_words f) r = Ret r'
    /\ ring_ok r' rd base (<[i := set_stage Written f]> win)
    /\ mem_dsc r' = mem_dsc r /\ mem_pkt r' = mem_pkt r.
Proof using.
  clear Hnothing. intros Hok Hi Hst. pose proof Hok as [Hm Hz Hrd Hrp Hwp Hc Hpw Hpc Hl Hln Hhw Hcells Hdone].
  apply lookup_lt_Some in Hi as Hlt. pose proof (slot_range rd (Z.of_nat i)) as Hsl.
  unfold write_dsc. destruct Hln as (Hlb & Hld & Hlw).
  rewrite !array_set_ok by (rewrite ?Hlb, ?Hld; lia). cbn [mbind outcome_bind].
  eexists. split; [reflexivity|]. split; [|done].
  apply (ring_stage r _ rd base win i f Written); try done; cbn [dne hw].
  - destruct (Hcells i) as (H1 & _); [lia|]. rewrite Hi in H1. symmetry.
    apply list_insert_id. rewrite H1. unfold dne_of. by rewrite Hst.
  - destruct Hhw as (n & Hn & Ht & Hd & Hle). exists n.
    assert (Hni : (n <= i)%nat).
    { eapply flights_done_set; eauto. unfold is_done. by rewrite Hst. }
    rewrite take_insert_ge by done. split; [done|]. split; [done|]. split; [|done].
    rewrite drop_insert_ge by done. by apply Forall_insert.
Qed.

(** The card's position is at the oldest packet that it has not taken. *)
Lemma hw_position r rd base win n ws :
  ring_ok r rd base win -> (n <= length win)%nat ->
  Forall (fun f => is_done f = true) (take n win) ->
  dsc r !! Z.to_nat (slot rd (Z.of_nat n)) = Some (Some ws) ->
  exists f, win !! n = Some f /\ f_stage f = Written.
Proof using.
  clear Hnothing. intros Hok Hle Ht Hdsc. pose proof (ro_cells _ _ _ _ Hok) as Hcells.
  destruct (ro_cnt _ _ _ _ Hok) as [_ Hcap].
  assert (Hof : dsc_of (win !! (n mod 32)%nat) = Some ws).
  { destruct (Hcells (n mod 32)%nat) as (_ & H2 & _); [apply Nat.mod_upper_bound; lia|].
    enough (Heq : slot rd (Z.of_nat (n mod 32)) = slot rd (Z.of_nat n)) by (rewrite Heq, Hdsc in H2; congruence).
    destruct (decide (n = 32%nat)) as [->|]; [symmetry; apply slot_wrap|].
    by rewrite Nat.mod_small by lia. }
  destruct (decide (n = 32%nat)) as [->|Hn].
  - change (32 mod 32)%nat with 0%nat in Hof. destruct win as [|f win]; [done|]. cbn in Hof, Ht.
    apply Forall_cons in Ht as [Hf _]. unfold is_done in Hf. by destruct (f_stage f).
  - rewrite Nat.mod_small in Hof by lia. destruct (win !! n) as [f|]; [|done]. exists f.
    split; [done|]. cbn in Hof. by destruct (f_stage f).
Qed.

(** The card takes that descriptor and reports it. *)
Lemma ring_hw r rd base win w r' :
  ring_ok r rd base win -> doneP w = true -> hw_step w r = Some r' ->
  exists i f,
    win !! i = Some f /\ f_stage f = Written
    /\ ring_ok r' rd base (<[i := set_stage (Done w) f]> win)
    /\ mem_dsc r' = mem_dsc r /\ mem_pkt r' = mem_pkt r.
Proof using.
  clear Hnothing. intros Hok Hw. destruct (ro_hw _ _ _ _ Hok) as (n & Hn & Ht & Hd & Hle).
  unfold hw_step. rewrite Hn. destruct (dsc r !! _) as [[ws|]|] eqn:Hdsc; try done. intros [= <-].
  destruct (hw_position _ _ _ _ _ _ Hok Hle Ht Hdsc) as (f & Hf & Hst).
  exists n, f. split; [done|]. split; [done|]. split; [|done]. apply lookup_lt_Some in Hf as Hlt.
  destruct (ro_cnt _ _ _ _ Hok) as [_ Hcap].
  apply (ring_stage r _ rd base win n f (Done w)); try done; cbn [books hw].
  - destruct (ro_cells _ _ _ _ Hok n) as (_ & _ & H3); [lia|]. symmetry.
    apply list_insert_id, H3; [done|congruence].
  - exists (S n). change ((dsc_mask + 1) / 64) with 32. rewrite slot_add.
    split; [f_equal; lia|].
    rewrite (take_S_r _ _ (set_stage (Done w) f)) by (by apply list_lookup_insert_eq).
    rewrite take_insert_ge by lia. split; [apply Forall_app; split; [done|by constructor]|].
    rewrite drop_insert_lt by lia. split; [|lia].
    rewrite <- Nat.add_1_r, <- drop_drop. by apply Forall_drop.
  - by intros w' [= <-].
Qed.

(** The completion line that the driver reads tells whether the oldest packet is
    done. *)
Lemma ring_due r rd base win :
  ring_ok r rd base win ->
  exists w, due r = Ret w
    /\ doneP w = match win with f :: _ => is_done f | [] => false end.
Proof using Hnothing.
  intros Hok. pose proof (ro_rd _ _ _ _ Hok) as Hrd.
  destruct (ro_cells _ _ _ _ Hok 0%nat) as (H1 & _); [lia|].
  change (Z.of_nat 0) with 0 in H1. rewrite slot_zero in H1 by done.
  exists (dne_of (win !! 0%nat)). unfold due. rewrite (ro_rd_ptr _ _ _ _ Hok).
  rewrite (Z.mul_comm 64), Z.div_mul by lia. split; [apply array_get_ok; [lia|done]|].
  destruct win as [|f win]; cbn; [done|]. unfold is_done.
  destruct (f_stage f) as [| |w] eqn:Hst; [done|done|].
  by apply (ro_done _ _ _ _ Hok 0%nat f).
Qed.

(** Retiring the oldest packet. *)
Lemma ring_pop r rd base f win :
  ring_ok r rd base (f :: win) -> is_done f = true ->
  exists r',
    next_done nothing r = Ret (rd, r') /\ array_get (books r') rd = Ret (f_bk f)
    /\ ring_ok (count (-1) (- bk_size (f_bk f)) r') ((rd + 1) mod 32)
         (base + bk_size (f_bk f)) win.
Proof using.
  clear Hnothing. intros Hok Hf.
  pose proof Hok as [Hm Hz Hrd Hrp Hwp Hc Hpw Hpc Hl Hln Hhw Hcells Hdone].
  destruct Hln as (Hlb & Hld & Hlw). destruct Hm as (Hm1 & Hm2 & Hm3).
  assert (Hs0 : slot rd 0 = rd) by (by apply slot_zero).
  destruct (Hcells 0%nat) as (_ & Hd0 & Hb0); [lia|].
  change (Z.of_nat 0) with 0 in Hd0, Hb0. rewrite Hs0 in Hd0, Hb0. cbn in Hb0, Hd0.
  unfold next_done, move_on, invalidate. cbn [dne host_dne]. rewrite Hrp, (Z.mul_comm 64), Z.div_mul by lia.
  rewrite array_set_ok by lia. cbn [mbind outcome_bind]. eexists. split; [reflexivity|].
  cbn [books]. split.
  { apply array_get_ok; [lia|]. apply Hb0; [done|]. unfold is_done in Hf. by destruct (f_stage f). }
  cbn in Hwp, Hc, Hpw, Hpc, Hl. destruct Hl as (_ & Hsz & Hl).
  split; cbn [count mem_dsc mem_pkt host_dne add_cnt set_rd mask cl_size rd_ptr wr_ptr cnt books dsc dne hw];
    rewrite ?length_insert; try done.
  - apply Z.mod_pos_bound. lia.
  - rewrite Hm3, (Z.mul_comm rd), dsc_wrap. done.
  - rewrite Hwp, slot_next. f_equal. f_equal. lia.
  - lia.
  - rewrite Hpw. f_equal. f_equal. lia.
  - lia.
  - destruct Hhw as (n & Hn & Ht & Hd & Hle). destruct n as [|n].
    { cbn in Hd. apply Forall_cons in Hd as [Hd _]. congruence. }
    cbn in Ht, Hd, Hle. apply Forall_cons in Ht as [_ Ht]. exists n. rewrite slot_next.
    split; [rewrite Hn; f_equal; lia|]. split; [done|]. split; [done|lia].
  - intros i Hi. rewrite slot_next. destruct (decide (i = 31%nat)) as [->|Hne].
    + change (Z.of_nat 31 + 1) with 32. rewrite slot_wrap, Hs0.
      rewrite list_lookup_insert_eq by lia. rewrite (lookup_ge_None_2 win) by lia.
      split; [done|]. split; [|done]. rewrite Hd0. unfold is_done in Hf. by destruct (f_stage f).
    + specialize (Hcells (S i)). rewrite Nat2Z.inj_succ, <- Z.add_1_r in Hcells.
      rewrite list_lookup_insert_ne; [apply Hcells; lia|]. pose proof (slot_range rd (Z.of_nat i + 1)).
      intros Heq. assert (Heq' : slot rd (Z.of_nat i + 1) = slot rd 0) by lia.
      apply slot_inj in Heq'; lia.
  - intros i g w Hi. apply (Hdone (S i) g w Hi).
Qed.

End Ring.

(** The two steps of [next_done], which the driver does apart when it transmits. *)
Lemma next_done_inv nothing r i r' :
  next_done nothing r = Ret (i, r') ->
  fst (move_on r) = i
  /\ (forall n k, invalidate nothing i (count n k (snd (move_on r))) = Ret (count n k r'))
  /\ books r' = books (snd (move_on r)).
Proof.
  unfold next_done, move_on, invalidate. cbn.
  destruct (array_set (dne r) _ nothing) as [l| |] eqn:Hl; try done. cbn. intros [= <- <-].
  split; [done|]. split; [|done]. intros n k. by rewrite Hl.
Qed.

(** The initial ring. *)
Lemma ring_init_ok nothing doneP garbage : ring_ok nothing doneP (ring_init garbage nothing) 0 0 [].
Proof.
  split; try done.
  - exists 0%nat. split; [done|]. split; [constructor|]. split; [constructor|done].
  - intros i Hi k. unfold k, slot. rewrite Z.mod_small by lia. rewrite Z.add_0_l, Nat2Z.id.
    change (ring_init garbage nothing) with
      (Ring (mem_init dsc_mask) (mem_init pkt_mask) (mem_init dne_mask) (replicate 32 garbage)
         (replicate 32 None) (replicate 32 nothing) 0). cbn [dne dsc books].
    rewrite !lookup_replicate_2 by done. done.
Qed.

(** ** The invariant of the card *)

Definition skb_of (f : flight) : Z := bk_skb (f_bk f).

Record card_ok (c : card) (rd base : Z) (txw : list flight) (rrd rbase : Z)
    (rxw : list flight) : Prop := {
  co_tx : ring_ok no_tx tx_is_done (tx c) rd base txw;
  co_rx : ring_ok no_rx rx_is_done (rx c) rrd rbase rxw;
  co_posted : Forall (fun f => f_stage f <> Locked) rxw;
  co_alive : forall f, f ∈ txw ++ rxw -> is_Some (skbs c !! skb_of f);
  co_nodup : NoDup (skb_of <$> txw ++ rxw);
  co_ndevs : length (ndevs c) = 4%nat;
  (** a stopped queue has packets in flight, whose completion starts it again *)
  co_stopped : Exists (fun d => stopped d = true) (ndevs c) -> txw <> []
}.

Lemma no_tx_idle : tx_is_done no_tx = false.
Proof. reflexivity. Qed.
Lemma no_rx_idle : rx_is_done no_rx = false.
Proof. reflexivity. Qed.

Lemma nf10_probe_ok garbage skbs : card_ok (nf10_probe garbage skbs) 0 0 [] 0 0 [].
Proof.
  split; cbn; try apply ring_init_ok; try done; [set_solver|constructor|].
  intros H. exfalso. cbn in H. repeat (apply Exists_cons in H as [H|H]; [done|]). by inversion H.
Qed.

Lemma set_irqs_ok v c rd base txw rrd rbase rxw :
  card_ok c rd base txw rrd rbase rxw -> card_ok (set_irqs v c) rd base txw rrd rbase rxw.
Proof. by intros []. Qed.

(** [tx_done] retires the oldest packet and frees it. *)
Lemma tx_done_spec c rd base f txw rrd rbase rxw :
  card_ok c rd base (f :: txw) rrd rbase rxw -> is_done f = true ->
  exists c',
    tx_done c = Ret c'
    /\ card_ok c' ((rd + 1) mod 32) (base + bk_size (f_bk f)) txw rrd rbase rxw
    /\ sent c' = sent c ++ [skb_of f] /\ received c' = received c
    /\ skbs c' = delete (skb_of f) (skbs c) /\ (tx_irq c', rx_irq c') = (tx_irq c, rx_irq c).
Proof.
  intros [Htx Hrx Hpost Halive Hnd Hlen Hstop] Hf. unfold tx_done, tx_retire, tx_restart.
  destruct (ring_pop _ _ _ _ _ _ _ Htx Hf) as (r & Hnext & Hbook & Hok).
  destruct (next_done_inv _ _ _ _ Hnext) as (Hm & Hinv & Hbooks).
  rewrite (surjective_pairing (move_on _)), Hm, <- Hbooks, Hbook. cbn [mbind outcome_bind].
  destruct (Halive f) as [len Hskb]; [set_solver|]. fold (skb_of f). rewrite Hskb.
  unfold free_skb. cbn [load mbind outcome_bind skbs set_tx]. rewrite Hskb.
  cbn [load mbind outcome_bind skbs set_tx set_skbs ndevs Nf10.tx]. rewrite Hinv.
  cbn [mbind outcome_bind].
  set (r' := count _ _ r) in *. unfold set_tx. cbn [rx ndevs tx_irq rx_irq skbs sent received].
  set (c1 := Card _ _ _ _ _ _ _ _).
  cbn in Hnd. apply NoDup_cons in Hnd as [Hni Hnd].
  assert (Hal : forall g, g ∈ txw ++ rxw -> is_Some (delete (skb_of f) (skbs c) !! skb_of g)).
  { intros g Hg. rewrite lookup_delete_ne; [apply Halive; set_solver|]. intros Heq. apply Hni.
    rewrite Heq. by apply list_elem_of_fmap_2. }
  pose proof (ro_cnt _ _ _ _ _ _ Hok) as [Hc _]. pose proof (ro_pkt_cnt _ _ _ _ _ _ Hok) as [Hp _].
  pose proof (ro_sizes _ _ _ _ _ _ Hok) as [Hs1 Hs2]. rewrite Hc, Hp, Hs1, Hs2.
  assert (Hok1 : (Exists (fun d => stopped d = true) (ndevs c1) -> txw <> []) ->
    card_ok c1 ((rd + 1) mod 32) (base + bk_size (f_bk f)) txw rrd rbase rxw) by (intros; by split).
  case_match eqn:Hwake.
  - eexists. split; [reflexivity|]. split; [|done]. split; cbn; try done.
    + by rewrite length_map.
    + intros H. exfalso. apply Exists_exists in H as (d & Hd & Hsd).
      apply list_elem_of_In, in_map_iff in Hd as (d' & <- & _). done.
  - eexists. split; [reflexivity|]. split; [|done]. apply Hok1. intros _ ->. cbn in Hwake. done.
Qed.

(** Giving the card a new buffer. *)
Lemma send_rx_spec c rd base txw rrd rbase rxw alloc :
  card_ok c rd base txw rrd rbase rxw ->
  (forall skb dma, alloc = Some (skb, dma) -> skbs c !! skb = None) ->
  exists ret c' rxw',
    nf10priv_send_rx_dsc alloc c = Ret (ret, c')
    /\ card_ok c' rd base txw rrd rbase rxw'
    /\ (rxw' = rxw /\ c' = c
        \/ exists skb dma f, alloc = Some (skb, dma) /\ rxw' = rxw ++ [f]
             /\ skb_of f = skb /\ is_done f = false /\ skbs c' = <[skb := 0]> (skbs c)
             /\ c' = set_rx (rx c') (set_skbs (skbs c') c)).
Proof.
  intros Hok Hfresh. pose proof Hok as [Htx Hrx Hpost Halive Hnd Hlen Hstop].
  unfold nf10priv_send_rx_dsc. destruct (room rx_lines (rx c)) eqn:Hroom.
  2:{ exists (-1), c, rxw. auto. }
  destruct alloc as [[skb dma]|]; [|exists (-1), c, rxw; auto].
  specialize (Hfresh skb dma eq_refl).
  set (b := Bk dma skb rx_lines 0).
  match goal with |- context [write_dsc _ _ ?w _] => set (ws := w) end.
  pose proof (ring_push _ _ _ _ _ _ rx_lines b ws Hrx Hroom ltac:(done) eq_refl) as Hpush.
  set (f := Flight b _ ws Locked) in Hpush.
  destruct (ring_write _ _ _ _ _ _ (length rxw) f Hpush) as (r & Hw & Hokr & _);
    [by apply list_lookup_middle|done|].
  replace (wr_ptr (mem_dsc (rx c)) / 64) with (slot rrd (Z.of_nat (length rxw))).
  2:{ rewrite (ro_wr_ptr _ _ _ _ _ _ Hrx), Z.mul_comm, Z.div_mul; lia. }
  change b with (f_bk f). change ws with (f_words f). rewrite Hw. cbn [mbind outcome_bind].
  rewrite insert_app_r_alt, Nat.sub_diag in Hokr by lia. cbn in Hokr.
  set (g := set_stage Written f) in Hokr.
  assert (Hni : skb ∉ skb_of <$> txw ++ rxw).
  { intros Hin. apply list_elem_of_fmap_1 in Hin as (h & -> & Hh).
    apply Halive in Hh as [? Hh]. congruence. }
  eexists 0, _, (rxw ++ [g]). split; [reflexivity|]. split.
  - split; cbn; try done.
    + apply Forall_app. split; [done|]. by constructor.
    + intros h Hh. rewrite app_assoc in Hh. apply elem_of_app in Hh as [Hh|Hh].
      * rewrite lookup_insert_is_Some'. right. by apply Halive.
      * apply list_elem_of_singleton in Hh as ->. rewrite lookup_insert_eq. eauto.
    + rewrite app_assoc, fmap_app. apply NoDup_app. split; [done|]. split; [|apply NoDup_singleton].
      intros x Hx Hx'. cbn in Hx'. apply list_elem_of_singleton in Hx' as ->. done.
  - right. exists skb, dma, g. auto 10.
Qed.

Section Handler.

Context (eth_type_trans : Z -> Z).

Lemma rx_port_range w : rx_port w < 4.
Proof using. unfold rx_port. repeat case_match; lia. Qed.

Lemma skbs_delete_ok c skb rd base txw rrd rbase rxw v l rec :
  card_ok c rd base txw rrd rbase rxw -> skb ∉ skb_of <$> txw ++ rxw ->
  v = delete skb (skbs c) -> length l = 4%nat ->
  (Exists (fun d => stopped d = true) l -> Exists (fun d => stopped d = true) (ndevs c)) ->
  card_ok (Card (tx c) (rx c) l (tx_irq c) (rx_irq c) v (sent c) rec) rd base txw rrd rbase rxw.
Proof using.
  intros [Htx Hrx Hpost Halive Hnd Hlen Hstop] Hni -> Hl Hst. split; cbn; try done; [|auto].
  intros f Hf. rewrite lookup_delete_ne; [by apply Halive|].
  intros ->. apply Hni. by apply list_elem_of_fmap_2.
Qed.

Lemma rx_deliver_spec w skb c rd base txw rrd rbase rxw :
  card_ok c rd base txw rrd rbase rxw -> is_Some (skbs c !! skb) ->
  skb ∉ skb_of <$> txw ++ rxw ->
  exists c',
    rx_deliver eth_type_trans w skb c = Ret c' /\ card_ok c' rd base txw rrd rbase rxw
    /\ sent c' = sent c /\ (skbs c' = skbs c \/ skbs c' = delete skb (skbs c))
    /\ (tx_irq c', rx_irq c') = (tx_irq c, rx_irq c).
Proof using.
  intros Hok [len Hskb] Hni. unfold rx_deliver.
  set (port := rx_port _). pose proof (rx_port_range (Z.land (Z.shiftr w 16) 65535)) as Hp.
  fold port in Hp. case_match eqn:Hbad; [exists c; by auto 10|].
  assert (Hport : 0 <= port < 4).
  { apply orb_false_iff in Hbad as [Hbad _]. apply orb_false_iff in Hbad as [_ Hbad].
    apply Z.ltb_ge in Hbad. lia. }
  pose proof (co_ndevs _ _ _ _ _ _ _ Hok) as Hlen.
  destruct (lookup_lt_is_Some_2 (ndevs c) (Z.to_nat port)) as [d Hd]; [lia|].
  rewrite (array_get_ok _ _ d) by (lia || done). cbn [mbind outcome_bind].
  destruct (port_up d).
  - rewrite array_set_ok by lia. cbn [mbind outcome_bind]. rewrite Hskb.
    cbn [load mbind outcome_bind]. eexists. split; [reflexivity|]. split; [|cbn; auto].
    eapply skbs_delete_ok; eauto; [by rewrite length_insert|].
    rewrite !Exists_exists. intros (e & He & Hst). apply list_elem_of_lookup in He as [i Hi].
    destruct (decide (i = Z.to_nat port)) as [->|Hne].
    + rewrite list_lookup_insert_eq in Hi by lia. injection Hi as <-. exists d.
      split; [by eapply list_elem_of_lookup_2|done].
    + rewrite list_lookup_insert_ne in Hi by done. exists e. split; [by eapply list_elem_of_lookup_2|done].
  - unfold free_skb. rewrite Hskb. cbn [load mbind outcome_bind]. eexists. split; [reflexivity|].
    split; [|cbn; auto]. by eapply skbs_delete_ok.
Qed.

(** The number of completed packets that the driver has not seen. *)
Definition unseen (win : list flight) : nat := length (filter (fun f => is_done f = true) win).

(** [rx_done] retires the oldest receive buffer and gives the card another one. *)
Lemma rx_done_spec w alloc c rd base txw rrd rbase f rxw :
  card_ok c rd base txw rrd rbase (f :: rxw) -> is_done f = true ->
  (forall skb dma, alloc = Some (skb, dma) -> skbs c !! skb = None) ->
  exists c' rxw',
    rx_done eth_type_trans w alloc c = Ret c'
    /\ card_ok c' rd base txw ((rrd + 1) mod 32) (rbase + bk_size (f_bk f)) rxw'
    /\ unseen rxw' = unseen rxw /\ sent c' = sent c
    /\ (forall skb, skbs c !! skb = None -> (forall dma, alloc <> Some (skb, dma)) ->
        skbs c' !! skb = None)
    /\ (tx_irq c', rx_irq c') = (tx_irq c, rx_irq c).
Proof using.
  intros [Htx Hrx Hpost Halive Hnd Hlen Hstop] Hf Hfresh. unfold rx_done.
  destruct (ring_pop _ _ _ _ _ _ _ Hrx Hf) as (r & Hnext & Hbook & Hokr).
  rewrite Hnext. cbn [mbind outcome_bind]. rewrite Hbook. cbn [mbind outcome_bind].
  assert (Hin : f ∈ txw ++ f :: rxw) by set_solver.
  destruct (Halive f Hin) as [len Hskb]. fold (skb_of f). rewrite Hskb.
  cbn [load mbind outcome_bind]. set (c1 := set_rx _ c).
  assert (Hperm : skb_of <$> txw ++ f :: rxw ≡ₚ skb_of f :: (skb_of <$> txw ++ rxw)).
  { rewrite <- fmap_cons. apply fmap_Permutation. symmetry. apply Permutation_middle. }
  rewrite Hperm in Hnd. apply NoDup_cons in Hnd as [Hni Hnd].
  assert (Hok1 : card_ok c1 rd base txw ((rrd + 1) mod 32) (rbase + bk_size (f_bk f)) rxw).
  { split; cbn; try done; [by apply Forall_cons in Hpost as [_ Hpost]|].
    intros g Hg. apply Halive. set_solver. }
  destruct (send_rx_spec c1 _ _ _ _ _ _ alloc Hok1 Hfresh) as (ret & c2 & rxw2 & -> & Hok2 & Hcase).
  cbn [mbind outcome_bind].
  assert (Hnew : is_Some (skbs c2 !! skb_of f) /\ skb_of f ∉ skb_of <$> txw ++ rxw2
    /\ unseen rxw2 = unseen rxw /\ sent c2 = sent c
    /\ (tx_irq c2, rx_irq c2) = (tx_irq c, rx_irq c)
    /\ (forall skb, skbs c !! skb = None -> (forall dma, alloc <> Some (skb, dma)) ->
        skbs c2 !! skb = None)).
  { destruct Hcase as [[-> ->]|(skb & dma & g & Ha & -> & Hsg & Hdg & Hsk & Hc2)]; [by eauto 10|].
    specialize (Hfresh skb dma Ha). rewrite Hc2, Hsk. cbn.
    rewrite lookup_insert_ne by congruence. split; [by rewrite Hskb|]. split.
    { rewrite app_assoc, fmap_app, not_elem_of_app. split; [done|]. cbn. rewrite Hsg.
      rewrite list_elem_of_singleton. congruence. }
    split.
    { unfold unseen. rewrite filter_app, filter_cons_False, length_app by congruence. cbn. lia. }
    split; [done|]. split; [done|]. intros s Hs Hna. rewrite lookup_insert_ne; [done|].
    intros ->. by apply (Hna dma). }
  destruct Hnew as (Hs2 & Hni2 & Hun & Hsent & Hirq & Hkeep).
  destruct (rx_deliver_spec w _ _ _ _ _ _ _ _ Hok2 Hs2 Hni2) as (c3 & Hd & Hok3 & Hsent3 & Hsk3 & Hirq3).
  exists c3, rxw2. split; [exact Hd|]. split; [done|]. split; [done|]. split; [congruence|].
  split; [|congruence]. intros s Hs Hna. specialize (Hkeep s Hs Hna).
  destruct Hsk3 as [-> | ->]; [done|]. by rewrite lookup_delete_None; right.
Qed.

(** How the local variables change in a round, by whether anything was done. *)
Definition next_polling (busy : bool) (p : polling) : polling :=
  let on := int_enabled p && negb (int_enabled p && (0 <? work_counter p)) in
  let t := if busy then (if tcnt p <? 10000 then tcnt p + 1 else tcnt p) else tcnt p - 1 in
  if (t <=? 1) && negb on then Polling 0 1 true else Polling (work_counter p + 1) t on.

Definition head_done (win : list flight) : bool :=
  match win with f :: _ => is_done f | [] => false end.

(** The halves of a round, which retire the oldest packet if it is done. *)
Lemma tx_half c rd base txw rrd rbase rxw :
  card_ok c rd base txw rrd rbase rxw ->
  let retired := if head_done txw then take 1 txw else [] in
  exists c' base',
    (if head_done txw then tx_done c else Ret c) = Ret c'
    /\ card_ok c' ((rd + Z.of_nat (length retired)) mod 32) base' (drop (length retired) txw)
         rrd rbase rxw
    /\ sent c' = sent c ++ (skb_of <$> retired)
    /\ (forall skb, skbs c !! skb = None -> skbs c' !! skb = None)
    /\ (tx_irq c', rx_irq c') = (tx_irq c, rx_irq c).
Proof using.
  intros Hok retired. pose proof (ro_rd _ _ _ _ _ _ (co_tx _ _ _ _ _ _ _ Hok)) as Hrd.
  assert (Hnone : exists c' base', Ret c = Ret c'
    /\ card_ok c' ((rd + Z.of_nat (length (@nil flight))) mod 32) base' txw rrd rbase rxw
    /\ sent c' = sent c ++ (skb_of <$> []) /\ (forall skb, skbs c !! skb = None -> skbs c' !! skb = None)
    /\ (tx_irq c', rx_irq c') = (tx_irq c, rx_irq c)).
  { exists c, base. cbn. rewrite Z.add_0_r, Z.mod_small, app_nil_r by done. done. }
  unfold retired. destruct txw as [|f txw]; cbn [head_done]; [exact Hnone|].
  destruct (is_done f) eqn:Hf; [|exact Hnone].
  destruct (tx_done_spec _ _ _ _ _ _ _ _ Hok Hf) as (c1 & Hd & Hok1 & Hs & _ & Hsk & Hirq).
  exists c1, (base + bk_size (f_bk f)). rewrite Hs, Hsk. cbn.
  split; [done|]. split; [done|]. split; [done|]. split; [|done].
  intros s Hs'. by rewrite lookup_delete_None; right.
Qed.

Lemma rx_half w alloc c rd base txw rrd rbase rxw :
  card_ok c rd base txw rrd rbase rxw ->
  (forall skb dma, alloc = Some (skb, dma) -> skbs c !! skb = None) ->
  exists c' rrd' rbase' rxw',
    (if head_done rxw then rx_done eth_type_trans w alloc c else Ret c) = Ret c'
    /\ card_ok c' rd base txw rrd' rbase' rxw'
    /\ sent c' = sent c
    /\ unseen rxw' = (unseen rxw - (if head_done rxw then 1 else 0))%nat
    /\ (forall skb, skbs c !! skb = None -> (forall dma, alloc <> Some (skb, dma)) ->
        skbs c' !! skb = None)
    /\ (tx_irq c', rx_irq c') = (tx_irq c, rx_irq c).
Proof using.
  intros Hok Hfresh. destruct rxw as [|f rxw]; cbn [head_done].
  { exists c, rrd, rbase, []. auto 10 with lia. }
  destruct (is_done f) eqn:Hf.
  - destruct (rx_done_spec w alloc _ _ _ _ _ _ _ _ Hok Hf Hfresh)
      as (c2 & rxw2 & Hd & Hok2 & Hu & Hs & Hk & Hi).
    exists c2, ((rrd + 1) mod 32), (rbase + bk_size (f_bk f)), rxw2.
    split; [done|]. split; [done|]. split; [done|]. split; [|done].
    unfold unseen in *. rewrite filter_cons_True by done. cbn [length]. lia.
  - exists c, rrd, rbase, (f :: rxw). rewrite Nat.sub_0_r. done.
Qed.

(** What a round does with the interrupts and its variables at its end. *)
Lemma round_end busy p c c0 :
  c0 = (if int_enabled p && (0 <? work_counter p) then set_irqs false c else c) ->
  forall c2, (tx_irq c2, rx_irq c2) = (tx_irq c0, rx_irq c0) ->
  let t := if negb busy then tcnt p - 1 else if tcnt p <? 10000 then tcnt p + 1 else tcnt p in
  let on := int_enabled p && negb (int_enabled p && (0 <? work_counter p)) in
  exists c', (if (t <=? 1) && negb on then Ret (Polling 0 1 true, set_irqs true c2)
              else Ret (Polling (work_counter p + 1) t on, c2)) = Ret (next_polling busy p, c')
    /\ (c' = c2 \/ c' = set_irqs true c2)
    /\ (tx_irq c = int_enabled p -> rx_irq c = int_enabled p ->
        tx_irq c' = int_enabled (next_polling busy p)
        /\ rx_irq c' = int_enabled (next_polling busy p)).
Proof using.
  intros Hc0 c2 [= H1 H2] t on. unfold next_polling. fold on.
  replace (if busy then if tcnt p <? 10000 then tcnt p + 1 else tcnt p else tcnt p - 1) with t
    by (unfold t; by destruct busy).
  destruct ((t <=? 1) && negb on); [exists (set_irqs true c2)|exists c2].
  { split; [done|]. split; [by right|]. done. }
  split; [done|]. split; [by left|]. intros Ht Hr. cbn [int_enabled]. rewrite H1, H2, Hc0.
  unfold on. destruct (int_enabled p); cbn [andb negb]; [|done].
  destruct (0 <? work_counter p); cbn; auto.
Qed.

(** A round: the oldest packets of both directions are retired if they are done. *)
Lemma work_round_spec alloc p c rd base txw rrd rbase rxw :
  card_ok c rd base txw rrd rbase rxw ->
  (forall skb dma, alloc = Some (skb, dma) -> skbs c !! skb = None) ->
  let retired := if head_done txw then take 1 txw else [] in
  let p' := next_polling (head_done txw || head_done rxw) p in
  exists c' base' rrd' rbase' rxw',
    work_round eth_type_trans alloc p c = Ret (p', c')
    /\ card_ok c' ((rd + Z.of_nat (length retired)) mod 32) base' (drop (length retired) txw)
         rrd' rbase' rxw'
    /\ sent c' = sent c ++ (skb_of <$> retired)
    /\ unseen rxw' = (unseen rxw - (if head_done rxw then 1 else 0))%nat
    /\ (forall skb, skbs c !! skb = None -> (forall dma, alloc <> Some (skb, dma)) ->
        skbs c' !! skb = None)
    /\ (tx_irq c = int_enabled p -> rx_irq c = int_enabled p ->
        tx_irq c' = int_enabled p' /\ rx_irq c' = int_enabled p').
Proof using.
  intros Hok Hfresh retired p'. unfold work_round.
  set (c0 := if int_enabled p && (0 <? work_counter p) then set_irqs false c else c).
  assert (Hok0 : card_ok c0 rd base txw rrd rbase rxw)
    by (unfold c0; destruct (_ && _); [by apply set_irqs_ok|done]).
  assert (Hsame : sent c0 = sent c /\ skbs c0 = skbs c) by (unfold c0; by destruct (_ && _)).
  destruct Hsame as [Hsent0 Hskb0].
  destruct (ring_due _ _ no_tx_idle _ _ _ _ (co_tx _ _ _ _ _ _ _ Hok0)) as (wt & Hdt & Hwt).
  destruct (ring_due _ _ no_rx_idle _ _ _ _ (co_rx _ _ _ _ _ _ _ Hok0)) as (wr & Hdr & Hwr).
  rewrite Hdt. cbn [mbind outcome_bind]. rewrite Hdr. cbn [mbind outcome_bind].
  fold (head_done txw) in Hwt. fold (head_done rxw) in Hwr. rewrite Hwt, Hwr.
  destruct (tx_half _ _ _ _ _ _ _ Hok0) as (c1 & base1 & Hd1 & Hok1 & Hs1 & Hk1 & Hi1).
  fold retired in Hok1, Hs1. rewrite Hd1. cbn [mbind outcome_bind].
  destruct (rx_half wr alloc _ _ _ _ _ _ _ Hok1) as (c2 & rrd2 & rbase2 & rxw2 & Hd2 & Hok2 & Hs2 & Hu2 & Hk2 & Hi2).
  { intros skb dma Ha. apply Hk1. rewrite Hskb0. by eapply Hfresh. }
  rewrite Hd2. cbn [mbind outcome_bind]. rewrite <- negb_orb.
  destruct (round_end (head_done txw || head_done rxw) p c c0 eq_refl c2 ltac:(congruence))
    as (c3 & Hend & Hc3 & Hirq).
  rewrite Hend. exists c3, base1, rrd2, rbase2, rxw2. split; [done|].
  split; [destruct Hc3 as [-> | ->]; [done|by apply set_irqs_ok]|].
  assert (Hsk : skbs c3 = skbs c2 /\ sent c3 = sent c2) by (by destruct Hc3 as [-> | ->]).
  destruct Hsk as [-> ->]. split; [congruence|]. split; [done|]. split; [|exact Hirq].
  intros s Hs Hna. apply Hk2; [|done]. apply Hk1. by rewrite Hskb0.
Qed.

End Handler.
