(* ===== verification/Nf10System.v ===== *)
(** * The NIC driver with its card and its callers

    The transmitting threads, the card and the completion handler as one system
    whose steps come in any order; [Give] is the call of [nf10priv_send_rx_dsc] in
    [nf10iface_probe].  A call of [nf10priv_xmit] is three steps: the
    part under the lock, the stop of the queue, and the descriptor, which is written
    after the lock was given up, so that calls can overtake each other.  A round of
    [work_handler] is one step.

    [tx_in_order] and [regions_disjoint] hold after every sequence of steps;
    [work_handler_ends] says that the handler stops, with the interrupts on and
    nothing unseen.  [completion_lost] is what a transmission in the middle of a
    round can do, and [dma_error_stalls], [tx_stats_after_free], [rx_leak],
    [rx_starves] and [axi_never_full] are other defects. *)

From stdpp Require Import base gmap list.
From Stdlib Require Import ZArith Lia.
From S2P Require Import Prelude Nf10 Nf10Ring.

Section System.

Context (eth_type_trans : Z -> Z).

(** The card, the calls of [nf10priv_xmit] that are not finished, each with whether
    its queue is still to be stopped, the packets that were accepted so far and the
    local variables of the handler. *)
Record sys := Sys {
  scard : card;
  calls : list (bool * call);
  accepted : list Z;
  poll : polling
}.

Inductive event :=
  | Submit (skb len port dma : Z)
  | Stop (i : nat)
  | Post (i : nat)
  | TakeTx (w : Z)
  | TakeRx (w : Z)
  | Give (alloc : option (Z * Z))
  | Round (alloc : option (Z * Z))
  | Open (port : Z)
  | Close (port : Z).

Definition sys_init (garbage : bk) (skbs : gmap Z Z) : sys :=
  Sys (nf10_probe garbage skbs) [] [] (Polling 1 0 true).

(** The packet that was allocated is a new one. *)
Definition is_free (c : card) (skb : Z) : bool :=
  match skbs c !! skb with None => true | Some _ => false end.
Definition is_fresh (c : card) (alloc : option (Z * Z)) : bool :=
  match alloc with Some (skb, _) => is_free c skb | None => true end.

Definition with_card (c : card) (s : sys) : sys := Sys c (calls s) (accepted s) (poll s).

(** A step, or [Blocked] where it cannot be taken. *)
Definition sys_step (e : event) (s : sys) : outcome sys :=
  let c := scard s in
  match e with
  | Submit skb len port dma =>
      if is_free c skb && (0 <? len) && (len <=? 1514) && (0 <=? port) && (port <? 4) then
        '(_, k, c) ← xmit_lock skb port (Some dma) (set_skbs (<[skb := len]> (skbs c)) c);
        match k with
        | Some k => Ret (Sys c (calls s ++ [(true, k)]) (accepted s ++ [skb]) (poll s))
        | None => c ← free_skb skb c; Ret (with_card c s)
        end
      else Blocked
  | Stop i =>
      match calls s !! i with
      | Some (true, k) =>
          c ← xmit_stop k c;
          Ret (Sys c (<[i := (false, k)]> (calls s)) (accepted s) (poll s))
      | _ => Blocked
      end
  | Post i =>
      match calls s !! i with
      | Some (false, k) =>
          c ← xmit_post k c; Ret (Sys c (delete i (calls s)) (accepted s) (poll s))
      | _ => Blocked
      end
  | TakeTx w =>
      match hw_step w (tx c) with
      | Some r => if tx_is_done w then Ret (with_card (set_tx r c) s) else Blocked
      | None => Blocked
      end
  | TakeRx w =>
      match hw_step w (rx c) with
      | Some r => if rx_is_done w then Ret (with_card (set_rx r c) s) else Blocked
      | None => Blocked
      end
  | Give alloc =>
      if is_fresh c alloc
      then '(_, c) ← nf10priv_send_rx_dsc alloc c; Ret (with_card c s) else Blocked
  | Round alloc =>
      if is_fresh c alloc then
        let p := if tcnt (poll s) =? 0 then polling_init else poll s in
        '(p, c) ← work_round eth_type_trans alloc p c;
        Ret (Sys c (calls s) (accepted s) p)
      else Blocked
  | Open port =>
      if (0 <=? port) && (port <? 4)
      then c ← nf10i_open port c; Ret (with_card c s) else Blocked
  | Close port =>
      if (0 <=? port) && (port <? 4)
      then c ← nf10i_stop port c; Ret (with_card c s) else Blocked
  end.

Fixpoint sys_run (es : list event) (s : sys) : outcome sys :=
  match es with
  | [] => Ret s
  | e :: es => s ← sys_step e s; sys_run es s
  end.

(** ** The invariant of the system *)

(** The descriptor of a flight describes its lines. *)
Definition words_ok (f : flight) : Prop :=
  exists off len, Z.land (fst (f_words f)) 4294967295 = 64 * f_line f + off
    /\ Z.shiftr (fst (f_words f)) 48 = len
    /\ 0 <= off <= 63 /\ 0 < len /\ off + len <= 64 * bk_size (f_bk f).

(** The call that has taken the place of the flight [i]. *)
Definition pending (rd : Z) (txw : list flight) (k : call) (i : nat) : Prop :=
  exists f, txw !! i = Some f /\ f_stage f = Locked /\ c_index k = slot rd (Z.of_nat i)
    /\ c_bk k = f_bk f /\ c_words k = f_words f /\ 0 <= bk_port (c_bk k) < 4.

Definition polling_ok (p : polling) : Prop :=
  int_enabled p = true /\ work_counter p = 0 /\ tcnt p = 1
  \/ 0 < work_counter p /\ 2 <= tcnt p <= 10000
  \/ int_enabled p = true /\ tcnt p = 0.

Record sys_ok (s : sys) (rd base : Z) (txw : list flight) (rrd rbase : Z)
    (rxw : list flight) : Prop := {
  so_card : card_ok (scard s) rd base txw rrd rbase rxw;
  so_words : Forall words_ok txw;
  so_calls : Forall (fun k => exists i, pending rd txw k.2 i) (calls s);
  so_distinct : NoDup ((fun k => c_index k.2) <$> calls s);
  so_order : accepted s = sent (scard s) ++ (skb_of <$> txw);
  so_poll : polling_ok (poll s);
  so_irqs : tx_irq (scard s) = int_enabled (poll s)
            /\ rx_irq (scard s) = int_enabled (poll s)
}.

Lemma sys_init_ok garbage skbs : sys_ok (sys_init garbage skbs) 0 0 [] 0 0 [].
Proof using.
  clear eth_type_trans. split; cbn; try done; [apply nf10_probe_ok|constructor|by right; right].
Qed.

(** ** A call of [nf10priv_xmit] *)

(** The words that the driver writes for [len] bytes in the lines at [line]. *)
Lemma xmit_words line dma len port :
  0 <= line < 512 -> 0 < len <= 1514 ->
  let l0 := u64 (Z.shiftl len 48 + Z.shiftl (port_decoded port) 32
                 + Z.land (u64 (64 * line + Z.land dma 63)) 4294967295) in
  exists off, Z.land l0 4294967295 = 64 * line + off /\ Z.shiftr l0 48 = len
    /\ 0 <= off <= 63.
Proof using.
  clear eth_type_trans. intros Hl Hlen. cbn zeta.
  assert (Hoff : 0 <= Z.land dma 63 <= 63).
  { change 63 with (2 ^ 6 - 1). rewrite land_ones_mod by lia. divmod. }
  set (off := Z.land dma 63) in *. exists off.
  assert (Hp : 0 <= port_decoded port <= 16512) by (unfold port_decoded; repeat case_match; lia).
  change 4294967295 with (2 ^ 32 - 1). rewrite !land_ones_mod, !Z.shiftl_mul_pow2 by lia.
  rewrite Z.shiftr_div_pow2 by lia. rewrite !wrapu_unfold.
  rewrite (Z.mod_small (64 * line + off)) by lia. rewrite (Z.mod_small (64 * line + off)) by lia.
  rewrite (Z.mod_small _ (2 ^ 64)) by lia. split; [|split; [|done]]; divmod.
Qed.

Lemma fresh_skb_ok c skb len rd base txw rrd rbase rxw :
  card_ok c rd base txw rrd rbase rxw -> skbs c !! skb = None ->
  card_ok (set_skbs (<[skb := len]> (skbs c)) c) rd base txw rrd rbase rxw
  /\ skb ∉ skb_of <$> txw ++ rxw.
Proof using.
  clear eth_type_trans. intros [Htx Hrx Hpost Halive Hnd Hlen Hstop] Hskb. split.
  - split; cbn; try done. intros f Hf. rewrite lookup_insert_is_Some'. right. by apply Halive.
  - intros Hin. apply list_elem_of_fmap_1 in Hin as (f & -> & Hf).
    apply Halive in Hf as [? Hf]. congruence.
Qed.

(** Under the lock, a call takes the next place or gives up. *)
Lemma xmit_lock_spec c skb len port dma rd base txw rrd rbase rxw :
  card_ok c rd base txw rrd rbase rxw -> skbs c !! skb = None ->
  0 < len <= 1514 -> 0 <= port < 4 ->
  let c1 := set_skbs (<[skb := len]> (skbs c)) c in
  xmit_lock skb port (Some dma) c1 = Ret (-1, None, c1)
  \/ exists k f c',
       xmit_lock skb port (Some dma) c1 = Ret (0, Some k, c')
       /\ card_ok c' rd base (txw ++ [f]) rrd rbase rxw /\ words_ok f /\ skb_of f = skb
       /\ pending rd (txw ++ [f]) k (length txw)
       /\ sent c' = sent c /\ (tx_irq c', rx_irq c') = (tx_irq c, rx_irq c).
Proof using.
  clear eth_type_trans. intros Hok Hskb Hlen Hport c1.
  destruct (fresh_skb_ok c skb len _ _ _ _ _ _ Hok Hskb) as [Hok1 Hni].
  fold c1 in Hok1. assert (Hlook : skbs c1 !! skb = Some len) by apply lookup_insert_eq.
  unfold xmit_lock. rewrite Hlook.
  cbn [load mbind outcome_bind]. set (size := u32 (len + 2 * 63) / 64).
  assert (Hsize : 64 * size <= len + 126 < 64 * size + 64).
  { unfold size. rewrite u32_small by lia. divmod. }
  destruct (room size (tx c1)) eqn:Hroom; [right|by left].
  destruct Hok1 as [Htx Hrx Hpost Halive Hnd Hdevs Hstop].
  set (b := Bk dma skb size port). match goal with |- context [Call _ _ ?w _] => set (ws := w) end.
  pose proof (ring_push _ _ _ _ _ _ size b ws Htx Hroom ltac:(lia) eq_refl) as Hpush.
  set (f := Flight b ((base + total txw) mod 512) ws Locked) in Hpush.
  eexists _, f, _. split; [reflexivity|]. split; [|split; [|split; [done|split; [|done]]]].
  - split; cbn; try done.
    + intros g Hg. rewrite <- app_assoc in Hg. apply elem_of_app in Hg as [Hg|Hg].
      { apply Halive. set_solver. }
      apply elem_of_app in Hg as [Hg|Hg]; [|apply Halive; set_solver].
      apply list_elem_of_singleton in Hg as ->. cbn. rewrite lookup_insert_eq. by eexists.
    + rewrite <- app_assoc. change ([f] ++ rxw) with (f :: rxw).
      rewrite <- Permutation_middle, fmap_cons. by apply NoDup_cons.
    + intros _ H. by apply app_eq_nil in H as [_ H].
  - pose proof (ro_pkt_wr _ _ _ _ _ _ Htx) as Hw.
    destruct (xmit_words ((base + total txw) mod 512) dma len port) as (off & H1 & H2 & H3);
      [divmod|done|].
    exists off, len. cbn [f f_words f_line f_bk bk_size b]. unfold ws. cbn [fst]. rewrite Hw.
    split; [exact H1|]. split; [exact H2|]. lia.
  - exists f. split; [by apply list_lookup_middle|]. split; [done|]. cbn [c_index c_bk c_words bk_port].
    split; [|by auto]. rewrite (ro_wr_ptr _ _ _ _ _ _ Htx), Z.mul_comm, Z.div_mul; lia.
Qed.

(** ** What the steps do to the pending calls *)

Lemma pending_app rd txw f k i : pending rd txw k i -> pending rd (txw ++ [f]) k i.
Proof using.
  clear eth_type_trans. intros (g & Hg & H). exists g. split; [|exact H].
  by apply lookup_app_l_Some.
Qed.

Lemma pending_stage rd txw f v j k i :
  pending rd txw k i -> i <> j -> pending rd (<[j := set_stage v f]> txw) k i.
Proof using.
  clear eth_type_trans. intros (g & Hg & H) Hne. exists g. split; [|exact H].
  by rewrite list_lookup_insert_ne.
Qed.

(** The oldest packet is retired only when it is done. *)
Lemma pending_pop rd txw k i :
  head_done txw = true -> pending rd txw k i ->
  exists j, pending ((rd + 1) mod 32) (drop 1 txw) k j.
Proof using.
  clear eth_type_trans. intros Hd (f & Hf & Hst & H). destruct txw as [|g txw]; [done|].
  destruct i as [|i].
  { injection Hf as ->. cbn in Hd. unfold is_done in Hd. by rewrite Hst in Hd. }
  exists i, f. split; [done|]. split; [done|]. rewrite slot_next.
  replace (Z.of_nat i + 1) with (Z.of_nat (S i)) by lia. exact H.
Qed.

Lemma pending_lt rd txw k i : pending rd txw k i -> (i < length txw)%nat.
Proof using. clear eth_type_trans. intros (f & Hf & _). by apply lookup_lt_Some in Hf. Qed.

(** A transmitted ring with one packet at another stage. *)
Lemma card_stage c r rd base txw rrd rbase rxw i f v :
  card_ok c rd base txw rrd rbase rxw -> txw !! i = Some f ->
  ring_ok no_tx tx_is_done r rd base (<[i := set_stage v f]> txw) ->
  card_ok (set_tx r c) rd base (<[i := set_stage v f]> txw) rrd rbase rxw
  /\ skb_of <$> <[i := set_stage v f]> txw = skb_of <$> txw.
Proof using.
  clear eth_type_trans. intros [Htx Hrx Hpost Halive Hnd Hlen Hstop] Hi Hr.
  assert (Hf : skb_of <$> <[i := set_stage v f]> txw = skb_of <$> txw).
  { rewrite list_fmap_insert. apply list_insert_id. by rewrite list_lookup_fmap, Hi. }
  split; [|done]. split; cbn; try done.
  - intros g Hg. apply (list_elem_of_fmap_2 skb_of) in Hg.
    rewrite fmap_app, Hf, <- fmap_app in Hg. apply list_elem_of_fmap_1 in Hg as (h & -> & Hh).
    by apply Halive.
  - by rewrite fmap_app, Hf, <- fmap_app.
  - intros H Hnil. apply (Hstop H). apply length_zero_iff_nil. apply (f_equal length) in Hnil.
    by rewrite length_insert in Hnil.
Qed.

Lemma words_stage txw i f v :
  Forall words_ok txw -> txw !! i = Some f -> Forall words_ok (<[i := set_stage v f]> txw).
Proof using.
  clear eth_type_trans. intros H Hi. apply Forall_insert; [done|].
  by apply (Forall_lookup_1 _ _ _ _ H Hi).
Qed.

(** Distinct calls have distinct flights. *)
Lemma other_flight (l : list (bool * call)) a b i j x y rd txw :
  NoDup ((fun k => c_index k.2) <$> l) -> l !! a = Some x -> l !! b = Some y -> a <> b ->
  pending rd txw x.2 i -> pending rd txw y.2 j -> i <> j.
Proof using.
  clear eth_type_trans. intros Hnd Ha Hb Hab Hi Hj ->. apply Hab.
  apply (NoDup_lookup _ a b (c_index x.2) Hnd); rewrite list_lookup_fmap, ?Ha, ?Hb; cbn; [done|].
  destruct Hi as (? & _ & _ & -> & _), Hj as (? & _ & _ & -> & _). done.
Qed.

(** ** Every step keeps the invariant *)

Definition sys_holds (s : sys) : Prop :=
  exists rd base txw rrd rbase rxw, sys_ok s rd base txw rrd rbase rxw.

Definition step_good (o : outcome sys) : Prop :=
  match o with Ret s => sys_holds s | Blocked => True | Undef => False end.

Lemma ndevs_ok c l rd base txw rrd rbase rxw :
  card_ok c rd base txw rrd rbase rxw -> length l = 4%nat ->
  (Exists (fun d => stopped d = true) l -> txw <> []) ->
  card_ok (set_ndevs l c) rd base txw rrd rbase rxw.
Proof using. clear eth_type_trans. intros [] Hl Hs. by split. Qed.

Lemma submit_ok skb len port dma s : sys_holds s -> step_good (sys_step (Submit skb len port dma) s).
Proof using.
  intros (rd & base & txw & rrd & rbase & rxw & [Hc Hw Hcalls Hnd Hord Hp Hi]).
  cbn [sys_step]. case_match eqn:Hg; [|done].
  rewrite !andb_true_iff in Hg. destruct Hg as ((((Hfree & H1) & H2) & H3) & H4).
  unfold is_free in Hfree. destruct (skbs (scard s) !! skb) eqn:Hskb; [done|].
  destruct (xmit_lock_spec _ skb len port dma _ _ _ _ _ _ Hc Hskb ltac:(lia) ltac:(lia))
    as [-> | (k & f & c' & -> & Hc' & Hwf & Hsf & Hpend & Hsent & Hirq)]; cbn [mbind outcome_bind].
  { unfold free_skb. cbn [skbs set_skbs]. rewrite lookup_insert_eq. cbn.
    exists rd, base, txw, rrd, rbase, rxw. split; cbn; try done.
    destruct Hc as [Htx Hrx Hpost Halive Hns Hlen Hstop]. split; cbn; try done.
    intros g Hg. specialize (Halive g Hg). destruct Halive as [? Ha].
    rewrite lookup_delete_ne, lookup_insert_ne by congruence. eauto. }
  exists rd, base, (txw ++ [f]), rrd, rbase, rxw. split; cbn; try done.
  - apply Forall_app. split; [done|by constructor].
  - apply Forall_app. split; [|constructor; [by exists (length txw)|constructor]].
    apply (Forall_impl _ _ _ Hcalls). intros x [i Hx]. exists i. by apply pending_app.
  - rewrite fmap_app. apply NoDup_app. split; [done|]. split; [|apply NoDup_singleton].
    intros x Hx Hx'. apply list_elem_of_singleton in Hx' as ->.
    apply list_elem_of_fmap_1 in Hx as (k' & Heq & Hk').
    rewrite Forall_forall in Hcalls. destruct (Hcalls k' Hk') as [i Hpi].
    pose proof (pending_lt _ _ _ _ Hpi) as Hlt. destruct Hpi as (? & _ & _ & Hci & _), Hpend as (? & _ & _ & Hck & _).
    destruct (ro_cnt _ _ _ _ _ _ (co_tx _ _ _ _ _ _ _ Hc')) as [_ Hcap]. rewrite length_app in Hcap. cbn in Hcap, Heq.
    rewrite Hck, Hci in Heq. apply slot_inj in Heq; lia.
  - rewrite Hord, Hsent, fmap_app, <- app_assoc, <- Hsf. done.
  - injection Hirq as -> ->. done.
Qed.

Lemma stop_ok i s : sys_holds s -> step_good (sys_step (Stop i) s).
Proof using.
  intros (rd & base & txw & rrd & rbase & rxw & [Hc Hw Hcalls Hnd Hord Hp Hi]).
  cbn [sys_step]. destruct (calls s !! i) as [[[] k]|] eqn:Hk; try done.
  pose proof (Forall_lookup_1 _ _ _ _ Hcalls Hk) as [j Hj]. cbn in Hj.
  pose proof (pending_lt _ _ _ _ Hj) as Hlt. assert (Hport : 0 <= bk_port (c_bk k) < 4).
  { destruct Hj as (? & _ & _ & _ & _ & _ & H). exact H. }
  assert (Hst : exists l, xmit_stop k (scard s) = Ret (set_ndevs l (scard s)) /\ length l = 4%nat).
  { pose proof (co_ndevs _ _ _ _ _ _ _ Hc) as Hl. unfold xmit_stop.
    destruct (c_stop k); [|exists (ndevs (scard s)); split; [by destruct (scard s)|done]].
    destruct (lookup_lt_is_Some_2 (ndevs (scard s)) (Z.to_nat (bk_port (c_bk k)))) as [d Hd]; [lia|].
    rewrite (array_get_ok _ _ d) by (lia || done). cbn [mbind outcome_bind].
    rewrite array_set_ok by lia. eexists. split; [reflexivity|]. by rewrite length_insert. }
  destruct Hst as (l & -> & Hl). cbn [mbind outcome_bind].
  exists rd, base, txw, rrd, rbase, rxw. split; cbn; try done.
  - apply ndevs_ok; [done|done|]. intros _ Hnil. rewrite Hnil in Hlt. cbn in Hlt. lia.
  - apply Forall_insert; [done|]. by exists j.
  - rewrite list_fmap_insert. cbn. rewrite list_insert_id; [done|].
    by rewrite list_lookup_fmap, Hk.
Qed.

Lemma post_ok i s : sys_holds s -> step_good (sys_step (Post i) s).
Proof using.
  intros (rd & base & txw & rrd & rbase & rxw & [Hc Hw Hcalls Hnd Hord Hp Hi]).
  cbn [sys_step]. destruct (calls s !! i) as [[[] k]|] eqn:Hk; try done.
  pose proof (Forall_lookup_1 _ _ _ _ Hcalls Hk) as [j Hj]. cbn in Hj.
  destruct Hj as (f & Hf & Hst & Hci & Hcb & Hcw & Hport). unfold xmit_post.
  destruct (ring_write _ _ _ _ _ _ j f (co_tx _ _ _ _ _ _ _ Hc) Hf Hst) as (r & Hwr & Hr & _).
  rewrite Hci, Hcb, Hcw, Hwr. cbn [mbind outcome_bind].
  destruct (card_stage _ _ _ _ _ _ _ _ _ _ _ Hc Hf Hr) as [Hc' Hsame].
  exists rd, base, (<[j := set_stage Written f]> txw), rrd, rbase, rxw. split; cbn; try done.
  - by apply words_stage.
  - apply Forall_lookup. intros a x Ha. rewrite list_lookup_delete in Ha. case_decide as Hai.
    + destruct (Forall_lookup_1 _ _ _ _ Hcalls Ha) as [b Hb]. exists b. apply pending_stage; [done|].
      eapply (other_flight _ a i b j); eauto; [lia|]. by exists f.
    + destruct (Forall_lookup_1 _ _ _ _ Hcalls Ha) as [b Hb]. exists b. apply pending_stage; [done|].
      eapply (other_flight _ (S a) i b j); eauto; [lia|]. by exists f.
  - rewrite list_fmap_delete. eapply sublist_NoDup; [exact Hnd|apply sublist_delete].
  - by rewrite Hsame.
Qed.

Lemma take_tx_ok w s : sys_holds s -> step_good (sys_step (TakeTx w) s).
Proof using.
  intros (rd & base & txw & rrd & rbase & rxw & [Hc Hw Hcalls Hnd Hord Hp Hi]).
  cbn [sys_step]. destruct (hw_step w (tx (scard s))) as [r|] eqn:Hhw; [|done].
  destruct (tx_is_done w) eqn:Hdone; [|done].
  destruct (ring_hw _ _ _ _ _ _ w r (co_tx _ _ _ _ _ _ _ Hc) Hdone Hhw) as (j & f & Hf & Hst & Hr & _).
  destruct (card_stage _ _ _ _ _ _ _ _ _ _ _ Hc Hf Hr) as [Hc' Hsame].
  exists rd, base, (<[j := set_stage (Done w) f]> txw), rrd, rbase, rxw. split; cbn; try done.
  - by apply words_stage.
  - apply (Forall_impl _ _ _ Hcalls). intros x [i Hx]. exists i. apply pending_stage; [done|].
    intros ->. destruct Hx as (g & Hg & Hlock & _). congruence.
  - by rewrite Hsame.
Qed.

Lemma take_rx_ok w s : sys_holds s -> step_good (sys_step (TakeRx w) s).
Proof using.
  intros (rd & base & txw & rrd & rbase & rxw & [Hc Hw Hcalls Hnd Hord Hp Hi]).
  cbn [sys_step]. destruct (hw_step w (rx (scard s))) as [r|] eqn:Hhw; [|done].
  destruct (rx_is_done w) eqn:Hdone; [|done].
  destruct (ring_hw _ _ _ _ _ _ w r (co_rx _ _ _ _ _ _ _ Hc) Hdone Hhw) as (j & f & Hf & Hst & Hr & _).
  exists rd, base, txw, rrd, rbase, (<[j := set_stage (Done w) f]> rxw). split; cbn; try done.
  destruct Hc as [Htx Hrx Hpost Halive Hns Hlen Hstop].
  assert (Hsame : skb_of <$> <[j := set_stage (Done w) f]> rxw = skb_of <$> rxw).
  { rewrite list_fmap_insert. apply list_insert_id. by rewrite list_lookup_fmap, Hf. }
  split; cbn; try done.
  - by apply Forall_insert.
  - intros g Hg. apply (list_elem_of_fmap_2 skb_of) in Hg.
    rewrite fmap_app, Hsame, <- fmap_app in Hg. apply list_elem_of_fmap_1 in Hg as (h & -> & Hh).
    by apply Halive.
  - by rewrite fmap_app, Hsame, <- fmap_app.
Qed.

Lemma port_ok (g : ndev -> ndev) port s :
  (forall d, stopped (g d) = stopped d) -> 0 <= port < 4 -> sys_holds s ->
  exists c, (d ← array_get (ndevs (scard s)) port; l ← array_set (ndevs (scard s)) port (g d);
             Ret (set_ndevs l (scard s))) = Ret c /\ sys_holds (with_card c s).
Proof using.
  intros Hg Hport (rd & base & txw & rrd & rbase & rxw & [Hc Hw Hcalls Hnd Hord Hp Hi]).
  pose proof (co_ndevs _ _ _ _ _ _ _ Hc) as Hlen.
  destruct (lookup_lt_is_Some_2 (ndevs (scard s)) (Z.to_nat port)) as [d Hd]; [lia|].
  rewrite (array_get_ok _ _ d) by (lia || done). cbn [mbind outcome_bind].
  rewrite array_set_ok by lia. cbn [mbind outcome_bind]. eexists. split; [reflexivity|].
  exists rd, base, txw, rrd, rbase, rxw. split; cbn; try done.
  apply ndevs_ok; [done|by rewrite length_insert|]. intros H. apply (co_stopped _ _ _ _ _ _ _ Hc).
  rewrite Exists_exists in *. destruct H as (e & He & Hs). apply list_elem_of_lookup in He as [j Hj].
  destruct (decide (j = Z.to_nat port)) as [->|].
  - rewrite list_lookup_insert_eq in Hj by lia. injection Hj as <-. exists d. rewrite Hg in Hs.
    split; [by eapply list_elem_of_lookup_2|done].
  - rewrite list_lookup_insert_ne in Hj by congruence. exists e.
    split; [by eapply list_elem_of_lookup_2|done].
Qed.

Lemma next_polling_ok busy p : polling_ok p -> tcnt p <> 0 -> polling_ok (next_polling busy p).
Proof using.
  clear eth_type_trans. unfold polling_ok, next_polling. destruct p as [w t on]. cbn.
  intros Hp Ht. destruct Hp as [(-> & -> & ->) | [(Hw & Htc) | (_ & ?)]]; [destruct busy; cbn|..|lia].
  { right. left. by vm_compute. }
  { by right; right. }
  replace (on && negb (on && (0 <? w))) with false
    by (destruct on; [|done]; by destruct (Z.ltb_spec 0 w); [|lia]).
  destruct busy.
  - destruct (Z.ltb_spec t 10000).
    + destruct (Z.leb_spec (t + 1) 1); [lia|]. cbn. right. left. lia.
    + destruct (Z.leb_spec t 1); [lia|]. cbn. right. left. lia.
  - destruct (Z.leb_spec (t - 1) 1); cbn; [by left|]. right. left. lia.
Qed.

Lemma is_fresh_spec c alloc :
  is_fresh c alloc = true ->
  forall skb dma, alloc = Some (skb, dma) -> skbs c !! skb = None.
Proof using.
  clear eth_type_trans. intros H skb dma ->. cbn in H. unfold is_free in H.
  by destruct (skbs c !! skb).
Qed.

Lemma give_ok alloc s : sys_holds s -> step_good (sys_step (Give alloc) s).
Proof using.
  intros (rd & base & txw & rrd & rbase & rxw & [Hc Hw Hcalls Hnd Hord Hp Hi]).
  cbn [sys_step]. case_match eqn:Hfree; [|done].
  destruct (send_rx_spec _ _ _ _ _ _ _ alloc Hc (is_fresh_spec _ _ Hfree))
    as (ret & c' & rxw' & -> & Hc' & Hcase). cbn [mbind outcome_bind].
  assert (Hsame : sent c' = sent (scard s)
    /\ (tx_irq c', rx_irq c') = (tx_irq (scard s), rx_irq (scard s))).
  { destruct Hcase as [[_ ->] | (? & ? & ? & _ & _ & _ & _ & _ & ->)]; done. }
  destruct Hsame as [Hsent [= H1 H2]]. exists rd, base, txw, rrd, rbase, rxw'.
  split; cbn; try done; [by rewrite Hsent|]. by rewrite H1, H2.
Qed.

Lemma round_ok alloc s : sys_holds s -> step_good (sys_step (Round alloc) s).
Proof using.
  intros (rd & base & txw & rrd & rbase & rxw & [Hc Hw Hcalls Hnd Hord Hp Hi]).
  cbn [sys_step]. case_match eqn:Hfree; [|done]. set (p := if tcnt (poll s) =? 0 then _ else _).
  assert (Hpok : polling_ok p /\ tcnt p <> 0 /\ int_enabled p = int_enabled (poll s)).
  { unfold p. destruct (Z.eqb_spec (tcnt (poll s)) 0); [|done]. split; [by left|]. split; [done|].
    by destruct Hp as [(H & _) | [(_ & ?) | (H & _)]]; [symmetry|lia|symmetry]. }
  destruct Hpok as (Hpok & Ht & Hsame).
  pose proof (is_fresh_spec _ _ Hfree) as Hfresh.
  destruct (work_round_spec eth_type_trans alloc p _ _ _ _ _ _ _ Hc Hfresh)
    as (c' & base' & rrd' & rbase' & rxw' & -> & Hc' & Hsent & _ & _ & Hirq).
  cbn [mbind outcome_bind]. set (retired := if head_done txw then take 1 txw else []) in *.
  assert (Htd : retired ++ drop (length retired) txw = txw).
  { unfold retired. destruct (head_done txw); [|done]. by destruct txw. }
  exists ((rd + Z.of_nat (length retired)) mod 32), base', (drop (length retired) txw), rrd', rbase', rxw'.
  split; cbn; try done.
  - by apply Forall_drop.
  - apply (Forall_impl _ _ _ Hcalls). intros x [i Hx]. unfold retired.
    destruct (head_done txw) eqn:Hd.
    + replace (length (take 1 txw)) with 1%nat; [by apply (pending_pop rd txw x.2 i)|].
      by destruct txw.
    + exists i. cbn. rewrite Z.add_0_r, Z.mod_small; [done|].
      apply (ro_rd _ _ _ _ _ _ (co_tx _ _ _ _ _ _ _ Hc)).
  - rewrite Hsent, <- app_assoc, <- fmap_app, Htd. exact Hord.
  - by apply next_polling_ok.
  - apply Hirq; rewrite Hsame; apply Hi.
Qed.

Lemma step_ok e s : sys_holds s -> step_good (sys_step e s).
Proof using.
  intros Hs. destruct e;
    [by apply submit_ok|by apply stop_ok|by apply post_ok|by apply take_tx_ok
    |by apply take_rx_ok|by apply give_ok|by apply round_ok|..]; cbn [sys_step];
    (case_match eqn:Hport; [|done]); unfold nf10i_open, nf10i_stop;
    [destruct (port_ok (set_up true) port s) as (c & -> & Hc)
    |destruct (port_ok (set_up false) port s) as (c & -> & Hc)]; done || lia.
Qed.

Lemma run_ok es : forall s, sys_holds s -> step_good (sys_run es s).
Proof using.
  induction es as [|e es IH]; intros s Hs; cbn [sys_run]; [done|].
  pose proof (step_ok e s Hs) as Hstep. destruct (sys_step e s) as [s'| |]; cbn; auto.
Qed.

(** ** The lines of the flights *)

Lemma lines_at win : forall base i f,
  lines_ok base win -> win !! i = Some f ->
  f_line f = (base + total (take i win)) mod 512 /\ 0 <= bk_size (f_bk f).
Proof using.
  clear eth_type_trans. induction win as [|g win IH]; intros base [|i] f Hl Hf; cbn in *; try done.
  - injection Hf as ->. rewrite Z.add_0_r. tauto.
  - destruct Hl as (_ & _ & Hl). destruct (IH _ _ _ Hl Hf) as [-> H]. split; [|done].
    f_equal. lia.
Qed.

Lemma total_nonneg win : forall base, lines_ok base win -> 0 <= total win.
Proof using.
  clear eth_type_trans. induction win as [|f win IH]; intros base; cbn; [done|].
  intros (_ & Hs & Hl). specialize (IH _ Hl). lia.
Qed.

(** The flights before another one end before it begins. *)
Lemma total_before win : forall base i j f,
  lines_ok base win -> win !! i = Some f -> (i < j)%nat ->
  total (take i win) + bk_size (f_bk f) <= total (take j win) /\ 0 <= total (take i win)
  /\ total (take j win) <= total win.
Proof using.
  clear eth_type_trans. induction win as [|g win IH]; intros base i j f Hl Hf Hij; [done|].
  destruct j as [|j]; [lia|]. cbn in Hl. destruct Hl as (_ & Hs & Hl).
  destruct i as [|i]; cbn in Hf |- *.
  - injection Hf as ->. pose proof (total_nonneg _ _ Hl) as Hw.
    enough (0 <= total (take j win) <= total win) by lia.
    clear - Hl. revert Hl. generalize (base + bk_size (f_bk f)). revert j.
    induction win as [|h win IH]; intros [|j] b Hl; cbn in *; try lia.
    + destruct Hl as (_ & ? & Hl). pose proof (total_nonneg _ _ Hl). lia.
    + destruct Hl as (_ & ? & Hl). specialize (IH j _ Hl). lia.
  - destruct (IH _ i j f Hl Hf) as (H1 & H2 & H3); [lia|]. lia.
Qed.

(** The bytes of the card's buffer that a descriptor describes. *)
Definition describes (w : words) (x : Z) : Prop :=
  exists o, 0 <= o < Z.shiftr (fst w) 48 /\ x = (Z.land (fst w) 4294967295 + o) mod 32768.

Lemma flights_disjoint base win i j f g x :
  lines_ok base win -> total win <= 512 -> win !! i = Some f -> win !! j = Some g ->
  (i < j)%nat -> words_ok f -> words_ok g ->
  describes (f_words f) x -> describes (f_words g) x -> False.
Proof using.
  clear eth_type_trans. intros Hl Htot Hf Hg Hij (o1 & n1 & Ha1 & Hn1 & Ho1 & _ & Hs1)
    (o2 & n2 & Ha2 & Hn2 & Ho2 & _ & Hs2) (k1 & Hk1 & Hx1) (k2 & Hk2 & Hx2).
  rewrite Hn1 in Hk1. rewrite Hn2 in Hk2. rewrite Ha1 in Hx1. rewrite Ha2 in Hx2.
  destruct (lines_at _ _ _ _ Hl Hf) as [Hlf _], (lines_at _ _ _ _ Hl Hg) as [Hlg _].
  destruct (total_before _ _ _ _ _ Hl Hf Hij) as (H1 & H2 & _).
  destruct (total_before _ _ _ _ _ Hl Hg (Nat.lt_succ_diag_r j)) as (H3 & _ & H4).
  rewrite Hlf in Hx1. rewrite Hlg in Hx2. set (a := total (take i win)) in *.
  set (b := total (take j win)) in *. clear - H1 H2 H3 H4 Hx1 Hx2 Hk1 Hk2 Ho1 Ho2 Hs1 Hs2 Htot.
  divmod.
Qed.

(** Every slot of the card's ring is one of the window's. *)
Lemma dsc_flight r rd base win i w :
  ring_ok no_tx tx_is_done r rd base win -> dsc r !! i = Some (Some w) ->
  exists n f, win !! n = Some f /\ f_words f = w /\ i = Z.to_nat (slot rd (Z.of_nat n)).
Proof using.
  clear eth_type_trans. intros Hok Hi. apply lookup_lt_Some in Hi as Hlt.
  destruct (ro_lengths _ _ _ _ _ _ Hok) as (_ & Hl & _). rewrite Hl in Hlt.
  set (n := Z.to_nat ((Z.of_nat i - rd) mod 32)).
  assert (Hn : Z.of_nat n = (Z.of_nat i - rd) mod 32) by (unfold n; rewrite Z2Nat.id; divmod).
  assert (Hs : Z.to_nat (slot rd (Z.of_nat n)) = i) by (rewrite Hn; unfold slot; divmod).
  destruct (ro_cells _ _ _ _ _ _ Hok n) as (_ & Hd & _); [divmod|].
  rewrite Hs, Hi in Hd. destruct (win !! n) as [f|] eqn:Hf; [|done].
  exists n, f. split; [done|]. split; [|done]. cbn in Hd. destruct (f_stage f); congruence.
Qed.

(** ** Safety *)



(** ** The handler ends *)

(** The packets that are done are a prefix of the window. *)
Lemma head_done_unseen nothing doneP r rd base win :
  ring_ok nothing doneP r rd base win ->
  (unseen win <= 32)%nat /\ (head_done win = true <-> (0 < unseen win)%nat)
  /\ unseen (drop 1 win) = (unseen win - (if head_done win then 1 else 0))%nat.
Proof using.
  clear eth_type_trans. intros Hok. destruct (ro_hw _ _ _ _ _ _ Hok) as (n & _ & Ht & Hd & Hle).
  destruct (ro_cnt _ _ _ _ _ _ Hok) as [_ Hcap]. unfold unseen.
  assert (Hnone : forall l, Forall (fun f => is_done f = false) l ->
    filter (fun f => is_done f = true) l = []).
  { induction 1 as [|f l Hf _ IH]; [done|]. rewrite filter_cons_False by congruence. done. }
  split.
  { pose proof (length_filter (fun f => is_done f = true) win). lia. }
  destruct win as [|f win]; [cbn; split; [split; [done|lia]|done]|].
  cbn [head_done]. change (drop 1 (f :: win)) with win.
  destruct (is_done f) eqn:Hf.
  - rewrite filter_cons_True by done. cbn [length]. split; [split; [lia|done]|lia].
  - destruct n as [|n]; [|cbn in Ht; apply Forall_cons in Ht as [Ht _]; congruence].
    cbn in Hd. rewrite filter_cons_False by congruence. apply Forall_cons in Hd as [_ Hd].
    rewrite (Hnone win Hd). cbn. split; [split; [done|lia]|done].
Qed.

(** The allocations that the rounds with the indices below [n] make. *)
Definition fresh_allocs (n : nat) (alloc : nat -> option (Z * Z)) (c : card) : Prop :=
  forall i skb dma, (i < n)%nat -> alloc i = Some (skb, dma) ->
    skbs c !! skb = None /\ (forall j dma', (j < n)%nat -> alloc j = Some (skb, dma') -> i = j).

(** What is left to do: every round makes it smaller. *)
Definition work_left (p : polling) (txw rxw : list flight) : Z :=
  3 * Z.of_nat (unseen txw + unseen rxw) + tcnt p + (if 2 <=? tcnt p then 1 else 0).

Lemma work_left_decreases p txw rxw txw' rxw' (dt dr : bool) :
  polling_ok p -> tcnt p <> 0 ->
  (dt = true <-> (0 < unseen txw)%nat) -> (dr = true <-> (0 < unseen rxw)%nat) ->
  unseen txw' = (unseen txw - (if dt then 1 else 0))%nat ->
  unseen rxw' = (unseen rxw - (if dr then 1 else 0))%nat ->
  0 <= work_left (next_polling (dt || dr) p) txw' rxw' < work_left p txw rxw
  /\ (tcnt (next_polling (dt || dr) p) = 0 -> unseen txw' = 0%nat /\ unseen rxw' = 0%nat).
Proof using.
  clear eth_type_trans. intros Hp Ht Hdt Hdr Ht' Hr'. unfold work_left. rewrite Ht', Hr'.
  pose proof (next_polling_ok (dt || dr) p Hp Ht) as Hn.
  assert (Hcase : let t := tcnt (next_polling (dt || dr) p) in
    0 <= t /\ if dt || dr then 2 <= t /\ t <= tcnt p + 1 else
      tcnt p = 1 /\ t = 0 \/ tcnt p = 2 /\ t = 1 \/ 2 < tcnt p /\ t = tcnt p - 1).
  { clear Hn. unfold next_polling, polling_ok in *. destruct p as [w t on]. cbn in Hp, Ht |- *.
    destruct Hp as [(-> & -> & ->) | [(Hw & Htc) | (_ & ?)]]; [| |lia].
    - destruct (dt || dr); vm_compute; [done|by split; [|left]].
    - replace (on && negb (on && (0 <? w))) with false
        by (destruct on; [|done]; by destruct (Z.ltb_spec 0 w); [|lia]).
      destruct (dt || dr).
      + destruct (Z.ltb_spec t 10000);
          [destruct (Z.leb_spec (t + 1) 1)|destruct (Z.leb_spec t 1)]; cbn; lia.
      + destruct (Z.leb_spec (t - 1) 1); cbn; lia. }
  cbn zeta in Hcase. set (t := tcnt (next_polling _ _)) in *. destruct Hcase as [H0 Hcase].
  destruct (Z.leb_spec 2 t), (Z.leb_spec 2 (tcnt p)), dt, dr; cbn in Hcase; lia.
Qed.

Lemma work_loop_ends fuel : forall alloc p c rd base txw rrd rbase rxw,
  card_ok c rd base txw rrd rbase rxw -> polling_ok p ->
  tx_irq c = int_enabled p -> rx_irq c = int_enabled p ->
  (tcnt p = 0 -> unseen txw = 0%nat /\ unseen rxw = 0%nat) ->
  fresh_allocs fuel alloc c -> work_left p txw rxw < Z.of_nat fuel ->
  exists p' c' rd base txw rrd rbase rxw,
    work_loop eth_type_trans fuel alloc p c = Ret (p', c') /\ tcnt p' = 0
    /\ card_ok c' rd base txw rrd rbase rxw /\ unseen txw = 0%nat /\ unseen rxw = 0%nat
    /\ tx_irq c' = true /\ rx_irq c' = true.
Proof using.
  induction fuel as [|fuel IH]; intros alloc p c rd base txw rrd rbase rxw Hc Hp Hti Hri Hend Hfresh Hfuel.
  { exfalso. unfold work_left in Hfuel. destruct (Z.leb_spec 2 (tcnt p)); [lia|].
    destruct Hp as [(_ & _ & ?) | [(_ & ?) | (_ & ?)]]; lia. }
  cbn [work_loop]. destruct (Z.eqb_spec (tcnt p) 0) as [Ht|Ht].
  { exists p, c, rd, base, txw, rrd, rbase, rxw. destruct (Hend Ht). rewrite Hti, Hri.
    assert (int_enabled p = true) by (by destruct Hp as [(? & _) | [(_ & ?) | (? & _)]]; [|lia|]).
    done. }
  assert (Hal : forall skb dma, alloc fuel = Some (skb, dma) -> skbs c !! skb = None)
    by (intros skb dma Ha; by apply (Hfresh fuel skb dma); [lia|]).
  destruct (work_round_spec eth_type_trans (alloc fuel) p _ _ _ _ _ _ _ Hc Hal)
    as (c' & base' & rrd' & rbase' & rxw' & -> & Hc' & _ & Hu & Hk & Hirq). cbn [mbind outcome_bind].
  destruct (head_done_unseen _ _ _ _ _ _ (co_tx _ _ _ _ _ _ _ Hc)) as (_ & Hdt & Hut).
  destruct (head_done_unseen _ _ _ _ _ _ (co_rx _ _ _ _ _ _ _ Hc)) as (_ & Hdr & _).
  set (txw' := drop _ txw) in *.
  assert (Hut' : unseen txw' = (unseen txw - (if head_done txw then 1 else 0))%nat).
  { unfold txw'. destruct (head_done txw) eqn:Hd; [|by rewrite Nat.sub_0_r].
    rewrite <- Hut. by destruct txw. }
  destruct (work_left_decreases p txw rxw txw' rxw' _ _ Hp Ht Hdt Hdr Hut' Hu) as [Hdec Hz].
  eapply (IH alloc); eauto; [by apply next_polling_ok| | | |lia].
  - by apply Hirq.
  - by apply Hirq.
  - intros i skb dma Hi Ha. destruct (Hfresh i skb dma) as [Hn Hd]; [lia|done|]. split.
    + apply Hk; [done|]. intros dma' Ha'. specialize (Hd fuel dma' ltac:(lia) Ha'). lia.
    + intros j dma' Hj. apply Hd. lia.
Qed.

(** C27: Wherever the handler is, it ends if the card reports nothing more: after at
    most 10200 rounds it returns, with both interrupts on, and the completion lines
    that it would read next are empty, so that it has seen every completion. *)
Theorem work_handler_ends garbage mem es s fuel alloc :
  sys_run es (sys_init garbage mem) = Ret s ->
  fresh_allocs fuel alloc (scard s) -> 10200 <= Z.of_nat fuel ->
  exists p c w v,
    work_loop eth_type_trans fuel alloc
      (if tcnt (poll s) =? 0 then polling_init else poll s) (scard s) = Ret (p, c)
    /\ tx_irq c = true /\ rx_irq c = true
    /\ due (tx c) = Ret w /\ tx_is_done w = false
    /\ due (rx c) = Ret v /\ rx_is_done v = false.
Proof using.
  intros Hrun Hfresh Hfuel. pose proof (run_ok es (sys_init garbage mem)) as H.
  rewrite Hrun in H. destruct H as (rd & base & txw & rrd & rbase & rxw & [Hc _ _ _ _ Hp [Hti Hri]]);
    [do 6 eexists; apply sys_init_ok|].
  set (p := if _ =? 0 then _ else _).
  assert (Hpok : polling_ok p /\ tcnt p <> 0 /\ int_enabled p = int_enabled (poll s)
                 /\ tcnt p <= 10000).
  { unfold p. destruct (Z.eqb_spec (tcnt (poll s)) 0).
    - split; [by left|]. split; [done|]. split; [|done].
      by destruct Hp as [(H & _) | [(_ & ?) | (H & _)]]; [symmetry|lia|symmetry].
    - split; [done|]. split; [done|]. split; [done|]. unfold polling_ok in Hp. lia. }
  destruct Hpok as (Hpok & Ht & Hsame & Hmax). rewrite <- Hsame in Hti, Hri.
  destruct (head_done_unseen _ _ _ _ _ _ (co_tx _ _ _ _ _ _ _ Hc)) as (Hut & _).
  destruct (head_done_unseen _ _ _ _ _ _ (co_rx _ _ _ _ _ _ _ Hc)) as (Hur & _).
  destruct (work_loop_ends fuel alloc p _ _ _ _ _ _ _ Hc Hpok Hti Hri)
    as (p' & c' & rd' & base' & txw' & rrd' & rbase' & rxw' & Hl & _ & Hc' & Hz & Hzr & Hi & Hj);
    [done|done|unfold work_left; case_match; lia|].
  destruct (ring_due _ _ no_tx_idle _ _ _ _ (co_tx _ _ _ _ _ _ _ Hc')) as (w & Hw & Hdw).
  destruct (ring_due _ _ no_rx_idle _ _ _ _ (co_rx _ _ _ _ _ _ _ Hc')) as (v & Hv & Hdv).
  exists p', c', w, v. split; [done|]. split; [done|]. split; [done|]. split; [done|].
  destruct (head_done_unseen _ _ _ _ _ _ (co_tx _ _ _ _ _ _ _ Hc')) as (_ & Ht' & _).
  destruct (head_done_unseen _ _ _ _ _ _ (co_rx _ _ _ _ _ _ _ Hc')) as (_ & Hr' & _).
  fold (head_done txw') in Hdw. fold (head_done rxw') in Hdv. rewrite Hdw, Hdv.
  rewrite Hz in Ht'. rewrite Hzr in Hr'.
  destruct (head_done txw'), (head_done rxw'); (split; [|split]); try done; exfalso; lia.
Qed.

End System.

(** ** Runs *)

Definition garbage : bk := Bk 0 0 0 0.
Definition header_off (len : Z) : Z := len - 14.

(** Two packets whose descriptors are written in the other order, of which the card
    takes the first, and a packet that arrives. *)
Definition two_packets : list event :=
  [Give (Some (500, 8192)); Submit 1000 100 2 4103; Submit 1001 1514 3 20480; Stop 1; Post 1;
   Stop 0; Post 0; TakeTx 1; TakeRx (Z.shiftl 512 16 + 60)].

Definition run_from_probe (es : list event) : outcome sys :=
  sys_run header_off es (sys_init garbage ∅).

(** What a test looks at: the packets sent, those in memory and the counters. *)
Definition seen (o : outcome sys) : option (list Z * list Z * list Z * Z * Z) :=
  match o with
  | Ret s => Some (sent (scard s), (received (scard s)).*2, (map_to_list (skbs (scard s))).*1,
                   cnt (mem_dsc (tx (scard s))), cnt (mem_dsc (rx (scard s))))
  | _ => None
  end.

Example two_packets_run :
  seen (run_from_probe (two_packets ++ [Round (Some (501, 16384))])) = Some ([1000], [], [501; 1001], 1, 1)
  /\ seen (run_from_probe ([Open 0] ++ two_packets ++ [Round (Some (501, 16384)); TakeTx 1; Round None]))
     = Some ([1000; 1001], [500], [501], 0, 1).
Proof. split; vm_compute; reflexivity. Qed.

(** Both descriptors are in the card before it takes them, and each has its bytes. *)
Example two_descriptors :
  match run_from_probe (take 7 two_packets) with
  | Ret s => take 3 (dsc (tx (scard s)))
  | _ => []
  end = [Some (28165227296063495, 4103); Some (426224033239924928, 20480); None]
  /\ describes (28165227296063495, 4103) 7 /\ describes (426224033239924928, 20480) 192.
Proof.
  split; [vm_compute; reflexivity|].
  split; exists 0; (split; [|vm_compute; reflexivity]); vm_compute; by split.
Qed.

Lemma work_handler_ends_witness :
  exists s p c w v,
    run_from_probe two_packets = Ret s
    /\ work_loop header_off (Z.to_nat 10200)
         (fun n => if (n <? 5)%nat then Some (600 + Z.of_nat n, 4096) else None)
         (if tcnt (poll s) =? 0 then polling_init else poll s) (scard s) = Ret (p, c)
    /\ tx_irq c = true /\ rx_irq c = true
    /\ due (tx c) = Ret w /\ tx_is_done w = false
    /\ due (rx c) = Ret v /\ rx_is_done v = false.
Proof.
  destruct (run_from_probe two_packets) as [s| |] eqn:Hrun; [|vm_compute in Hrun; discriminate ..].
  destruct (work_handler_ends header_off garbage ∅ two_packets s (Z.to_nat 10200)
    (fun n => if (n <? 5)%nat then Some (600 + Z.of_nat n, 4096) else None) Hrun)
    as (p & c & w & v & H).
  - intros i skb dma _ Ha. destruct (Nat.ltb_spec i 5); [|done]. injection Ha as <- _. split.
    + vm_compute in Hrun. injection Hrun as <-. do 5 (destruct i; [reflexivity|]). lia.
    + intros j dma' _ Hj. destruct (Nat.ltb_spec j 5); [|done]. injection Hj as Hj _. lia.
  - lia.
  - exists s, p, c, w, v. split; [reflexivity|exact H].
Defined.

(** ** Defects *)

(** Packets of 60 bytes sent one after the other, and all taken by the card. *)
Fixpoint send_all (l : list Z) (c : card) : outcome card :=
  match l with
  | [] => Ret c
  | skb :: l =>
      '(_, c) ← nf10priv_xmit skb 0 (Some 4096) (set_skbs (<[skb := 60]> (skbs c)) c);
      send_all l c
  end.

Fixpoint take_all (n : nat) (c : card) : option card :=
  match n with
  | O => Some c
  | S n => match hw_step 1 (tx c) with Some r => take_all n (set_tx r c) | None => None end
  end.

Definition packets (n : nat) : list Z := map (fun i => 1000 + Z.of_nat i) (seq 0 n).

(** The handler gives back the place of a packet before it invalidates the
    completion line.  If the ring was full, a packet that is sent and completed in
    between uses the same line, and its completion is wiped out: its place is
    counted forever, the driver waits for that line, and it never sees another
    completion although the card has nothing left to do. *)
Definition lost : outcome card :=
  c ← send_all (packets 32) (nf10_probe garbage ∅);
  c ← load (take_all 32 c);
  '(index, c) ← tx_retire c;
  c ← send_all [2000] c;
  c ← load (take_all 1 c);
  c ← tx_restart index c;
  '(_, c) ← work_handler header_off 100 (fun _ => None) c;
  Ret c.

Theorem completion_lost :
  match lost with
  | Ret c =>
      sent c = packets 32 /\ skbs c !! 2000 = Some 60 /\ cnt (mem_dsc (tx c)) = 1
      /\ due (tx c) = Ret no_tx /\ Forall (fun d => d = None) (dsc (tx c))
  | _ => False
  end.
Proof. vm_compute. repeat split. repeat constructor. Qed.

(** After a mapping error the place that was taken is neither written nor given
    back: the card waits for it and takes none of the next 31 packets. *)
Definition after_dma_error : outcome card :=
  '(_, c) ← nf10priv_xmit 900 0 None (set_skbs {[900 := 60]} (nf10_probe garbage ∅));
  send_all (packets 31) c.

Theorem dma_error_stalls :
  match after_dma_error with
  | Ret c => cnt (mem_dsc (tx c)) = 31 /\ hw_step 1 (tx c) = None
  | _ => False
  end.
Proof. vm_compute. split; reflexivity. Qed.

(** [nf10i_tx] reads the length of a packet that the handler may have freed. *)
Definition stats_late : outcome card :=
  '(_, c) ← nf10priv_xmit 900 0 (Some 4096) (set_skbs {[900 := 60]} (nf10_probe garbage ∅));
  c ← load (take_all 1 c);
  c ← tx_done c;
  tx_stats 900 0 c.

Theorem tx_stats_after_free : stats_late = Undef.
Proof. vm_compute. reflexivity. Qed.

(** A packet that is too short stays in memory, although no ring has it any more. *)
Theorem rx_leak :
  seen (run_from_probe [Give (Some (500, 8192)); TakeRx (Z.shiftl 512 16 + 59); Round None])
  = Some ([], [], [500], 0, 0).
Proof. vm_compute. reflexivity. Qed.

(** An allocation that fails is not made up for: every failure leaves the card with
    one receive buffer less, and 21 failures with none. *)
Definition no_rx_left : list event :=
  map (fun i => Give (Some (500 + Z.of_nat i, 8192))) (seq 0 30)
  ++ concat (replicate 21 [TakeRx (Z.shiftl 512 16 + 60); Round None]).

Definition rx_idle (r : ring) : bool :=
  match dsc r !! Z.to_nat (hw r), due r with
  | Some None, Ret v => negb (rx_is_done v)
  | _, _ => false
  end.

Example no_rx_left_idle :
  match run_from_probe no_rx_left with Ret s => rx_idle (rx (scard s)) | _ => false end = true.
Proof. vm_compute. reflexivity. Qed.

Definition is_give (e : event) : bool := match e with Give _ => true | _ => false end.

Lemma bind_returns {A B} (o : outcome A) (f : A -> outcome B) b :
  (o ≫= f) = Ret b -> exists a, o = Ret a /\ f a = Ret b.
Proof. destruct o as [a| |]; [by exists a|done|done]. Qed.

(** Inverts the binds and tests of the computations that returned. *)
Ltac returned :=
  repeat match goal with
  | H : Blocked = Ret _ |- _ => discriminate H
  | H : Undef = Ret _ |- _ => discriminate H
  | H : Ret _ = Ret _ |- _ => progress simplify_eq/=
  | H : (_ ≫= _) = Ret _ |- _ => apply bind_returns in H as (? & ? & H)
  | H : (let '(_, _) := ?a in _) = Ret _ |- _ => destruct a
  | H : (if ?b then _ else _) = Ret _ |- _ => destruct b eqn:?
  | H : match ?o with Some _ => _ | None => _ end = Ret _ |- _ => destruct o eqn:?
  end.

Lemma xmit_lock_rx skb port dma c ret k c' :
  xmit_lock skb port dma c = Ret (ret, k, c') -> rx c' = rx c.
Proof. unfold xmit_lock. intros H. returned; done. Qed.

Lemma xmit_stop_rx k c c' : xmit_stop k c = Ret c' -> rx c' = rx c.
Proof. unfold xmit_stop. intros H. returned; done. Qed.

Lemma tx_done_rx c c' : tx_done c = Ret c' -> rx c' = rx c.
Proof.
  unfold tx_done, tx_retire, tx_restart, free_skb. destruct (move_on (tx c)) as [i r].
  intros H. returned. by case_match.
Qed.

Lemma rx_idle_round eth alloc p c p' c' :
  rx_idle (rx c) = true -> work_round eth alloc p c = Ret (p', c') -> rx c' = rx c.
Proof.
  unfold rx_idle, work_round. intros Hidle H.
  destruct (dsc (rx c) !! _) as [[]|]; [done| |done].
  destruct (due (rx c)) as [v| |] eqn:Hv; [|done|done].
  set (c0 := if _ && _ then set_irqs false c else c) in H.
  assert (Hrx : rx c0 = rx c) by (unfold c0; by destruct (_ && _)). rewrite Hrx, Hv in H.
  apply bind_returns in H as (w & _ & H). cbn [mbind outcome_bind] in H.
  destruct (rx_is_done v); [done|]. apply bind_returns in H as (c1 & Hc1 & H).
  assert (H1 : rx c1 = rx c).
  { destruct (tx_is_done w); [rewrite <- Hrx; by apply tx_done_rx|by injection Hc1 as <-]. }
  cbn [mbind outcome_bind] in H. case_match; by injection H as _ <-.
Qed.

Lemma rx_idle_step eth e s s' :
  is_give e = false -> rx_idle (rx (scard s)) = true -> sys_step eth e s = Ret s' ->
  rx (scard s') = rx (scard s).
Proof.
  intros He Hidle H. destruct e; cbn [sys_step] in H; try done.
  - case_match; [|done]. apply bind_returns in H as ([[ret k] c] & Hx & H).
    apply xmit_lock_rx in Hx. destruct k; [by injection H as <-|].
    unfold free_skb in H. returned. exact Hx.
  - destruct (calls s !! i) as [[[] k]|]; try done.
    apply bind_returns in H as (c & Hx & H). injection H as <-. by apply xmit_stop_rx in Hx.
  - unfold xmit_post in H. destruct (calls s !! i) as [[[] k]|]; try done. by returned.
  - returned. done.
  - unfold hw_step, rx_idle in *. destruct (dsc _ !! _) as [[]|]; done.
  - case_match; [|done]. apply bind_returns in H as ([p c] & Hx & H). injection H as <-.
    by apply rx_idle_round in Hx.
  - unfold nf10i_open in H. by returned.
  - unfold nf10i_stop in H. by returned.
Qed.

(** An allocation that fails is not made up for: once no buffer is left, nothing but
    the probe gives the card another one, and no packet is received any more. *)
Theorem rx_starves eth es : forall s s',
  Forall (fun e => is_give e = false) es -> rx_idle (rx (scard s)) = true ->
  sys_run eth es s = Ret s' -> rx (scard s') = rx (scard s).
Proof.
  induction es as [|e es IH]; intros s s' Hes Hidle H; cbn [sys_run] in H.
  - by injection H as <-.
  - apply bind_returns in H as (s1 & Hs & H). apply Forall_cons in Hes as [He Hes].
    pose proof (rx_idle_step _ _ _ _ He Hidle Hs) as H1.
    rewrite <- H1. apply IH; [done|by rewrite H1|done].
Qed.

(** ** Register writes *)

(** The tests of the status word negate bits with [~] instead of [!], so that every
    word counts as not almost full: a write is never refused, and goes out also
    when the card says that its buffer is full. *)
Theorem axi_never_full arg val val' n :
  exists n' polls, n' <= 64
    /\ nf10fops_ioctl (WRITE_REG arg) val val' n = (0, n', polls ++ [RegWrite 128 arg]).
Proof.
  unfold nf10fops_ioctl. destruct (Z.ltb_spec n 64).
  { exists (n + 1), []. destruct (Z.leb_spec (n + 1) 64); [done|lia]. }
  assert (Hc : axi_count val = Some 1 \/ axi_count val = Some 49).
  { unfold axi_count. case_match; [by left|]. right.
    assert (Hbit : Z.land val 2 = 0 \/ Z.land val 2 = 2).
    { replace (Z.land val 2) with (Z.land (val mod 2 ^ 2) 2)
        by (rewrite <- land_ones_mod, <- Z.land_assoc by lia; done).
      assert (Hm : 0 <= val mod 2 ^ 2 < 4) by divmod.
      assert (H4 : val mod 2 ^ 2 = 0 \/ val mod 2 ^ 2 = 1 \/ val mod 2 ^ 2 = 2
                   \/ val mod 2 ^ 2 = 3) by lia.
      destruct H4 as [-> | [-> | [-> | ->]]]; by auto. }
    by destruct Hbit as [-> | ->]. }
  destruct Hc as [-> | ->]; eexists _, [RegRead 130]; (split; [|reflexivity]); done.
Qed.
